(* ===== verification/_CoqProject ===== *)
-Q . S2P
Prelude.v
Prog.v
Text.v
Net.v
Vendor.v
VendorRef.v
Data.v
Ffi.v
Env.v
Lwip.v
Handoff.v
Pbuf.v
Tcp.v
Udp.v
Fs.v
UsbStick.v
Http.v
Request.v
Rng.v
Messages.v
Observe.v
Wire.v
Upload.v
Owns.v
Put.v
Deliver.v
Transfer.v
Stick.v
Marlin.v
Receiver.v
Ledger.v
Turn.v
Ring.v
Network.v
Circulate.v
Provenance.v
Mutex.v
Main.v
Tasks.v
State.v
Rtos.v
Device.v
Monitor.v
Sections.v
Critical.v
Peers.v
Queues.v
Progress.v
Files.v
Offers.v
Rely.v
Conn.v
Serve.v
Courier.v
Journey.v
Starved.v
