(* ===== verification/Prelude.v ===== *)
(** * Derusting: a verification library for the decentralised printer firmware

    Derusting is a [no_std] Rust crate linked into the Prusa Buddy firmware.  It makes
    printers on one network share their jobs.  This library translates the crate, file by file,
    into executable Rocq definitions and proves what each part does.

    ** The program and its parts

    - [derusting_main] ([src/src/lib.rs]) creates one FreeRTOS task, [embassy], which cleans
      the USB stick and runs an Embassy executor on top of FreeRTOS
      ([src/src/free_rtos/]).  Its first task, [embassy_main], binds a UDP socket and a
      TCP port and spawns the six others.
    - [tcp_worker] ([tasks/tcp.rs]) serves one TCP connection after the other: GET
      answers with an upload form, PUT stores a G-code file on the stick.  A new file gets a
      fresh UUID, is put on the ledger or announced by UDP, and queued for [distribute_file],
      which sends it to every known machine ([lwip/put.rs]).
    - [udp_receiver], [heartbeat] and [address_book_lifetime_check] ([tasks/udp.rs])
      maintain the address book and take up announced jobs and ledgers
      ([tasks/messages.rs], [kinds.rs]).
    - [manage_ledger] ([tasks/udp.rs]) passes the ledger around as a token: only its
      owner may print, through Marlin ([marlin.rs]).
    - Below them, [lwip/] wraps lwIP's raw API, and [fs.rs] the C library and FatFs.

    The tasks share the address book and the ledger, behind two asynchronous mutexes, a queue
    of files to distribute, the UDP socket and the listener.  lwIP's callbacks run on
    its own thread and talk to the tasks through channels, a signal and atomic pointers.

    ** How the program is modelled

    A function that calls anything outside the crate becomes a [prog] ([Prog.v]): a tree
    of calls whose answers are not fixed.  [exec p tr o] relates a program to each trace
    [tr] of calls and answers and to the outcome [o]: a value, a panic, or the end of the fuel of
    a loop.  Theorems that quantify over [tr] hold for every behaviour of lwIP, the stick,
    the printer and the other tasks: wherever the code can be preempted or interleaved with
    another task or a callback, what that one did shows in the answer to the next
    call (a mutex, when locked, answers with its current content; a channel with its next
    item; an atomic pointer with its present value).  [run h p s] computes a program in a concrete
    environment, for the examples.

    Pure code becomes plain functions.  Integers are [Z] with their width written out
    ([wrap], [saturating_sub], [wrapping_sub] of this file); bytes and characters are [Z] as well,
    and [Text.v] and [Net.v] model what the code uses of [str], [slice] and [Ipv4Addr].
    [Drop] is a call placed where Rust drops the value.  An instant is a number of ticks, a tick
    a millisecond, as the time driver is configured.

    The crates [uuid] and [heapless] are parameters: the class [Vendor], with
    their documented behaviour in [VendorLaws] ([Vendor.v]); [VendorRef.v] is an instance that
    satisfies them, in which the examples are evaluated.  The [postcard] encoding is the class
    parameter [Serialize] ([Pbuf.v]) and [Deserialize] ([Wire.v]), with the laws [WireLaws], which an
    encoding of its own satisfies for the examples.

    ** The files

    - [Prelude.v], [Prog.v], [Text.v], [Net.v]: results, machine integers, lists; programs and
      their traces, with the predicates [total] (ends, without a panic), [no_panic],
      [always] and [no_emit] and their lemmas; the standard library.
    - [Vendor.v], [VendorRef.v]: third-party crates.
    - [Data.v]: messages, ledger, error codes and pbufs ([tasks/messages.rs],
      [kinds.rs], [lwip/bindings.rs], [fs.rs]).  A pbuf chain is the list of its nodes.
    - [Ffi.v]: every foreign call, as an inductive type per library; [Env.v]: an environment
      that answers them.
    - [Lwip.v] ([lwip/mod.rs]): [my_ipaddr], [async_lwip], [blocking_lwip], and [locked l p l'],
      the type of programs that keep to lwIP's locking rules.  [Handoff.v]: how [async_lwip] hands its closure to lwIP's thread.
    - [Pbuf.v] ([lwip/packet_buffer.rs]), [Tcp.v] ([lwip/tcp.rs]), [Udp.v] ([lwip/udp.rs]),
      [Put.v] ([lwip/put.rs]): the wrappers, their callbacks ([connection_recv] for
      [TcpConnection::_recv], and so on) and their drops.  [Deliver.v]: when a transfer gets to its end.
      [Starved.v]: when it waits for ever.
    - [Fs.v], [UsbStick.v] ([fs.rs]): files, and the clean-up against an abstract stick whose directory search and whose
      deletions may fail.
    - [Http.v] ([http.rs]), [Request.v], [Upload.v], [Transfer.v] ([tasks/tcp.rs]): responses,
      parsing, [handle_conn], distribution and both ends of a transfer.  [Stick.v]: what an upload
      leaves on the stick, against the interface [FileStore], which a finite map implements.
    - [Rng.v] ([tasks/rng.rs]), [Messages.v] ([tasks/messages.rs], [kinds.rs]).
    - [Wire.v]: the datagrams that leave a machine, and what arrives of them.
    - [Receiver.v], [Ledger.v], [Turn.v], [Ring.v] ([tasks/udp.rs]): the UDP tasks, a turn of
      [manage_ledger], all that it asks and does in order, and the ring that the choice of the next owner makes.
    - [Network.v]: machines on a network, as a step relation whose steps run the code, and the
      token it implements.  [Provenance.v]: the same with every turn allowed, and where jobs come from.
      [Circulate.v]: rounds of such steps, in which the ledger goes round and is worked off.
    - [Marlin.v] ([marlin.rs], [log.rs]), [Main.v] ([lib.rs]), [Rtos.v] ([free_rtos/] and
      [derusting_main]).
    - [Observe.v], [Owns.v], [Mutex.v]: what a trace says about files, packets and responses;
      ownership of pbufs; the order in which mutexes are taken.
    - [State.v] ([lib.rs], [kinds.rs]): [DerustingState] and what the runtime's calls do to it.
    - [Tasks.v]: the six tasks as loops and the system they form with the two mutexes.
    - [Device.v]: the running machine, that system next to lwIP's thread on the [DerustingState] of
      [State.v]; a scheduler runs it in the examples.  [Monitor.v]: automata that watch the calls of one task, with a
      rule for each construct.  [Sections.v]: what the tasks do before and while they hold a mutex, of which [Critical.v] is the
      instance for the ledger and [Peers.v] the one for the address book.
      [Queues.v]: the three channels from what lwIP brings to what the tasks do with it, and the buffers of the datagrams.  [Progress.v]: what a task that cannot go on waits for.
      [Offers.v]: what the file distributor does with the uploads.  [Files.v]: the files on the stick.
    - [Rely.v], [Conn.v], [Serve.v]: programs interleaved with an environment, with a rule for
      each construct; the world of one TCP connection, its struct, its pcb and lwIP's thread; and
      the TCP worker in it.  [Courier.v], [Journey.v]: the same for a [PutRequest].

    A task that loops for ever is a [.._step], one turn of its loop; what it keeps between turns
    (the receiver's history, [observed_ownership]) is its argument and its result.  In [Tasks.v] the
    task is the loop itself, with its local variables.

    ** Interleaving

    Several models go beyond arbitrary answers.  In [Tasks.v] the executor may switch between the
    tasks at every call, and a lock that is held makes a task wait.  In [Device.v] lwIP may also make a callback, or
    go on with one, between any two calls, and a call that concerns the state answers and changes it
    as [state_step] says; what the other calls answer is free, and so are the
    arguments of the callbacks.  In [Network.v], [Circulate.v] and
    [Provenance.v] a step is a whole turn of a machine: the mutexes make registers of the book and the ledger
    ([mutexes_atomic]), and the sections of the ledger's mutex are those of these steps ([ledger_history]).
    [Files.v] adds the stick: a call on it has the effect its answer says ([disk_do]), handles in
    use are not given out again, and [rename] does not replace a file.
    There the network loses, delays and reorders datagrams.  In [Conn.v] the step of lwIP's thread is a whole
    callback, as it runs with the core lock, and it takes place before any call of the worker while that lock
    is free; a call has an effect on the pcb and the channel, and a call that would be
    undefined behaviour (without the lock, or on a freed pcb) is [misuse].  What lwIP does there is its documented
    behaviour: it calls only registered callbacks, with the registered argument, none after the pcb was
    closed or died.  The same address is not given to a second connection while the first is served.
    [Handoff.v] has what lies between a task and lwIP's thread, the queue of callbacks and the contexts on the tasks' stacks,
    and shows that everywhere else [async_lwip] may run its closure in place.
    [Courier.v] is like [Conn.v] for the task that sends a file, whose callbacks change the request itself: the
    history of the world records them, and they are a run of [put_run] of [Put.v].

    ** What is shown

    - Uploads: [handle_conn_spec] states all a connection does to the stick and to its peer as a
      relation on the packets received; [handle_conn_total] that it ends without a panic;
      [upload_stored] what is on the stick afterwards.
    - Connections: [connection_safe] (no misuse of lwIP and no dangling callback argument in
      any interleaving, if the pcb does not die before its error callback is registered;
      [early_death_misused] shows that this is needed), [connection_serves] (under the same condition, the packets served are the
      first of those that lwIP delivered and saw accepted, and the outcome is that of [handle_conn_spec]), [receive_stuck_iff]
      and [worker_hangs] (exactly when the worker waits for ever, and two ways to get there).
    - Transfers: [put_stream] (no byte lost, repeated or reordered by the sender, for every
      sequence of callbacks), [put_completes] (enough acknowledgements send everything),
      [put_unsent_waits] (and when none can come, next to lwIP's thread), [transfer_safe] (the sender next to lwIP's thread, and the pcb it
      leaks when [tcp_connect] is refused), [transfer_reports] (its result), [transfer_accepted], [transfer_end_to_end] and [job_replicated]
      (the receiver's file is the sender's).
    - The ledger: [manage_turn] states one turn exactly, with every question to the printer and the stick and every broadcast; [token_refinement] that the machines
      together implement a single token, [printed_once] that a job is not printed twice (both as long as no ledger is taken over or
      created),
      [ring_visits] and [ledger_circulates] that the token reaches every machine, [ledger_drains] that every
      job gets printed;
      [append_effect] what becomes of an upload; [jobs_come_from_uploads] that no job appears
      otherwise, even with several ledgers; [takeover_needs_self] a limit of the recovery.
    - Messages: [broadcast_understood], [repeats_ignored], [message_effect], [lifetime_check_prunes].
    - The running machine: [mutexes_atomic] (each mutex makes its value an atomic register),
      [ledger_history] and [book_history] (the sections that the ledger and the address book go through, the receiver's with the
      message it has just read), [job_stays] (a job leaves the ledger only at a moment at which it was printed
      or replaced by the ledger of a message), [peer_stays] (a machine is forgotten only at a moment at which it has been silent
      for twenty seconds), [stored_complete] (a file under a final name is a whole upload and stays so),
      [printed_complete] (Marlin is told to print no other), [queues_in_order] (each callback offers what it brings once, the channels lose, repeat and reorder nothing, the tasks
      use each item they take once),
      [uploads_offered] (every upload is offered to every machine that is known),
      [datagrams_freed] (each datagram's buffer goes back to lwIP once).
    - Resources: [tcp_worker_frees], [udp_socket_recv_releases] (no pbuf leaked or freed twice),
      [receive_window], [tcp_worker_locked], [put_file_locked] (lwIP's lock); [handoff_refines] ([async_lwip] with its context,
      lwIP's queue and its thread is the program that runs the closure in place; [abandoned_dangles]: unless its future is dropped);
      [udp_receiver_reads_freed] and
      [connection_recv_refused] show where the code does use a freed pbuf.
    - Tasks: [tasks_safe] (lwIP's lock, and no panic, in every turn of every task), [mutexes_ordered] (the mutexes are
      taken in one order, and nobody waits for another party with one), [never_stuck] (no task of the running machine is ever stuck).
    - Parsing: [split_request_iff], [check_start_line_ok], [put_header_fields], and
      [responses_framed].
    - Start-up: [clean_usb_deletes] (all the job files, or as far as the stick lets it), with [clean_usb_stuck] and [clean_usb_panics] for
      the names it cannot handle, [embassy_main_spawns], [boot_state] (the shared state when the
      first task runs), [unassigned_address_accepted].
    - Machine: [now_is_time], [clock_monotone], [wait_is_exact] (the 32-bit tick counter and the 64-bit clock),
      [pender_notifies], [executor_polls], [static_stack_fits], [getrandom_fills], [print_sends], [log_terminated].

    ** Fuel

    A loop that has no structural bound takes fuel, and running out of it is an outcome of its own.
    [handle_conn]: one unit per packet of the body; a million, the largest body
    accepted, is enough when no packet is empty ([handle_conn_total]).  [drop_connection]: its
    drain has 13, one more than the channel holds.  [clean_usb]: more than the number of matching
    files ([clean_usb_deletes]).  The random source: the bytes asked for and the number of busy
    answers ([getrandom_fills]).  [wait_address] and [drop_listener] take any fuel: the
    wait is unbounded in the code, and the listener is static and never dropped.  The tasks of [Tasks.v] and
    [Device.v] take any fuel, as their theorems are about every state they reach, but for [tasks_safe] and
    [never_stuck], where a million keeps the worker from running out as long as no packet is empty.

    ** What is assumed

    Most theorems assume nothing of the environment but the laws of the crates.  [ledger_circulates] and [ledger_drains] are about
    rounds: between two turns of its owner the ledger is not overheard missing for 45 seconds, so that
    nobody takes it over, the datagram that announces the next owner is received, and every
    address book holds the other machines; [ledger_drains] asks moreover that each owner's printer is
    ready and accepts the job it is sent, and that no jobs are added.  In both, no stale copy of a ledger reaches the machine that has it or the next.  [stored_complete] and [printed_complete] assume that
    the start-up left no jobs on the stick and that no write fell short: the code does not look at what
    [fwrite] answers, so a full stick makes truncated files.

    ** What is not modelled

    The Embassy runtime, lwIP, FatFs, Marlin and FreeRTOS themselves (their answers are
    arbitrary, or what [FileStore], [state_step] and [lwip_thread] say of them).  Reads of memory through
    stale pointers, but for [slice_read], the payload that [udp_receiver] reads after its pbuf was freed.
    The calls of the logging macros, which only produce text, within other functions.  The panic handler, which
    aborts: a panic is the outcome [Panicked].  The casts that turn an object into the
    callback argument: the objects have names ([obj] of [Ffi.v]) instead. *)

From Stdlib Require Export ZArith Lia.
From Stdlib Require Import Ascii String.
From stdpp Require Export base tactics list numbers option gmap.

Export String.StringSyntax.
#[global] Open Scope Z_scope.

Declare Scope rust_scope.
Delimit Scope rust_scope with rust.
#[global] Open Scope rust_scope.

(** ** Results *)

(** Rust's [Result<A, E>]. *)
Inductive result (A E : Type) : Type :=
  | Ok (a : A)
  | Err (e : E).
Arguments Ok {A E} a.
Arguments Err {A E} e.

#[export] Instance result_eq_dec {A E} `{EqDecision A, EqDecision E} : EqDecision (result A E).
Proof. solve_decision. Defined.

Definition is_ok {A E} (r : result A E) : bool :=
  match r with Ok _ => true | Err _ => false end.

Definition is_err {A E} (r : result A E) : bool := negb (is_ok r).

(** [Result::ok]. *)
Definition result_ok {A E} (r : result A E) : option A :=
  match r with Ok a => Some a | Err _ => None end.

(** ** Machine integers

    An unsigned [w]-bit integer is a [Z]; the operations that can leave the
    range say how they come back into it. *)

Definition wrap (w z : Z) : Z := z mod 2 ^ w.
Definition fits (w z : Z) : Prop := 0 <= z < 2 ^ w.

Definition u8_max : Z := 255.
Definition u16_max : Z := 65535.
Definition u32_max : Z := 4294967295.
Definition u64_max : Z := 18446744073709551615.

(** [usize] of the 32-bit Cortex-M target. *)
Definition usize_max : Z := u32_max.

Definition saturating_sub (a b : Z) : Z := Z.max 0 (a - b).
Definition wrapping_sub (w a b : Z) : Z := wrap w (a - b).

Lemma wrap_fits w z : 0 <= w -> fits w (wrap w z).
Proof. intros Hw. apply Z.mod_pos_bound. now apply Z.pow_pos_nonneg. Qed.

Lemma wrap_small w z : fits w z -> wrap w z = z.
Proof. intros H. now apply Z.mod_small. Qed.

Lemma saturating_sub_le a b : 0 <= b -> 0 <= a -> saturating_sub a b <= a.
Proof. unfold saturating_sub. lia. Qed.

Lemma saturating_sub_0 a : 0 <= a -> saturating_sub a 0 = a.
Proof. unfold saturating_sub. lia. Qed.

(** ** Bytes and characters

    A byte is a [Z] in [0, 256) and a [char] the [Z] of its code point, so an
    ASCII literal is the same list read as bytes or as characters. *)

Abbreviation bytes := (list Z) (only parsing).
Abbreviation str := (list Z) (only parsing).

Definition is_byte (b : Z) : Prop := 0 <= b < 256.
Definition is_ascii (b : Z) : Prop := 0 <= b < 128.

Definition lit (s : string) : list Z := (fun a => Z.of_N (N_of_ascii a)) <$> list_ascii_of_string s.

Arguments lit s%_string_scope : simpl never.

(** [slice::len], as the [usize] it is. *)
Definition len {A} (l : list A) : Z := Z.of_nat (length l).

(** [&l[..n]] and [&l[n..]] for an index the code has bounded. *)
Definition ztake {A} (n : Z) (l : list A) : list A := take (Z.to_nat n) l.
Definition zdrop {A} (n : Z) (l : list A) : list A := drop (Z.to_nat n) l.

Arguments ztake : simpl never.
Arguments zdrop : simpl never.
Arguments len : simpl never.

Definition starts_with (l p : list Z) : bool := bool_decide (take (length p) l = p).

Lemma len_nonneg {A} (l : list A) : 0 <= len l.
Proof. unfold len. lia. Qed.

Lemma len_app {A} (l k : list A) : len (l ++ k) = len l + len k.
Proof. unfold len. rewrite length_app. lia. Qed.

Lemma len_nil {A} : len (@nil A) = 0.
Proof. reflexivity. Qed.

Lemma len_cons {A} (x : A) l : len (x :: l) = 1 + len l.
Proof. unfold len. cbn [length]. lia. Qed.

Lemma len_ztake {A} n (l : list A) : 0 <= n -> len (ztake n l) = Z.min n (len l).
Proof. unfold len, ztake. rewrite length_take. lia. Qed.

Lemma len_zdrop {A} n (l : list A) : 0 <= n -> len (zdrop n l) = Z.max 0 (len l - n).
Proof. unfold len, zdrop. rewrite length_drop. lia. Qed.

Lemma ztake_zdrop {A} n (l : list A) : ztake n l ++ zdrop n l = l.
Proof. apply take_drop. Qed.

Lemma ztake_ge {A} n (l : list A) : len l <= n -> ztake n l = l.
Proof. unfold len, ztake. intros. apply take_ge. lia. Qed.

Lemma ztake_0 {A} (l : list A) : ztake 0 l = [].
Proof. reflexivity. Qed.

Lemma ztake_nil {A} n : ztake n (@nil A) = [].
Proof. unfold ztake. apply take_nil. Qed.

(** Taking [n] of [l ++ k] takes from [l] first; what is left comes from [k]. *)
Lemma ztake_app {A} n (l k : list A) :
  0 <= n -> ztake n (l ++ k) = ztake (Z.min n (len l)) l ++ ztake (saturating_sub n (Z.min n (len l))) k.
Proof.
  intros Hn. unfold ztake, len, saturating_sub. rewrite take_app.
  f_equal.
  - destruct (decide (n <= Z.of_nat (length l))).
    + f_equal. lia.
    + rewrite !take_ge by lia. done.
  - f_equal. lia.
Qed.

Lemma starts_with_true l p : starts_with l p = true <-> exists r, l = p ++ r.
Proof.
  unfold starts_with. rewrite bool_decide_eq_true. split.
  - intros H. exists (drop (length p) l). rewrite <- H at 1. by rewrite take_drop.
  - intros [r ->]. by rewrite take_app_length.
Qed.

(** ** Automation of the library *)

Create HintDb derust.
Create Rewrite HintDb derust.
#[export] Hint Resolve len_nonneg wrap_fits saturating_sub_le : derust.
#[export] Hint Rewrite @len_app @len_nil @len_cons @ztake_nil @ztake_0 : derust.

(** Breaks a hypothesis made of conjunctions and existentials, substituting the
    equations it meets. *)
Ltac break :=
  repeat match goal with
    | H : _ /\ _ |- _ => destruct H
    | H : exists _, _ |- _ => destruct H
    end; simplify_eq/=.
