(* ===== verification/Prog.v ===== *)
(** * Programs that call code outside the crate

    A handler of the firmware is modelled by the calls it makes.  [prog E A] is
    a program that returns an [A], whose foreign calls are described by [E]: a
    constructor of [E X] is a call whose answer has type [X].  The answers are
    not modelled here: [exec p tr o] relates a program to every trace of calls
    and answers, and [run h p s] computes it against one environment [h]. *)

From S2P Require Import Prelude.

(** A panic aborts the firmware ([panic.rs]); [OutOfFuel] marks a loop that was
    cut short by the model. *)
Inductive outcome (A : Type) : Type :=
  | Done (a : A)
  | Panicked
  | OutOfFuel.
Arguments Done {A} a.
Arguments Panicked {A}.
Arguments OutOfFuel {A}.

Inductive prog (E : Type -> Type) (A : Type) : Type :=
  | Ret (a : A)
  | Panic
  | Fuel
  | Call {X : Type} (c : E X) (k : X -> prog E A).
Arguments Ret {E A} a.
Arguments Panic {E A}.
Arguments Fuel {E A}.
Arguments Call {E A X} c k.

#[export] Instance prog_ret {E} : MRet (prog E) := fun A => @Ret E A.

#[export] Instance prog_bind {E} : MBind (prog E) :=
  fun A B f =>
    fix go (p : prog E A) : prog E B :=
      match p with
      | Ret a => f a
      | Panic => Panic
      | Fuel => Fuel
      | Call c k => Call c (fun x => go (k x))
      end.

(** A single foreign call. *)
Definition trigger {E X} (c : E X) : prog E X := Call c Ret.

(** [Option::unwrap]. *)
Definition unwrap {E A} (o : option A) : prog E A :=
  match o with Some a => Ret a | None => Panic end.

(** A loop body run over each element of a list in order. *)
Fixpoint for_each {E A} (f : A -> prog E unit) (l : list A) : prog E unit :=
  match l with
  | [] => Ret tt
  | x :: l => f x;; for_each f l
  end.

(** [repeat n p]: the body of [for _ in 0..n]. *)
Fixpoint repeat_prog {E} (n : nat) (p : prog E unit) : prog E unit :=
  match n with
  | O => Ret tt
  | S n => p;; repeat_prog n p
  end.

(** ** Traces *)

Inductive event (E : Type -> Type) : Type :=
  | Ev {X : Type} (c : E X) (x : X).
Arguments Ev {E X} c x.

Section trace.
Context {E : Type -> Type}.
Implicit Types (tr : list (event E)).

Fixpoint exec {A} (p : prog E A) (tr : list (event E)) (o : outcome A) : Prop :=
  match p with
  | Ret a => tr = [] /\ o = Done a
  | Panic => tr = [] /\ o = Panicked
  | Fuel => tr = [] /\ o = OutOfFuel
  | Call c k => exists x tr', tr = Ev c x :: tr' /\ exec (k x) tr' o
  end.

(** Runs that end in a value chain through [bind]; a run that panics or is cut
    short ends the whole program. *)
Inductive bind_split {A B} (p : prog E A) (f : A -> prog E B) tr : outcome B -> Prop :=
  | split_done a tr1 tr2 o :
      tr = tr1 ++ tr2 -> exec p tr1 (Done a) -> exec (f a) tr2 o -> bind_split p f tr o
  | split_panic : exec p tr Panicked -> bind_split p f tr Panicked
  | split_fuel : exec p tr OutOfFuel -> bind_split p f tr OutOfFuel.

Lemma exec_bind {A B} (p : prog E A) (f : A -> prog E B) tr o :
  exec (p ≫= f) tr o -> bind_split p f tr o.
Proof.
  revert tr. induction p as [a| | |X c k IH]; intros tr.
  - intros H. by apply (split_done _ _ _ a [] tr).
  - intros [-> ->]. by apply split_panic.
  - intros [-> ->]. by apply split_fuel.
  - intros (x & tr' & -> & H). specialize (IH x tr' H).
    inversion IH as [a tr1 tr2 o' Htr Hp Hf|Hp|Hp]; subst.
    + eapply (split_done _ _ _ a (Ev c x :: tr1) tr2); [done| |done]. simpl. eauto.
    + apply split_panic. simpl. eauto.
    + apply split_fuel. simpl. eauto.
Qed.

Lemma exec_bind_done {A B} (p : prog E A) (f : A -> prog E B) tr b :
  exec (p ≫= f) tr (Done b) ->
  exists a tr1 tr2, tr = tr1 ++ tr2 /\ exec p tr1 (Done a) /\ exec (f a) tr2 (Done b).
Proof. intros H%exec_bind. inversion H; subst; eauto 10. Qed.

Lemma exec_bind_intro {A B} (p : prog E A) (f : A -> prog E B) tr1 tr2 a o :
  exec p tr1 (Done a) -> exec (f a) tr2 o -> exec (p ≫= f) (tr1 ++ tr2) o.
Proof.
  revert tr1. induction p as [a'| | |X c k IH]; intros tr1 Hp Hf.
  - by destruct Hp as [-> [= <-]].
  - by destruct Hp.
  - by destruct Hp.
  - destruct Hp as (x & tr' & -> & Hp). simpl. eauto.
Qed.

(** ** What every run of a program satisfies *)

(** [always p Q]: every run of [p] has a trace and an outcome in [Q]. *)
Definition always {A} (p : prog E A) (Q : list (event E) -> outcome A -> Prop) : Prop :=
  forall tr o, exec p tr o -> Q tr o.

(** [total p]: no run of [p] panics or is cut short. *)
Definition total {A} (p : prog E A) : Prop :=
  always p (fun _ o => exists a, o = Done a).

Lemma total_ret {A} (a : A) : total (Ret a).
Proof. intros tr o [-> ->]. eauto. Qed.

Lemma total_call {A X} (c : E X) (k : X -> prog E A) :
  (forall x, total (k x)) -> total (Call c k).
Proof. intros H tr o (x & tr' & -> & Hk). by eapply H. Qed.

Lemma total_bind {A B} (p : prog E A) (f : A -> prog E B) :
  total p -> (forall a, total (f a)) -> total (p ≫= f).
Proof.
  intros Hp Hf tr o H%exec_bind. inversion H as [a tr1 tr2 o' -> H1 H2|H1|H1]; subst.
  - by eapply Hf.
  - by destruct (Hp _ _ H1).
  - by destruct (Hp _ _ H1).
Qed.

(** Binding after a total program that ends in a value satisfying [P] only
    needs totality on the values in [P]. *)
Lemma total_bind_post {A B} (p : prog E A) (P : A -> Prop) (f : A -> prog E B) :
  total p -> (forall tr a, exec p tr (Done a) -> P a) -> (forall a, P a -> total (f a)) ->
  total (p ≫= f).
Proof.
  intros Hp HP Hf tr o H%exec_bind. inversion H as [a tr1 tr2 o' -> H1 H2|H1|H1]; subst.
  - eapply Hf; eauto.
  - by destruct (Hp _ _ H1).
  - by destruct (Hp _ _ H1).
Qed.

Lemma total_for_each {A} (f : A -> prog E unit) l :
  (forall x, total (f x)) -> total (for_each f l).
Proof.
  intros Hf. induction l as [|x l IH]; simpl; [apply total_ret|].
  apply total_bind; auto.
Qed.

Lemma total_repeat n (p : prog E unit) : total p -> total (repeat_prog n p).
Proof.
  intros Hp. induction n as [|n IH]; simpl; [apply total_ret|].
  apply total_bind; auto.
Qed.

(** [no_panic p]: no run of [p] panics. *)
Definition no_panic {A} (p : prog E A) : Prop := always p (fun _ o => o <> Panicked).

Lemma no_panic_ret {A} (a : A) : no_panic (Ret a).
Proof. by intros tr o [-> ->]. Qed.

Lemma no_panic_fuel {A} : no_panic (@Fuel E A).
Proof. by intros tr o [-> ->]. Qed.

Lemma no_panic_call {A X} (c : E X) (k : X -> prog E A) :
  (forall x, no_panic (k x)) -> no_panic (Call c k).
Proof. intros H tr o (x & tr' & -> & Hk). by eapply H. Qed.

Lemma no_panic_bind {A B} (p : prog E A) (f : A -> prog E B) :
  no_panic p -> (forall a, no_panic (f a)) -> no_panic (p ≫= f).
Proof.
  intros Hp Hf tr o H%exec_bind. inversion H as [a tr1 tr2 o' -> H1 H2|H1|H1]; subst.
  - by eapply Hf.
  - by destruct (Hp _ _ H1).
  - done.
Qed.

Lemma no_panic_for_each {A} (f : A -> prog E unit) l :
  (forall x, no_panic (f x)) -> no_panic (for_each f l).
Proof.
  intros Hf. induction l as [|x l IH]; cbn [for_each]; [apply no_panic_ret|]. by apply no_panic_bind.
Qed.

Lemma no_panic_total {A} (p : prog E A) : total p -> no_panic p.
Proof. intros Hp tr o H ->. by destruct (Hp _ _ H). Qed.

Lemma total_exec {A} (p : prog E A) tr o : total p -> exec p tr o -> exists a, o = Done a.
Proof. intros Hp H. exact (Hp _ _ H). Qed.
End trace.

(** ** Observations of a trace *)

Section collect.
Context {E : Type -> Type} {B : Type} (f : forall X, E X -> X -> list B).

(** What [f] sees of a trace, in order. *)
Fixpoint collect (tr : list (event E)) : list B :=
  match tr with
  | [] => []
  | Ev c x :: tr => f _ c x ++ collect tr
  end.

Lemma collect_app tr1 tr2 : collect (tr1 ++ tr2) = collect tr1 ++ collect tr2.
Proof. induction tr1 as [|[X c x] tr1 IH]; cbn; [done|]. by rewrite IH, app_assoc. Qed.

(** [p] makes no call that [f] sees. *)
Definition no_emit {A} (p : prog E A) : Prop := forall tr o, exec p tr o -> collect tr = [].

Lemma no_emit_ret {A} (a : A) : no_emit (Ret a).
Proof. by intros tr o [-> _]. Qed.

Lemma no_emit_panic {A} : @no_emit A Panic.
Proof. by intros tr o [-> _]. Qed.

Lemma no_emit_fuel {A} : @no_emit A Fuel.
Proof. by intros tr o [-> _]. Qed.

Lemma no_emit_call {A X} (c : E X) (k : X -> prog E A) :
  (forall x, f _ c x = []) -> (forall x, no_emit (k x)) -> no_emit (Call c k).
Proof. intros Hc Hk tr o (x & tr' & -> & H). cbn. rewrite Hc. by eapply Hk. Qed.

Lemma no_emit_bind {A C} (p : prog E A) (g : A -> prog E C) :
  no_emit p -> (forall a, no_emit (g a)) -> no_emit (p ≫= g).
Proof.
  intros Hp Hg tr o H%exec_bind. inversion H as [a tr1 tr2 o' -> H1 H2|H1|H1]; subst; eauto.
  rewrite collect_app, (Hp _ _ H1). by eapply Hg.
Qed.

Lemma no_emit_for_each {A} (g : A -> prog E unit) l :
  (forall x, no_emit (g x)) -> no_emit (for_each g l).
Proof.
  intros Hg. induction l as [|x l IH]; cbn [for_each]; [apply no_emit_ret|].
  by apply no_emit_bind.
Qed.
End collect.

(** ** Environments *)

(** An environment with state [S] answers every call. *)
Definition handler (E : Type -> Type) (S : Type) : Type := forall X, E X -> S -> X * S.

Section run.
Context {E : Type -> Type} {S : Type} (h : handler E S).

Fixpoint run {A} (p : prog E A) (s : S) : outcome A * S :=
  match p with
  | Ret a => (Done a, s)
  | Panic => (Panicked, s)
  | Fuel => (OutOfFuel, s)
  | Call c k => let '(x, s') := h _ c s in run (k x) s'
  end.

(** The calls and answers of a run. *)
Fixpoint run_trace {A} (p : prog E A) (s : S) : list (event E) :=
  match p with
  | Ret _ | Panic | Fuel => []
  | Call c k => let '(x, s') := h _ c s in Ev c x :: run_trace (k x) s'
  end.

Lemma run_exec {A} (p : prog E A) s : exec p (run_trace p s) (run p s).1.
Proof.
  revert s. induction p as [a| | |X c k IH]; intros s; simpl; try done.
  destruct (h X c s) as [x s'] eqn:Eh. simpl. eauto.
Qed.

Lemma run_done {A} (p : prog E A) s a : (run p s).1 = Done a -> exec p (run_trace p s) (Done a).
Proof. intros <-. apply run_exec. Qed.

(** The same, naming the value a run ends with by what computes it. *)
Definition is_done {A} (o : outcome A) : bool := match o with Done _ => true | _ => false end.
Definition value_of {A} (d : A) (o : outcome A) : A := match o with Done a => a | _ => d end.

Lemma run_value {A} (p : prog E A) s d :
  is_done (run p s).1 = true -> exec p (run_trace p s) (Done (value_of d (run p s).1)).
Proof. intros H. apply run_done. by destruct (run p s).1. Qed.

Lemma run_bind {A B} (p : prog E A) (f : A -> prog E B) s :
  run (p ≫= f) s =
    match run p s with
    | (Done a, s') => run (f a) s'
    | (Panicked, s') => (Panicked, s')
    | (OutOfFuel, s') => (OutOfFuel, s')
    end.
Proof.
  revert s. induction p as [a| | |X c k IH]; intros s; try done.
  cbn. destruct (h X c s) as [x s']. apply IH.
Qed.

Lemma run_bind_done {A B} (p : prog E A) (f : A -> prog E B) s a s' :
  run p s = (Done a, s') -> run (p ≫= f) s = run (f a) s'.
Proof. intros H. by rewrite run_bind, H. Qed.

Lemma run_trace_bind_done {A B} (p : prog E A) (f : A -> prog E B) s a s' :
  run p s = (Done a, s') -> run_trace (p ≫= f) s = run_trace p s ++ run_trace (f a) s'.
Proof.
  revert s. induction p as [a'| | |X c k IH]; intros s; try (by intros [=]).
  - intros [= -> ->]. done.
  - cbn. destruct (h X c s) as [x s1]. intros H. by rewrite (IH x s1 H).
Qed.
End run.

#[export] Hint Resolve total_ret total_call total_bind total_for_each total_repeat : derust.

(** Runs a program on a concrete environment to find its trace. *)
Ltac by_run := apply run_done; vm_compute; reflexivity.

(** The same for a value that is better left unread. *)
Ltac by_run_value := apply run_value; vm_compute; reflexivity.

(** Decides a proposition about a concrete trace by computing it. *)
Ltac by_eval := vm_compute; repeat split; intros; discriminate.

(** One step of a hypothesis [exec (Call c k) tr o], naming the answer. *)
Tactic Notation "exec_step" hyp(H) "as" simple_intropattern(x) :=
  simpl in H; destruct H as (x & ? & -> & H); simpl in H.

(** Splits the run of a program that ends in a value at its first bind. *)
Tactic Notation "bind_step" hyp(H) "as" simple_intropattern(x) simple_intropattern(H1) :=
  apply exec_bind_done in H as (x & ? & ? & -> & H1 & H).

(** All the steps of a straight-line program. *)
Ltac exec_steps H :=
  simpl in H;
  lazymatch type of H with
  | ex _ => destruct H as (? & ? & -> & H); exec_steps H
  | _ = [] /\ _ => destruct H as [-> H]; simplify_eq
  | _ => idtac
  end.
