(* ===== verification/Text.v ===== *)
(** * The parts of the standard library's [str], [slice] and integer formatting
    that the firmware uses

    A [str] is the list of its [char]s (code points).  Searching for or splitting
    on an ASCII character gives the same result on the characters as on the UTF-8
    bytes, which is why only [from_utf8] looks at the encoding. *)

From S2P Require Import Prelude.

Definition in_range (lo hi z : Z) : bool := (lo <=? z) && (z <=? hi).

(** ** UTF-8 *)

Definition utf8_cont (b : Z) : bool := in_range 128 191 b.

(** The second byte allowed after the first byte of a three-byte sequence: no
    overlong forms and no surrogates. *)
Definition utf8_second3 (b0 b1 : Z) : bool :=
  (b0 =? 224) && in_range 160 191 b1
  || (in_range 225 236 b0 || in_range 238 239 b0) && utf8_cont b1
  || (b0 =? 237) && in_range 128 159 b1.

(** The same for a four-byte sequence: nothing above U+10FFFF. *)
Definition utf8_second4 (b0 b1 : Z) : bool :=
  (b0 =? 240) && in_range 144 191 b1
  || in_range 241 243 b0 && utf8_cont b1
  || (b0 =? 244) && in_range 128 143 b1.

(** [core::str::from_utf8], keeping the characters. *)
Fixpoint from_utf8 (b : bytes) : option str :=
  match b with
  | [] => Some []
  | b0 :: r0 =>
      if in_range 0 127 b0 then cons b0 <$> from_utf8 r0
      else match r0 with
      | [] => None
      | b1 :: r1 =>
          if in_range 194 223 b0 && utf8_cont b1 then
            cons ((b0 - 192) * 64 + (b1 - 128)) <$> from_utf8 r1
          else match r1 with
          | [] => None
          | b2 :: r2 =>
              if utf8_second3 b0 b1 && utf8_cont b2 then
                cons ((b0 - 224) * 4096 + (b1 - 128) * 64 + (b2 - 128)) <$> from_utf8 r2
              else match r2 with
              | [] => None
              | b3 :: r3 =>
                  if utf8_second4 b0 b1 && utf8_cont b2 && utf8_cont b3 then
                    cons ((b0 - 240) * 262144 + (b1 - 128) * 4096 + (b2 - 128) * 64 + (b3 - 128))
                      <$> from_utf8 r3
                  else None
              end
          end
      end
  end.

(** [str::as_bytes]. *)
Definition utf8_encode_char (c : Z) : bytes :=
  if c <? 128 then [c]
  else if c <? 2048 then [192 + c / 64; 128 + c mod 64]
  else if c <? 65536 then [224 + c / 4096; 128 + c / 64 mod 64; 128 + c mod 64]
  else [240 + c / 262144; 128 + c / 4096 mod 64; 128 + c / 64 mod 64; 128 + c mod 64].

Definition as_bytes (s : str) : bytes := s ≫= utf8_encode_char.

(** ** Searching and splitting *)

(** [buf.windows(pat.len()).position(|w| w == pat)] for a non-empty [pat]. *)
Fixpoint position (pat buf : list Z) : option nat :=
  if starts_with buf pat then Some 0%nat
  else match buf with
       | [] => None
       | _ :: t => S <$> position pat t
       end.

(** [str::split] on one character: never empty. *)
Fixpoint split (c : Z) (s : str) : list str :=
  match s with
  | [] => [[]]
  | x :: t =>
      if x =? c then [] :: split c t
      else match split c t with
           | h :: r => (x :: h) :: r
           | [] => [[x]]
           end
  end.

(** [str::split_inclusive] on one character. *)
Fixpoint split_inclusive (c : Z) (s : str) : list str :=
  match s with
  | [] => []
  | x :: t =>
      if x =? c then [x] :: split_inclusive c t
      else match split_inclusive c t with
           | [] => [[x]]
           | h :: r => (x :: h) :: r
           end
  end.

Definition strip_suffix (c : Z) (s : str) : option str :=
  match rev s with
  | x :: r => if x =? c then Some (rev r) else None
  | [] => None
  end.

(** [str::lines]: split after each line feed, then drop ["\n"] and the ["\r"]
    before it. *)
Definition strip_line_end (l : str) : str :=
  match strip_suffix 10 l with
  | None => l
  | Some l1 => match strip_suffix 13 l1 with None => l1 | Some l2 => l2 end
  end.

Definition lines (s : str) : list str := strip_line_end <$> split_inclusive 10 s.

(** [str::split_once] on one character. *)
Fixpoint split_once (c : Z) (s : str) : option (str * str) :=
  match s with
  | [] => None
  | x :: t =>
      if x =? c then Some ([], t)
      else (fun p => (x :: p.1, p.2)) <$> split_once c t
  end.

(** [char::is_whitespace]: the Unicode property White_Space. *)
Definition is_whitespace (c : Z) : bool :=
  in_range 9 13 c || (c =? 32) || (c =? 133) || (c =? 160) || (c =? 5760)
  || in_range 8192 8202 c || (c =? 8232) || (c =? 8233) || (c =? 8239) || (c =? 8287)
  || (c =? 12288).

Fixpoint trim_start (s : str) : str :=
  match s with
  | [] => []
  | x :: t => if is_whitespace x then trim_start t else s
  end.

Definition trim (s : str) : str := rev (trim_start (rev (trim_start s))).

Definition to_ascii_lowercase (c : Z) : Z := if in_range 65 90 c then c + 32 else c.

Definition eq_ignore_ascii_case (a b : str) : bool :=
  bool_decide (to_ascii_lowercase <$> a = to_ascii_lowercase <$> b).

(** ** Integers as text *)

Definition is_digit (c : Z) : bool := in_range 48 57 c.

(** Decimal digits added to [acc], with the overflow check of [usize]. *)
Fixpoint parse_digits (acc : Z) (s : str) : option Z :=
  match s with
  | [] => Some acc
  | c :: t =>
      if is_digit c then
        let acc' := acc * 10 + (c - 48) in
        if acc' <=? usize_max then parse_digits acc' t else None
      else None
  end.

(** [str::parse::<usize>().ok()]: an optional plus sign and at least one digit. *)
Definition parse_usize (s : str) : option Z :=
  match s with
  | [] => None
  | [c] => if is_digit c then parse_digits 0 s else None
  | c :: t => if c =? 43 then parse_digits 0 t else parse_digits 0 s
  end.

(** [Display] of an unsigned integer of at most [fuel] decimal digits. *)
Fixpoint display_aux (fuel : nat) (n : Z) (acc : str) : str :=
  match fuel with
  | O => acc
  | S fuel =>
      let acc' := (48 + n mod 10) :: acc in
      if n / 10 =? 0 then acc' else display_aux fuel (n / 10) acc'
  end.

Definition display_u8 (n : Z) : str := display_aux 3 n [].
Definition display_u16 (n : Z) : str := display_aux 5 n [].
Definition display_u32 (n : Z) : str := display_aux 10 n [].

(** * Facts *)

Lemma in_range_true lo hi z : in_range lo hi z = true <-> lo <= z <= hi.
Proof. unfold in_range. rewrite andb_true_iff, !Z.leb_le. done. Qed.

Lemma from_utf8_ascii b : Forall is_ascii b -> from_utf8 b = Some b.
Proof.
  induction 1 as [|x l Hx _ IH]; [done|]. cbn [from_utf8].
  assert (in_range 0 127 x = true) as -> by (apply in_range_true; unfold is_ascii in Hx; lia).
  by rewrite IH.
Qed.

Lemma as_bytes_app s t : as_bytes (s ++ t) = as_bytes s ++ as_bytes t.
Proof. apply bind_app. Qed.

Lemma as_bytes_ascii s : Forall is_ascii s -> as_bytes s = s.
Proof.
  induction 1 as [|x l Hx _ IH]; [done|]. unfold as_bytes in *. cbn. rewrite IH.
  unfold utf8_encode_char, is_ascii in *. by rewrite (proj2 (Z.ltb_lt x 128)) by lia.
Qed.

(** ** [position] finds the first occurrence *)

Definition occurs_at (pat buf : list Z) (i : nat) : Prop := starts_with (drop i buf) pat = true.

Lemma occurs_at_app pat buf i :
  occurs_at pat buf i -> (i <= length buf)%nat -> buf = take i buf ++ pat ++ drop (i + length pat) buf.
Proof.
  intros [r Hr]%starts_with_true _. rewrite <- drop_drop, Hr, drop_app_length.
  by rewrite <- Hr, take_drop.
Qed.

Lemma position_spec pat buf i :
  position pat buf = Some i <->
  (i <= length buf)%nat /\ occurs_at pat buf i /\ forall j, (j < i)%nat -> ~ occurs_at pat buf j.
Proof.
  revert i. induction buf as [|x t IH]; intros i; cbn [position].
  - destruct (starts_with [] pat) eqn:E; split; try done.
    + intros [= <-]. repeat split; [cbn; lia|done|lia].
    + intros (Hi & _). f_equal. cbn in Hi. lia.
    + intros (Hi & Ho & _). cbn in Hi. assert (i = 0%nat) as -> by lia.
      unfold occurs_at in Ho. cbn in Ho. congruence.
  - destruct (starts_with (x :: t) pat) eqn:E; split.
    + intros [= <-]. repeat split; [cbn; lia|done|lia].
    + intros (_ & _ & Hmin). destruct i as [|i]; [done|]. by destruct (Hmin 0%nat); [lia|].
    + intros (k & Hk & ->)%fmap_Some. apply IH in Hk as (? & ? & Hmin). repeat split; [cbn; lia|done|].
      intros [|j] Hj; unfold occurs_at; cbn; [congruence|]. apply Hmin. lia.
    + intros (Hi & Ho & Hmin). destruct i as [|i]; [unfold occurs_at in Ho; cbn in Ho; congruence|].
      assert (position pat t = Some i) as ->; [|done].
      apply IH. repeat split; [cbn in Hi; lia|done|].
      intros j Hj. apply (Hmin (S j)). lia.
Qed.

Lemma position_none pat buf :
  position pat buf = None <-> forall i, (i <= length buf)%nat -> ~ occurs_at pat buf i.
Proof.
  induction buf as [|x t IH]; cbn [position].
  - destruct (starts_with [] pat) eqn:E; split; try done.
    + intros H. by destruct (H 0%nat); [cbn; lia|].
    + intros _ i Hi. cbn in Hi. assert (i = 0%nat) as -> by lia. unfold occurs_at. cbn. congruence.
  - destruct (starts_with (x :: t) pat) eqn:E; split; try done.
    + intros H. by destruct (H 0%nat); [cbn; lia|].
    + intros Hn. destruct (position pat t) eqn:Ep; [done|].
      intros [|i] Hi; unfold occurs_at; cbn; [congruence|]. apply IH; [done|cbn in Hi; lia].
    + intros H. assert (position pat t = None) as ->; [|done]. apply IH.
      intros i Hi. apply (H (S i)). cbn. lia.
Qed.

(** The first occurrence of [pat] in [pre ++ pat ++ post] when [pat] does not
    occur earlier. *)
Lemma position_app pat pre post :
  (forall j, (j < length pre)%nat -> ~ occurs_at pat (pre ++ pat ++ post) j) ->
  position pat (pre ++ pat ++ post) = Some (length pre).
Proof.
  intros Hmin. apply position_spec. rewrite length_app. repeat split; [lia| |done].
  unfold occurs_at. rewrite drop_app_length. apply starts_with_true. eauto.
Qed.

(** A pattern whose first character is absent from [pre] does not occur in it. *)
Lemma not_occurs_head c pat pre post j :
  c ∉ pre -> (j < length pre)%nat -> ~ occurs_at (c :: pat) (pre ++ post) j.
Proof.
  intros Hc Hj [r Hr]%starts_with_true.
  rewrite drop_app_le in Hr by lia.
  destruct (drop j pre) as [|y l] eqn:Ed.
  - apply (f_equal length) in Ed. rewrite length_drop in Ed. cbn in Ed. lia.
  - cbn in Hr. injection Hr as -> _. apply Hc.
    rewrite <- (take_drop j pre), Ed. apply elem_of_app. right. by left.
Qed.

(** ** Splitting *)

Lemma split_app c (a b : str) : c ∉ a -> split c (a ++ c :: b) = a :: split c b.
Proof.
  induction a as [|x a IH]; intros Hc; cbn.
  - by rewrite Z.eqb_refl.
  - apply not_elem_of_cons in Hc as [Hx Hc]. rewrite (proj2 (Z.eqb_neq x c)) by done.
    by rewrite IH.
Qed.

Lemma split_none c (a : str) : c ∉ a -> split c a = [a].
Proof.
  induction a as [|x a IH]; intros Hc; cbn; [done|].
  apply not_elem_of_cons in Hc as [Hx Hc]. rewrite (proj2 (Z.eqb_neq x c)) by done.
  by rewrite IH.
Qed.

(** [split] loses nothing: the parts joined by [c] are the string. *)
Fixpoint join (c : Z) (l : list str) : str :=
  match l with
  | [] => []
  | [s] => s
  | s :: l => s ++ c :: join c l
  end.

Lemma split_nonempty c s : split c s <> [].
Proof. destruct s as [|x t]; cbn; [done|]. case_match; [done|]. by case_match. Qed.

Lemma split_join c s : join c (split c s) = s.
Proof.
  induction s as [|x t IH]; cbn; [done|].
  pose proof (split_nonempty c t) as Hne.
  destruct (x =? c) eqn:E.
  - apply Z.eqb_eq in E as ->. destruct (split c t) eqn:Es; [done|]. cbn in *. by rewrite IH.
  - destruct (split c t) as [|h r]; [done|]. cbn in *. destruct r; cbn in *; by rewrite <- IH.
Qed.

(** The first part of a split, and what follows it. *)
Lemma split_cons_inv c s t ts :
  split c s = t :: ts ->
  (c ∉ t) /\ ((ts = [] /\ s = t) \/ (exists r, s = t ++ c :: r /\ ts = split c r)).
Proof.
  revert t ts. induction s as [|x s IH]; intros t ts H; cbn in H.
  - simplify_eq. split; [apply not_elem_of_nil|auto].
  - destruct (Z.eqb_spec x c) as [->|Hx].
    + simplify_eq. split; [apply not_elem_of_nil|]. right. by exists s.
    + destruct (split c s) as [|h r] eqn:Es; [by apply split_nonempty in Es|]. simplify_eq.
      destruct (IH h ts eq_refl) as [Hh Hor]. split; [apply not_elem_of_cons; by split|].
      destruct Hor as [[-> ->]|(r & -> & ->)]; [auto|]. right. by exists r.
Qed.

Lemma split_once_app c (a b : str) : c ∉ a -> split_once c (a ++ c :: b) = Some (a, b).
Proof.
  induction a as [|x a IH]; intros Hc; cbn.
  - by rewrite Z.eqb_refl.
  - apply not_elem_of_cons in Hc as [Hx Hc]. rewrite (proj2 (Z.eqb_neq x c)) by done.
    by rewrite IH.
Qed.

Lemma split_inclusive_app c (a b : str) :
  c ∉ a -> split_inclusive c (a ++ c :: b) = (a ++ [c]) :: split_inclusive c b.
Proof.
  induction a as [|x a IH]; intros Hc; cbn.
  - by rewrite Z.eqb_refl.
  - apply not_elem_of_cons in Hc as [Hx Hc]. rewrite (proj2 (Z.eqb_neq x c)) by done.
    by rewrite IH.
Qed.

Lemma split_inclusive_none c (a : str) : c ∉ a -> a <> [] -> split_inclusive c a = [a].
Proof.
  induction a as [|x a IH]; intros Hc Hne; cbn; [done|].
  apply not_elem_of_cons in Hc as [Hx Hc]. rewrite (proj2 (Z.eqb_neq x c)) by done.
  destruct a as [|y a]; [done|]. by rewrite IH.
Qed.

Lemma strip_suffix_snoc c s : strip_suffix c (s ++ [c]) = Some s.
Proof. unfold strip_suffix. by rewrite rev_app_distr; cbn; rewrite Z.eqb_refl, rev_involutive. Qed.

Lemma strip_suffix_not_in c s : c ∉ s -> strip_suffix c s = None.
Proof.
  unfold strip_suffix. intros Hc. destruct (rev s) as [|x r] eqn:E; [done|].
  destruct (Z.eqb_spec x c) as [->|]; [|done].
  exfalso. apply Hc. apply list_elem_of_In, in_rev. rewrite E. by left.
Qed.

(** A header line ended by CR LF. *)
Lemma lines_crlf (a b : str) :
  10 ∉ a -> lines (a ++ [13; 10] ++ b) = a :: lines b.
Proof.
  intros Ha. unfold lines. change (a ++ [13; 10] ++ b) with (a ++ [13] ++ 10 :: b).
  rewrite app_assoc, split_inclusive_app; [|rewrite not_elem_of_app, list_elem_of_singleton; split; [done|lia]].
  cbn [fmap list_fmap]. f_equal. unfold strip_line_end.
  by rewrite !strip_suffix_snoc.
Qed.

Lemma lines_last (a : str) : 10 ∉ a -> a <> [] -> lines a = [a].
Proof.
  intros Ha Hne. unfold lines. rewrite split_inclusive_none by done. cbn. f_equal.
  unfold strip_line_end. by rewrite strip_suffix_not_in.
Qed.

(** ** Trimming *)

Lemma trim_start_clean s : Forall (fun c => is_whitespace c = false) s -> trim_start s = s.
Proof. destruct 1 as [|x l Hx _]; [done|]. cbn. by rewrite Hx. Qed.

Lemma trim_clean s : Forall (fun c => is_whitespace c = false) s -> trim s = s.
Proof.
  intros H. unfold trim. rewrite (trim_start_clean s) by done.
  rewrite trim_start_clean; [apply rev_involutive|].
  apply Forall_forall. intros x Hx%list_elem_of_In%in_rev%list_elem_of_In. by eapply Forall_forall in H.
Qed.

Lemma trim_space s : trim (32 :: s) = trim s.
Proof. reflexivity. Qed.

(** ** Integers *)

Lemma is_digit_not_whitespace c : is_digit c = true -> is_whitespace c = false.
Proof.
  unfold is_digit. rewrite in_range_true. intros H.
  apply not_true_iff_false. unfold is_whitespace, in_range.
  rewrite !orb_true_iff, !andb_true_iff, !Z.eqb_eq, !Z.leb_le. lia.
Qed.

Lemma display_aux_digits fuel n acc :
  Forall (fun c => is_digit c = true) acc -> Forall (fun c => is_digit c = true) (display_aux fuel n acc).
Proof.
  revert n acc. induction fuel as [|fuel IH]; intros n acc H; cbn; [done|].
  assert (is_digit (48 + n mod 10) = true) by (apply in_range_true; pose proof (Z.mod_pos_bound n 10 eq_refl); lia).
  case_match; [by constructor|]. apply IH. by constructor.
Qed.

Lemma display_aux_length fuel n acc : (length (display_aux fuel n acc) <= fuel + length acc)%nat.
Proof.
  revert n acc. induction fuel as [|fuel IH]; intros n acc; cbn; [lia|].
  case_match; cbn; [lia|]. etrans; [apply IH|]. cbn. lia.
Qed.

Lemma display_aux_nonempty fuel n acc : display_aux (S fuel) n acc <> [].
Proof.
  assert (forall f m a, (length a <= length (display_aux f m a))%nat) as Hmono.
  { induction f as [|f IH]; intros m a; cbn; [lia|]. case_match; cbn; [lia|].
    etrans; [|apply IH]. cbn. lia. }
  cbn. case_match; [done|]. intros Hnil.
  pose proof (Hmono fuel (n / 10) ((48 + n mod 10) :: acc)) as Hl. rewrite Hnil in Hl. cbn in Hl. lia.
Qed.

Lemma parse_display_aux fuel n acc :
  0 <= n < 10 ^ Z.of_nat (S fuel) -> n <= usize_max ->
  parse_digits 0 (display_aux (S fuel) n acc) = parse_digits n acc.
Proof.
  revert n acc. induction fuel as [|fuel IH]; intros n acc Hn Hmax.
  - assert (n / 10 = 0) as E by (apply Z.div_small; cbn in Hn; lia).
    cbn [display_aux]. rewrite E. cbn [Z.eqb].
    cbn [parse_digits]. rewrite Z.mod_small by (cbn in Hn; lia).
    assert (is_digit (48 + n) = true) as -> by (apply in_range_true; cbn in Hn; lia).
    replace (0 * 10 + (48 + n - 48)) with n by lia. by rewrite (proj2 (Z.leb_le _ _) Hmax).
  - remember (S fuel) as f. cbn [display_aux]. subst f.
    pose proof (Z.mod_pos_bound n 10 ltac:(lia)) as Hm.
    pose proof (Z.div_mod n 10 ltac:(lia)) as Hd.
    assert (forall a, a * 10 + (48 + n mod 10 - 48) = n -> a <= usize_max ->
              parse_digits a ((48 + n mod 10) :: acc) = parse_digits n acc) as Hstep.
    { intros a Ha _. cbn [parse_digits].
      assert (is_digit (48 + n mod 10) = true) as -> by (apply in_range_true; lia).
      rewrite Ha. by rewrite (proj2 (Z.leb_le _ _) Hmax). }
    destruct (Z.eqb_spec (n / 10) 0) as [E|E].
    + apply Hstep; [lia|unfold usize_max, u32_max; lia].
    + rewrite IH; [apply Hstep; lia| |lia].
      rewrite Nat2Z.inj_succ, Z.pow_succ_r in Hn by lia. lia.
Qed.

(** Parsing what [Display] printed gives the number back. *)
Lemma parse_display_u32 n : fits 32 n -> parse_usize (display_u32 n) = Some n.
Proof.
  unfold fits. change (2 ^ 32) with 4294967296. intros Hn.
  assert (parse_digits 0 (display_u32 n) = Some n) as Hp.
  { unfold display_u32. rewrite parse_display_aux; [done|cbn; lia|unfold usize_max, u32_max; lia]. }
  assert (Forall (fun c => is_digit c = true) (display_u32 n)) as Hd by by apply display_aux_digits.
  pose proof (display_aux_nonempty 9 n []) as Hne. fold (display_u32 n) in Hne.
  unfold parse_usize. destruct (display_u32 n) as [|c t]; [done|].
  apply Forall_cons in Hd as [Hc _]. destruct t; [by rewrite Hc|].
  apply in_range_true in Hc. rewrite (proj2 (Z.eqb_neq c 43)) by lia. done.
Qed.

(** What is parsed is in the range of [usize]. *)
Lemma parse_digits_range acc s n :
  0 <= acc <= usize_max -> parse_digits acc s = Some n -> 0 <= n <= usize_max.
Proof.
  revert acc. induction s as [|c t IH]; intros acc Ha; cbn [parse_digits]; [by intros [= <-]|].
  destruct (is_digit c) eqn:Ec; [|done]. apply in_range_true in Ec.
  destruct (Z.leb_spec (acc * 10 + (c - 48)) usize_max); [|done]. apply IH. lia.
Qed.

Lemma parse_usize_range s n : parse_usize s = Some n -> 0 <= n <= usize_max.
Proof.
  assert (0 <= 0 <= usize_max) as H0 by (unfold usize_max, u32_max; lia).
  destruct s as [|c [|c' t]]; cbn [parse_usize]; [done|destruct (is_digit c); [|done]|destruct (c =? 43)];
    by apply parse_digits_range.
Qed.

#[export] Hint Resolve display_aux_digits from_utf8_ascii as_bytes_ascii : derust.
