(* ===== verification/Net.v ===== *)
(** * IPv4 addresses and byte order ([core::net::Ipv4Addr])

    The crate passes addresses to and from lwIP as 32-bit integers in network
    byte order, on a little-endian processor. *)

From stdpp Require Import countable.
From S2P Require Import Prelude Text.

Record Ipv4Addr : Type := mkAddr { oct0 : Z; oct1 : Z; oct2 : Z; oct3 : Z }.

#[export] Instance addr_eq_dec : EqDecision Ipv4Addr.
Proof. solve_decision. Defined.

#[export] Instance addr_countable : Countable Ipv4Addr.
Proof.
  refine (inj_countable' (fun a => (oct0 a, oct1 a, oct2 a, oct3 a))
                         (fun '(a, b, c, d) => mkAddr a b c d) _).
  by intros [].
Defined.

Definition octets (a : Ipv4Addr) : list Z := [oct0 a; oct1 a; oct2 a; oct3 a].

Definition addr_wf (a : Ipv4Addr) : Prop := Forall is_byte (octets a).

(** [Ipv4Addr::to_bits] and [Ipv4Addr::from_bits]: the address as a big-endian
    number. *)
Definition to_bits (a : Ipv4Addr) : Z :=
  oct0 a * 16777216 + oct1 a * 65536 + oct2 a * 256 + oct3 a.

Definition from_bits (z : Z) : Ipv4Addr :=
  mkAddr (z / 16777216 mod 256) (z / 65536 mod 256) (z / 256 mod 256) (z mod 256).

(** [u32::swap_bytes]; on the little-endian Cortex-M it is both [to_be] and
    [from_be]. *)
Definition swap_bytes32 (z : Z) : Z :=
  z mod 256 * 16777216 + z / 256 mod 256 * 65536 + z / 65536 mod 256 * 256 + z / 16777216 mod 256.

Definition to_be (z : Z) : Z := swap_bytes32 z.
Definition from_be (z : Z) : Z := swap_bytes32 z.

(** The derived order on the four octets. *)
Definition addr_ltb (a b : Ipv4Addr) : bool :=
  if oct0 a =? oct0 b then
    if oct1 a =? oct1 b then
      if oct2 a =? oct2 b then oct3 a <? oct3 b else oct2 a <? oct2 b
    else oct1 a <? oct1 b
  else oct0 a <? oct0 b.

(** [Iterator::min]. *)
Fixpoint addr_min (l : list Ipv4Addr) : option Ipv4Addr :=
  match l with
  | [] => None
  | a :: l => Some (match addr_min l with
                    | Some b => if addr_ltb b a then b else a
                    | None => a
                    end)
  end.

Definition display_addr (a : Ipv4Addr) : str :=
  display_u8 (oct0 a) ++ 46 :: display_u8 (oct1 a) ++ 46 :: display_u8 (oct2 a) ++ 46 :: display_u8 (oct3 a).

(** ** Facts *)

Lemma addr_wf_bounds a :
  addr_wf a <-> is_byte (oct0 a) /\ is_byte (oct1 a) /\ is_byte (oct2 a) /\ is_byte (oct3 a).
Proof. unfold addr_wf, octets. rewrite !Forall_cons, Forall_nil. tauto. Qed.

Ltac unfold_addr :=
  repeat match goal with H : addr_wf _ |- _ => apply addr_wf_bounds in H end;
  unfold is_byte in *; break.

(** The four base-256 digits of a sum of four digits. *)
Lemma digits256 a b c d :
  is_byte a -> is_byte b -> is_byte c -> is_byte d ->
  let z := a * 16777216 + b * 65536 + c * 256 + d in
  z mod 256 = d /\ z / 256 mod 256 = c /\ z / 65536 mod 256 = b /\ z / 16777216 mod 256 = a.
Proof.
  intros Ha Hb Hc Hd z. unfold is_byte in *.
  rewrite <- (Z.div_unique z 256 (a * 65536 + b * 256 + c) d) by lia.
  rewrite <- (Z.div_unique z 65536 (a * 256 + b) (c * 256 + d)) by lia.
  rewrite <- (Z.div_unique z 16777216 a (b * 65536 + c * 256 + d)) by lia.
  repeat split; symmetry.
  - apply (Z.mod_unique z 256 (a * 65536 + b * 256 + c)); lia.
  - apply (Z.mod_unique _ 256 (a * 256 + b)); lia.
  - apply (Z.mod_unique _ 256 a); lia.
  - apply (Z.mod_unique _ 256 0); lia.
Qed.

Lemma digits256_complete z :
  fits 32 z ->
  exists a b c d, is_byte a /\ is_byte b /\ is_byte c /\ is_byte d /\
    z = a * 16777216 + b * 65536 + c * 256 + d.
Proof.
  unfold fits, is_byte. change (2 ^ 32) with 4294967296. intros H.
  exists (z / 256 / 256 / 256), (z / 256 / 256 mod 256), (z / 256 mod 256), (z mod 256).
  pose proof (Z.div_mod z 256 ltac:(lia)) as E0.
  pose proof (Z.div_mod (z / 256) 256 ltac:(lia)) as E1.
  pose proof (Z.div_mod (z / 256 / 256) 256 ltac:(lia)) as E2.
  pose proof (Z.mod_pos_bound z 256 ltac:(lia)).
  pose proof (Z.mod_pos_bound (z / 256) 256 ltac:(lia)).
  pose proof (Z.mod_pos_bound (z / 256 / 256) 256 ltac:(lia)).
  repeat split; lia.
Qed.

Lemma from_to_bits a : addr_wf a -> from_bits (to_bits a) = a.
Proof.
  intros (? & ? & ? & ?)%addr_wf_bounds. destruct a as [a b c d]; cbn in *.
  unfold from_bits, to_bits; cbn. by edestruct (digits256 a b c d) as (-> & -> & -> & ->).
Qed.

Lemma to_from_bits z : fits 32 z -> to_bits (from_bits z) = z.
Proof.
  intros (a & b & c & d & ? & ? & ? & ? & ->)%digits256_complete. unfold to_bits, from_bits; cbn.
  by edestruct (digits256 a b c d) as (-> & -> & -> & ->).
Qed.

Lemma from_bits_wf z : addr_wf (from_bits z).
Proof. apply addr_wf_bounds. unfold is_byte; cbn. repeat split; apply Z.mod_pos_bound; lia. Qed.

Lemma to_bits_fits a : addr_wf a -> fits 32 (to_bits a).
Proof. intros H. unfold_addr. unfold fits, to_bits. change (2 ^ 32) with 4294967296. lia. Qed.

Lemma swap_bytes32_involutive z : fits 32 z -> swap_bytes32 (swap_bytes32 z) = z.
Proof.
  intros (a & b & c & d & ? & ? & ? & ? & ->)%digits256_complete. unfold swap_bytes32.
  edestruct (digits256 a b c d) as (-> & -> & -> & ->); try done.
  by edestruct (digits256 d c b a) as (-> & -> & -> & ->).
Qed.

(** Comparing octets is comparing the addresses as big-endian numbers. *)
Lemma addr_ltb_bits a b : addr_wf a -> addr_wf b -> addr_ltb a b = (to_bits a <? to_bits b).
Proof.
  intros Ha Hb. unfold_addr. unfold addr_ltb, to_bits.
  apply eq_true_iff_eq. rewrite Z.ltb_lt.
  repeat case_match; rewrite ?Z.eqb_eq, ?Z.eqb_neq, ?Z.ltb_lt in *; lia.
Qed.

Lemma to_bits_inj a b : addr_wf a -> addr_wf b -> to_bits a = to_bits b -> a = b.
Proof. intros Ha Hb H. by rewrite <- (from_to_bits a), H, from_to_bits. Qed.

Lemma addr_min_none l : addr_min l = None <-> l = [].
Proof. by destruct l. Qed.

Lemma addr_min_in l m : addr_min l = Some m -> m ∈ l.
Proof.
  revert m. induction l as [|a l IH]; intros m H; [done|]. cbn in H. simplify_eq.
  destruct (addr_min l) as [b|]; [|by left]. destruct (addr_ltb b a); [right; auto|by left].
Qed.

Lemma addr_min_le l m a :
  Forall addr_wf l -> addr_min l = Some m -> a ∈ l -> to_bits m <= to_bits a.
Proof.
  intros Hwf. revert m. induction Hwf as [|x l Hx Hl IH]; intros m Hm Ha; [by apply elem_of_nil in Ha|].
  cbn in Hm. simplify_eq. destruct (addr_min l) as [b|] eqn:E.
  - pose proof (proj1 (Forall_forall _ _) Hl b (addr_min_in _ _ E)) as Hb.
    rewrite addr_ltb_bits by done. specialize (IH b eq_refl).
    destruct (Z.ltb_spec (to_bits b) (to_bits x));
      apply elem_of_cons in Ha as [->|Ha%IH]; lia.
  - apply addr_min_none in E as ->. apply list_elem_of_singleton in Ha as ->. lia.
Qed.

Lemma display_addr_length a : (length (display_addr a) <= 15)%nat.
Proof.
  unfold display_addr. rewrite !length_app; cbn [length]. rewrite !length_app; cbn [length].
  rewrite !length_app; cbn [length].
  pose proof (display_aux_length 3 (oct0 a) []). pose proof (display_aux_length 3 (oct1 a) []).
  pose proof (display_aux_length 3 (oct2 a) []). pose proof (display_aux_length 3 (oct3 a) []).
  unfold display_u8. cbn [length] in *. lia.
Qed.
