(* ===== verification/Vendor.v ===== *)
(** * What the crate uses of the [uuid] and [heapless] crates

    Neither crate is part of the repository, so their types and functions are
    parameters ([Vendor]) and the documented behaviour the firmware relies on is a
    set of laws ([VendorLaws]).  Containers are observed through their iterators,
    whose order is left open where the documentation leaves it open.
    [VendorRef.v] instantiates both classes. *)

From S2P Require Import Prelude Text Net.

(** [ADDRESS_BOOK_ENTRIES], the capacity of [Ledger::jobs] and that of the
    receiver's [HistoryBuf], as the source instantiates the generic containers. *)
Definition ADDRESS_BOOK_ENTRIES : Z := 32.
Definition LEDGER_JOBS : Z := 8.
Definition HISTORY_ENTRIES : Z := 24.

Class Vendor := {
  (** [uuid::Uuid], its [Display] and its [FromStr]. *)
  Uuid : Type;
  uuid_eq_dec :: EqDecision Uuid;
  uuid_display : Uuid -> str;
  uuid_parse : str -> option Uuid;

  (** [heapless::index_set::FnvIndexSet<Uuid, 8>]; [insert] gives the value back
      when the set is full. *)
  JobSet : Type;
  jobs_new : JobSet;
  jobs_iter : JobSet -> list Uuid;
  jobs_insert : Uuid -> JobSet -> JobSet * result bool Uuid;
  jobs_remove : Uuid -> JobSet -> JobSet * bool;

  (** [heapless::LinearMap<Ipv4Addr, Instant, 32>]; an [Instant] is its tick
      count. *)
  Book : Type;
  book_new : Book;
  book_iter : Book -> list (Ipv4Addr * Z);
  book_insert : Ipv4Addr -> Z -> Book -> Book * result (option Z) (Ipv4Addr * Z);
  book_retain : (Ipv4Addr -> Z -> bool) -> Book -> Book;

  (** [heapless::HistoryBuf<Uuid, 24>], observed from the oldest entry on. *)
  History : Type;
  history_new : History;
  history_iter : History -> list Uuid;
  history_contains : Uuid -> History -> bool;
  history_write : Uuid -> History -> History;

  (** [heapless::format!(N; ..)], which is also [write!] to an empty
      [heapless::String<N>]: the bytes of the string, or [None] when they do not
      fit. *)
  format_n : Z -> str -> option bytes;

  (** [heapless::CString<N>], as its content without the final nul. *)
  ExtendError : Type;
  cstring_extend : Z -> bytes -> bytes -> result bytes ExtendError;
  cstring_from_bytes_with_nul : Z -> bytes -> result bytes ExtendError
}.

Section derived.
Context `{V : Vendor}.

Definition book_keys (b : Book) : list Ipv4Addr := (book_iter b).*1.
Definition book_is_empty (b : Book) : bool := bool_decide (book_iter b = []).

(** The characters of a hyphenated UUID. *)
Definition is_uuid_char (c : Z) : bool := in_range 48 57 c || in_range 97 102 c || (c =? 45).
End derived.

Definition no_nul (b : bytes) : Prop := 0 ∉ b.

Class VendorLaws (V : Vendor) : Prop := {
  uuid_display_length u : len (uuid_display u) = 36;
  uuid_display_chars u : Forall (fun c => is_uuid_char c = true) (uuid_display u);
  uuid_parse_display u : uuid_parse (uuid_display u) = Some u;

  jobs_new_iter : jobs_iter jobs_new = [];
  jobs_nodup s : NoDup (jobs_iter s);
  jobs_bound s : len (jobs_iter s) <= LEDGER_JOBS;
  jobs_insert_present u s :
    u ∈ jobs_iter s ->
    exists s', jobs_insert u s = (s', Ok false) /\ (forall w, w ∈ jobs_iter s' <-> w ∈ jobs_iter s);
  jobs_insert_new u s :
    u ∉ jobs_iter s -> len (jobs_iter s) < LEDGER_JOBS ->
    exists s', jobs_insert u s = (s', Ok true) /\ (forall w, w ∈ jobs_iter s' <-> w = u \/ w ∈ jobs_iter s);
  jobs_insert_full u s :
    u ∉ jobs_iter s -> len (jobs_iter s) = LEDGER_JOBS ->
    exists s', jobs_insert u s = (s', Err u) /\ (forall w, w ∈ jobs_iter s' <-> w ∈ jobs_iter s);
  jobs_remove_spec u s :
    exists s', jobs_remove u s = (s', bool_decide (u ∈ jobs_iter s)) /\
      (forall w, w ∈ jobs_iter s' <-> w <> u /\ w ∈ jobs_iter s);

  book_new_iter : book_iter book_new = [];
  book_nodup b : NoDup (book_iter b).*1;
  book_bound b : len (book_iter b) <= ADDRESS_BOOK_ENTRIES;
  book_insert_room a t b :
    a ∈ (book_iter b).*1 \/ len (book_iter b) < ADDRESS_BOOK_ENTRIES ->
    exists b' old, book_insert a t b = (b', Ok old) /\
      (forall k v, (k, v) ∈ book_iter b' <-> k = a /\ v = t \/ k <> a /\ (k, v) ∈ book_iter b);
  book_insert_full a t b :
    a ∉ (book_iter b).*1 -> len (book_iter b) = ADDRESS_BOOK_ENTRIES ->
    exists b', book_insert a t b = (b', Err (a, t)) /\
      (forall k v, (k, v) ∈ book_iter b' <-> (k, v) ∈ book_iter b);
  book_retain_spec f b k v :
    (k, v) ∈ book_iter (book_retain f b) <-> (k, v) ∈ book_iter b /\ f k v = true;

  history_new_iter : history_iter history_new = [];
  history_contains_spec u h : history_contains u h = bool_decide (u ∈ history_iter h);
  history_write_spec u h :
    history_iter (history_write u h) =
      (if len (history_iter h) =? HISTORY_ENTRIES then drop 1 (history_iter h) else history_iter h) ++ [u];
  history_bound h : len (history_iter h) <= HISTORY_ENTRIES;

  format_n_fits n s : len (as_bytes s) <= n -> format_n n s = Some (as_bytes s);
  format_n_full n s : n < len (as_bytes s) -> format_n n s = None;

  cstring_extend_fits n c b :
    no_nul b -> len c + len b + 1 <= n -> cstring_extend n c b = Ok (c ++ b);
  cstring_extend_full n c b :
    no_nul b -> b <> [] -> n < len c + len b + 1 -> exists e, cstring_extend n c b = Err e;
  cstring_from_fits n b : no_nul b -> len b + 1 <= n -> cstring_from_bytes_with_nul n b = Ok b;
  cstring_from_full n b :
    no_nul b -> b <> [] -> n < len b + 1 -> exists e, cstring_from_bytes_with_nul n b = Err e
}.

Section facts.
Context `{V : Vendor} {L : VendorLaws V}.

Lemma uuid_char_ascii c : is_uuid_char c = true -> is_ascii c.
Proof.
  unfold is_uuid_char, is_ascii. rewrite !orb_true_iff, !in_range_true, Z.eqb_eq. lia.
Qed.

Lemma uuid_char_not_whitespace c : is_uuid_char c = true -> is_whitespace c = false.
Proof.
  unfold is_uuid_char. rewrite !orb_true_iff, !in_range_true, Z.eqb_eq. intros H.
  apply not_true_iff_false. unfold is_whitespace, in_range.
  rewrite !orb_true_iff, !andb_true_iff, !Z.eqb_eq, !Z.leb_le. lia.
Qed.

Lemma uuid_display_ascii u : Forall is_ascii (uuid_display u).
Proof. eapply Forall_impl; [apply uuid_display_chars|]. apply uuid_char_ascii. Qed.

Lemma uuid_display_no u c : is_uuid_char c = false -> c ∉ uuid_display u.
Proof.
  intros Hc Hin. pose proof (proj1 (Forall_forall _ _) (uuid_display_chars u) c Hin) as E.
  cbn in E. congruence.
Qed.

Lemma uuid_display_inj u w : uuid_display u = uuid_display w -> u = w.
Proof. intros H. apply (inj Some). by rewrite <- !uuid_parse_display, H. Qed.

(** Text that is ASCII occupies one byte per character. *)
Lemma format_n_ascii n s : Forall is_ascii s -> len s <= n -> format_n n s = Some s.
Proof. intros Ha Hl. rewrite format_n_fits; by rewrite as_bytes_ascii. Qed.

Lemma format_n_ascii_full n s : Forall is_ascii s -> n < len s -> format_n n s = None.
Proof. intros Ha Hl. rewrite format_n_full; [done|]. by rewrite as_bytes_ascii. Qed.
(** A key has one time stamp. *)
Lemma book_stamp b k t t' : (k, t) ∈ book_iter b -> (k, t') ∈ book_iter b -> t = t'.
Proof.
  intros [i Hi]%list_elem_of_lookup [j Hj]%list_elem_of_lookup. assert (i = j) as <-.
  { eapply NoDup_lookup; [exact (book_nodup b)| |]; rewrite list_lookup_fmap; [by rewrite Hi|by rewrite Hj]. }
  rewrite Hi in Hj. by simplify_eq.
Qed.
End facts.

#[export] Hint Resolve uuid_display_ascii uuid_display_chars : derust.
