(* ===== verification/VendorRef.v ===== *)
(** * A concrete instance of the third-party interface

    List-based containers and a 32-digit UUID satisfy [VendorLaws]; the examples
    and witnesses of the library evaluate with them. *)

From S2P Require Import Prelude Text Net Vendor.

(** A value of a decidable subset type, falling back to [d] when [x] is not in
    the subset. *)
Definition dmk {A} {P : A -> Prop} `{forall x, Decision (P x)} (x : A) (d : dsig P) : dsig P :=
  match decide (P x) with left p => dexist x p | right _ => d end.

Lemma dmk_val {A} {P : A -> Prop} `{forall x, Decision (P x)} (x : A) (d : dsig P) :
  P x -> proj1_sig (dmk x d) = x.
Proof. intros Hx. unfold dmk. by destruct (decide (P x)). Qed.

Lemma dsig_prop {A} {P : A -> Prop} `{forall x, Decision (P x)} (d : dsig P) : P (`d).
Proof. exact (proj2_dsig d). Qed.

(** ** UUIDs *)

Definition uuid_ok (l : list Z) : Prop := length l = 32%nat /\ Forall (fun d => 0 <= d < 16) l.

#[export] Instance uuid_ok_dec l : Decision (uuid_ok l).
Proof. unfold uuid_ok. apply _. Defined.

Definition ref_uuid : Type := dsig uuid_ok.

Definition uuid_zero : ref_uuid := dexist (P:=uuid_ok) (repeat 0 32) ltac:(by apply (bool_decide_unpack _)).

Definition hex (d : Z) : Z := if d <? 10 then 48 + d else 87 + d.

Definition unhex (c : Z) : option Z :=
  if in_range 48 57 c then Some (c - 48) else if in_range 97 102 c then Some (c - 87) else None.

Definition hyphenate (l : list Z) : str :=
  take 8 l ++ 45 :: take 4 (drop 8 l) ++ 45 :: take 4 (drop 12 l) ++ 45 :: take 4 (drop 16 l)
    ++ 45 :: drop 20 l.

Definition ref_uuid_display (u : ref_uuid) : str := hyphenate (hex <$> `u).

Definition ref_uuid_parse (s : str) : option ref_uuid :=
  l ← mapM unhex (filter (fun c => c <> 45) s);
  let u := dmk l uuid_zero in
  if decide (ref_uuid_display u = s) then Some u else None.

(** A UUID from its last digits, for examples. *)
Definition uuid_of (d : list Z) : ref_uuid := dmk (repeat 0 (32 - length d) ++ d) uuid_zero.

Lemma hex_char d : 0 <= d < 16 -> is_uuid_char (hex d) = true /\ hex d <> 45 /\ unhex (hex d) = Some d.
Proof.
  intros H. assert (d ∈ seqZ 0 16) as Hd by (apply elem_of_seqZ; lia).
  assert (Forall (fun d => is_uuid_char (hex d) = true /\ hex d <> 45 /\ unhex (hex d) = Some d) (seqZ 0 16)) as Hf.
  { by apply (bool_decide_unpack _). }
  by eapply Forall_forall in Hf.
Qed.

Lemma hyphenate_filter l :
  Forall (fun c => c <> 45) l -> filter (fun c => c <> 45) (hyphenate l) = l.
Proof.
  intros H. assert (forall k, Forall (fun c => c <> 45) k -> filter (fun c => c <> 45) k = k) as Hid.
  { induction 1 as [|x k Hx _ IH]; [done|]. by rewrite filter_cons_True, IH. }
  unfold hyphenate. repeat (rewrite filter_app || (rewrite filter_cons_False by (intros []; done))).
  rewrite !Hid by (auto using Forall_take, Forall_drop).
  assert (forall m n k, (m + n)%nat = k -> take n (drop m l) ++ drop k l = drop m l) as Hs.
  { intros m n k <-. rewrite <- drop_drop. apply take_drop. }
  rewrite (Hs 16%nat 4%nat), (Hs 12%nat 4%nat), (Hs 8%nat 4%nat) by done. apply take_drop.
Qed.

(** ** Containers *)

Definition jobs_ok (l : list ref_uuid) : Prop := NoDup l /\ len l <= LEDGER_JOBS.
#[export] Instance jobs_ok_dec l : Decision (jobs_ok l).
Proof. unfold jobs_ok. apply _. Defined.

Definition book_ok (l : list (Ipv4Addr * Z)) : Prop := NoDup l.*1 /\ len l <= ADDRESS_BOOK_ENTRIES.
#[export] Instance book_ok_dec l : Decision (book_ok l).
Proof. unfold book_ok. apply _. Defined.

Definition history_ok (l : list ref_uuid) : Prop := len l <= HISTORY_ENTRIES.
#[export] Instance history_ok_dec l : Decision (history_ok l).
Proof. unfold history_ok. apply _. Defined.

Definition ref_jobs_insert (u : ref_uuid) (s : dsig jobs_ok) : dsig jobs_ok * result bool ref_uuid :=
  if decide (u ∈ `s) then (s, Ok false)
  else if len (`s) <? LEDGER_JOBS then (dmk (`s ++ [u]) s, Ok true)
  else (s, Err u).

Definition ref_jobs_remove (u : ref_uuid) (s : dsig jobs_ok) : dsig jobs_ok * bool :=
  (dmk (filter (fun w => w <> u) (`s)) s, bool_decide (u ∈ `s)).

Definition ref_book_insert (a : Ipv4Addr) (t : Z) (b : dsig book_ok) :
    dsig book_ok * result (option Z) (Ipv4Addr * Z) :=
  if decide (a ∈ (`b).*1) then
    (dmk ((fun p => if decide (p.1 = a) then (a, t) else p) <$> `b) b,
     Ok (snd <$> head (filter (fun p => p.1 = a) (`b))))
  else if len (`b) <? ADDRESS_BOOK_ENTRIES then (dmk (`b ++ [(a, t)]) b, Ok None)
  else (b, Err (a, t)).

Definition ref_book_retain (f : Ipv4Addr -> Z -> bool) (b : dsig book_ok) : dsig book_ok :=
  dmk (filter (fun p => f p.1 p.2 = true) (`b)) b.

Definition ref_history_write (u : ref_uuid) (h : dsig history_ok) : dsig history_ok :=
  dmk ((if len (`h) =? HISTORY_ENTRIES then drop 1 (`h) else `h) ++ [u]) h.

(** ** Strings *)

Definition ref_format_n (n : Z) (s : str) : option bytes :=
  if len (as_bytes s) <=? n then Some (as_bytes s) else None.

Definition ref_cstring_extend (n : Z) (c b : bytes) : result bytes unit :=
  if decide (b = []) then Ok c
  else if decide (0 ∈ b) then Err tt
  else if len c + len b + 1 <=? n then Ok (c ++ b) else Err tt.

#[export] Instance ref_vendor : Vendor := {
  Uuid := ref_uuid;
  uuid_display := ref_uuid_display;
  uuid_parse := ref_uuid_parse;
  JobSet := dsig jobs_ok;
  jobs_new := dexist (P:=jobs_ok) [] ltac:(by apply (bool_decide_unpack _));
  jobs_iter s := `s;
  jobs_insert := ref_jobs_insert;
  jobs_remove := ref_jobs_remove;
  Book := dsig book_ok;
  book_new := dexist (P:=book_ok) [] ltac:(by apply (bool_decide_unpack _));
  book_iter b := `b;
  book_insert := ref_book_insert;
  book_retain := ref_book_retain;
  History := dsig history_ok;
  history_new := dexist (P:=history_ok) [] ltac:(by apply (bool_decide_unpack _));
  history_iter h := `h;
  history_contains u h := bool_decide (u ∈ `h);
  history_write := ref_history_write;
  format_n := ref_format_n;
  ExtendError := unit;
  cstring_extend := ref_cstring_extend;
  cstring_from_bytes_with_nul n b := ref_cstring_extend n [] b
}.

(** ** The laws hold *)

Lemma len_filter_le {A} (P : A -> Prop) `{forall x, Decision (P x)} (l : list A) : len (filter P l) <= len l.
Proof. unfold len. pose proof (length_filter P l). lia. Qed.

Lemma ref_parse_display u : ref_uuid_parse (ref_uuid_display u) = Some u.
Proof.
  pose proof (dsig_prop u) as [_ Hd]. unfold ref_uuid_parse, ref_uuid_display.
  rewrite hyphenate_filter.
  - assert (mapM unhex (hex <$> `u) = Some (`u)) as ->.
    { induction Hd as [|d l Hd0 _ IH]; [done|]. cbn.
      destruct (hex_char d Hd0) as (_ & _ & ->). cbn. by rewrite IH. }
    cbn. assert (dmk (`u) uuid_zero = u) as ->.
    { apply dsig_eq. by apply dmk_val, (dsig_prop u). }
    by rewrite decide_True.
  - apply Forall_fmap. eapply Forall_impl; [exact Hd|]. intros d H. by apply hex_char.
Qed.

Lemma ref_display_length u : len (ref_uuid_display u) = 36.
Proof.
  pose proof (dsig_prop u) as [Hl _]. unfold ref_uuid_display, hyphenate.
  repeat (rewrite ?len_app, ?len_cons). unfold len.
  rewrite ?length_take, ?length_drop, ?length_fmap, Hl. reflexivity.
Qed.

Lemma ref_display_chars u : Forall (fun c => is_uuid_char c = true) (ref_uuid_display u).
Proof.
  pose proof (dsig_prop u) as [_ Hd].
  assert (Forall (fun c => is_uuid_char c = true) (hex <$> `u)) as Hh.
  { apply Forall_fmap. eapply Forall_impl; [exact Hd|]. intros d H. by apply hex_char. }
  unfold ref_uuid_display, hyphenate.
  repeat first [apply Forall_app; split | apply Forall_cons; split; [done|]];
    auto using Forall_take, Forall_drop.
Qed.

Lemma ref_jobs_insert_new u (s : dsig jobs_ok) :
  u ∉ proj1_sig s -> len (proj1_sig s) < LEDGER_JOBS ->
  exists s', ref_jobs_insert u s = (s', Ok true) /\
    (forall w, w ∈ proj1_sig s' <-> w = u \/ w ∈ proj1_sig s).
Proof.
  intros Hu Hl. unfold ref_jobs_insert. rewrite decide_False by done.
  rewrite (proj2 (Z.ltb_lt _ _) Hl). eexists. split; [done|]. intros w.
  rewrite dmk_val.
  - rewrite elem_of_app, list_elem_of_singleton. tauto.
  - destruct (dsig_prop s) as [Hnd _]. split.
    + apply NoDup_app. split; [done|]. split; [|by apply NoDup_singleton].
      intros x Hx ->%list_elem_of_singleton. done.
    + rewrite len_app, len_cons, len_nil. lia.
Qed.

Lemma ref_jobs_remove_spec u (s : dsig jobs_ok) :
  exists s', ref_jobs_remove u s = (s', bool_decide (u ∈ proj1_sig s)) /\
    (forall w, w ∈ proj1_sig s' <-> w <> u /\ w ∈ proj1_sig s).
Proof.
  eexists. split; [done|]. intros w. rewrite dmk_val; [by rewrite list_elem_of_filter|].
  destruct (dsig_prop s) as [Hnd Hl]. split; [by apply NoDup_filter|].
  pose proof (len_filter_le (fun w => w <> u) (proj1_sig s)). lia.
Qed.

Lemma ref_book_insert_room a t (b : dsig book_ok) :
  a ∈ (proj1_sig b).*1 \/ len (proj1_sig b) < ADDRESS_BOOK_ENTRIES ->
  exists b' old, ref_book_insert a t b = (b', Ok old) /\
    (forall k v, (k, v) ∈ proj1_sig b' <-> k = a /\ v = t \/ k <> a /\ (k, v) ∈ proj1_sig b).
Proof.
  intros Hor. destruct (dsig_prop b) as [Hnd Hl]. unfold ref_book_insert.
  destruct (decide (a ∈ (proj1_sig b).*1)) as [Ha|Ha].
  - eexists _, _. split; [done|]. intros k v. rewrite dmk_val.
    + rewrite list_elem_of_fmap. split.
      * intros ([k' v'] & Heq & Hin). cbn in Heq. case_decide; simplify_eq; auto.
      * intros [[-> ->]|[Hne Hin]].
        -- apply list_elem_of_fmap in Ha as ([k' v'] & -> & Hin). exists (k', v').
           cbn. by rewrite decide_True.
        -- exists (k, v). cbn. by rewrite decide_False.
    + split; [|by unfold len in *; rewrite length_fmap].
      rewrite <- list_fmap_compose. erewrite list_fmap_ext; [exact Hnd|].
      intros i [k' v'] _. cbn. case_decide; by subst.
  - destruct Hor as [?|Hlt]; [done|]. rewrite (proj2 (Z.ltb_lt _ _) Hlt).
    eexists _, _. split; [done|]. intros k v. rewrite dmk_val.
    + rewrite elem_of_app, list_elem_of_singleton. split.
      * intros [Hin|[= -> ->]]; [|auto]. right. split; [|done]. intros ->.
        apply Ha, list_elem_of_fmap. by exists (a, v).
      * intros [[-> ->]|[_ Hin]]; auto.
    + split; [|rewrite len_app, len_cons, len_nil; lia].
      rewrite fmap_app. apply NoDup_app. split; [done|]. split; [|by apply NoDup_singleton].
      intros x Hx ->%list_elem_of_singleton. done.
Qed.

Lemma ref_book_retain_spec f (b : dsig book_ok) k v :
  (k, v) ∈ proj1_sig (ref_book_retain f b) <-> (k, v) ∈ proj1_sig b /\ f k v = true.
Proof.
  unfold ref_book_retain. rewrite dmk_val; [rewrite list_elem_of_filter; cbn; tauto|].
  destruct (dsig_prop b) as [Hnd Hl]. split.
  - apply (sublist_NoDup _ _ Hnd). apply fmap_sublist, sublist_filter.
  - pose proof (len_filter_le (fun p => f p.1 p.2 = true) (proj1_sig b)). lia.
Qed.

Lemma ref_history_write_spec u (h : dsig history_ok) :
  proj1_sig (ref_history_write u h) =
    (if len (proj1_sig h) =? HISTORY_ENTRIES then drop 1 (proj1_sig h) else proj1_sig h) ++ [u].
Proof.
  assert (len (proj1_sig h) <= HISTORY_ENTRIES) as Hl by apply (dsig_prop h). apply dmk_val.
  red. rewrite len_app, len_cons, len_nil.
  destruct (Z.eqb_spec (len (proj1_sig h)) HISTORY_ENTRIES) as [E|E]; [|unfold len in *; lia].
  unfold len, HISTORY_ENTRIES in *. rewrite length_drop. lia.
Qed.

Lemma ref_cstring_extend_fits n c b :
  no_nul b -> len c + len b + 1 <= n -> ref_cstring_extend n c b = Ok (c ++ b).
Proof.
  intros Hn Hl. unfold ref_cstring_extend. case_decide as E; [by rewrite E, app_nil_r|].
  rewrite decide_False by done. by rewrite (proj2 (Z.leb_le _ _) Hl).
Qed.

Lemma ref_cstring_extend_full n c b :
  no_nul b -> b <> [] -> n < len c + len b + 1 -> exists e, ref_cstring_extend n c b = Err e.
Proof.
  intros Hn Hb Hl. unfold ref_cstring_extend. rewrite decide_False, decide_False by done.
  rewrite (proj2 (Z.leb_gt _ _) Hl). eauto.
Qed.

#[export] Instance ref_vendor_laws : VendorLaws ref_vendor.
Proof.
  split; cbn -[ref_jobs_insert ref_jobs_remove ref_book_insert ref_history_write].
  - apply ref_display_length.
  - apply ref_display_chars.
  - apply ref_parse_display.
  - done.
  - intros s. apply (dsig_prop s).
  - intros s. apply (dsig_prop s).
  - intros u s Hu. exists s. unfold ref_jobs_insert. by rewrite decide_True.
  - apply ref_jobs_insert_new.
  - intros u s Hu Hl. exists s. unfold ref_jobs_insert. rewrite decide_False by done.
    by rewrite Hl.
  - apply ref_jobs_remove_spec.
  - done.
  - intros b. apply (dsig_prop b).
  - intros b. apply (dsig_prop b).
  - apply ref_book_insert_room.
  - intros a t b Ha Hl. exists b. unfold ref_book_insert. rewrite decide_False by done. by rewrite Hl.
  - apply ref_book_retain_spec.
  - done.
  - done.
  - apply ref_history_write_spec.
  - intros h. apply (dsig_prop h).
  - intros n s Hl. unfold ref_format_n. by rewrite (proj2 (Z.leb_le _ _) Hl).
  - intros n s Hl. unfold ref_format_n. by rewrite (proj2 (Z.leb_gt _ _) Hl).
  - apply ref_cstring_extend_fits.
  - apply ref_cstring_extend_full.
  - intros n b Hb Hl. by apply ref_cstring_extend_fits.
  - intros n b Hb Hne Hl. by apply ref_cstring_extend_full.
Qed.

Example display_example :
  uuid_display (uuid_of [1; 15]) = lit "00000000-0000-0000-0000-00000000001f".
Proof. vm_compute. reflexivity. Qed.
