(* ===== verification/Data.v ===== *)
(** * The data shared between the components

    The messages on the wire ([tasks/messages.rs]), the ledger state
    ([kinds.rs]), the error codes of lwIP and FatFs as the bindings mirror them,
    and lwIP's packet buffers. *)

From S2P Require Import Prelude Net Vendor.

(** ** Error codes *)

Module err_t.
Inductive t : Type :=
  | Ok | Mem | Buf | Timeout | Rte | InProgress | Val | WouldBlock | Use | Already
  | IsConn | Conn | If | Abrt | Rst | Clsd | Arg.

(** The [repr(i8)] discriminant. *)
Definition code (e : t) : Z :=
  match e with
  | Ok => 0 | Mem => -1 | Buf => -2 | Timeout => -3 | Rte => -4 | InProgress => -5
  | Val => -6 | WouldBlock => -7 | Use => -8 | Already => -9 | IsConn => -10
  | Conn => -11 | If => -12 | Abrt => -13 | Rst => -14 | Clsd => -15 | Arg => -16
  end.

(** The [thiserror] messages. *)
Definition display (e : t) : str :=
  match e with
  | Ok => lit "Ok: No error, all is ok"
  | Mem => lit "Out of memory error"
  | Buf => lit "Buffer error"
  | Timeout => lit "Timeout"
  | Rte => lit "Routing problem"
  | InProgress => lit "Operation in progress"
  | Val => lit "Illegal value"
  | WouldBlock => lit "Operation would block"
  | Use => lit "Address in use"
  | Already => lit "Already connecting / already connected"
  | IsConn => lit "Connection already established"
  | Conn => lit "Not connected"
  | If => lit "Low-level netif error"
  | Abrt => lit "Connection aborted"
  | Rst => lit "Connection reset"
  | Clsd => lit "Connection closed"
  | Arg => lit "Illegal argument"
  end.
End err_t.
Abbreviation err_t := err_t.t.

#[export] Instance err_eq_dec : EqDecision err_t.
Proof. solve_decision. Defined.

Module FResult.
Inductive t : Type :=
  | Ok | DiskErr | IntErr | NotReady | NoFile | NoPath | InvalidName | Denied | Exist
  | InvalidObject | WriteProtected | InvalidDrive | NotEnabled | NoFilesystem | MkfsAborted
  | Timeout | Locked | NotEnoughCore | TooManyOpenFiles | InvalidParameter.

Definition code (r : t) : Z :=
  match r with
  | Ok => 0 | DiskErr => 1 | IntErr => 2 | NotReady => 3 | NoFile => 4 | NoPath => 5
  | InvalidName => 6 | Denied => 7 | Exist => 8 | InvalidObject => 9 | WriteProtected => 10
  | InvalidDrive => 11 | NotEnabled => 12 | NoFilesystem => 13 | MkfsAborted => 14
  | Timeout => 15 | Locked => 16 | NotEnoughCore => 17 | TooManyOpenFiles => 18
  | InvalidParameter => 19
  end.
End FResult.
Abbreviation FResult := FResult.t.

#[export] Instance fresult_eq_dec : EqDecision FResult.
Proof. solve_decision. Defined.

(** ** Pointers and packet buffers *)

Abbreviation ptr := Z (only parsing).
Definition null : ptr := 0.

(** A node of a pbuf chain: where it lives, the bytes behind [payload] and the
    two length fields. *)
Record pbuf : Type := mkPbuf { pbuf_self : ptr; pbuf_payload : bytes; pbuf_tot_len : Z; pbuf_len : Z }.

(** A [*mut pbuf] is the chain that starts there, in the order of the [next]
    fields; the null pointer is the empty chain. *)
Abbreviation pbuf_ptr := (list pbuf) (only parsing).

Definition pbuf_is_null (p : pbuf_ptr) : bool := match p with [] => true | _ => false end.

Definition pbuf_addr (p : pbuf_ptr) : ptr := match p with [] => null | b :: _ => pbuf_self b end.

(** The header room and the storage class asked of [pbuf_alloc], with the values
    the bindings compute from lwIP's constants. *)
Inductive pbuf_layer : Type := Transport | Ip | Link | Raw.

Definition PBUF_LINK_ENCAPSULATION_HLEN : Z := 0.
Definition PBUF_LINK_HLEN : Z := 14.
Definition PBUF_IP_HLEN : Z := 20.
Definition PBUF_TRANSPORT_HLEN : Z := 20.

Definition pbuf_layer_code (l : pbuf_layer) : Z :=
  match l with
  | Transport => PBUF_LINK_ENCAPSULATION_HLEN + PBUF_LINK_HLEN + PBUF_IP_HLEN + PBUF_TRANSPORT_HLEN
  | Ip => PBUF_LINK_ENCAPSULATION_HLEN + PBUF_LINK_HLEN + PBUF_IP_HLEN
  | Link => PBUF_LINK_ENCAPSULATION_HLEN + PBUF_LINK_HLEN
  | Raw => PBUF_LINK_ENCAPSULATION_HLEN
  end.

Definition PBUF_TYPE_FLAG_STRUCT_DATA_CONTIGUOUS : Z := 128.
Definition PBUF_TYPE_FLAG_DATA_VOLATILE : Z := 64.
Definition PBUF_TYPE_ALLOC_SRC_MASK : Z := 15.
Definition PBUF_ALLOC_FLAG_RX : Z := 256.
Definition PBUF_ALLOC_FLAG_DATA_CONTIGUOUS : Z := 512.
Definition PBUF_TYPE_ALLOC_SRC_MASK_STD_HEAP : Z := 0.
Definition PBUF_TYPE_ALLOC_SRC_MASK_STD_MEMP_PBUF : Z := 1.
Definition PBUF_TYPE_ALLOC_SRC_MASK_STD_MEMP_PBUF_POOL : Z := 2.
Definition PBUF_TYPE_ALLOC_SRC_MASK_APP_MIN : Z := 3.

Inductive pbuf_type : Type := Ram | Rom | Ref | Pool.

Definition pbuf_type_code (t : pbuf_type) : Z :=
  match t with
  | Ram => Z.lor (Z.lor PBUF_ALLOC_FLAG_DATA_CONTIGUOUS PBUF_TYPE_FLAG_STRUCT_DATA_CONTIGUOUS) PBUF_TYPE_ALLOC_SRC_MASK_STD_HEAP
  | Rom => PBUF_TYPE_ALLOC_SRC_MASK_STD_MEMP_PBUF
  | Ref => Z.lor PBUF_TYPE_FLAG_DATA_VOLATILE PBUF_TYPE_ALLOC_SRC_MASK_STD_MEMP_PBUF
  | Pool => Z.lor (Z.lor PBUF_ALLOC_FLAG_RX PBUF_TYPE_FLAG_STRUCT_DATA_CONTIGUOUS) PBUF_TYPE_ALLOC_SRC_MASK_STD_MEMP_PBUF_POOL
  end.

(** The Rust wrapper that owns a chain. *)
Record PacketBuffer : Type := mkPacketBuffer { inner : pbuf_ptr; current : pbuf_ptr }.

(** FatFs's [FILINFO]. *)
Record FilInfo : Type := mkFilInfo {
  fsize : Z; fdate : Z; ftime : Z; fattrib : Z; altname : bytes; fname : bytes
}.

(** ** Messages and the ledger *)

Section data.
Context `{V : Vendor}.

Record Heartbeat : Type := mkHeartbeat { alive : bool }.
Record NewJob : Type := mkNewJob { guid : Uuid }.
Record Ledger : Type := mkLedger { owner : Ipv4Addr; jobs : JobSet }.

Inductive Payload : Type :=
  | Payload_Heartbeat (h : Heartbeat)
  | Payload_NewJob (j : NewJob)
  | Payload_Ledger (l : Ledger)
  | Payload_Log (s : str).

Record Message : Type := mkMessage { idempotency : Uuid; msg_payload : Payload }.

Record LedgerState : Type := mkLedgerState { ledger : Ledger; received : Z }.
End data.
