(* ===== verification/Ffi.v ===== *)
(** * The calls the crate makes to code outside it

    One constructor per foreign function or runtime operation.  The [extern "C"]
    blocks of [lwip/bindings.rs], [fs.rs], [marlin.rs], [log.rs] and [tasks/rng.rs]
    become [lwip_call], [fs_call], [marlin_call], [log_call] and [hal_call]; [rt_call]
    holds what the crate uses of the Embassy runtime, of atomics and of the random UUID
    generator.  [task_token] is the call of a task function, which answers whether the
    task's pool has room.  The rest of FreeRTOS is called by the executor, in [Rtos.v].

    The four kinds of objects with an [AtomicPtr<pcb>] are
    named by [obj], and the [extern "C"] functions registered as lwIP callbacks
    by [callback]. *)

From S2P Require Import Prelude Prog Net Vendor Data.

(** The Embassy tasks [embassy_main] spawns. *)
Inductive task_name : Type :=
  | Task_heartbeat | Task_address_book_lifetime_check | Task_manage_ledger | Task_udp_receiver
  | Task_tcp_worker | Task_distribute_file.

#[export] Instance task_name_eq_dec : EqDecision task_name.
Proof. solve_decision. Defined.

(** Which object's [pcb] field, and which callback argument. *)
Inductive obj : Type := Obj_UdpSocket | Obj_TcpListener | Obj_TcpConnection | Obj_PutRequest.

#[export] Instance obj_eq_dec : EqDecision obj.
Proof. solve_decision. Defined.

Inductive callback : Type :=
  | Listener_accept | Listener_hold_recv
  | Connection_recv | Connection_err | Connection_sent
  | Put_connected | Put_sent | Put_recv | Put_err
  | Udp_recv.

#[export] Instance callback_eq_dec : EqDecision callback.
Proof. solve_decision. Defined.

(** [lwip/bindings.rs]: raw addresses are 32-bit integers in network order, and
    [udp_sendto] comes with the chain its pointer leads to. *)
Inductive lwip_call : Type -> Type :=
  | derusting_tcp_sndbuf (pcb : ptr) : lwip_call Z
  | derusting_holds_tcpip_core_lock : lwip_call bool
  | derusting_tcp_has_refused_data (pcb : ptr) : lwip_call bool
  | tcp_new : lwip_call ptr
  | tcp_close (pcb : ptr) : lwip_call err_t
  | tcp_bind (pcb : ptr) (addr : Z) (port : Z) : lwip_call err_t
  | tcp_listen_with_backlog (pcb : ptr) (backlog : Z) : lwip_call ptr
  | tcp_arg (pcb : ptr) (arg : option obj) : lwip_call unit
  | tcp_abort (pcb : ptr) : lwip_call unit
  | tcp_connect (pcb : ptr) (addr : Z) (port : Z) (f : callback) : lwip_call err_t
  | tcp_accept (pcb : ptr) (f : option callback) : lwip_call unit
  | tcp_recv (pcb : ptr) (f : option callback) : lwip_call unit
  | tcp_err (pcb : ptr) (f : option callback) : lwip_call unit
  | tcp_sent (pcb : ptr) (f : option callback) : lwip_call unit
  | tcp_write (pcb : ptr) (data : bytes) (apiflags : Z) : lwip_call err_t
  | tcp_output (pcb : ptr) : lwip_call err_t
  | tcp_recved (pcb : ptr) (len : Z) : lwip_call unit
  | udp_new : lwip_call ptr
  | udp_bind (pcb : ptr) (addr : Z) (port : Z) : lwip_call err_t
  | udp_recv (pcb : ptr) (f : option callback) (arg : option obj) : lwip_call unit
  | udp_remove (pcb : ptr) : lwip_call unit
  | udp_sendto (pcb : ptr) (buf : pbuf_ptr) (addr : Z) (port : Z) : lwip_call err_t
  | pbuf_free (buf : ptr) : lwip_call Z
  | pbuf_alloc (layer : pbuf_layer) (length : Z) (type : pbuf_type) : lwip_call ptr
  | sys_mutex_lock : lwip_call unit
  | sys_mutex_unlock : lwip_call unit
  | netif_default_is_null : lwip_call bool
  | netif_default_ip_addr : lwip_call Z
  | tcpip_callback : lwip_call err_t
  | tcp_process_refused_data (pcb : ptr) : lwip_call err_t.

(** The C library and FatFs as [fs.rs] declares them.  [fread] answers with the
    bytes it stored in the buffer, whose number it returns. *)
Inductive fs_call : Type -> Type :=
  | fopen (path flags : bytes) : fs_call ptr
  | fwrite (data : bytes) (fp : ptr) : fs_call Z
  | fread (buf_len : Z) (fp : ptr) : fs_call bytes
  | fclose (fp : ptr) : fs_call unit
  | fseek (fp : ptr) (offset whence : Z) : fs_call Z
  | ftell (fp : ptr) : fs_call Z
  | fflush (fp : ptr) : fs_call Z
  | unlink (path : bytes) : fs_call Z
  | rename (oldpath newpath : bytes) : fs_call Z
  | f_stat (path : bytes) : fs_call (FResult * FilInfo)
  | f_findfirst (path pattern : bytes) : fs_call (FResult * ptr * FilInfo)
  | f_closedir (dir : ptr) : fs_call FResult.

(** [marlin.rs]. *)
Inductive marlin_call : Type -> Type :=
  | derusting_gcode_cmd (cmd : bytes) : marlin_call bool
  | derusting_is_idle : marlin_call bool
  | ready_flag_load : marlin_call bool
  | ready_flag_store (b : bool) : marlin_call unit
  | derusting_update_ui : marlin_call unit.

(** [tasks/rng.rs]: the status word and the random word. *)
Inductive hal_call : Type -> Type :=
  | HAL_RNG_GenerateRandomNumber : hal_call (Z * Z).

(** [log.rs]: severity and nul-terminated text. *)
Inductive log_call : Type -> Type :=
  | derusting_log_event (severity : Z) (msg : bytes) : log_call unit.

Section calls.
Context `{V : Vendor}.

(** [slice_read s] is a read, through a borrowed slice, of memory whose owner was
    dropped meanwhile: [s] is what it held, the answer what is read.

    Embassy's timers, channels, signals and mutexes, atomics, and
    [Uuid::new_v7]. A lock answers with the guarded value; dropping the guard
    writes it back.  A [try_send] answers whether the item was taken. *)
Inductive rt_call : Type -> Type :=
  | pcb_load (o : obj) : rt_call ptr
  | pcb_store (o : obj) (p : ptr) : rt_call unit
  | pcb_swap (o : obj) (p : ptr) : rt_call ptr
  | listener_try_send (p : ptr) : rt_call bool
  | listener_receive : rt_call ptr
  | listener_try_receive : rt_call (option ptr)
  | conn_try_send (m : option PacketBuffer) : rt_call bool
  | conn_receive : rt_call (option PacketBuffer)
  | conn_try_receive : rt_call (option (option PacketBuffer))
  | conn_clear : rt_call (list (option PacketBuffer))
  | udp_try_send (a : Ipv4Addr) (p : PacketBuffer) : rt_call bool
  | udp_receive : rt_call (Ipv4Addr * PacketBuffer)
  | files_try_send (g : Uuid) : rt_call bool
  | files_receive : rt_call Uuid
  | put_signal (e : err_t) : rt_call unit
  | put_wait : rt_call err_t
  | callback_signal_wait : rt_call unit
  | timer_after_millis (ms : Z) : rt_call unit
  | timer_after_secs (s : Z) : rt_call unit
  | instant_now : rt_call Z
  | instant_elapsed (t : Z) : rt_call Z
  | addresses_lock : rt_call Book
  | addresses_unlock (b : Book) : rt_call unit
  | jobs_lock : rt_call (option LedgerState)
  | jobs_unlock (l : option LedgerState) : rt_call unit
  | uuid_new_v7 (secs nanos : Z) : rt_call Uuid
  | slice_read (s : bytes) : rt_call bytes
  | vTaskDelay (ticks : Z) : rt_call unit
  | xTaskGetCurrentTaskHandle : rt_call ptr
  | task_token (t : task_name) : rt_call bool
  | spawn (t : task_name) : rt_call unit.

Inductive call : Type -> Type :=
  | CLwip {X} (c : lwip_call X) : call X
  | CFs {X} (c : fs_call X) : call X
  | CMarlin {X} (c : marlin_call X) : call X
  | CHal {X} (c : hal_call X) : call X
  | CLog {X} (c : log_call X) : call X
  | CRt {X} (c : rt_call X) : call X.

Definition lwip {X} (c : lwip_call X) : prog call X := Call (CLwip c) Ret.
Definition fs {X} (c : fs_call X) : prog call X := Call (CFs c) Ret.
Definition marlin {X} (c : marlin_call X) : prog call X := Call (CMarlin c) Ret.
Definition hal {X} (c : hal_call X) : prog call X := Call (CHal c) Ret.
Definition log_c {X} (c : log_call X) : prog call X := Call (CLog c) Ret.
Definition rt {X} (c : rt_call X) : prog call X := Call (CRt c) Ret.
End calls.

Abbreviation io := (prog call).
Abbreviation trace := (list (event call)).
