(* ===== verification/Env.v ===== *)
(** * A quiet environment

    An answer for every foreign call, with no state: files cannot be opened, no
    memory can be allocated, queues are empty and the printer is busy.  Concrete
    environments override the calls they are about. *)

From S2P Require Import Prelude Prog Net Vendor VendorRef Data Ffi.

Section env.
Context `{V : Vendor}.

Definition quiet_lwip {X} (c : lwip_call X) : X :=
  match c in lwip_call X return X with
  | derusting_tcp_sndbuf _ => 0
  | derusting_holds_tcpip_core_lock => false
  | derusting_tcp_has_refused_data _ => false
  | tcp_new => null
  | tcp_close _ => err_t.Ok
  | tcp_bind _ _ _ => err_t.Ok
  | tcp_listen_with_backlog _ _ => null
  | tcp_arg _ _ => tt
  | tcp_abort _ => tt
  | tcp_connect _ _ _ _ => err_t.Ok
  | tcp_accept _ _ => tt
  | tcp_recv _ _ => tt
  | tcp_err _ _ => tt
  | tcp_sent _ _ => tt
  | tcp_write _ _ _ => err_t.Ok
  | tcp_output _ => err_t.Ok
  | tcp_recved _ _ => tt
  | udp_new => null
  | udp_bind _ _ _ => err_t.Ok
  | udp_recv _ _ _ => tt
  | udp_remove _ => tt
  | udp_sendto _ _ _ _ => err_t.Ok
  | pbuf_free _ => 1
  | pbuf_alloc _ _ _ => null
  | sys_mutex_lock => tt
  | sys_mutex_unlock => tt
  | netif_default_is_null => true
  | netif_default_ip_addr => 0
  | tcpip_callback => err_t.Ok
  | tcp_process_refused_data _ => err_t.Ok
  end.

Definition no_info : FilInfo := mkFilInfo 0 0 0 0 [] [0].

Definition quiet_fs {X} (c : fs_call X) : X :=
  match c in fs_call X return X with
  | fopen _ _ => null
  | fwrite d _ => len d
  | fread _ _ => []
  | fclose _ => tt
  | fseek _ _ _ => 0
  | ftell _ => 0
  | fflush _ => 0
  | unlink _ => 0
  | rename _ _ => 0
  | f_stat _ => (FResult.NoFile, no_info)
  | f_findfirst _ _ => (FResult.Ok, null, no_info)
  | f_closedir _ => FResult.Ok
  end.

Definition quiet_marlin {X} (c : marlin_call X) : X :=
  match c in marlin_call X return X with
  | derusting_gcode_cmd _ => true
  | derusting_is_idle => false
  | ready_flag_load => false
  | ready_flag_store _ => tt
  | derusting_update_ui => tt
  end.

Definition quiet_hal {X} (c : hal_call X) : X :=
  match c in hal_call X return X with HAL_RNG_GenerateRandomNumber => (0, 0) end.

Definition quiet_log {X} (c : log_call X) : X :=
  match c in log_call X return X with derusting_log_event _ _ => tt end.

Definition quiet_rt (u : Uuid) {X} (c : rt_call X) : X :=
  match c in rt_call X return X with
  | pcb_load _ => null
  | pcb_store _ _ => tt
  | pcb_swap _ _ => null
  | listener_try_send _ => true
  | listener_receive => null
  | listener_try_receive => None
  | conn_try_send _ => true
  | conn_receive => None
  | conn_try_receive => None
  | conn_clear => []
  | udp_try_send _ _ => true
  | udp_receive => (mkAddr 0 0 0 0, mkPacketBuffer [] [])
  | files_try_send _ => true
  | files_receive => u
  | put_signal _ => tt
  | put_wait => err_t.Ok
  | callback_signal_wait => tt
  | timer_after_millis _ => tt
  | timer_after_secs _ => tt
  | instant_now => 0
  | instant_elapsed _ => 0
  | addresses_lock => book_new
  | addresses_unlock _ => tt
  | jobs_lock => None
  | jobs_unlock _ => tt
  | uuid_new_v7 _ _ => u
  | slice_read s => s
  | vTaskDelay _ => tt
  | xTaskGetCurrentTaskHandle => null
  | task_token _ => true
  | spawn _ => tt
  end.

Definition quiet (u : Uuid) {X} (c : call X) : X :=
  match c in call X return X with
  | CLwip c => quiet_lwip c
  | CFs c => quiet_fs c
  | CMarlin c => quiet_marlin c
  | CHal c => quiet_hal c
  | CLog c => quiet_log c
  | CRt c => quiet_rt u c
  end.
End env.

(** ** A scripted environment

    The packets and file contents that will arrive, the address of the machine, the handles
    that are given out and the state behind the two mutexes; everything else
    is as in the quiet environment, except that the printer is ready. *)

Section demo.
Context `{V : Vendor}.

Record demo : Type := mkDemo {
  d_conn : list (option PacketBuffer);
  d_udp : list (Ipv4Addr * PacketBuffer);
  d_reads : list bytes;
  d_pcb : ptr;
  d_file : ptr;
  d_addr : Z;
  d_book : Book;
  d_jobs : option LedgerState;
  d_now : Z
}.

Definition demo_rt (u : Uuid) {X} (c : rt_call X) (s : demo) : X * demo :=
  let '(mkDemo conn udp rd pcb file addr book jobs now) := s in
  match c in rt_call X return X * demo with
  | pcb_load _ => (pcb, s)
  | pcb_swap _ p => (pcb, mkDemo conn udp rd p file addr book jobs now)
  | listener_receive => (pcb, s)
  | conn_receive =>
      match conn with [] => (None, s) | m :: conn => (m, mkDemo conn udp rd pcb file addr book jobs now) end
  | udp_receive =>
      match udp with
      | [] => (quiet_rt u udp_receive, s)
      | m :: udp => (m, mkDemo conn udp rd pcb file addr book jobs now)
      end
  | addresses_lock => (book, s)
  | addresses_unlock b => (tt, mkDemo conn udp rd pcb file addr b jobs now)
  | jobs_lock => (jobs, s)
  | jobs_unlock l => (tt, mkDemo conn udp rd pcb file addr book l now)
  | instant_now => (now, s)
  | instant_elapsed t => (now - t, s)
  | c => (quiet_rt u c, s)
  end.

Definition demo_env (u : Uuid) : handler call demo := fun X c s =>
  match c in call X return X * demo with
  | CLwip c =>
      (match c in lwip_call X return X with
       | netif_default_is_null => false
       | netif_default_ip_addr => d_addr s
       | derusting_tcp_sndbuf _ => 100
       | tcp_new => d_pcb s
       | tcp_listen_with_backlog _ _ => d_pcb s
       | udp_new => d_pcb s
       | pbuf_alloc _ _ _ => 9
       | c => quiet_lwip c
       end, s)
  | CFs c =>
      match c in fs_call X return X * demo with
      | fopen _ _ => (d_file s, s)
      | f_stat _ => (FResult.Ok, mkFilInfo 3 0 0 0 [] [0], s)
      | fread _ _ =>
          match d_reads s with
          | [] => ([], s)
          | b :: rd => (b, mkDemo (d_conn s) (d_udp s) rd (d_pcb s) (d_file s) (d_addr s) (d_book s) (d_jobs s) (d_now s))
          end
      | c => (quiet_fs c, s)
      end
  | CMarlin c =>
      (match c in marlin_call X return X with
       | derusting_is_idle => true
       | ready_flag_load => true
       | c => quiet_marlin c
       end, s)
  | CRt c => demo_rt u c s
  | c => (quiet u c, s)
  end.
End demo.

(** A packet made of the given chunks, the first at address 1. *)
Fixpoint demo_chain (a : ptr) (cs : list bytes) : list pbuf :=
  match cs with
  | [] => []
  | c :: cs => mkPbuf a c (len (concat (c :: cs))) (len c) :: demo_chain (a + 1) cs
  end.

Definition demo_packet (cs : list bytes) : PacketBuffer := mkPacketBuffer (demo_chain 1 cs) (demo_chain 1 cs).

(** A small job id, an encoder of messages and the machine 10.0.0.5. *)
Definition demo_id (n : Z) : ref_uuid := uuid_of [n].

Definition demo_addr (h : Z) : Ipv4Addr := mkAddr 10 0 0 h.

Definition demo_start (conn : list (option PacketBuffer)) : @demo ref_vendor :=
  mkDemo conn [] [] 5 7 (to_be (to_bits (demo_addr 5))) book_new None 1000.

Definition demo_h : handler call (@demo ref_vendor) := demo_env (demo_id 3).
