(* ===== verification/Lwip.v ===== *)
(** * Calling lwIP safely ([lwip/mod.rs])

    lwIP may only be called with its core lock held.  [async_lwip] ships a closure
    to lwIP's own thread and waits for it; [blocking_lwip] takes the lock, unless
    the caller already runs with it. *)

From S2P Require Import Prelude Prog Net Vendor Data Ffi.

Section lwip.
Context `{V : Vendor}.

(** The machine's address, kept by lwIP in network byte order. *)
Definition my_ipaddr : io (option Ipv4Addr) :=
  b ← lwip netif_default_is_null;
  if b : bool then Ret None
  else
    a ← lwip netif_default_ip_addr;
    Ret (Some (from_bits (from_be a))).

(** [lwip/ipaddr.rs]: a pointer to lwIP's address, null or leading to a number in network order. *)
Record IpAddr : Type := mkIpAddr { ip_inner : Z }.

Inductive ip_error : Type := Error_Null.

Definition ip_error_display (e : ip_error) : str := match e with Error_Null => lit "Value is null." end.

Definition ip_try_from (value : option Z) : result IpAddr ip_error :=
  match value with None => Err Error_Null | Some a => Ok (mkIpAddr a) end.

Definition ip_addr (a : IpAddr) : Z := ip_inner a.

(** Between an accepted [tcpip_callback] and the completion signal the closure
    runs on lwIP's thread. *)
Definition async_lwip (closure : io (result unit err_t)) : io (result unit err_t) :=
  err ← lwip tcpip_callback;
  if decide (err <> err_t.Ok) then Ret (Err err)
  else
    res ← closure;
    rt callback_signal_wait;;
    Ret res.

Definition blocking_lwip {R} (closure : io (result R err_t)) : io (result R err_t) :=
  b ← lwip derusting_holds_tcpip_core_lock;
  if b : bool then closure
  else
    lwip sys_mutex_lock;;
    res ← closure;
    lwip sys_mutex_unlock;;
    Ret res.
End lwip.

(** ** The core lock *)

(** Who holds the core lock when this task runs: nobody of ours, this task after
    [sys_mutex_lock], or the lwIP thread that runs a closure of ours. *)
Inductive lock : Type := Unlocked | Locked | OnThread.

#[export] Instance lock_eq_dec : EqDecision lock.
Proof. solve_decision. Defined.

(** Does this lwIP function need the core lock?  The lock primitives themselves,
    the query and [tcpip_callback] do not, and reading [netif_default] is done
    without it by [my_ipaddr]. *)
Definition needs_lock {X} (c : lwip_call X) : bool :=
  match c with
  | derusting_holds_tcpip_core_lock | sys_mutex_lock | sys_mutex_unlock
  | netif_default_is_null | netif_default_ip_addr | tcpip_callback => false
  | _ => true
  end.

Section discipline.
Context `{V : Vendor}.

(** One event, seen by the lock. [None] is a misuse: an API call without the
    lock, a second acquisition, a release of a lock not held. *)
Definition lock_step {X} (l : lock) (c : lwip_call X) : X -> option lock :=
  match c in lwip_call X return X -> option lock with
  | tcpip_callback => fun err =>
      match l with
      | Unlocked => Some (if decide (err = err_t.Ok) then OnThread else Unlocked)
      | _ => None
      end
  | sys_mutex_lock => fun _ => match l with Unlocked => Some Locked | _ => None end
  | sys_mutex_unlock => fun _ => match l with Locked => Some Unlocked | _ => None end
  | derusting_holds_tcpip_core_lock | netif_default_is_null | netif_default_ip_addr => fun _ => Some l
  | _ => fun _ => match l with Unlocked => None | _ => Some l end
  end.

Definition lock_event (l : lock) (e : event call) : option lock :=
  match e with
  | @Ev _ X c x =>
      match c in call X return X -> option lock with
      | CLwip c => lock_step l c
      | CRt callback_signal_wait => fun _ => match l with OnThread => Some Unlocked | _ => None end
      | _ => fun _ => Some l
      end x
  end.

(** The platform's answer to "do I hold the lock?" is right. *)
Definition lock_answer_ok (l : lock) (e : event call) : Prop :=
  match e with
  | @Ev _ X c x =>
      match c in call X return X -> Prop with
      | CLwip c =>
          match c in lwip_call X return X -> Prop with
          | derusting_holds_tcpip_core_lock => fun b => b = bool_decide (l <> Unlocked)
          | _ => fun _ => True
          end
      | _ => fun _ => True
      end x
  end.

(** [lock_safe l tr l']: along [tr], started with the lock in state [l], every
    call respects the lock and it ends in state [l'], as long as the platform
    answers the query truthfully. *)
Fixpoint lock_safe (l : lock) (tr : trace) (l' : lock) : Prop :=
  match tr with
  | [] => l = l'
  | e :: tr =>
      lock_answer_ok l e ->
      exists l1, lock_event l e = Some l1 /\ lock_safe l1 tr l'
  end.

(** Every run of [p] started in [l] is safe and ends in [l']. *)
Definition locked {A} (l : lock) (p : io A) (l' : lock) : Prop :=
  forall tr a, exec p tr (Done a) -> lock_safe l tr l'.

Lemma lock_safe_app l tr1 l1 tr2 l2 :
  lock_safe l tr1 l1 -> lock_safe l1 tr2 l2 -> lock_safe l (tr1 ++ tr2) l2.
Proof.
  revert l. induction tr1 as [|e tr1 IH]; intros l; cbn; [by intros ->|].
  intros H1 H2 Ha. destruct (H1 Ha) as (l' & ? & ?). eauto.
Qed.

Lemma locked_ret {A} l (a : A) : locked l (Ret a) l.
Proof. by intros tr a' [-> _]. Qed.

Lemma locked_panic {A} l l' : @locked A l Panic l'.
Proof. by intros tr a' [-> ?]. Qed.

Lemma locked_bind {A B} l (p : io A) l1 (f : A -> io B) l2 :
  locked l p l1 -> (forall a, locked l1 (f a) l2) -> locked l (p ≫= f) l2.
Proof.
  intros Hp Hf tr b (a & tr1 & tr2 & -> & H1 & H2)%exec_bind_done.
  eapply lock_safe_app; [by eapply Hp|by eapply Hf].
Qed.

(** A single lwIP call that needs the lock, made with the lock. *)
Lemma locked_lwip {X} l (c : lwip_call X) :
  needs_lock c = true -> l <> Unlocked -> locked l (lwip c) l.
Proof.
  intros Hc Hl tr a (x & tr' & -> & -> & _). cbn. intros _. exists l. split; [|done].
  by destruct c, l.
Qed.

Lemma locked_rt {X} l (c : rt_call X) :
  match c with callback_signal_wait => False | _ => True end -> locked l (rt c) l.
Proof.
  intros Hc tr a (x & tr' & -> & -> & _). cbn. intros _. exists l. split; [|done]. by destruct c.
Qed.

Lemma locked_fs {X} l (c : fs_call X) : locked l (fs c) l.
Proof. intros tr a (x & tr' & -> & -> & _). cbn. intros _. by exists l. Qed.

Lemma locked_marlin {X} l (c : marlin_call X) : locked l (marlin c) l.
Proof. intros tr a (x & tr' & -> & -> & _). cbn. intros _. by exists l. Qed.

Lemma locked_my_ipaddr l : locked l my_ipaddr l.
Proof.
  intros tr a H. exec_step H as [].
  - exec_steps H. cbn. intros _. by exists l.
  - exec_steps H. cbn. intros _. exists l. split; [done|]. intros _. by exists l.
Qed.

Lemma locked_async closure :
  locked OnThread closure OnThread -> locked Unlocked (async_lwip closure) Unlocked.
Proof.
  intros Hc tr a (err & tr' & -> & H). cbn. intros _. eexists. split; [done|].
  cbn in H. destruct err; cbn in *; try by destruct H as [-> _].
  apply exec_bind_done in H as (r & tr1 & tr2 & -> & H1 & H2).
  eapply lock_safe_app; [by eapply Hc|]. exec_steps H2. cbn. intros _. by exists Unlocked.
Qed.

Lemma locked_blocking_unlocked {R} (closure : io (result R err_t)) :
  locked Locked closure Locked -> locked Unlocked (blocking_lwip closure) Unlocked.
Proof.
  intros Hc tr a (b & tr' & -> & H). cbn. intros ->. exists Unlocked. split; [done|].
  rewrite bool_decide_eq_false_2 in H by auto.
  exec_step H as []. cbn. intros _. exists Locked. split; [done|].
  apply exec_bind_done in H as (r & tr1 & tr2 & -> & H1 & H2).
  eapply lock_safe_app; [by eapply Hc|]. exec_steps H2. cbn. intros _. by exists Unlocked.
Qed.

Lemma locked_blocking_held {R} l (closure : io (result R err_t)) :
  l <> Unlocked -> locked l closure l -> locked l (blocking_lwip closure) l.
Proof.
  intros Hl Hc tr a (b & tr' & -> & H). cbn. intros ->. exists l. split; [done|].
  rewrite bool_decide_eq_true_2 in H by done. by eapply Hc.
Qed.

(** Whatever the state of the lock, [blocking_lwip] runs its closure with the
    lock and leaves the lock as it was. *)
Lemma locked_blocking {R} l (closure : io (result R err_t)) :
  (forall l', l' <> Unlocked -> locked l' closure l') -> locked l (blocking_lwip closure) l.
Proof.
  intros Hc. destruct (decide (l = Unlocked)) as [->|Hl].
  - by apply locked_blocking_unlocked, Hc.
  - apply locked_blocking_held; [done|]. by apply Hc.
Qed.
End discipline.

#[export] Hint Resolve locked_ret locked_panic locked_bind locked_fs locked_marlin locked_my_ipaddr : derust.
