(* ===== verification/Handoff.v ===== *)
(** * Handing a closure to lwIP's thread ([lwip/mod.rs])

    [async_lwip] of [Lwip.v] runs its closure in place.  In the code it puts a [ThreadContext] on the stack of its
    future, queues its address with lwIP and waits for a signal, while lwIP's thread takes the queued callbacks one
    after another.  Here any number of calls do so at once, and the program in place is what each of them amounts to. *)

From S2P Require Import Prelude Prog Net Vendor VendorRef Data Ffi Env Lwip.

Section handoff.
Context `{V : Vendor}.

(** What is left of a closure. *)
Definition closure_t : Type := io (result unit err_t).

Record ThreadContext : Type := mkThreadContext { closure : closure_t; signal : option (result unit err_t) }.

(** A call of [async_lwip] and its [ctx], which exists from its allocation until the call returns. *)
Inductive stage : Type := Start | Waiting | Returned (r : result unit err_t).

Record caller : Type := mkCaller { handed_in : closure_t; reached : stage; ctx : option ThreadContext }.

(** What lwIP's thread is doing. *)
Inductive thread_state : Type := Idle | Busy (i : nat) (left : closure_t).

(** The calls, by number, which is also the address of their context; lwIP's queue; and the callback that its thread is in. *)
Record handoff : Type := mkHandoff { callers : nat -> caller; mailbox : list nat; thread : thread_state }.

Definition with_caller (i : nat) (c : caller) (cs : nat -> caller) : nat -> caller := fun j => if decide (j = i) then c else cs j.

(** Who made a call: the task, or lwIP's thread for it. *)
Inductive side : Type := By_task | By_thread.

(** One step: a task queues its closure or is refused, the thread starts a callback, makes a call of the closure or
    signals its result, a task that was signalled returns.  The thread finds a context at its address. *)
Inductive handoff_step (s : handoff) : list (nat * side * event call) -> handoff -> Prop :=
  | Enqueue i w e :
      callers s i = mkCaller w Start None ->
      handoff_step s [(i, By_task, Ev (CLwip tcpip_callback) e)]
        (if decide (e <> err_t.Ok) then
           mkHandoff (with_caller i (mkCaller w (Returned (Err e)) None) (callers s)) (mailbox s) (thread s)
         else mkHandoff (with_caller i (mkCaller w Waiting (Some (mkThreadContext w None))) (callers s)) (mailbox s ++ [i]) (thread s))
  | Take i l w st t :
      mailbox s = i :: l -> thread s = Idle -> callers s i = mkCaller w st (Some t) ->
      handoff_step s [] (mkHandoff (callers s) l (Busy i (closure t)))
  | Run i X (c : call X) k x :
      thread s = Busy i (Call c k) ->
      handoff_step s [(i, By_thread, Ev c x)] (mkHandoff (callers s) (mailbox s) (Busy i (k x)))
  | Signal i r w st t :
      thread s = Busy i (Ret r) -> callers s i = mkCaller w st (Some t) ->
      handoff_step s []
        (mkHandoff (with_caller i (mkCaller w st (Some (mkThreadContext (closure t) (Some r)))) (callers s)) (mailbox s) Idle)
  | Wake i w k r :
      callers s i = mkCaller w Waiting (Some (mkThreadContext k (Some r))) ->
      handoff_step s [(i, By_task, Ev (CRt callback_signal_wait) tt)]
        (mkHandoff (with_caller i (mkCaller w (Returned r) None) (callers s)) (mailbox s) (thread s)).

Inductive handoff_run (s : handoff) : list (nat * side * event call) -> handoff -> Prop :=
  | Handoff_nil : handoff_run s [] s
  | Handoff_snoc es e s1 s2 : handoff_run s es s1 -> handoff_step s1 e s2 -> handoff_run s (es ++ e) s2.

(** Nobody has called yet. *)
Definition handoff_new (ws : nat -> closure_t) : handoff := mkHandoff (fun i => mkCaller (ws i) Start None) [] Idle.

(** lwIP's thread would follow a pointer to a context that is gone. *)
Definition dangling (s : handoff) : Prop :=
  exists i, ctx (callers s i) = None /\ (i ∈ mailbox s \/ exists p, thread s = Busy i p).

(** ** What is seen *)

(** What was called for one call, by its task and by the thread. *)
Fixpoint own (i : nat) (es : list (nat * side * event call)) : trace :=
  match es with
  | [] => []
  | (j, _, e) :: es => if decide (j = i) then e :: own i es else own i es
  end.

(** For whom the thread made its calls. *)
Fixpoint served (es : list (nat * side * event call)) : list nat :=
  match es with
  | [] => []
  | (i, By_thread, _) :: es => i :: served es
  | _ :: es => served es
  end.

Definition accepted (e : event call) : bool :=
  match e with
  | @Ev _ X c x =>
      match c in call X return X -> bool with
      | CLwip c => match c in lwip_call X return X -> bool with tcpip_callback => fun e => bool_decide (e = err_t.Ok) | _ => fun _ => false end
      | _ => fun _ => false
      end x
  end.

(** The calls that lwIP accepted, in order. *)
Fixpoint queued (es : list (nat * side * event call)) : list nat :=
  match es with
  | [] => []
  | (i, By_task, e) :: es => if accepted e then i :: queued es else queued es
  | _ :: es => queued es
  end.

Lemma own_app i es1 es2 : own i (es1 ++ es2) = own i es1 ++ own i es2.
Proof. induction es1 as [|[[j a] e] es1 IH]; cbn; [done|]. case_decide; cbn; by rewrite IH. Qed.

Lemma served_app es1 es2 : served (es1 ++ es2) = served es1 ++ served es2.
Proof. induction es1 as [|[[j []] e] es1 IH]; cbn; [done|exact IH|]. by rewrite IH. Qed.

Lemma queued_app es1 es2 : queued (es1 ++ es2) = queued es1 ++ queued es2.
Proof. induction es1 as [|[[j []] e] es1 IH]; cbn; [done| |exact IH]. case_match; cbn; by rewrite IH. Qed.

(** ** Where a call stands *)

(** [tr] leads from [w] to [p]. *)
Definition leads (w : closure_t) (tr : trace) (p : closure_t) : Prop := forall tr' o, exec p tr' o -> exec w (tr ++ tr') o.

Lemma leads_call w tr X (c : call X) k x : leads w tr (Call c k) -> leads w (tr ++ [Ev c x]) (k x).
Proof. intros H tr' o Hk. rewrite <- app_assoc. apply H. by exists x, tr'. Qed.

Lemma leads_ret w tr r : leads w tr (Ret r) -> exec w tr (Done r).
Proof. intros H. rewrite <- (app_nil_r tr). by apply H. Qed.

(** A message of [i] waits in the queue; the thread is in its callback. *)
Definition in_thread (s : handoff) (i : nat) : Prop := exists p, thread s = Busy i p.

Abbreviation accept := (Ev (CLwip tcpip_callback) err_t.Ok).

Inductive caller_ok (s : handoff) (i : nat) : caller -> trace -> Prop :=
  | Ok_start w : i ∉ mailbox s -> ~ in_thread s i -> caller_ok s i (mkCaller w Start None) []
  | Ok_queued w :
      i ∈ mailbox s -> ~ in_thread s i -> caller_ok s i (mkCaller w Waiting (Some (mkThreadContext w None))) [accept]
  | Ok_running w p tr :
      i ∉ mailbox s -> thread s = Busy i p -> leads w tr p ->
      caller_ok s i (mkCaller w Waiting (Some (mkThreadContext w None))) (accept :: tr)
  | Ok_signalled w r tr :
      i ∉ mailbox s -> ~ in_thread s i -> exec w tr (Done r) ->
      caller_ok s i (mkCaller w Waiting (Some (mkThreadContext w (Some r)))) (accept :: tr)
  | Ok_returned w r tr :
      i ∉ mailbox s -> ~ in_thread s i -> exec (async_lwip w) tr (Done r) -> caller_ok s i (mkCaller w (Returned r) None) tr.

Definition handoff_ok (s : handoff) (es : list (nat * side * event call)) : Prop :=
  NoDup (mailbox s) /\ forall i, caller_ok s i (callers s i) (own i es).

(** Another call's step leaves a call where it is. *)
Lemma caller_same s s' i c tr :
  (i ∈ mailbox s <-> i ∈ mailbox s') -> (forall p, thread s = Busy i p <-> thread s' = Busy i p) ->
  caller_ok s i c tr -> caller_ok s' i c tr.
Proof.
  intros Hm Ht H. assert (in_thread s i <-> in_thread s' i) as Hi by (unfold in_thread; by setoid_rewrite Ht).
  destruct H; rewrite ?Hm, ?Hi in *; econstructor; eauto. by apply Ht.
Qed.

Lemma with_caller_same i c cs : with_caller i c cs i = c.
Proof. unfold with_caller. by rewrite decide_True. Qed.

Lemma with_caller_other i j c cs : j <> i -> with_caller i c cs j = cs j.
Proof. intros. unfold with_caller. by rewrite decide_False. Qed.

Lemma own_one i j a e : own j [(i, a, e)] = if decide (i = j) then [e] else [].
Proof. done. Qed.

(** The program in place, from what happened on both sides. *)
Lemma async_refused w e : e <> err_t.Ok -> exec (async_lwip w) [Ev (CLwip tcpip_callback) e] (Done (Err e)).
Proof. intros He. unfold async_lwip. exists e, []. split; [done|]. cbn. rewrite decide_True by done. done. Qed.

Lemma async_served w tr r :
  exec w tr (Done r) -> exec (async_lwip w) (accept :: tr ++ [Ev (CRt callback_signal_wait) tt]) (Done r).
Proof.
  intros Hw. unfold async_lwip. eexists err_t.Ok, _. split; [done|]. cbn. eapply exec_bind_intro; [exact Hw|].
  exists tt, []. done.
Qed.

Lemma handoff_step_ok s es e s' : handoff_step s e s' -> handoff_ok s es -> handoff_ok s' (es ++ e).
Proof.
  intros Hs [Hd Hc]. destruct Hs as [i w e E|i l w st t E Et Ec|i X c k x Et|i r w st t Et Ec|i w k r E].
  - pose proof (Hc i) as Hi. rewrite E in Hi. inversion Hi as [w' Hm Ht Ew Eo| | | |]; subst. case_decide as He.
    + split; [done|]. intros j. cbn. rewrite own_app, own_one. destruct (decide (i = j)) as [<-|Hj].
      * rewrite with_caller_same, <- Eo. cbn. constructor; [done|done|by apply async_refused].
      * rewrite with_caller_other, app_nil_r by done. by apply (caller_same s).
    + subst e. split; [cbn; apply NoDup_app; split; [done|]; split; [|apply NoDup_singleton]; by intros j Hj ->%list_elem_of_singleton|].
      intros j. cbn. rewrite own_app, own_one. destruct (decide (i = j)) as [<-|Hj].
      * rewrite with_caller_same, <- Eo. constructor; [cbn; apply elem_of_app; right; by apply list_elem_of_singleton|done].
      * rewrite with_caller_other, app_nil_r by done. apply (caller_same s); [|done|done]. cbn. rewrite elem_of_app, list_elem_of_singleton. split; [by left|by intros [?| ->]].
  - rewrite app_nil_r. pose proof (Hc i) as Hi. rewrite E in Hd. apply NoDup_cons in Hd as [Hn Hd]. split; [done|]. intros j. cbn.
    destruct (decide (j = i)) as [->|Hj].
    + rewrite Ec in *. inversion Hi as [|w' Hm Ht Ew Eo|w' p tr Hm|w' r tr Hm|]; subst; [|rewrite E, not_elem_of_cons in Hm; tauto..].
      by apply (Ok_running _ _ w w []); [..|intros tr o].
    + apply (caller_same s); [rewrite E, elem_of_cons; split; [by intros [->|?]|by right]| |done]. intros p. rewrite Et. cbn. split; [done|congruence].
  - split; [done|]. intros j. cbn. rewrite own_app, own_one. pose proof (Hc j) as Hj. destruct (decide (i = j)) as [<-|Hne].
    + inversion Hj as [w' Hm Ht|w' Hm Ht|w' p tr Hm Ht Hl|w' r tr Hm Ht|w' r tr Hm Ht]; subst; [by destruct Ht; eexists|by destruct Ht; eexists| |by destruct Ht; eexists..].
      rewrite Et in Ht. injection Ht as <-. cbn. eapply Ok_running; [done|done|]. by apply leads_call.
    + rewrite app_nil_r. apply (caller_same s); [done| |done]. intros p. rewrite Et. cbn. split; congruence.
  - rewrite app_nil_r. split; [done|]. intros j. cbn. pose proof (Hc j) as Hj. destruct (decide (j = i)) as [->|Hne].
    + rewrite with_caller_same. rewrite Ec in Hj.
      inversion Hj as [|w' Hm Ht|w' p tr Hm Ht Hl|w' r' tr Hm Ht|]; subst; [by destruct Ht; eexists| |by destruct Ht; eexists].
      rewrite Et in Ht. injection Ht as <-. cbn. apply Ok_signalled; [done|by intros [p ?]|by apply leads_ret].
    + rewrite with_caller_other by done. apply (caller_same s); [done| |done]. intros p. rewrite Et. cbn. split; congruence.
  - split; [done|]. intros j. cbn. rewrite own_app, own_one. pose proof (Hc j) as Hj. destruct (decide (i = j)) as [<-|Hne].
    + rewrite with_caller_same. rewrite E in Hj. inversion Hj as [| | |w' r' tr Hm Ht Hw|]; subst.
      apply Ok_returned; [done|done|]. cbn. by apply async_served.
    + rewrite app_nil_r, with_caller_other by done. by apply (caller_same s).
Qed.

Lemma handoff_run_ok s es es' s' : handoff_run s es' s' -> handoff_ok s es -> handoff_ok s' (es ++ es').
Proof.
  intros Hr H. induction Hr as [|es' e s1 s2 _ IH Hs]; [by rewrite app_nil_r|]. rewrite app_assoc. by eapply handoff_step_ok.
Qed.

Lemma handoff_new_ok ws : handoff_ok (handoff_new ws) [].
Proof. split; [apply NoDup_nil_2|]. intros i. constructor; [apply not_elem_of_nil|by intros [p ?]]. Qed.

Lemma handed_in_kept s es s' i : handoff_run s es s' -> handed_in (callers s' i) = handed_in (callers s i).
Proof.
  induction 1 as [|es e s1 s2 _ IH Hs]; [done|]. rewrite <- IH. clear IH.
  destruct Hs as [j w e E|j l w st t E Et Ec|j X c k x Et|j r w st t Et Ec|j w k r E]; try done;
    [case_decide|..]; cbn; unfold with_caller; case_decide; subst; rewrite ?E, ?Ec; done.
Qed.

Lemma ok_not_dangling s es : handoff_ok s es -> ~ dangling s.
Proof.
  intros [_ Hc] (i & Hx & Hq). specialize (Hc i).
  inversion Hc as [w Hm Ht E|w Hm Ht E|w p tr Hm Ht Hl E|w r tr Hm Ht Hw E|w r tr Hm Ht Hw E];
    rewrite <- E in Hx; try done; by destruct Hq.
Qed.

(** ** One after another *)

(** The thread serves the calls in the order it accepted them, each with some calls in a row; the last is the present one. *)
Definition serial (s : handoff) (es : list (nat * side * event call)) : Prop :=
  exists ns : list (nat * nat), served es = concat ((fun n => replicate n.2 n.1) <$> ns) /\ ns.*1 ++ mailbox s = queued es /\
    forall i p, thread s = Busy i p -> exists ns' n, ns = ns' ++ [(i, n)].

Lemma serial_step s es e s' : handoff_step s e s' -> serial s es -> serial s' (es ++ e).
Proof.
  intros Hs (ns & E1 & E2 & Ht). destruct Hs as [i w e E|i l w st t E Et Ec|i X c k x Et|i r w st t Et Ec|i w k r E].
  - exists ns. rewrite served_app, queued_app. cbn. rewrite app_nil_r. case_decide as He; cbn.
    + by rewrite bool_decide_eq_false_2, app_nil_r.
    + subst e. by rewrite bool_decide_eq_true_2, app_assoc, E2.
  - exists (ns ++ [(i, 0%nat)]). rewrite !app_nil_r, !fmap_app, concat_app. cbn. rewrite app_nil_r, <- app_assoc. cbn.
    rewrite <- E. split; [done|]. split; [done|]. intros j p [= <- <-]. by exists ns, 0%nat.
  - destruct (Ht _ _ Et) as (ns' & n & ->). exists (ns' ++ [(i, S n)]).
    rewrite served_app, queued_app, E1, <- E2, !fmap_app, !concat_app. cbn [served queued fmap list_fmap concat fst snd].
    rewrite !app_nil_r, replicate_S_end, app_assoc. split; [done|]. split; [done|]. cbn. intros j p [= <- <-]. by exists ns', (S n).
  - exists ns. rewrite app_nil_r. split; [done|]. split; [done|]. done.
  - exists ns. rewrite served_app, queued_app. cbn. rewrite !app_nil_r. done.
Qed.

Lemma serial_run es s ws : handoff_run (handoff_new ws) es s -> serial s es.
Proof. intros Hr. induction Hr as [|es e s1 s2 _ IH Hs]; [by exists []|by eapply serial_step]. Qed.

(** ** Every call returns *)

(** Some id, to answer with. *)
Variable u : Uuid.

Lemma handoff_run_app s es1 s1 es2 s2 : handoff_run s es1 s1 -> handoff_run s1 es2 s2 -> handoff_run s (es1 ++ es2) s2.
Proof. intros H1. induction 1 as [|es e s2 s3 _ IH Hs]; [by rewrite app_nil_r|]. rewrite app_assoc. by eapply Handoff_snoc. Qed.

Lemma handoff_run_one s e s' : handoff_step s e s' -> handoff_run s e s'.
Proof. intros Hs. exact (Handoff_snoc s [] e s s' (Handoff_nil s) Hs). Qed.

Lemma handoff_run_seen s x s1 es s2 : handoff_step s [x] s1 -> handoff_run s1 es s2 -> handoff_run s (x :: es) s2.
Proof. intros Hs. exact (handoff_run_app _ [x] _ _ _ (handoff_run_one _ _ _ Hs)). Qed.

Lemma handoff_run_silent s s1 es s2 : handoff_step s [] s1 -> handoff_run s1 es s2 -> handoff_run s es s2.
Proof. intros Hs. exact (handoff_run_app _ [] _ _ _ (handoff_run_one _ _ _ Hs)). Qed.

(** The thread gets to the end of its callback. *)
Lemma thread_done i (p : closure_t) s es :
  handoff_ok s es -> thread s = Busy i p -> total p ->
  exists es' s', handoff_run s es' s' /\ thread s' = Idle /\ mailbox s' = mailbox s /\
    forall j, reached (callers s' j) = reached (callers s j).
Proof.
  revert s es. induction p as [r| | |X c k IH]; intros s es Hok Et Hp.
  - destruct Hok as [_ Hc]. specialize (Hc i).
    inversion Hc as [w Hm Ht E|w Hm Ht E|w p tr Hm Ht Hl E|w r' tr Hm Ht Hx E|w r' tr Hm Ht Hx E]; try (by destruct Ht; eexists).
    eexists _, _. split; [eapply handoff_run_one, Signal; [done|by rewrite <- E]|]. split; [done|]. split; [done|].
    intros j. cbn. unfold with_caller. case_decide; [subst j; by rewrite <- E|done].
  - by destruct (Hp [] Panicked).
  - by destruct (Hp [] OutOfFuel).
  - pose proof (Run s i X c k (quiet u c) Et) as Hs.
    destruct (IH (quiet u c) _ _ (handoff_step_ok _ _ _ _ Hs Hok) eq_refl) as (es' & s' & Hr & H).
    + intros tr o Hx. apply (Hp (Ev c (quiet u c) :: tr)). by exists (quiet u c), tr.
    + eexists _, s'. split; [eapply handoff_run_app; [by apply handoff_run_one|exact Hr]|done].
Qed.

(** What is left of a closure that ends ends. *)
Lemma leads_total w tr p : leads w tr p -> total w -> total p.
Proof. intros Hl Hw tr' o Hx. by apply (Hw (tr ++ tr')), Hl. Qed.

(** The thread works its queue off. *)
Lemma mailbox_done l s es :
  handoff_ok s es -> (forall i, total (handed_in (callers s i))) -> mailbox s = l -> thread s = Idle ->
  exists es' s', handoff_run s es' s' /\ thread s' = Idle /\ mailbox s' = [] /\
    forall j, reached (callers s' j) = reached (callers s j).
Proof.
  revert s es. induction l as [|i l IH]; intros s es Hok Hw Em Et; [exists [], s; split; [constructor|done]|].
  pose proof (proj2 Hok i) as Hi. assert (i ∈ mailbox s) as Hin by (rewrite Em; apply list_elem_of_here).
  inversion Hi as [w Hm Ht E|w Hm Ht E|w p tr Hm Ht Hl E|w r' tr Hm Ht Hx E|w r' tr Hm Ht Hx E]; try done.
  pose proof (Take s i l w _ _ Em Et (eq_sym E)) as Hs. pose proof (handoff_step_ok _ _ _ _ Hs Hok) as Hok1.
  destruct (thread_done i _ _ _ Hok1 eq_refl) as (es1 & s1 & Hr1 & Et1 & Em1 & Hj1).
  { specialize (Hw i). by rewrite <- E in Hw. }
  pose proof (handoff_run_ok _ _ _ _ Hr1 Hok1) as Hok2.
  destruct (IH s1 _ Hok2) as (es2 & s2 & Hr2 & Et2 & Em2 & Hj2); [|done|done|].
  - intros j. rewrite (handed_in_kept _ _ _ j Hr1). apply Hw.
  - eexists _, s2. split; [eapply handoff_run_app; [by apply handoff_run_one|]; by eapply handoff_run_app|].
    split; [done|]. split; [done|]. intros j. by rewrite Hj2, Hj1.
Qed.

Lemma call_returns s es i :
  handoff_ok s es -> (forall j, total (handed_in (callers s j))) -> reached (callers s i) = Waiting ->
  exists es' s' r, handoff_run s es' s' /\ reached (callers s' i) = Returned r.
Proof.
  intros Hok Hw Hi.
  assert (exists es1 s1, handoff_run s es1 s1 /\ thread s1 = Idle /\ forall j, reached (callers s1 j) = reached (callers s j))
    as (es1 & s1 & Hr1 & Et1 & Hj1).
  { destruct (thread s) as [|j p] eqn:Et; [exists [], s; split; [constructor|done]|].
    destruct (thread_done j p s es Hok Et) as (es1 & s1 & Hr1 & Et1 & _ & Hj1); [|by exists es1, s1].
    pose proof (proj2 Hok j) as Hj. specialize (Hw j).
    inversion Hj as [w Hm Ht E|w Hm Ht E|w p' tr Hm Ht Hl E|w r' tr Hm Ht Hx E|w r' tr Hm Ht Hx E];
      try (by destruct Ht; eexists). rewrite Et in Ht. injection Ht as <-. rewrite <- E in Hw. by eapply leads_total. }
  pose proof (handoff_run_ok _ _ _ _ Hr1 Hok) as Hok1.
  destruct (mailbox_done (mailbox s1) s1 _ Hok1) as (es2 & s2 & Hr2 & Et2 & Em2 & Hj2); [|done|done|].
  { intros j. rewrite (handed_in_kept _ _ _ j Hr1). apply Hw. }
  pose proof (proj2 (handoff_run_ok _ _ _ _ Hr2 Hok1) i) as Hc.
  inversion Hc as [w Hm Ht E|w Hm Ht E|w p tr Hm Ht Hl E|w r tr Hm Ht Hx E|w r tr Hm Ht Hx E];
    try (rewrite <- Hj1, <- Hj2, <- E in Hi; done); try (rewrite Em2 in Hm; by apply not_elem_of_nil in Hm); [congruence|].
  pose proof (handoff_run_one _ _ _ (Wake s2 i w w r (eq_sym E))) as Hr3.
  eexists _, _, r. split; [exact (handoff_run_app _ _ _ _ _ Hr1 (handoff_run_app _ _ _ _ _ Hr2 Hr3))|].
  cbn. by rewrite with_caller_same.
Qed.

(** C25. [async_lwip] may be taken to run its closure in place. However many calls are under way at once and however lwIP's thread
    and the tasks take turns, the thread never follows a pointer to a context that is gone; what happened for a call that has returned,
    on both sides, is a run of the program in place with the same result, so that its closure ran once; and the closures run one after another in
    the order in which lwIP accepted them, never interleaved. If all closures end, a call that waits can always return. *)
Theorem handoff_refines ws es s :
  handoff_run (handoff_new ws) es s ->
  ~ dangling s /\
  (forall i r, reached (callers s i) = Returned r -> exec (async_lwip (ws i)) (own i es) (Done r)) /\
  serial s es /\
  ((forall i, total (ws i)) -> forall i, reached (callers s i) = Waiting ->
    exists es' s' r, handoff_run s es' s' /\ reached (callers s' i) = Returned r).
Proof.
  intros Hr. pose proof (handoff_run_ok _ [] _ _ Hr (handoff_new_ok ws)) as Hok. split; [by eapply ok_not_dangling|].
  split; [|split; [by eapply serial_run|]].
  2: { intros Hw i. eapply call_returns; [exact Hok|]. intros j. rewrite (handed_in_kept _ _ _ j Hr). apply Hw. }
  intros i r Hi. pose proof (handed_in_kept _ _ _ i Hr) as Hw. cbn in Hw. rewrite <- Hw.
  destruct Hok as [_ Hc]. specialize (Hc i). cbn [app] in Hc.
  inversion Hc as [w Hm Ht E|w Hm Ht E|w p tr Hm Ht Hl E|w r' tr Hm Ht Hx E|w r' tr Hm Ht Hx E]; rewrite <- E in Hi; try done.
  by injection Hi as ->.
Qed.

(** The future of a call is dropped, and its context with it. *)
Definition abandon (i : nat) (s : handoff) : handoff :=
  mkHandoff (with_caller i (mkCaller (handed_in (callers s i)) (reached (callers s i)) None) (callers s)) (mailbox s) (thread s).

(** What the comment on [async_lwip] warns of: if this happens before the signal, the thread has a dangling pointer. *)
Lemma abandoned_dangles ws es s i w :
  handoff_run (handoff_new ws) es s -> callers s i = mkCaller w Waiting (Some (mkThreadContext w None)) -> dangling (abandon i s).
Proof.
  intros Hr Hi. pose proof (proj2 (handoff_run_ok _ [] _ _ Hr (handoff_new_ok ws)) i) as Hc. rewrite Hi in Hc.
  exists i. split; [cbn; by rewrite with_caller_same|]. inversion Hc as [|w' Hm Ht|w' p tr Hm Ht| |]; subst; [by left|right; by eexists].
Qed.
End handoff.

(** ** Two calls at once *)

Definition demo_closure : nat -> @closure_t ref_vendor := fun _ => p ← lwip tcp_new; Ret (Ok tt).

Definition demo_handoff : list (nat * side * event (@call ref_vendor)) :=
  [(0%nat, By_task, Ev (CLwip tcpip_callback) err_t.Ok); (1%nat, By_task, Ev (CLwip tcpip_callback) err_t.Ok);
   (0%nat, By_thread, Ev (CLwip tcp_new) 5); (0%nat, By_task, Ev (CRt callback_signal_wait) tt)].

(** The second waits while the first is served and returns. *)
Lemma demo_handoff_run :
  exists s, handoff_run (handoff_new demo_closure) demo_handoff s /\
    reached (callers s 0%nat) = Returned (Ok tt) /\ reached (callers s 1%nat) = Waiting.
Proof.
  eexists. split; [|split].
  - unfold demo_handoff. eapply handoff_run_seen; [eapply Enqueue; reflexivity|].
    eapply handoff_run_seen; [eapply Enqueue; reflexivity|]. eapply handoff_run_silent; [eapply Take; reflexivity|].
    eapply handoff_run_seen; [eapply Run; reflexivity|]. eapply handoff_run_silent; [eapply Signal; reflexivity|].
    eapply handoff_run_seen; [eapply Wake; reflexivity|]. apply Handoff_nil.
  - reflexivity.
  - reflexivity.
Qed.

Lemma handoff_refines_witness :
  exists s, handoff_run (handoff_new demo_closure) demo_handoff s /\ reached (callers s 0%nat) = Returned (Ok tt) /\
    exec (async_lwip (demo_closure 0%nat)) (own 0 demo_handoff) (Done (Ok tt)) /\
    exists es' s' r, handoff_run s es' s' /\ reached (callers s' 1%nat) = Returned r.
Proof.
  destruct demo_handoff_run as (s & Hr & H0 & H1). exists s. split; [exact Hr|]. split; [exact H0|].
  destruct (handoff_refines (V := ref_vendor) (demo_id 3) demo_closure demo_handoff s Hr) as (_ & Hx & _ & Hw).
  split; [exact (Hx 0%nat (Ok tt) H0)|]. apply Hw; [|exact H1]. intros i. apply total_call. intros x. apply total_ret.
Defined.
