(* ===== verification/Pbuf.v ===== *)
(** * Packet buffers ([lwip/packet_buffer.rs])

    A [PacketBuffer] owns a pbuf chain: it is the only one to free it, when it is
    dropped.  Its iterator yields the payload of each node. *)

From S2P Require Import Prelude Prog Net Vendor Data Ffi Lwip.

(** What the crate uses of [postcard] for a message type: the size of the
    encoding, and the encoding written to a slice of a given length. *)
Class Serialize (T : Type) := {
  serialized_size : T -> option Z;
  to_slice : T -> Z -> option bytes
}.

Section pbuf.
Context `{V : Vendor}.

(** [TryFrom<*mut pbuf>]. *)
Definition try_from (value : pbuf_ptr) : result PacketBuffer unit :=
  if pbuf_is_null value then Err tt else Ok (mkPacketBuffer value value).

(** [PacketBuffer::alloc]: one pbuf of the size of the encoding, narrowed to
    the [u16] that [pbuf_alloc] takes. *)
Definition alloc {T} `{Serialize T} (msg : T) : io (option PacketBuffer) :=
  match serialized_size msg with
  | None => Ret None
  | Some size =>
      res ← blocking_lwip (pbuf ← lwip (pbuf_alloc Transport (wrap 16 size) Ram); Ret (Ok pbuf));
      pbuf ← unwrap (result_ok res);
      if decide (pbuf = null) then Ret None
      else
        match to_slice msg size with
        | None =>
            blocking_lwip (n ← lwip (pbuf_free pbuf); Ret (Ok n));;
            Ret None
        | Some payload =>
            let p := [mkPbuf pbuf payload (wrap 16 size) (wrap 16 size)] in
            Ret (Some (mkPacketBuffer p p))
        end
  end.

Definition total_len (p : PacketBuffer) : Z :=
  match inner p with [] => 0 | b :: _ => pbuf_tot_len b end.

(** The iterator keeps the buffer it walks. *)
Record PacketBufferIterator : Type := mkIter { it_inner : PacketBuffer; it_current : pbuf_ptr }.

Definition into_iter (p : PacketBuffer) : PacketBufferIterator := mkIter p (current p).

Definition as_mut_ptr (p : PacketBuffer) : pbuf_ptr := inner p.

(** [slice::from_raw_parts(p.payload, p.len)]. *)
Definition pbuf_slice (b : pbuf) : bytes := ztake (pbuf_len b) (pbuf_payload b).

Definition iter_next (it : PacketBufferIterator) : option bytes * PacketBufferIterator :=
  match it_current it with
  | [] => (None, it)
  | p :: next => (Some (pbuf_slice p), mkIter (it_inner it) next)
  end.

(** [impl Drop for PacketBuffer], and what dropping an iterator does. *)
Definition drop_packet (p : PacketBuffer) : io unit :=
  blocking_lwip (n ← lwip (pbuf_free (pbuf_addr (inner p))); Ret (Ok n));;
  Ret tt.

Definition drop_iter (it : PacketBufferIterator) : io unit := drop_packet (it_inner it).

(** The slices a [for] loop over the iterator visits. *)
Definition chunks (it : PacketBufferIterator) : list bytes := pbuf_slice <$> it_current it.

(** All the data of a packet. *)
Definition packet_data (p : PacketBuffer) : bytes := concat (chunks (into_iter p)).

Lemma iter_next_chunks it :
  iter_next it =
    match chunks it with
    | [] => (None, it)
    | c :: _ => (Some c, mkIter (it_inner it) (tail (it_current it)))
    end.
Proof. destruct it as [p [|b l]]; done. Qed.

Lemma chunks_tail it :
  chunks (mkIter (it_inner it) (tail (it_current it))) = tail (chunks it).
Proof. by destruct it as [p [|b l]]. Qed.

(** lwIP's invariant on a chain: a node's [tot_len] is the length of the data
    from it to the end, which fits the field, and its payload has [len] bytes. *)
Fixpoint chain_wf (c : list pbuf) : Prop :=
  match c with
  | [] => True
  | b :: c' =>
      len (pbuf_payload b) = pbuf_len b /\
      pbuf_tot_len b = pbuf_len b + match c' with [] => 0 | b' :: _ => pbuf_tot_len b' end /\
      chain_wf c'
  end.

Definition packet_wf (p : PacketBuffer) : Prop :=
  inner p <> [] /\ current p = inner p /\ chain_wf (inner p).

Lemma chain_wf_total c :
  chain_wf c -> len (concat (pbuf_slice <$> c)) = match c with [] => 0 | b :: _ => pbuf_tot_len b end.
Proof.
  induction c as [|b c IH]; [done|]. intros (Hl & Ht & Hc). cbn. rewrite len_app, IH by done.
  rewrite Ht. unfold pbuf_slice. rewrite <- Hl, ztake_ge by lia. done.
Qed.

(** The length reported to the receive window is the amount of data the
    iterator delivers. *)
Lemma total_len_data p : packet_wf p -> total_len p = len (packet_data p).
Proof.
  intros (Hne & Hcur & Hwf). unfold packet_data, chunks, into_iter, total_len; cbn.
  rewrite Hcur, chain_wf_total by done. done.
Qed.

(** *** Lock discipline *)

Lemma locked_free l p : l <> Unlocked -> locked l (n ← lwip (pbuf_free p); Ret (Ok n : result Z err_t)) l.
Proof. intros Hl. eapply locked_bind; [by apply locked_lwip|]. intros. apply locked_ret. Qed.

Lemma locked_drop_packet l p : locked l (drop_packet p) l.
Proof.
  eapply locked_bind; [|intros; apply locked_ret].
  apply locked_blocking. intros l' Hl. by apply locked_free.
Qed.

Lemma locked_alloc {T} `{Serialize T} l (msg : T) : locked l (alloc msg) l.
Proof.
  unfold alloc. destruct (serialized_size msg) as [size|]; [|apply locked_ret].
  eapply locked_bind.
  - apply locked_blocking. intros l' Hl. eapply locked_bind; [by apply locked_lwip|].
    intros. apply locked_ret.
  - intros res. eapply locked_bind; [destruct res; [apply locked_ret|apply locked_panic]|].
    intros p. case_decide; [apply locked_ret|]. destruct (to_slice msg size); [apply locked_ret|].
    eapply locked_bind; [|intros; apply locked_ret].
    apply locked_blocking. intros l' Hl. by apply locked_free.
Qed.

Lemma total_drop_packet p : total (drop_packet p).
Proof.
  apply total_bind; [|intros; apply total_ret]. apply total_call. intros [];
    repeat (apply total_call; intros); apply total_ret.
Qed.
End pbuf.

(** Proves [locked l p l] for a straight-line program, branch by branch. *)
Ltac locked_step :=
  lazymatch goal with
  | |- locked _ (Ret _) _ => apply locked_ret
  | |- locked _ Panic _ => apply locked_panic
  | |- locked _ (unwrap ?o) _ => destruct o; cbn [unwrap]
  | |- locked _ (lwip _) _ => apply locked_lwip; [reflexivity|done]
  | |- locked _ (rt _) _ => apply locked_rt; exact I
  | |- locked _ (fs _) _ => apply locked_fs
  | |- locked _ (drop_packet _) _ => apply locked_drop_packet
  | |- locked _ (blocking_lwip _) _ => apply locked_blocking; intros ? ?
  | |- locked _ (async_lwip _) _ => apply locked_async
  | |- locked _ (if ?b then _ else _) _ => destruct b
  | |- locked _ (match ?x with _ => _ end) _ => destruct x
  | |- locked _ (_ ≫= _) _ => eapply locked_bind; [|intros ?]
  end.

Ltac locked_tac := repeat (locked_step || (progress intros)); try done; auto with derust.

(** Proves [total p] for a program with no loop of its own. *)
Ltac total_step :=
  lazymatch goal with
  | |- total (Ret _) => apply total_ret
  | |- total (lwip _) => apply total_call; intros ?; apply total_ret
  | |- total (rt _) => apply total_call; intros ?; apply total_ret
  | |- total (fs _) => apply total_call; intros ?; apply total_ret
  | |- total (marlin _) => apply total_call; intros ?; apply total_ret
  | |- total (drop_packet _) => apply total_drop_packet
  | |- total (blocking_lwip _) => unfold blocking_lwip
  | |- total (async_lwip _) => unfold async_lwip
  | |- total (for_each _ _) => apply total_for_each; intros ?
  | |- total (if ?b then _ else _) => destruct b
  | |- total (match ?x with _ => _ end) => destruct x
  | |- total (_ ≫= _) => apply total_bind; [|intros ?]
  end.

Ltac total_tac := repeat (total_step || (progress intros)); auto with derust.

Section total.
Context `{V : Vendor}.

Lemma total_alloc {T} `{Serialize T} (msg : T) : total (alloc msg).
Proof.
  unfold alloc. destruct (serialized_size msg) as [size|]; [|apply total_ret].
  apply (total_bind_post _ (fun r => exists p, r = Ok p)).
  - total_tac.
  - intros tr a Ha. exec_step Ha as []; [exec_steps Ha; eauto|].
    exec_steps Ha; eauto.
  - intros r [p ->]. cbn [result_ok unwrap]. apply total_bind; [apply total_ret|]. intros q. total_tac.
Qed.
End total.

#[export] Hint Resolve locked_drop_packet locked_alloc total_drop_packet total_alloc : derust.
