(* ===== verification/Tcp.v ===== *)
(** * TCP listener and connections ([lwip/tcp.rs])

    The listener hands accepted pcbs to the worker through a channel; a
    connection receives its packets through another channel.  Callbacks run on
    lwIP's thread, the rest on the Embassy executor. *)

From S2P Require Import Prelude Prog Net Vendor VendorRef Data Ffi Env Lwip Pbuf.

(** [TCP_WRITE_FLAG_COPY] and the address [ip_addr_any]. *)
Definition TCP_WRITE_FLAG_COPY : Z := 1.
Definition ip_addr_any : Z := 0.

(** [MAX_TCP_CONNECTION_CHANNEL_SIZE]. *)
Definition MAX_TCP_CONNECTION_CHANNEL_SIZE : nat := 12.

Section tcp.
Context `{V : Vendor}.

(** ** The listener *)

Definition listen (port : Z) : io (result unit err_t) :=
  async_lwip (
    p ← rt (pcb_load Obj_TcpListener);
    if decide (p <> null) then Ret (Err err_t.Val)
    else
      pcb ← lwip tcp_new;
      if decide (pcb = null) then Ret (Err err_t.Mem)
      else
        err ← lwip (tcp_bind pcb ip_addr_any port);
        if decide (err <> err_t.Ok) then
          lwip (tcp_close pcb);;
          Ret (Err err)
        else
          listen_pcb ← lwip (tcp_listen_with_backlog pcb 2);
          if decide (listen_pcb = null) then Ret (Err err_t.Mem)
          else
            lwip (tcp_arg listen_pcb (Some Obj_TcpListener));;
            lwip (tcp_accept listen_pcb (Some Listener_accept));;
            rt (pcb_store Obj_TcpListener listen_pcb);;
            Ret (Ok tt)).

(** The accept callback; [arg] is whether lwIP passes a non-null argument. *)
Definition listener_accept (arg : bool) (pcb : ptr) (err : err_t) : io err_t :=
  if decide (err <> err_t.Ok) then Ret err_t.Ok
  else if decide (pcb = null) then Ret err_t.Ok
  else if negb arg then Ret err_t.Ok
  else
    lwip (tcp_arg pcb None);;
    lwip (tcp_recv pcb (Some Listener_hold_recv));;
    sent ← rt (listener_try_send pcb);
    if negb sent then
      lwip (tcp_abort pcb);;
      Ret err_t.Ok
    else Ret err_t.Ok.

(** The receive callback of a pcb that waits in the channel. *)
Definition listener_hold_recv (arg : bool) (pcb : ptr) (buf : pbuf_ptr) (err : err_t) : io err_t :=
  Ret err_t.Mem.

(** [while let Ok(pending) = channel.try_receive()] of the listener's drop. *)
Fixpoint abort_pending (fuel : nat) : io unit :=
  match fuel with
  | O => Fuel
  | S fuel =>
      item ← rt listener_try_receive;
      match item with
      | None => Ret tt
      | Some pending_pcb =>
          (if decide (pending_pcb <> null) then lwip (tcp_abort pending_pcb) else Ret tt);;
          abort_pending fuel
      end
  end.

Definition drop_listener (fuel : nat) : io unit :=
  lwip sys_mutex_lock;;
  pcb ← rt (pcb_swap Obj_TcpListener null);
  (if decide (pcb <> null) then
     lwip (tcp_accept pcb None);;
     lwip (tcp_arg pcb None);;
     err ← lwip (tcp_close pcb);
     (if decide (err <> err_t.Ok) then lwip (tcp_abort pcb) else Ret tt);;
     abort_pending fuel
   else Ret tt);;
  lwip sys_mutex_unlock.

(** ** A connection *)

Definition attach_callbacks : io (result unit err_t) :=
  async_lwip (
    pcb ← rt (pcb_load Obj_TcpConnection);
    if decide (pcb = null) then Ret (Err err_t.Val)
    else
      lwip (tcp_arg pcb (Some Obj_TcpConnection));;
      lwip (tcp_recv pcb (Some Connection_recv));;
      lwip (tcp_err pcb (Some Connection_err));;
      lwip (tcp_sent pcb (Some Connection_sent));;
      refused ← lwip (derusting_tcp_has_refused_data pcb);
      (if refused : bool then lwip (tcp_process_refused_data pcb);; Ret tt else Ret tt);;
      Ret (Ok tt)).

Definition receive : io (option PacketBuffer) :=
  item ← rt conn_receive;
  match item with
  | None => Ret None
  | Some pkt =>
      let len := total_len pkt in
      pcb ← rt (pcb_load Obj_TcpConnection);
      (if decide (pcb <> null) then
         async_lwip (
           current_pcb ← rt (pcb_load Obj_TcpConnection);
           (if decide (current_pcb <> null) then lwip (tcp_recved current_pcb len) else Ret tt);;
           Ret (Ok tt));;
         Ret tt
       else Ret tt);;
      Ret (Some pkt)
  end.

Definition response (b : bytes) : io (result unit err_t) :=
  if decide (len b > u16_max) then Ret (Err err_t.Val)
  else
    async_lwip (
      pcb ← rt (pcb_load Obj_TcpConnection);
      if decide (pcb = null) then Ret (Err err_t.Mem)
      else
        err ← lwip (tcp_write pcb b TCP_WRITE_FLAG_COPY);
        if decide (err <> err_t.Ok) then Ret (Err err)
        else
          err ← lwip (tcp_output pcb);
          if decide (err <> err_t.Ok) then Ret (Err err)
          else Ret (Ok tt)).

(** The receive callback. A packet that the full channel gives back is dropped,
    which frees it. *)
Definition connection_recv (arg : bool) (pcb : ptr) (buf : pbuf_ptr) (err : err_t) : io err_t :=
  if negb arg then
    (if pbuf_is_null buf then Ret tt else lwip (pbuf_free (pbuf_addr buf));; Ret tt);;
    Ret err_t.Val
  else if pbuf_is_null buf then
    rt (conn_try_send None);;
    Ret err_t.Ok
  else
    pb ← unwrap (result_ok (try_from buf));
    sent ← rt (conn_try_send (Some pb));
    if sent : bool then Ret err_t.Ok
    else
      drop_packet pb;;
      Ret err_t.Mem.

Definition connection_err (arg : bool) (err : err_t) : io unit :=
  if arg then
    rt (pcb_store Obj_TcpConnection null);;
    rt (conn_try_send None);;
    Ret tt
  else Ret tt.

Definition connection_sent (arg : bool) (pcb : ptr) (len : Z) : io err_t := Ret err_t.Ok.

(** [while let Ok(item) = channel.try_receive()] of the connection's drop. *)
Fixpoint drain_channel (fuel : nat) (pcb : ptr) : io unit :=
  match fuel with
  | O => Fuel
  | S fuel =>
      item ← rt conn_try_receive;
      match item with
      | None => Ret tt
      | Some (Some pkt) =>
          lwip (tcp_recved pcb (total_len pkt));;
          drop_packet pkt;;
          drain_channel fuel pcb
      | Some None => drain_channel fuel pcb
      end
  end.

(** [impl Drop for TcpConnection]: the channel holds at most
    [MAX_TCP_CONNECTION_CHANNEL_SIZE] items and only grows under the core lock,
    which this closure holds. *)
Definition drop_connection : io unit :=
  blocking_lwip (
    pcb ← rt (pcb_swap Obj_TcpConnection null);
    (if decide (pcb <> null) then
       refused ← lwip (derusting_tcp_has_refused_data pcb);
       (if refused : bool then lwip (tcp_process_refused_data pcb);; Ret tt else Ret tt);;
       drain_channel (S MAX_TCP_CONNECTION_CHANNEL_SIZE) pcb;;
       lwip (tcp_recv pcb None);;
       lwip (tcp_err pcb None);;
       lwip (tcp_sent pcb None);;
       lwip (tcp_arg pcb None);;
       lwip (tcp_output pcb);;
       lwip (tcp_close pcb);;
       Ret tt
     else Ret tt);;
    Ret (Ok tt : result unit err_t));;
  items ← rt conn_clear;
  for_each (fun item => match item with Some pkt => drop_packet pkt | None => Ret tt end) items.

(** [TcpListener::with_connection]: the connection is created around the next
    accepted pcb and dropped when [fcn] is done with it. *)
Definition with_connection (fcn : io unit) : io unit :=
  pcb ← rt listener_receive;
  rt (pcb_store Obj_TcpConnection pcb);;
  attach_callbacks;;
  fcn;;
  drop_connection.

(** ** Lock discipline *)

Lemma locked_for_each {A} l (f : A -> io unit) xs :
  (forall x, locked l (f x) l) -> locked l (for_each f xs) l.
Proof. intros Hf. induction xs as [|x xs IH]; cbn [for_each]; locked_tac. Qed.

Lemma locked_listen port : locked Unlocked (listen port) Unlocked.
Proof. unfold listen. locked_tac. Qed.

Lemma locked_listener_accept l arg pcb err : l <> Unlocked -> locked l (listener_accept arg pcb err) l.
Proof. intros Hl. unfold listener_accept. locked_tac. Qed.

Lemma locked_abort_pending fuel : locked Locked (abort_pending fuel) Locked.
Proof.
  induction fuel as [|fuel IH]; cbn [abort_pending]; [by intros tr a [-> ?]|]. locked_tac.
Qed.

Lemma locked_mutex_lock : locked Unlocked (lwip sys_mutex_lock) Locked.
Proof. intros tr a H. exec_steps H. cbn. intros _. by exists Locked. Qed.

Lemma locked_mutex_unlock : locked Locked (lwip sys_mutex_unlock) Unlocked.
Proof. intros tr a H. exec_steps H. cbn. intros _. by exists Unlocked. Qed.

Lemma locked_drop_listener fuel : locked Unlocked (drop_listener fuel) Unlocked.
Proof.
  unfold drop_listener. eapply locked_bind; [apply locked_mutex_lock|intros _].
  eapply locked_bind; [locked_tac|intros pcb].
  eapply locked_bind; [|intros _; apply locked_mutex_unlock].
  pose proof (locked_abort_pending fuel). locked_tac.
Qed.

Lemma locked_attach : locked Unlocked attach_callbacks Unlocked.
Proof. unfold attach_callbacks. locked_tac. Qed.

Lemma locked_receive : locked Unlocked receive Unlocked.
Proof. unfold receive. locked_tac. Qed.

Lemma locked_response b : locked Unlocked (response b) Unlocked.
Proof. unfold response. locked_tac. Qed.

Lemma locked_connection_recv l arg pcb buf err :
  l <> Unlocked -> locked l (connection_recv arg pcb buf err) l.
Proof. intros Hl. unfold connection_recv. locked_tac. Qed.

Lemma locked_drain l fuel pcb : l <> Unlocked -> locked l (drain_channel fuel pcb) l.
Proof.
  intros Hl. induction fuel as [|fuel IH]; cbn [drain_channel]; [by intros tr a [-> ?]|]. locked_tac.
Qed.

Lemma locked_drop_connection l : locked l drop_connection l.
Proof.
  unfold drop_connection. eapply locked_bind.
  - apply locked_blocking. intros l' Hl.
    pose proof (fun f p => locked_drain l' f p Hl). locked_tac.
  - intros _. eapply locked_bind; [locked_tac|intros items]. apply locked_for_each. locked_tac.
Qed.

Lemma locked_with_connection fcn :
  locked Unlocked fcn Unlocked -> locked Unlocked (with_connection fcn) Unlocked.
Proof.
  intros Hf. unfold with_connection.
  pose proof locked_attach. pose proof (locked_drop_connection Unlocked). locked_tac.
Qed.

(** ** The receive window *)

(** The lengths given back to the window, the pcb that was found and the answers of
    [tcpip_callback]. *)
Definition recved_seen (X : Type) (c : call X) : X -> list Z :=
  match c in call X return X -> list Z with
  | CLwip c =>
      match c in lwip_call X return X -> list Z with
      | tcp_recved _ n => fun _ => [n]
      | _ => fun _ => []
      end
  | _ => fun _ => []
  end.

Definition pcb_seen (X : Type) (c : call X) : X -> list ptr :=
  match c in call X return X -> list ptr with
  | CRt c =>
      match c in rt_call X return X -> list ptr with
      | pcb_load _ => fun p => [p]
      | _ => fun _ => []
      end
  | _ => fun _ => []
  end.

Definition queued_seen (X : Type) (c : call X) : X -> list err_t :=
  match c in call X return X -> list err_t with
  | CLwip c =>
      match c in lwip_call X return X -> list err_t with
      | tcpip_callback => fun e => [e]
      | _ => fun _ => []
      end
  | _ => fun _ => []
  end.

(** Taking a packet gives back to the receive window exactly the number of bytes its
    chunks hold, once, unless the connection is gone or lwIP could not queue
    the call. *)
Theorem receive_window tr p :
  packet_wf p -> exec receive tr (Done (Some p)) ->
  collect recved_seen tr = [len (packet_data p)] \/
  collect recved_seen tr = [] /\
    (null ∈ collect pcb_seen tr \/ Exists (fun e => e <> err_t.Ok) (collect queued_seen tr)).
Proof.
  intros Hwf H. exec_step H as [q|]; [|by exec_steps H]. exec_step H as pcb. case_decide as Hp.
  - exec_step H as e. case_decide as He.
    + exec_steps H. right. split; [done|]. right. cbn. by constructor.
    + exec_step H as pcb'. case_decide as Hp'.
      * exec_steps H. left. cbn. by rewrite total_len_data.
      * exec_steps H. right. split; [done|]. left. cbn. set_solver.
  - exec_steps H. right. split; [done|]. left. cbn. set_solver.
Qed.

Lemma total_receive : total receive.
Proof. unfold receive. total_tac. Qed.

Lemma total_response b : total (response b).
Proof. unfold response. total_tac. Qed.

Lemma total_attach : total attach_callbacks.
Proof. unfold attach_callbacks. total_tac. Qed.
End tcp.

#[export] Hint Resolve locked_receive locked_response locked_attach locked_drop_connection total_receive total_response
  total_attach : derust.

Lemma receive_window_witness :
  let p := demo_packet [lit "ab"; lit "c"] in
  let tr := run_trace demo_h receive (demo_start [Some p]) in
  collect recved_seen tr = [3] \/
  collect recved_seen tr = [] /\
    (null ∈ collect pcb_seen tr \/ Exists (fun e => e <> err_t.Ok) (collect queued_seen tr)).
Proof.
  apply (receive_window _ (demo_packet [lit "ab"; lit "c"])); [|by_run].
  split; [done|]. split; [done|]. by repeat split.
Defined.
