(* ===== verification/Udp.v ===== *)
(** * The UDP socket ([lwip/udp.rs]) *)

From S2P Require Import Prelude Prog Net Vendor Data Ffi Lwip Pbuf Tcp.

Section udp.
Context `{V : Vendor}.

Definition bind (port : Z) : io (result unit err_t) :=
  async_lwip (
    pcb ← lwip udp_new;
    if decide (pcb = null) then Ret (Err err_t.Mem)
    else
      err ← lwip (udp_bind pcb ip_addr_any port);
      if decide (err = err_t.Ok) then
        lwip (udp_recv pcb (Some Udp_recv) (Some Obj_UdpSocket));;
        rt (pcb_store Obj_UdpSocket pcb);;
        Ret (Ok tt)
      else
        lwip (udp_remove pcb);;
        Ret (Err err)).

(** [broadcast] owns the packet and drops it when it is done. *)
Definition broadcast (pbuf : PacketBuffer) (port : Z) : io (result unit err_t) :=
  res ← async_lwip (
    pcb ← rt (pcb_load Obj_UdpSocket);
    if decide (pcb = null) then Ret (Err err_t.Val)
    else
      err ← lwip (udp_sendto pcb (as_mut_ptr pbuf) u32_max port);
      if decide (err = err_t.Ok) then Ret (Ok tt) else Ret (Err err));
  drop_packet pbuf;;
  Ret res.

Definition udp_socket_receive : io (Ipv4Addr * PacketBuffer) := rt udp_receive.

(** The receive callback: the address arrives in network byte order, and a
    packet the full channel gives back is dropped. *)
Definition udp_socket_recv (arg : bool) (buf : pbuf_ptr) (addr : Z) : io unit :=
  if negb arg then Ret tt
  else
    match try_from buf with
    | Err _ => Ret tt
    | Ok pb =>
        let addr := from_bits (from_be addr) in
        sent ← rt (udp_try_send addr pb);
        if sent : bool then Ret tt else drop_packet pb
    end.

Definition drop_socket : io unit :=
  blocking_lwip (
    pcb ← rt (pcb_swap Obj_UdpSocket null);
    (if decide (pcb <> null) then
       lwip (udp_recv pcb None None);;
       lwip (udp_remove pcb)
     else Ret tt);;
    Ret (Ok tt : result unit err_t));;
  Ret tt.

(** ** Lock discipline *)

Lemma locked_bind_socket port : locked Unlocked (bind port) Unlocked.
Proof. unfold bind. locked_tac. Qed.

Lemma locked_broadcast pbuf port : locked Unlocked (broadcast pbuf port) Unlocked.
Proof. unfold broadcast. locked_tac. Qed.

Lemma locked_udp_recv l arg buf addr : l <> Unlocked -> locked l (udp_socket_recv arg buf addr) l.
Proof. intros Hl. unfold udp_socket_recv. locked_tac. Qed.

Lemma locked_drop_socket l : locked l drop_socket l.
Proof. unfold drop_socket. locked_tac. Qed.
End udp.

#[export] Hint Resolve locked_broadcast : derust.
