(* ===== verification/Fs.v ===== *)
(** * Files on the USB stick ([fs.rs]) *)

From S2P Require Import Prelude Prog Text Net Vendor Data Ffi.

(** ** Modes *)

(** The trait [Mode] and the two marker traits. *)
Class Mode (T : Type) := as_cstr : T -> bytes.
Class ImplementsEmbeddedIoRead (T : Type) := {}.
Class ImplementsEmbeddedIoWrite (T : Type) := {}.

Inductive ReadBytes : Type := mkReadBytes.
#[export] Instance ReadBytes_mode : Mode ReadBytes := fun _ => lit "rb".
#[export] Instance ReadBytes_read : ImplementsEmbeddedIoRead ReadBytes := {}.

Inductive WriteBytes : Type := mkWriteBytes.
#[export] Instance WriteBytes_mode : Mode WriteBytes := fun _ => lit "wb".
#[export] Instance WriteBytes_write : ImplementsEmbeddedIoWrite WriteBytes := {}.

Record File (T : Type) : Type := mkFile { fp : ptr; f_mode : T }.
Arguments mkFile {T} fp f_mode.
Arguments fp {T} f.
Arguments f_mode {T} f.

(** The error of [embedded_io] operations. *)
Inductive fs_error : Type := IoError.

(** [embedded_io::ErrorKind], as far as it is used, and [impl embedded_io::Error]. *)
Inductive ErrorKind : Type := ErrorKind_Other.

Definition error_kind (e : fs_error) : ErrorKind := match e with IoError => ErrorKind_Other end.

(** [embedded_io::SeekFrom]. *)
Inductive SeekFrom : Type := Start (o : Z) | Current (o : Z) | End_ (o : Z).

(** [o as c_long]: to 32 bits, two's complement. *)
Definition as_c_long (o : Z) : Z := wrap 32 (o + 2 ^ 31) - 2 ^ 31.

Definition usb_prefix : bytes := lit "/usb/".
Arguments usb_prefix : simpl never.

(** [CStr::from_ptr]: the bytes before the first nul. *)
Fixpoint cstr_from_ptr (b : bytes) : bytes :=
  match b with
  | [] => []
  | x :: t => if x =? 0 then [] else x :: cstr_from_ptr t
  end.

Section fs.
Context `{V : Vendor}.

Definition open {T} `{Mode T} (path : bytes) (mode : T) : io (result (File T) unit) :=
  if negb (starts_with path usb_prefix) then Ret (Err tt)
  else
    res ← fs (fopen path (as_cstr mode));
    if decide (res = null) then Ret (Err tt) else Ret (Ok (mkFile res mode)).

Definition delete (path : bytes) : io Z := fs (unlink path).

Definition rname (old_path new_path : bytes) : io Z := fs (rename old_path new_path).

(** The native FatFs path of a [/usb/] path. *)
Definition native_path (path : bytes) : result bytes FResult :=
  match cstring_extend 64 [] (lit "0:") with
  | Err _ => Err FResult.InvalidName
  | Ok p =>
      match cstring_extend 64 p (drop (length (lit "/usb")) path) with
      | Err _ => Err FResult.InvalidName
      | Ok p => Ok p
      end
  end.

Definition stat (path : bytes) : io (result FilInfo FResult) :=
  if negb (starts_with path usb_prefix) then Ret (Err FResult.InvalidName)
  else
    match native_path path with
    | Err e => Ret (Err e)
    | Ok p =>
        r ← fs (f_stat p);
        if decide (r.1 <> FResult.Ok) then Ret (Err r.1) else Ret (Ok r.2)
    end.

(** [impl Drop for Dir]. *)
Definition drop_dir (dir : ptr) : io FResult := fs (f_closedir dir).

(** [find_and_delete]: each turn of the loop looks for the first match,
    closes the search and deletes the match. *)
Fixpoint find_and_delete (fuel : nat) (pattern : bytes) : io unit :=
  match fuel with
  | O => Fuel
  | S fuel =>
      r ← fs (f_findfirst (lit "0:") pattern);
      let '(res, dir, info) := r in
      if decide (res <> FResult.Ok) then Ret tt
      else if decide (head (fname info) = Some 0) then Ret tt
      else
        let name := cstr_from_ptr (fname info) in
        match format_n 64 (usb_prefix ++ from_option id [] (from_utf8 name)) with
        | None =>
            drop_dir dir;;
            find_and_delete fuel pattern
        | Some path =>
            path ← unwrap (result_ok (cstring_from_bytes_with_nul 64 path));
            drop_dir dir;;
            ret ← delete path;
            if decide (ret <> 0) then Ret tt else find_and_delete fuel pattern
        end
  end.

Definition clean_usb (fuel : nat) : io unit :=
  find_and_delete fuel (lit "*.gcode");;
  find_and_delete fuel (lit "*.partial").

(** ** Open files *)

Definition read {T} `{Mode T, ImplementsEmbeddedIoRead T} (f : File T) (buf_len : Z) :
    io (result bytes fs_error) :=
  b ← fs (fread buf_len (fp f));
  Ret (Ok b).

Definition write {T} `{Mode T, ImplementsEmbeddedIoWrite T} (f : File T) (buf : bytes) :
    io (result Z fs_error) :=
  if decide (buf = []) then Ret (Ok 0)
  else
    written ← fs (fwrite buf (fp f));
    Ret (Ok written).

Definition flush {T} `{Mode T, ImplementsEmbeddedIoWrite T} (f : File T) : io (result unit fs_error) :=
  res ← fs (fflush (fp f));
  if decide (res > 0) then Ret (Err IoError) else Ret (Ok tt).

Definition seek {T} `{Mode T} (f : File T) (pos : SeekFrom) : io (result Z fs_error) :=
  let '(offset, whence) :=
    match pos with
    | Start o => (as_c_long o, 0)
    | Current o => (as_c_long o, 1)
    | End_ o => (as_c_long o, 2)
    end in
  r ← fs (fseek (fp f) offset whence);
  if decide (r <> 0) then Ret (Err IoError)
  else
    tell ← fs (ftell (fp f));
    if decide (tell < 0) then Ret (Err IoError) else Ret (Ok tell).

(** [impl Drop for File], which is also what [close] does. *)
Definition drop_file {T} `{Mode T} (f : File T) : io unit := fs (fclose (fp f)).

Definition close {T} `{Mode T} (f : File T) : io unit := drop_file f.

(** [test_file]; both arms of its [match] only log. *)
Definition test_file : io unit :=
  o ← open (lit "/usb/test.txt") mkWriteBytes;
  match o with
  | Ok f =>
      write f (lit "Hello World" ++ [10]);;
      close f
  | Err _ => Ret tt
  end.

Definition make_path (guid : Uuid) (partial : bool) : io bytes :=
  path ← unwrap (format_n 64 (if partial then usb_prefix ++ uuid_display guid ++ lit ".partial"
                              else usb_prefix ++ uuid_display guid ++ lit ".gcode"));
  unwrap (result_ok (cstring_from_bytes_with_nul 64 path)).
End fs.

(** ** Paths *)

Section paths.
Context `{V : Vendor} {L : VendorLaws V}.

(** The path [make_path] builds. *)
Definition path_of (guid : Uuid) (partial : bool) : bytes :=
  usb_prefix ++ uuid_display guid ++ (if partial then lit ".partial" else lit ".gcode").

#[local] Arguments path_of : simpl never.

Lemma path_of_ascii g p : Forall is_ascii (path_of g p).
Proof.
  unfold path_of. apply Forall_app; split; [by apply (bool_decide_unpack _)|].
  apply Forall_app; split; [apply uuid_display_ascii|].
  destruct p; by apply (bool_decide_unpack _).
Qed.

Lemma path_of_length g p : len (path_of g p) = 41 + (if p then 8 else 6).
Proof.
  unfold path_of. rewrite !len_app, uuid_display_length. by destruct p.
Qed.

Lemma path_of_bound g p : len (path_of g p) + 1 <= 64.
Proof. rewrite path_of_length. case_match; lia. Qed.

Lemma path_of_no_nul g p : no_nul (path_of g p).
Proof.
  intros H. unfold path_of in H. rewrite !elem_of_app in H.
  destruct H as [H|[H|H]]; [|by apply (uuid_display_no g 0) in H|].
  - revert H. by apply (bool_decide_unpack _).
  - revert H. destruct p; by apply (bool_decide_unpack _).
Qed.

(** [make_path] never panics: the path and its nul fit in 64 bytes. *)
Lemma make_path_eq g p : make_path g p = Ret (path_of g p).
Proof.
  unfold make_path.
  assert ((if p then usb_prefix ++ uuid_display g ++ lit ".partial"
           else usb_prefix ++ uuid_display g ++ lit ".gcode") = path_of g p) as -> by by destruct p.
  pose proof (path_of_bound g p) as Hl.
  rewrite format_n_ascii by (first [apply path_of_ascii | lia]). cbn.
  by rewrite cstring_from_fits by (first [apply path_of_no_nul | lia]).
Qed.

Lemma path_of_inj g p g' p' : path_of g p = path_of g' p' -> g = g' /\ p = p'.
Proof.
  intros H. assert (p = p') as <-.
  { pose proof (path_of_length g p) as H1. rewrite H, path_of_length in H1. by destruct p, p'. }
  unfold path_of in H. apply app_inv_head, app_inv_tail in H.
  split; [by apply uuid_display_inj|done].
Qed.

Lemma path_of_usb g p : starts_with (path_of g p) usb_prefix = true.
Proof. apply starts_with_true. unfold path_of. eauto. Qed.
End paths.

Arguments path_of : simpl never.

#[export] Hint Resolve path_of_ascii path_of_no_nul path_of_usb : derust.
