(* ===== verification/UsbStick.v ===== *)
(** * Cleaning the USB stick at boot ([clean_usb] and [find_and_delete] of
    [fs.rs])

    [UsbStick] states what FatFs documents of the three calls the loop makes;
    [list_stick] is a concrete directory, [broken_stick] one that refuses to delete.  When the names of
    the matching files fit the 64-byte path buffer the loop terminates, at the first call that fails or
    when no match is left; it never terminates, or panics, on longer names. *)

From S2P Require Import Prelude Prog Text Net Vendor VendorRef Data Ffi Env Fs.

(** A directory seen through FatFs: [names pat s] are the matches of a pattern, in directory order.  Every
    call can fail, and then changes nothing. *)
Class UsbStick `{V : Vendor} {S : Type} (h : handler call S) (names : bytes -> S -> list bytes) : Prop := {
  stick_find pat s :
    let '((res, dir, info), s') := h _ (CFs (f_findfirst (lit "0:") pat)) s in
    (forall q, names q s' = names q s) /\
    (res = FResult.Ok ->
     match names pat s with
     | [] => head (fname info) = Some 0
     | n :: _ => exists rest, fname info = n ++ 0 :: rest
     end);
  stick_close dir s : forall q, names q (h _ (CFs (f_closedir dir)) s).2 = names q s;
  stick_name pat s n : n ∈ names pat s -> no_nul n /\ n <> [];
  stick_unlink pat s n :
    n ∈ names pat s ->
    let '(r, s') := h _ (CFs (unlink (usb_prefix ++ n))) s in
    forall q, names q s' = if decide (r = 0) then filter (fun m => m <> n) (names q s) else names q s
}.

(** The searches and deletions of a trace that failed. *)
Definition usb_failed_seen `{Vendor} (X : Type) (c : call X) : X -> list unit :=
  match c in call X return X -> list unit with
  | CFs c =>
      match c in fs_call X return X -> list unit with
      | f_findfirst _ _ => fun r => if decide (r.1.1 = FResult.Ok) then [] else [tt]
      | unlink _ => fun r => if decide (r = 0) then [] else [tt]
      | _ => fun _ => []
      end
  | _ => fun _ => []
  end.

Definition usb_failures `{Vendor} (tr : trace) : nat := length (collect usb_failed_seen tr).

(** A name whose path and nul fit the buffer. *)
Definition short_name (n : bytes) : Prop := Forall is_ascii n /\ len n <= 58.

Lemma cstr_from_ptr_app n rest : no_nul n -> cstr_from_ptr (n ++ 0 :: rest) = n.
Proof.
  unfold no_nul. induction n as [|x n IH]; intros Hn; cbn; [done|].
  apply not_elem_of_cons in Hn as [Hx Hn]. rewrite (proj2 (Z.eqb_neq x 0)) by done. by rewrite IH.
Qed.

Lemma filter_all {A} (P : A -> Prop) `{forall x, Decision (P x)} (l : list A) :
  (forall x, x ∈ l -> P x) -> filter P l = l.
Proof.
  induction l as [|x l IH]; intros H'; [done|].
  rewrite filter_cons_True by (apply H'; by left). rewrite IH; [done|]. intros y Hy. apply H'. by right.
Qed.

Lemma filter_filter_iff {A} (P Q R : A -> Prop)
    `{forall x, Decision (P x), forall x, Decision (Q x), forall x, Decision (R x)} (l : list A) :
  (forall x, R x <-> P x /\ Q x) -> filter P (filter Q l) = filter R l.
Proof.
  intros HR. induction l as [|x l IH]; [done|]. rewrite !filter_cons. specialize (HR x).
  destruct (decide (Q x)); rewrite ?filter_cons; repeat case_decide; try tauto; by rewrite IH.
Qed.

Lemma filter_ext_elem {A} (P Q : A -> Prop) `{forall x, Decision (P x), forall x, Decision (Q x)} (l : list A) :
  (forall x, x ∈ l -> P x <-> Q x) -> filter P l = filter Q l.
Proof.
  induction l as [|x l IH]; intros HE; [done|]. rewrite !filter_cons.
  rewrite IH by (intros y Hy; apply HE; by right). specialize (HE x (list_elem_of_here x l)).
  repeat case_decide; tauto.
Qed.

Lemma filter_Forall {A} (P Q : A -> Prop) `{forall x, Decision (P x)} (l : list A) :
  Forall Q l -> Forall Q (filter P l).
Proof.
  rewrite !Forall_forall. intros HQ x [_ Hx]%list_elem_of_filter. auto.
Qed.

Lemma usb_prefix_ascii : Forall is_ascii usb_prefix.
Proof. by apply (bool_decide_unpack _). Qed.

Lemma usb_prefix_no_nul : no_nul usb_prefix.
Proof. unfold no_nul. by apply (bool_decide_unpack _). Qed.

Section stick.
Context `{V : Vendor} {L : VendorLaws V} {S : Type} {h : handler call S} {names : bytes -> S -> list bytes}
        {U : UsbStick h names}.

(** A run with its end and its failures. *)
Definition watched {A} (p : io A) (s : S) : outcome A * S * nat := (run h p s, usb_failures (run_trace h p s)).

(** The search answers [Ok] for every state. *)
Definition finds (pat : bytes) : Prop := forall s, (h _ (CFs (f_findfirst (lit "0:") pat)) s).1.1.1 = FResult.Ok.

(** What follows a match in a turn of the loop. *)
Definition after_find (fuel : nat) (pat n : bytes) (dir : ptr) : io unit :=
  match format_n 64 (usb_prefix ++ n) with
  | None => fs (f_closedir dir);; find_and_delete fuel pat
  | Some path =>
      path ← unwrap (result_ok (cstring_from_bytes_with_nul 64 path));
      fs (f_closedir dir);;
      ret ← delete path;
      if decide (ret <> 0) then Ret tt else find_and_delete fuel pat
  end.

(** One turn of the loop: the search fails, finds nothing, or finds the first match. *)
Lemma find_turn fuel pat s :
  exists s', (forall q, names q s' = names q s) /\
    (watched (find_and_delete (Datatypes.S fuel) pat) s = (Done tt, s', 1%nat) /\ ~ finds pat \/
     match names pat s with
     | [] => watched (find_and_delete (Datatypes.S fuel) pat) s = (Done tt, s', 0%nat)
     | n :: _ =>
         Forall is_ascii n ->
         exists dir, watched (find_and_delete (Datatypes.S fuel) pat) s = watched (after_find fuel pat n dir) s'
     end).
Proof.
  pose proof (stick_find pat s) as Hf. destruct (h _ (CFs (f_findfirst (lit "0:") pat)) s) as [[[res dir] info] s'] eqn:Hh.
  destruct Hf as [Hs Hm]. exists s'. split; [done|].
  unfold watched, usb_failures. cbn [find_and_delete]. unfold fs at 1 2. cbn. rewrite Hh. cbn.
  destruct (decide (res = FResult.Ok)) as [Hr|Hr].
  - right. specialize (Hm Hr). rewrite (decide_False (P := res <> FResult.Ok)) by auto.
    destruct (names pat s) as [|n rest] eqn:Hn; [by rewrite decide_True|]. intros Ha. exists dir.
    destruct (stick_name pat s n) as [Hnul Hne]; [rewrite Hn; by left|]. destruct Hm as [tl Hm].
    rewrite decide_False.
    + rewrite Hm, cstr_from_ptr_app by done. by rewrite from_utf8_ascii by done.
    + rewrite Hm. destruct n as [|x n]; [done|]. cbn. intros [= ->]. apply Hnul. by left.
  - left. rewrite (decide_True (P := res <> FResult.Ok)) by done. split; [done|]. intros F. specialize (F s). by rewrite Hh in F.
Qed.

Lemma path_facts pat s n :
  n ∈ names pat s -> Forall is_ascii n -> Forall is_ascii (usb_prefix ++ n) /\ no_nul (usb_prefix ++ n) /\
  len (usb_prefix ++ n) = 5 + len n.
Proof.
  intros Hn Ha. split; [apply Forall_app; auto using usb_prefix_ascii|]. split.
  - destruct (stick_name pat s n Hn) as [Hnul _]. unfold no_nul in *. rewrite elem_of_app.
    intros [?|?]; [by apply usb_prefix_no_nul|done].
  - rewrite len_app. by change (len usb_prefix) with 5.
Qed.

(** A short match is deleted, or the loop ends because that failed. *)
Lemma after_find_short fuel pat s n dir :
  n ∈ names pat s -> short_name n ->
  exists s', watched (after_find fuel pat n dir) s = (Done tt, s', 1%nat) /\ (forall q, names q s' = names q s) \/
    watched (after_find fuel pat n dir) s = watched (find_and_delete fuel pat) s' /\
    forall q, names q s' = filter (fun m => m <> n) (names q s).
Proof.
  intros Hn [Ha Hl]. destruct (path_facts pat s n Hn Ha) as (Hpa & Hpn & Hpl).
  unfold after_find. rewrite format_n_ascii by (done || lia). rewrite cstring_from_fits by (done || lia).
  unfold watched, usb_failures. cbn. pose proof (stick_close dir s) as Hc.
  destruct (h _ (CFs (f_closedir dir)) s) as [r s2]. cbn in Hc. cbn.
  pose proof (stick_unlink pat s2 n) as Hu. rewrite Hc in Hu. specialize (Hu Hn).
  destruct (h _ (CFs (unlink (usb_prefix ++ n))) s2) as [z s3]. exists s3. cbn.
  destruct (decide (z = 0)) as [Hz|Hz].
  - right. rewrite (decide_False (P := z <> 0)) by auto. split; [done|]. intros q. by rewrite Hu, Hc.
  - left. rewrite (decide_True (P := z <> 0)) by done. split; [done|]. intros q. by rewrite Hu, Hc.
Qed.

Lemma find_and_delete_run fuel pat s :
  Forall short_name (names pat s) -> (length (names pat s) < fuel)%nat ->
  exists s' k (gone : list bytes), watched (find_and_delete fuel pat) s = (Done tt, s', k) /\
    (forall m, m ∈ gone -> m ∈ names pat s) /\ (forall q, names q s' = filter (fun m => m ∉ gone) (names q s)) /\
    (k <= 1)%nat /\ (k = 0%nat -> names pat s' = []).
Proof.
  revert s. induction fuel as [|fuel IH]; intros s Hs Hf; [lia|].
  assert (Hnone : forall s', (forall q, names q s' = names q s) ->
    (forall m, m ∈ ([] : list bytes) -> m ∈ names pat s) /\ (forall q, names q s' = filter (fun m => m ∉ ([] : list bytes)) (names q s))).
  { intros s' Hq. split; [by intros m ?%elem_of_nil|]. intros q. rewrite Hq. symmetry. apply filter_all. intros m _. apply not_elem_of_nil. }
  destruct (find_turn fuel pat s) as (s1 & Hs1 & [[Hw _]|Hw]).
  { destruct (Hnone _ Hs1). exists s1, 1%nat, []. split_and!; [done..|lia|done]. }
  destruct (names pat s) as [|n rest] eqn:Hn.
  { destruct (Hnone _ Hs1). exists s1, 0%nat, []. split_and!; [done..|lia|]. by rewrite Hs1. }
  apply Forall_cons in Hs as [Hsn Hs]. destruct (Hw (proj1 Hsn)) as [dir ->]. clear Hw.
  destruct (after_find_short fuel pat s1 n dir) as (s2 & [[Hw Hs2]|[Hw Hs2]]); [rewrite Hs1, Hn; by left|done| |]; rewrite Hw.
  { destruct (Hnone s2) as [? ?]; [intros q; by rewrite Hs2|]. exists s2, 1%nat, []. split_and!; [done..|lia|done]. }
  assert (names pat s2 = filter (fun m => m <> n) rest) as Hn2.
  { rewrite Hs2, Hs1, Hn, filter_cons_False by auto. done. }
  destruct (IH s2) as (s' & k & gone & Hr & Hg & Hq & Hk).
  { rewrite Hn2. by apply filter_Forall. }
  { rewrite Hn2. pose proof (length_filter (fun m => m <> n) rest). cbn in Hf. lia. }
  exists s', k, (n :: gone). split_and!; [done| | |tauto..].
  - intros m [->|Hm]%elem_of_cons; [by left|]. apply Hg in Hm. rewrite Hn2 in Hm.
    apply list_elem_of_filter in Hm as [_ Hm]. by right.
  - intros q. rewrite Hq, Hs2, Hs1. apply filter_filter_iff. intros m. rewrite elem_of_cons. tauto.
Qed.

(** Every turn finds the same over-long name again. *)
Lemma find_and_delete_long fuel pat s n rest :
  finds pat -> names pat s = n :: rest -> Forall is_ascii n -> 60 <= len n ->
  (run h (find_and_delete fuel pat) s).1 = OutOfFuel.
Proof.
  intros Hok. revert s. induction fuel as [|fuel IH]; intros s Hn Ha Hl; [done|].
  destruct (find_turn fuel pat s) as (s1 & Hs1 & [[_ []]|Hw]); [done|]. rewrite Hn in Hw.
  destruct (Hw Ha) as [dir Hw']. rewrite (f_equal fst Hw' : run h (find_and_delete _ pat) s = run h (after_find _ pat n dir) s1). unfold after_find. rewrite format_n_ascii_full.
  - cbn. pose proof (stick_close dir s1) as Hc.
    destruct (h _ (CFs (f_closedir dir)) s1) as [r s2]. cbn in Hc.
    apply IH; [|done|done]. by rewrite Hc, Hs1.
  - apply Forall_app; auto using usb_prefix_ascii.
  - rewrite len_app. change (len usb_prefix) with 5. lia.
Qed.

(** A name of exactly 59 bytes fits the [String] but not the [CString]. *)
Lemma find_and_delete_59 fuel pat s n rest :
  finds pat -> names pat s = n :: rest -> Forall is_ascii n -> len n = 59 ->
  (run h (find_and_delete (Datatypes.S fuel) pat) s).1 = Panicked.
Proof.
  intros Hok Hn Ha Hl. destruct (find_turn fuel pat s) as (s1 & Hs1 & [[_ []]|Hw]); [done|]. rewrite Hn in Hw.
  destruct (Hw Ha) as [dir Hw']. rewrite (f_equal fst Hw' : run h (find_and_delete _ pat) s = run h (after_find _ pat n dir) s1).
  destruct (path_facts pat s n) as (Hpa & Hpn & Hpl); [rewrite Hn; by left|done|].
  unfold after_find. rewrite format_n_ascii by (done || lia).
  destruct (cstring_from_full 64 (usb_prefix ++ n)) as [e He]; [done|by destruct n|lia|].
  by rewrite He.
Qed.
End stick.

(** ** A concrete directory *)

(** A file name matches ["*" ++ suffix] when it ends with [suffix]. *)
Definition glob_match (pat n : bytes) : bool :=
  match pat with
  | 42 :: suffix => bool_decide (drop (length n - length suffix) n = suffix)
  | _ => bool_decide (n = pat)
  end.

Definition usable_name (n : bytes) : Prop := no_nul n /\ n <> [].
#[export] Instance usable_name_dec n : Decision (usable_name n).
Proof. unfold usable_name, no_nul. apply _. Defined.

Definition list_names (pat : bytes) (s : list bytes) : list bytes :=
  filter (fun n => glob_match pat n = true /\ usable_name n) s.

Definition list_stick : handler call (list bytes) := fun X c s =>
  match c in call X return X * list bytes with
  | CFs c =>
      match c in fs_call X return X * list bytes with
      | f_findfirst path pat =>
          (FResult.Ok, 1,
           mkFilInfo 0 0 0 0 []
             (match list_names pat s with [] => [0] | n :: _ => n ++ [0] end), s)
      | unlink p => (0, filter (fun n => usb_prefix ++ n <> p) s)
      | c => (quiet_fs c, s)
      end
  | c => (quiet uuid_zero c, s)
  end.

#[export] Instance list_stick_ok : UsbStick list_stick list_names.
Proof.
  split.
  - intros pat s. cbn. split; [done|]. intros _. destruct (list_names pat s); [done|]. by exists [].
  - done.
  - intros pat s n [[_ ?] _]%list_elem_of_filter. done.
  - intros pat s n _. cbn. intros q. rewrite decide_True by done. unfold list_names.
    rewrite (filter_filter_iff _ _ (fun m => (glob_match q m = true /\ usable_name m) /\ m <> n)).
    + symmetry. apply filter_filter_iff. tauto.
    + intros m. rewrite (inj_iff (app usb_prefix)). tauto.
Qed.

(** The same directory on a stick that cannot be written: every deletion fails. *)
Definition broken_stick : handler call (list bytes) := fun X c s =>
  match c in call X return X * list bytes with
  | CFs c =>
      match c in fs_call X return X * list bytes with
      | unlink p => (-1, s)
      | c => list_stick _ (CFs c) s
      end
  | c => (quiet uuid_zero c, s)
  end.

#[export] Instance broken_stick_ok : UsbStick broken_stick list_names.
Proof.
  split.
  - exact (stick_find (h := list_stick)).
  - done.
  - exact (stick_name (h := list_stick)).
  - done.
Qed.
