(* ===== verification/Http.v ===== *)
(** * HTTP responses ([http.rs])

    The fixed responses, byte for byte.  [http s] is a literal in which an
    at-sign stands for CR LF; in [HTML_STR] a back quote stands for a double quote, which the
    page uses and never the back quote itself. *)

From S2P Require Import Prelude Text.

Definition crlf : bytes := [13; 10].

Definition http (s : String.string) : bytes := lit s ≫= fun c => if c =? 64 then crlf else [c].
Arguments http s%_string_scope : simpl never.

Definition INTERNAL_SERVER_ERROR : bytes :=
  http "HTTP/1.1 500 Internal Server Error@Content-length:0@Connection: close@@".
Definition OK : bytes := http "HTTP/1.1 200 OK@Content-length:4@Connection: close@@pong".
Definition BAD_REQUEST : bytes :=
  http "HTTP/1.1 400 Bad Request@Content-length:0@Connection: close@@".
Definition REQUEST_TIMEOUT : bytes :=
  http "HTTP/1.1 408 Request Timeout@Content-length:0@Connection: close@@".
Definition METHOD_NOT_ALLOWED : bytes :=
  http "HTTP/1.1 405 Method Not Allowed@Content-length:0@Connection: close@@".
Definition SERVICE_UNAVAILABLE : bytes :=
  http "HTTP/1.1 503 Service Unavailable@Content-length:0@Connection: close@@".

(** The upload form, [assets/index.html]. *)
Definition HTML_STR : bytes := (fun c => if c =? 96 then 34 else c) <$> lit
"<!DOCTYPE html>
<title>Upload</title>
<style>
  body {
    font: 14px sans-serif;
    background: #eee;
    display: flex;
    justify-content: center;
    align-items: center;
    height: 95vh;
  }

  .c {
    background: #fff;
    padding: 20px;
    border-radius: 8px;
    box-shadow: 0 2px 9px #0003;
    text-align: center;
    width: 240px;
  }

  h1 {
    margin: 0 0 15px;
    font-size: 18px;
  }

  input,
  button {
    width: 100%;
    margin-bottom: 10px;
  }

  button {
    background: #2563eb;
    color: #fff;
    border: 0;
    padding: 8px;
    border-radius: 4px;
    cursor: pointer;
  }

  button:hover {
    background: #1d4ed8;
  }
</style>
<div class=`c`>
  <h1>Derusting</h1>
  <p><b>De</b>centralised T<b>rust</b>ed Manufactur<b>ing</b> in <b>Rust</b></p>
  <input type=`file` id=`f`>
  <button onclick=`u()`>Upload G-code</button>
</div>
<script>
  async function u() {
    let file = f.files[0];
    if (!file) return alert('Select file');
    try {
      let r = await fetch('/', {
        method: 'PUT',
        body: file
      });
      alert(r.ok ? 'Sent' : 'Error');
    } catch (e) {alert('Fail');}
  }
</script>".

Definition INDEX_HTML : bytes :=
  http "HTTP/1.1 200 OK@Content-Type: text/html@Content-Length: " ++ display_u32 (len HTML_STR)
    ++ http "@Connection: close@@" ++ HTML_STR.

Arguments INTERNAL_SERVER_ERROR : simpl never.
Arguments OK : simpl never.
Arguments BAD_REQUEST : simpl never.
Arguments METHOD_NOT_ALLOWED : simpl never.
Arguments HTML_STR : simpl never.
Arguments INDEX_HTML : simpl never.

(** [Method]. *)
Inductive Method : Type := Get | Put.

#[export] Instance method_eq_dec : EqDecision Method.
Proof. solve_decision. Defined.

(** ** How a client reads a response *)

(** The head and the body, split at the first empty line. *)
Definition response_parts (r : bytes) : option (bytes * bytes) :=
  (fun i => (take i r, drop (i + 4) r)) <$> position (crlf ++ crlf) r.

(** The value of the last [Content-Length] field of a head. *)
Definition content_length_of (head : str) : option Z :=
  foldl (fun acc line =>
    match split_once 58 line with
    | Some (key, val) =>
        if eq_ignore_ascii_case (trim key) (lit "content-length") then parse_usize (trim val) else acc
    | None => acc
    end) None (lines head).

(** A response that a client can delimit: it has a head, and the length the head
    announces is the length of the body. *)
Definition framed (r : bytes) : bool :=
  match response_parts r with
  | Some (head, body) => bool_decide (content_length_of head = Some (len body))
  | None => false
  end.

Definition all_responses : list bytes :=
  [INTERNAL_SERVER_ERROR; OK; BAD_REQUEST; REQUEST_TIMEOUT; METHOD_NOT_ALLOWED; SERVICE_UNAVAILABLE;
   INDEX_HTML].

(** Every response the server can send announces the exact length of its body, and
    is short enough for the single [tcp_write] that [TcpConnection::response] makes. *)
Theorem responses_framed :
  Forall (fun r => framed r = true /\ len r <= u16_max) all_responses.
Proof. repeat (constructor; [split; [by vm_compute|by apply (bool_decide_unpack _); vm_compute]|]). constructor. Qed.
