(* ===== verification/Request.v ===== *)
(** * Parsing upload requests ([split_request], [check_start_line] and
    [check_put_header] of [tasks/tcp.rs]) *)

From S2P Require Import Prelude Text Net Vendor VendorRef Http.

Section request.
Context `{V : Vendor}.

(** The start line, the headers and the beginning of the body of a request whose
    head is in one buffer. *)
Definition split_request (buf : bytes) : option (str * str * bytes) :=
  match position crlf buf with
  | None => None
  | Some idx =>
      let start_line := take idx buf in
      let rest := drop 2 (drop idx buf) in
      match position (crlf ++ crlf) rest with
      | None => None
      | Some idx =>
          let headers := take idx rest in
          let body := drop 4 (drop idx rest) in
          match from_utf8 start_line with
          | None => None
          | Some start_line =>
              match from_utf8 headers with
              | None => None
              | Some headers => Some (start_line, headers, body)
              end
          end
      end
  end.

(** The error is the response to send. *)
Definition check_start_line (start_line : str) : result Method bytes :=
  match split 32 start_line with
  | [] => Err BAD_REQUEST
  | method :: tokens =>
      let rest m :=
        match tokens with
        | [] => Err BAD_REQUEST
        | url :: _ => if decide (url <> lit "/") then Err BAD_REQUEST else Ok m
        end in
      if decide (method = lit "GET") then rest Get
      else if decide (method = lit "PUT") then rest Put
      else Err METHOD_NOT_ALLOWED
  end.

Record PutInfo : Type := mkPutInfo { size : option Z; info_guid : option Uuid; is_gcode : bool }.

(** The body of the loop over the header lines. *)
Definition put_header_line (info : PutInfo) (line : str) : PutInfo :=
  match split_once 58 line with
  | None => info
  | Some (key, val) =>
      let key := trim key in
      let val := trim val in
      if eq_ignore_ascii_case key (lit "content-length") then
        mkPutInfo (parse_usize val) (info_guid info) (is_gcode info)
      else if eq_ignore_ascii_case key (lit "content-type") && bool_decide (val = lit "text/x.gcode") then
        mkPutInfo (size info) (info_guid info) true
      else if eq_ignore_ascii_case key (lit "guid") then
        mkPutInfo (size info) (uuid_parse val) (is_gcode info)
      else info
  end.

Definition check_put_header (headers : str) : PutInfo :=
  foldl put_header_line (mkPutInfo None None false) (lines headers).

(** The guard of the PUT branch of [handle_conn]. *)
Definition put_rejected (info : PutInfo) : bool :=
  negb (is_gcode info) || bool_decide (size info = None)
  || match size info with Some s => (s =? 0) || (s >? 1000000) | None => false end.

(** ** Facts *)

(** The bytes before the first CR LF, and before the first empty line after
    it. *)
Definition first_split (pat pre buf : bytes) : Prop :=
  exists post, buf = pre ++ pat ++ post /\
    forall j, (j < length pre)%nat -> ~ occurs_at pat buf j.

Lemma first_split_position pat pre buf :
  first_split pat pre buf -> position pat buf = Some (length pre).
Proof. intros (post & -> & Hmin). exact (position_app pat pre post Hmin). Qed.

Lemma position_first_split pat buf i :
  position pat buf = Some i -> first_split pat (take i buf) buf /\
    buf = take i buf ++ pat ++ drop (length pat) (drop i buf).
Proof.
  intros (Hi & Ho & Hmin)%position_spec.
  pose proof (occurs_at_app _ _ _ Ho Hi) as Hb. rewrite <- drop_drop in Hb.
  split; [|done]. exists (drop (length pat) (drop i buf)). split; [done|].
  intros j Hj. apply Hmin. rewrite length_take in Hj. lia.
Qed.

Lemma drop_cut {A} (pre pat post : list A) :
  drop (length pat) (drop (length pre) (pre ++ pat ++ post)) = post.
Proof. by rewrite drop_app_length, drop_app_length. Qed.

Definition request_form (buf : bytes) (s h : str) (body : bytes) : Prop :=
  exists s' h' rest,
    buf = s' ++ crlf ++ rest /\ rest = h' ++ (crlf ++ crlf) ++ body /\
    first_split crlf s' buf /\ first_split (crlf ++ crlf) h' rest /\
    from_utf8 s' = Some s /\ from_utf8 h' = Some h.

Lemma split_request_sound buf s h body :
  split_request buf = Some (s, h, body) -> request_form buf s h body.
Proof.
  unfold split_request. cbv zeta.
  destruct (position crlf buf) as [i|] eqn:Ei; [|done].
  destruct (position (crlf ++ crlf) _) as [k|] eqn:Ek; [|done].
  destruct (from_utf8 (take i buf)) as [s0|] eqn:Es; [|done].
  destruct (from_utf8 (take k _)) as [h0|] eqn:Eh; [|done].
  intros [= -> -> <-].
  destruct (position_first_split _ _ _ Ei) as [Hf1 Hb1].
  destruct (position_first_split _ _ _ Ek) as [Hf2 Hb2].
  eexists _, _, _. split; [exact Hb1|]. split; [exact Hb2|]. done.
Qed.

Lemma split_request_complete buf s h body :
  request_form buf s h body -> split_request buf = Some (s, h, body).
Proof.
  intros (s' & h' & rest & Hb & Hr & Hf1 & Hf2 & Hs & Hh). unfold split_request. cbv zeta.
  rewrite (first_split_position _ _ _ Hf1).
  assert (drop 2 (drop (length s') buf) = rest) as ->.
  { rewrite Hb. change 2%nat with (length crlf). by rewrite drop_cut. }
  rewrite (first_split_position _ _ _ Hf2).
  assert (take (length s') buf = s') as -> by by rewrite Hb, take_app_length.
  assert (take (length h') rest = h') as -> by by rewrite Hr, take_app_length.
  rewrite Hs, Hh, Hr. change 4%nat with (length (crlf ++ crlf)). by rewrite drop_cut.
Qed.

(** C37. [split_request] finds the three parts of a request exactly when they are there: the
    start line ends at the first CR LF, the headers at the first empty line after it,
    both are UTF-8, and the body is everything that follows. *)
Theorem split_request_iff buf s h body :
  split_request buf = Some (s, h, body) <-> request_form buf s h body.
Proof. split; [apply split_request_sound|apply split_request_complete]. Qed.

(** The name of a method on the wire. *)
Definition method_name (m : Method) : str := match m with Get => lit "GET" | Put => lit "PUT" end.

(** A request is routed exactly when its method is GET or PUT and its target is the
    root; what follows the target is not looked at. *)
Theorem check_start_line_ok l m :
  check_start_line l = Ok m <->
  exists rest, l = method_name m ++ lit " /" ++ rest /\ (rest = [] \/ head rest = Some 32).
Proof.
  unfold check_start_line. split.
  - destruct (split 32 l) as [|t ts] eqn:El; [done|].
    destruct (split_cons_inv _ _ _ _ El) as [_ Hl].
    intros H. assert (t = method_name m /\ exists us, ts = lit "/" :: us) as [-> [us ->]].
    { repeat case_decide; try done; destruct ts as [|u us]; try done; case_decide as Hu; try done;
        simplify_eq; (split; [done|]); exists us; f_equal; by apply dec_stable. }
    destruct Hl as [[? _]|(r & -> & Hr)]; [done|]. symmetry in Hr.
    destruct (split_cons_inv _ _ _ _ Hr) as [_ [[_ ->]|(r' & -> & _)]].
    + exists []. split; [|auto]. reflexivity.
    + exists (32 :: r'). split; [|auto]. reflexivity.
  - intros (rest & -> & Hrest).
    assert (split 32 (method_name m ++ lit " /" ++ rest) = method_name m :: split 32 (lit "/" ++ rest)) as ->.
    { change (lit " /" ++ rest) with (32 :: lit "/" ++ rest). apply split_app.
      destruct m; by apply (bool_decide_unpack _). }
    assert (exists us, split 32 (lit "/" ++ rest) = lit "/" :: us) as [us ->].
    { destruct Hrest as [->|Hh]; [by exists []|]. destruct rest as [|x r]; [done|]. cbn in Hh. injection Hh as ->.
      exists (split 32 r). apply split_app. by apply (bool_decide_unpack _). }
    destruct m; cbn [method_name]; repeat (case_decide || done).
Qed.

(** A start line that is refused gets one of two responses, and 405 exactly when
    the method is neither GET nor PUT. *)
Lemma check_start_line_err l e :
  check_start_line l = Err e ->
  e = METHOD_NOT_ALLOWED /\ head (split 32 l) <> Some (lit "GET") /\ head (split 32 l) <> Some (lit "PUT")
  \/ e = BAD_REQUEST /\ (head (split 32 l) = Some (lit "GET") \/ head (split 32 l) = Some (lit "PUT")).
Proof.
  unfold check_start_line. destruct (split 32 l) as [|t ts] eqn:El; [by apply split_nonempty in El|].
  intros H. repeat case_decide; subst; cbn [head].
  - right. split; [|auto]. by repeat case_match; simplify_eq.
  - right. split; [|auto]. by repeat case_match; simplify_eq.
  - left. simplify_eq. split; [done|]. split; congruence.
Qed.

(** ** What the PUT headers say *)

(** The trimmed values of the lines with a given key, in order. *)
Definition field_values (key : str) (headers : str) : list str :=
  omap (fun line =>
    match split_once 58 line with
    | Some (k, v) => if eq_ignore_ascii_case (trim k) key then Some (trim v) else None
    | None => None
    end) (lines headers).

Lemma eq_ignore_trans a b c :
  eq_ignore_ascii_case a b = true -> eq_ignore_ascii_case a c = true -> eq_ignore_ascii_case b c = true.
Proof. unfold eq_ignore_ascii_case. rewrite !bool_decide_eq_true. congruence. Qed.

Lemma eq_ignore_other a b c :
  eq_ignore_ascii_case b c = false -> eq_ignore_ascii_case a b = true -> eq_ignore_ascii_case a c = false.
Proof.
  intros Hbc Hab. apply not_true_iff_false. intros Hac. pose proof (eq_ignore_trans _ _ _ Hab Hac). congruence.
Qed.

(** The state after some lines, in terms of the values seen so far. *)
Definition put_info_spec (sizes guids types : list str) : PutInfo :=
  mkPutInfo (last sizes ≫= parse_usize) (last guids ≫= uuid_parse)
            (bool_decide (lit "text/x.gcode" ∈ types)).

Lemma check_put_header_spec headers :
  check_put_header headers =
    put_info_spec (field_values (lit "content-length") headers) (field_values (lit "guid") headers)
                  (field_values (lit "content-type") headers).
Proof.
  unfold check_put_header, field_values. induction (lines headers) as [|line ls IH] using rev_ind; [done|].
  rewrite foldl_snoc, IH. clear IH. rewrite !omap_app.
  set (sz := omap _ ls). set (gd := omap _ ls). set (ty := omap _ ls).
  unfold put_header_line. cbn [omap list_omap].
  destruct (split_once 58 line) as [[k v]|]; [|by rewrite !app_nil_r].
  set (key := trim k). set (val := trim v).
  destruct (eq_ignore_ascii_case key (lit "content-length")) eqn:E1.
  { rewrite (eq_ignore_other key (lit "content-length") (lit "guid") eq_refl E1).
    rewrite (eq_ignore_other key (lit "content-length") (lit "content-type") eq_refl E1).
    rewrite !app_nil_r. unfold put_info_spec. by rewrite last_snoc. }
  rewrite app_nil_r.
  destruct (eq_ignore_ascii_case key (lit "content-type")) eqn:E2.
  { rewrite (eq_ignore_other key (lit "content-type") (lit "guid") eq_refl E2), app_nil_r.
    unfold put_info_spec; cbn [andb size info_guid is_gcode].
    destruct (decide (val = lit "text/x.gcode")) as [->|Hv].
    - rewrite bool_decide_true by done. f_equal. symmetry. apply bool_decide_eq_true.
      rewrite elem_of_app, list_elem_of_singleton. auto.
    - rewrite bool_decide_false by done. f_equal. apply bool_decide_ext.
      rewrite elem_of_app, list_elem_of_singleton. intuition congruence. }
  cbn [andb]. rewrite app_nil_r.
  destruct (eq_ignore_ascii_case key (lit "guid")) eqn:E3.
  - unfold put_info_spec. by rewrite last_snoc.
  - by rewrite app_nil_r.
Qed.

(** The header lines are read as header fields are meant to be, whatever their order
    and spelling: names are compared without case and around blanks, the last
    [Content-Length] and the last [guid] count, a value that does not parse counts as
    missing, and the body is G-code when some [Content-Type] says so. *)
Theorem put_header_fields headers :
  check_put_header headers =
    put_info_spec (field_values (lit "content-length") headers) (field_values (lit "guid") headers)
                  (field_values (lit "content-type") headers).
Proof. apply check_put_header_spec. Qed.

Lemma check_put_header_size headers n : size (check_put_header headers) = Some n -> 0 <= n.
Proof.
  rewrite check_put_header_spec. cbn. intros H. apply bind_Some in H as (v & _ & H).
  apply parse_usize_range in H. lia.
Qed.

(** What the guard of the PUT branch lets through. *)
Lemma put_accepted headers :
  put_rejected (check_put_header headers) = false <->
  is_gcode (check_put_header headers) = true /\
  exists n, size (check_put_header headers) = Some n /\ 0 < n <= 1000000.
Proof.
  pose proof (check_put_header_size headers) as Hs. unfold put_rejected.
  destruct (is_gcode _); cbn [negb orb]; [|by split; [|intros [? _]]].
  destruct (size _) as [n|]; cbn; [|by split; [|intros (_ & n & ? & _)]].
  rewrite Z.gtb_ltb. specialize (Hs n eq_refl).
  split; [intros [?%Z.eqb_neq ?%Z.ltb_ge]%orb_false_iff; split; [done|]; exists n; split; [done|lia]|].
  intros (_ & m & [= <-] & ?). apply orb_false_iff. split; [apply Z.eqb_neq|apply Z.ltb_ge]; lia.
Qed.
End request.
