(* ===== verification/Rng.v ===== *)
(** * Random bytes and UUIDs ([tasks/rng.rs]) *)

From S2P Require Import Prelude Prog Text Net Vendor VendorRef Data Ffi Env.

(** [HalStatus]. *)
Module HalStatus.
Inductive t : Type := Ok | Error | Busy | Timeout.
Definition code (s : t) : Z := match s with Ok => 0 | Error => 1 | Busy => 2 | Timeout => 3 end.
End HalStatus.

(** [u32::to_le_bytes]. *)
Definition to_le_bytes (w : Z) : bytes :=
  [w mod 256; w / 256 mod 256; w / 65536 mod 256; w / 16777216 mod 256].

Arguments to_le_bytes : simpl never.

(** [buf[i..i + src.len()].copy_from_slice(src)]. *)
Definition copy_at (i : Z) (src buf : bytes) : bytes := ztake i buf ++ src ++ zdrop (i + len src) buf.
Arguments copy_at : simpl never.

Section rng.
Context `{V : Vendor}.

(** [__getrandom_v03_custom]: the loop from index [i] on. *)
Fixpoint getrandom_from (fuel : nat) (i : Z) (buf : bytes) : io (result bytes unit) :=
  match fuel with
  | O => Fuel
  | S fuel =>
      if i <? len buf then
        r ← hal HAL_RNG_GenerateRandomNumber;
        let '(status, random_val) := r in
        if status =? HalStatus.code HalStatus.Ok then
          let b := to_le_bytes random_val in
          let remaining := len buf - i in
          let take := Z.min remaining 4 in
          getrandom_from fuel (i + take) (copy_at i (ztake take b) buf)
        else if status =? HalStatus.code HalStatus.Busy then getrandom_from fuel i buf
        else Ret (Err tt)
      else Ret (Ok buf)
  end.

Definition getrandom_v03_custom (fuel : nat) (dest : bytes) : io (result bytes unit) :=
  getrandom_from fuel 0 dest.

(** [generate_uuid_v7]; a tick of the clock is a millisecond. *)
Definition generate_uuid_v7 : io Uuid :=
  now_ms ← rt instant_now;
  let seconds := now_ms / 1000 in
  let nanos := wrap 32 (wrap 32 (now_ms mod 1000) * 1000000) in
  rt (uuid_new_v7 seconds nanos).

(** ** What the generator delivered *)

(** The words of the successful calls of a trace, as bytes. *)
Fixpoint random_bytes (tr : trace) : bytes :=
  match tr with
  | [] => []
  | @Ev _ X c x :: tr =>
      (match c in call X return X -> bytes with
       | CHal c =>
           match c in hal_call X return X -> bytes with
           | HAL_RNG_GenerateRandomNumber => fun r => if r.1 =? 0 then to_le_bytes r.2 else []
           end
       | _ => fun _ => []
       end x) ++ random_bytes tr
  end.

(** How often the hardware answered that it was busy. *)
Fixpoint busy_count (tr : trace) : nat :=
  match tr with
  | [] => 0
  | @Ev _ X c x :: tr =>
      ((match c in call X return X -> nat with
        | CHal c =>
            match c in hal_call X return X -> nat with
            | HAL_RNG_GenerateRandomNumber => fun r => if (r.1 =? 2)%Z then 1%nat else 0%nat
            end
        | _ => fun _ => 0%nat
        end x) + busy_count tr)%nat
  end.

Lemma copy_at_length i src buf :
  0 <= i -> i + len src <= len buf -> len (copy_at i src buf) = len buf.
Proof.
  intros Hi Hl. pose proof (len_nonneg src). unfold copy_at.
  rewrite !len_app, len_ztake, len_zdrop by lia. lia.
Qed.

Lemma copy_at_take i src buf :
  0 <= i -> i + len src <= len buf -> ztake (i + len src) (copy_at i src buf) = ztake i buf ++ src.
Proof.
  intros Hi Hl. pose proof (len_nonneg src). unfold copy_at. rewrite app_assoc.
  rewrite ztake_app by lia.
  rewrite len_app, len_ztake by lia. rewrite (Z.min_l i (len buf)) by lia.
  rewrite Z.min_l by lia. unfold saturating_sub. rewrite Z.sub_diag, Z.max_l by lia.
  rewrite ztake_0, app_nil_r. apply ztake_ge. rewrite len_app, len_ztake by lia. lia.
Qed.

(** A successful run has filled the whole buffer with the delivered bytes, in
    order; what the buffer held before is gone. *)
Lemma getrandom_from_ok fuel i buf tr out :
  0 <= i <= len buf ->
  exec (getrandom_from fuel i buf) tr (Done (Ok out)) ->
  len out = len buf /\ out = ztake i buf ++ ztake (len buf - i) (random_bytes tr).
Proof.
  revert i buf tr. induction fuel as [|fuel IH]; intros i buf tr Hi H; [by destruct H|].
  cbn [getrandom_from] in H. destruct (Z.ltb_spec i (len buf)) as [Hlt|Hge].
  - exec_step H as [status w]. destruct (Z.eqb_spec status 0) as [->|Hs].
    + set (n := Z.min (len buf - i) 4) in *.
      assert (0 < n <= len buf - i /\ n <= 4) as Hn' by (subst n; lia).
      assert (len (ztake n (to_le_bytes w)) = n) as Hn.
      { rewrite len_ztake by lia. change (len (to_le_bytes w)) with 4. lia. }
      apply IH in H as [Hl Ho]; [|rewrite copy_at_length; lia].
      rewrite copy_at_length in Hl, Ho by lia. split; [done|]. rewrite Ho.
      assert (ztake (i + n) (copy_at i (ztake n (to_le_bytes w)) buf) = ztake i buf ++ ztake n (to_le_bytes w)) as ->.
      { rewrite <- Hn at 1. apply copy_at_take; lia. }
      cbn [random_bytes fst snd]. rewrite Z.eqb_refl, <- app_assoc. f_equal.
      rewrite ztake_app by lia. change (len (to_le_bytes w)) with 4. fold n.
      rewrite (Z.min_l (len buf - i) 4) || idtac. unfold saturating_sub. f_equal. f_equal. lia.
    + destruct (Z.eqb_spec status 2) as [->|?].
      * destruct (IH _ _ _ Hi H) as [Hl Ho]. done.
      * by destruct H as [_ ?].
  - destruct H as [-> [= ->]]. split; [done|].
    assert (len buf - i = 0) as -> by lia.
    by rewrite ztake_0, app_nil_r, ztake_ge by lia.
Qed.

(** The loop ends when the hardware is not busy for ever: [fuel] turns are enough
    for [n] more bytes and the busy answers of the run. *)
Lemma getrandom_from_fuel fuel i buf tr o :
  0 <= i <= len buf ->
  exec (getrandom_from fuel i buf) tr o ->
  (Z.to_nat (len buf - i) + busy_count tr < fuel)%nat ->
  exists r, o = Done r.
Proof.
  revert i buf tr. induction fuel as [|fuel IH]; intros i buf tr Hi H Hf; [lia|].
  cbn [getrandom_from] in H. destruct (Z.ltb_spec i (len buf)) as [Hlt|Hge].
  - exec_step H as [status w]. cbn [busy_count fst] in Hf. destruct (Z.eqb_spec status 0) as [->|Hs].
    + set (n := Z.min (len buf - i) 4) in *.
      assert (0 < n <= len buf - i /\ n <= 4) as Hn' by (subst n; lia).
      assert (len (ztake n (to_le_bytes w)) = n) as Hn.
      { rewrite len_ztake by lia. change (len (to_le_bytes w)) with 4. lia. }
      apply IH in H; [done| |]; rewrite copy_at_length; cbn in *; lia.
    + destruct (Z.eqb_spec status 2) as [->|?].
      * apply IH in H; [done|done|]. cbn in Hf. lia.
      * destruct H as [_ ->]. eauto.
  - destruct H as [-> ->]. eauto.
Qed.

(** The random source fills its whole buffer with the words the hardware delivered, in
    order, or reports an error; it returns as soon as the hardware is no longer
    busy. *)
Theorem getrandom_fills fuel dest tr o :
  exec (getrandom_v03_custom fuel dest) tr o ->
  (forall out, o = Done (Ok out) -> len out = len dest /\ out = ztake (len dest) (random_bytes tr)) /\
  ((Z.to_nat (len dest) + busy_count tr < fuel)%nat -> exists r, o = Done r).
Proof.
  intros H. unfold getrandom_v03_custom in H. pose proof (len_nonneg dest). split.
  - intros out ->. apply getrandom_from_ok in H as [Hl Ho]; [|lia].
    rewrite ztake_0, Z.sub_0_r in Ho. done.
  - intros Hf. apply getrandom_from_fuel in H; [done|lia|]. by rewrite Z.sub_0_r.
Qed.
End rng.

Lemma getrandom_fills_witness :
  let tr := run_trace demo_h (getrandom_v03_custom 3 [1; 2]) (demo_start []) in
  exec (getrandom_v03_custom 3 [1; 2]) tr (Done (Ok [0; 0])) /\ [0; 0] = ztake 2 (random_bytes tr).
Proof.
  assert (E : exec (getrandom_v03_custom 3 [1; 2]) (run_trace demo_h (getrandom_v03_custom 3 [1; 2]) (demo_start []))
                (Done (Ok [0; 0]))) by by_run.
  split; [exact E|]. exact (proj2 (proj1 (getrandom_fills _ _ _ _ E) _ eq_refl)).
Defined.
