(* ===== verification/Messages.v ===== *)
(** * Ledger state and UDP messages ([kinds.rs], [tasks/messages.rs]) *)

From S2P Require Import Prelude Prog Text Net Vendor VendorRef Data Ffi Lwip Pbuf Tcp Udp Rng.

Definition UDP_PORT : Z := 9090.
Definition TCP_PORT : Z := 8080.

Section messages.
Context `{V : Vendor} `{SM : Serialize Message}.

(** [LedgerState::new]. *)
Definition ledger_state_new (l : Ledger) : io LedgerState :=
  now ← rt instant_now;
  Ret (mkLedgerState l now).

(** [LedgerState::is_owner]. *)
Definition is_owner (s : LedgerState) : io bool :=
  a ← my_ipaddr;
  match a with
  | None => Ret false
  | Some my_addr => Ret (bool_decide (my_addr = owner (ledger s)))
  end.

(** [Message::send]: gives up as soon as no packet can be allocated. *)
Fixpoint send (repeats : nat) (msg : Message) : io unit :=
  match repeats with
  | O => Ret tt
  | S repeats =>
      p ← alloc msg;
      match p with
      | None => Ret tt
      | Some pbuf =>
          broadcast pbuf UDP_PORT;;
          rt (timer_after_millis 100);;
          send repeats msg
      end
  end.

Definition send_heartbeat : io unit :=
  id ← generate_uuid_v7;
  send 1 (mkMessage id (Payload_Heartbeat (mkHeartbeat true))).

Definition send_new_job_alert (g : Uuid) : io unit :=
  id ← generate_uuid_v7;
  send 3 (mkMessage id (Payload_NewJob (mkNewJob g))).

Definition send_ledger (l : Ledger) : io unit :=
  id ← generate_uuid_v7;
  send 3 (mkMessage id (Payload_Ledger l)).

Definition send_log (log : str) : io unit :=
  id ← generate_uuid_v7;
  send 2 (mkMessage id (Payload_Log log)).

(** [DerustingState::log_to_udp]. *)
Definition log_to_udp (msg : str) : io unit := send_log msg.

(** *** Lock discipline and totality *)

Lemma locked_generate l : locked l generate_uuid_v7 l.
Proof. unfold generate_uuid_v7. locked_tac. Qed.

Lemma locked_send n msg : locked Unlocked (send n msg) Unlocked.
Proof.
  induction n as [|n IH]; cbn [send]; [locked_tac|].
  eapply locked_bind; [apply locked_alloc|]. intros [p|]; [|locked_tac].
  eapply locked_bind; [apply locked_broadcast|intros _]. locked_tac.
Qed.

Lemma locked_send_heartbeat : locked Unlocked send_heartbeat Unlocked.
Proof. eapply locked_bind; [apply locked_generate|intros; apply locked_send]. Qed.

Lemma locked_send_new_job g : locked Unlocked (send_new_job_alert g) Unlocked.
Proof. eapply locked_bind; [apply locked_generate|intros; apply locked_send]. Qed.

Lemma locked_send_ledger l : locked Unlocked (send_ledger l) Unlocked.
Proof. eapply locked_bind; [apply locked_generate|intros; apply locked_send]. Qed.

Lemma locked_send_log s : locked Unlocked (send_log s) Unlocked.
Proof. eapply locked_bind; [apply locked_generate|intros; apply locked_send]. Qed.

Lemma total_send n msg : total (send n msg).
Proof. induction n as [|n IH]; cbn [send]; unfold broadcast; total_tac. Qed.

Lemma total_uuid : total generate_uuid_v7.
Proof. unfold generate_uuid_v7. total_tac. Qed.

Lemma total_send_log s : total (send_log s).
Proof. pose proof total_send. pose proof total_uuid. unfold send_log. total_tac. Qed.

Lemma total_new_job g : total (send_new_job_alert g).
Proof. pose proof total_send. pose proof total_uuid. unfold send_new_job_alert. total_tac. Qed.

Lemma total_send_ledger l : total (send_ledger l).
Proof. pose proof total_send. pose proof total_uuid. unfold send_ledger. total_tac. Qed.

Lemma total_heartbeat : total send_heartbeat.
Proof. pose proof total_send. pose proof total_uuid. unfold send_heartbeat. total_tac. Qed.
End messages.

#[export] Hint Resolve locked_generate locked_send locked_send_heartbeat locked_send_new_job
  locked_send_ledger locked_send_log total_send total_uuid total_send_log total_new_job total_send_ledger
  total_heartbeat : derust.

(** ** A concrete encoding

    The key, a tag and the payload; enough to run the programs on. *)

Definition demo_body (p : @Payload ref_vendor) : bytes :=
  match p with
  | Payload_Heartbeat h => [if alive h then 0 else 4]
  | Payload_NewJob j => 1 :: uuid_display (guid j)
  | Payload_Ledger l => 2 :: octets (owner l) ++ concat (uuid_display <$> jobs_iter (jobs l))
  | Payload_Log s => 3 :: s
  end.

Definition demo_encode (m : @Message ref_vendor) : bytes :=
  uuid_display (idempotency m) ++ demo_body (msg_payload m).

#[export] Instance demo_serialize : Serialize (@Message ref_vendor) := {
  serialized_size m := Some (len (demo_encode m));
  to_slice m n := if len (demo_encode m) <=? n then Some (demo_encode m) else None
}.
