(* ===== verification/Observe.v ===== *)
(** * What can be observed of a run

    Projections of a trace: the calls to the file system, the packets taken from
    the connection's channel and the pbufs given back to lwIP, and lemmas that say
    which of the shared operations contribute to which. *)

From S2P Require Import Prelude Prog Net Vendor Data Ffi Lwip Pbuf Tcp Udp Rng Messages.

(** The file-system calls that change something, with the handle [fopen]
    answered. *)
Inductive fs_event : Type :=
  | FOpen (path flags : bytes) (f : ptr)
  | FWrite (data : bytes) (f : ptr)
  | FClose (f : ptr)
  | FUnlink (path : bytes)
  | FRename (old_path new_path : bytes).

Section observe.
Context `{V : Vendor}.

Definition fs_seen (X : Type) (c : call X) : X -> list fs_event :=
  match c in call X return X -> list fs_event with
  | CFs c =>
      match c in fs_call X return X -> list fs_event with
      | fopen path flags => fun f => [FOpen path flags f]
      | fwrite data f => fun _ => [FWrite data f]
      | fclose f => fun _ => [FClose f]
      | unlink path => fun _ => [FUnlink path]
      | rename p q => fun _ => [FRename p q]
      | _ => fun _ => []
      end
  | _ => fun _ => []
  end.

(** Packets that [TcpConnection::receive] took from the channel. *)
Definition packet_seen (X : Type) (c : call X) : X -> list PacketBuffer :=
  match c in call X return X -> list PacketBuffer with
  | CRt c =>
      match c in rt_call X return X -> list PacketBuffer with
      | conn_receive => fun m => match m with Some p => [p] | None => [] end
      | _ => fun _ => []
      end
  | _ => fun _ => []
  end.

(** pbufs freed by the crate. *)
Definition freed_seen (X : Type) (c : call X) : X -> list ptr :=
  match c in call X return X -> list ptr with
  | CLwip c =>
      match c in lwip_call X return X -> list ptr with
      | pbuf_free p => fun _ => [p]
      | _ => fun _ => []
      end
  | _ => fun _ => []
  end.

(** Bytes accepted by [tcp_write]. *)
Definition tcp_seen (X : Type) (c : call X) : X -> list Z :=
  match c in call X return X -> list Z with
  | CLwip c =>
      match c in lwip_call X return X -> list Z with
      | tcp_write _ d _ => fun e => if decide (e = err_t.Ok) then d else []
      | _ => fun _ => []
      end
  | _ => fun _ => []
  end.

(** The data handed to [tcp_write], accepted or not. *)
Definition reply_seen (X : Type) (c : call X) : X -> list bytes :=
  match c in call X return X -> list bytes with
  | CLwip c =>
      match c in lwip_call X return X -> list bytes with
      | tcp_write _ d _ => fun _ => [d]
      | _ => fun _ => []
      end
  | _ => fun _ => []
  end.

(** Bytes read from files. *)
Definition read_seen (X : Type) (c : call X) : X -> list Z :=
  match c in call X return X -> list Z with
  | CFs c =>
      match c in fs_call X return X -> list Z with
      | fread _ _ => fun d => d
      | _ => fun _ => []
      end
  | _ => fun _ => []
  end.

(** Commands given to the printer, with its answer. *)
Definition gcode_seen (X : Type) (c : call X) : X -> list (bytes * bool) :=
  match c in call X return X -> list (bytes * bool) with
  | CMarlin c =>
      match c in marlin_call X return X -> list (bytes * bool) with
      | derusting_gcode_cmd cmd => fun b => [(cmd, b)]
      | _ => fun _ => []
      end
  | _ => fun _ => []
  end.

(** Datagrams lwIP took: the address, the port and the payload. *)
Definition datagram_seen (X : Type) (c : call X) : X -> list (Z * Z * bytes) :=
  match c in call X return X -> list (Z * Z * bytes) with
  | CLwip c =>
      match c in lwip_call X return X -> list (Z * Z * bytes) with
      | udp_sendto _ buf addr port =>
          fun e => if decide (e = err_t.Ok) then [(addr, port, concat (pbuf_slice <$> buf))] else []
      | _ => fun _ => []
      end
  | _ => fun _ => []
  end.

Definition fs_calls : trace -> list fs_event := collect fs_seen.
Definition packets : trace -> list PacketBuffer := collect packet_seen.
Definition freed : trace -> list ptr := collect freed_seen.
Definition tcp_accepted : trace -> bytes := collect tcp_seen.
Definition replies : trace -> list bytes := collect reply_seen.
Definition file_read : trace -> bytes := collect read_seen.
Definition gcode : trace -> list (bytes * bool) := collect gcode_seen.
Definition datagrams : trace -> list (Z * Z * bytes) := collect datagram_seen.

Section silent.
Context {B : Type} (f : forall X, call X -> X -> list B).

Lemma no_emit_async closure :
  (forall x, f _ (CLwip tcpip_callback) x = []) -> (forall x, f _ (CRt callback_signal_wait) x = []) ->
  no_emit f closure -> no_emit f (async_lwip closure).
Proof.
  intros H1 H2 Hc. apply no_emit_call; [done|]. intros []; try apply no_emit_ret.
  apply no_emit_bind; [done|]. intros r. apply no_emit_call; [done|]. intros. apply no_emit_ret.
Qed.

Lemma no_emit_blocking {R} (closure : io (result R err_t)) :
  (forall x, f _ (CLwip derusting_holds_tcpip_core_lock) x = []) ->
  (forall x, f _ (CLwip sys_mutex_lock) x = []) -> (forall x, f _ (CLwip sys_mutex_unlock) x = []) ->
  no_emit f closure -> no_emit f (blocking_lwip closure).
Proof.
  intros H1 H2 H3 Hc. apply no_emit_call; [done|]. intros []; [done|].
  apply no_emit_call; [done|]. intros []. apply no_emit_bind; [done|]. intros r.
  apply no_emit_call; [done|]. intros. apply no_emit_ret.
Qed.
End silent.
End observe.

(** Calls that neither touch a file, the printer nor the data or the argument of a connection, nor accept one. *)
Definition background `{V : Vendor} {X} (c : call X) : bool :=
  match c with
  | CLwip (tcp_write _ _ _) => false
  | CLwip (tcp_arg _ _) => false
  | CLwip _ => true
  | CFs _ => false
  | CMarlin _ => false
  | CHal _ => true
  | CLog _ => true
  | CRt conn_receive => false
  | CRt conn_try_receive => false
  | CRt conn_clear => false
  | CRt (conn_try_send _) => false
  | CRt listener_receive => false
  | CRt _ => true
  end.

(** Observations blind to those calls. *)
Class Foreground `{V : Vendor} {B} (f : forall X, call X -> X -> list B) : Prop :=
  foreground : forall X (c : call X) x, background c = true -> f X c x = [].

Section foreground.
Context `{V : Vendor}.

#[export] Instance fs_foreground : Foreground fs_seen.
Proof. intros X c x. by destruct c. Qed.
#[export] Instance packet_foreground : Foreground packet_seen.
Proof. intros X c x. destruct c as [X c|X c|X c|X c|X c|X c]; try done; by destruct c. Qed.
#[export] Instance reply_foreground : Foreground reply_seen.
Proof. intros X c x. destruct c as [X c|X c|X c|X c|X c|X c]; try done; by destruct c. Qed.
#[export] Instance gcode_foreground : Foreground gcode_seen.
Proof. intros X c x. by destruct c. Qed.
#[export] Instance read_foreground : Foreground read_seen.
Proof. intros X c x. by destruct c. Qed.
#[export] Instance tcp_foreground : Foreground tcp_seen.
Proof. intros X c x. destruct c as [X c|X c|X c|X c|X c|X c]; try done; by destruct c. Qed.
End foreground.

Ltac unseen := intros; first [reflexivity | apply foreground; reflexivity].

(** Proves [no_emit f p] for a program none of whose calls [f] sees. *)
Ltac no_emit_step :=
  lazymatch goal with
  | |- no_emit _ (Ret _) => apply no_emit_ret
  | |- no_emit _ Panic => apply no_emit_panic
  | |- no_emit _ (unwrap ?o) => destruct o; cbn [unwrap]
  | |- no_emit _ (lwip _) => apply no_emit_call; [unseen|intros ?; apply no_emit_ret]
  | |- no_emit _ (rt _) => apply no_emit_call; [unseen|intros ?; apply no_emit_ret]
  | |- no_emit _ (fs _) => apply no_emit_call; [unseen|intros ?; apply no_emit_ret]
  | |- no_emit _ (marlin _) => apply no_emit_call; [unseen|intros ?; apply no_emit_ret]
  | |- no_emit _ (blocking_lwip _) => apply no_emit_blocking; [unseen|unseen|unseen|]
  | |- no_emit _ (async_lwip _) => apply no_emit_async; [unseen|unseen|]
  | |- no_emit _ (if ?b then _ else _) => destruct b
  | |- no_emit _ (match ?x with _ => _ end) => destruct x
  | |- no_emit _ (_ ≫= _) => apply no_emit_bind; [|intros ?]
  | |- no_emit _ (prog_bind _ _ ?g ?p) => refine (no_emit_bind _ p g _ _); [|intros ?]
  | |- no_emit _ (Call _ _) => apply no_emit_call; [unseen|intros ?]
  end.

Ltac no_emit_tac := repeat (no_emit_step || (progress intros)); auto with derust.

(** From [H : exec p tr o], that [f] sees nothing of [tr]. *)
Ltac silent f H :=
  lazymatch type of H with
  | exec ?p ?tr _ =>
      let Hn := fresh "Hn" in
      assert (collect f tr = []) as Hn by
        (let G := fresh in assert (no_emit f p) as G by no_emit_tac; exact (G _ _ H))
  end.

Section shared.
Context `{V : Vendor} `{SM : Serialize Message}.

Section blind.
Context {B} (f : forall X, call X -> X -> list B) `{!Foreground f}.

Lemma no_emit_drop_packet p : no_emit f (drop_packet p).
Proof. unfold drop_packet. no_emit_tac. Qed.

Lemma no_emit_my_ipaddr : no_emit f my_ipaddr.
Proof. unfold my_ipaddr. no_emit_tac. Qed.

Lemma no_emit_send n m : no_emit f (send n m).
Proof.
  induction n as [|n IH]; cbn [send]; [no_emit_tac|]. pose proof no_emit_drop_packet.
  unfold alloc, broadcast. no_emit_tac.
Qed.

Lemma no_emit_uuid : no_emit f generate_uuid_v7.
Proof. unfold generate_uuid_v7. no_emit_tac. Qed.

Lemma no_emit_send_log s : no_emit f (send_log s).
Proof. pose proof no_emit_send. pose proof no_emit_uuid. unfold send_log. no_emit_tac. Qed.

Lemma no_emit_new_job g : no_emit f (send_new_job_alert g).
Proof. pose proof no_emit_send. pose proof no_emit_uuid. unfold send_new_job_alert. no_emit_tac. Qed.

Lemma no_emit_send_ledger l : no_emit f (send_ledger l).
Proof. pose proof no_emit_send. pose proof no_emit_uuid. unfold send_ledger. no_emit_tac. Qed.

Lemma no_emit_heartbeat : no_emit f send_heartbeat.
Proof. pose proof no_emit_send. pose proof no_emit_uuid. unfold send_heartbeat. no_emit_tac. Qed.
End blind.

Lemma no_fs_response b : no_emit fs_seen (response b).
Proof. unfold response. no_emit_tac. Qed.
Lemma no_packet_response b : no_emit packet_seen (response b).
Proof. unfold response. no_emit_tac. Qed.
Lemma no_fs_receive : no_emit fs_seen receive.
Proof. unfold receive. no_emit_tac. Qed.
Lemma no_reply_receive : no_emit reply_seen receive.
Proof. unfold receive. no_emit_tac. Qed.

(** [receive] returns the packet it took. *)
Lemma packets_receive tr m : exec receive tr (Done m) -> packets tr = match m with Some p => [p] | None => [] end.
Proof.
  intros H. unfold receive in H. exec_step H as [p|]; [|by exec_steps H].
  exec_step H as pcb. apply exec_bind_done in H as (a & tr1 & tr2 & -> & H1 & H2). exec_steps H2.
  silent packet_seen H1. unfold packets. cbn. by rewrite collect_app, Hn.
Qed.

(** Either nothing was written, because the connection is gone or the data too
    long, or the data was, once. *)
Definition answered (r : bytes) (rs : list bytes) : Prop := rs = [] \/ rs = [r].

Lemma replies_response b tr r : exec (response b) tr (Done r) -> answered b (replies tr).
Proof.
  intros H. unfold response in H. case_decide; [exec_steps H; by left|].
  exec_step H as e. case_decide; [exec_steps H; by left|].
  exec_step H as pcb. case_decide; [exec_steps H; by left|].
  exec_step H as e1. case_decide; [exec_steps H; by right|].
  exec_step H as e2. case_decide; exec_steps H; by right.
Qed.
End shared.

#[export] Hint Resolve no_emit_drop_packet no_emit_my_ipaddr no_emit_send no_emit_uuid no_emit_send_log
  no_emit_new_job no_emit_send_ledger no_emit_heartbeat no_fs_response no_packet_response no_fs_receive
  no_reply_receive : derust.
