(* ===== verification/Wire.v ===== *)
(** * What is sent over UDP

    The datagrams that [Message::send] broadcasts, and what [udp_receiver] makes
    of them.  The encoding is [postcard]'s; [WireLaws] is what is relied on of it. *)

From S2P Require Import Prelude Prog Text Net Vendor VendorRef Data Ffi Env Lwip Pbuf Tcp Udp Rng Messages Observe.

(** [postcard::from_bytes] for messages. *)
Class Deserialize (T : Type) := from_bytes : bytes -> option T.

Section wire.
Context `{V : Vendor} `{SM : Serialize Message}.

(** The payload of the pbuf that [alloc] fills with a message. *)
Definition encoding (m : Message) : option bytes :=
  match serialized_size m with
  | None => None
  | Some size => ztake (wrap 16 size) <$> to_slice m size
  end.

(** At most [n] copies of a message, broadcast. *)
Definition copies (n : nat) (m : Message) (ds : list (Z * Z * bytes)) : Prop :=
  ds = [] \/ exists d k, encoding m = Some d /\ (k <= n)%nat /\ ds = replicate k (u32_max, UDP_PORT, d).

Lemma no_datagram_uuid : no_emit datagram_seen generate_uuid_v7.
Proof. unfold generate_uuid_v7. no_emit_tac. Qed.

Lemma no_datagram_drop p : no_emit datagram_seen (drop_packet p).
Proof. unfold drop_packet. no_emit_tac. Qed.

Lemma no_datagram_ipaddr : no_emit datagram_seen my_ipaddr.
Proof. unfold my_ipaddr. no_emit_tac. Qed.

Lemma no_datagram_alloc (m : Message) : no_emit datagram_seen (alloc m).
Proof. unfold alloc. no_emit_tac. Qed.

(** A packet [alloc] returns holds the encoding. *)
Lemma alloc_run m tr p :
  exec (alloc m) tr (Done (Some p)) ->
  datagrams tr = [] /\ exists d, encoding m = Some d /\ concat (pbuf_slice <$> inner p) = d.
Proof.
  intros H. split; [exact (no_datagram_alloc _ _ _ H)|].
  unfold alloc in H. unfold encoding. destruct (serialized_size m) as [size|]; [|by exec_steps H].
  bind_step H as r H1. bind_step H as b H2. case_decide; [by exec_steps H|].
  destruct (to_slice m size) as [d|]; [|bind_step H as ? H3; by exec_steps H].
  exec_steps H. eexists. split; [done|]. cbn. by rewrite app_nil_r.
Qed.

(** A broadcast sends the packet's data, or nothing. *)
Lemma broadcast_run p port tr r :
  exec (broadcast p port) tr (Done r) ->
  datagrams tr = [] \/ datagrams tr = [(u32_max, port, concat (pbuf_slice <$> inner p))].
Proof.
  intros H. unfold broadcast in H. bind_step H as res H1. bind_step H as u H2. exec_steps H.
  pose proof (no_datagram_drop _ _ _ H2) as Hd. unfold datagrams. rewrite !collect_app, Hd. cbn [collect].
  rewrite !app_nil_r. clear H2 Hd. exec_step H1 as e. destruct e; try (exec_steps H1; by left).
  exec_step H1 as pcb. case_decide; [exec_steps H1; by left|]. exec_step H1 as e.
  destruct (decide (e = err_t.Ok)) as [He|He]; exec_steps H1; [right|left]; cbn; destruct (decide _); done.
Qed.

Lemma copies_cons n m d ds :
  encoding m = Some d -> copies n m ds -> copies (S n) m ((u32_max, UDP_PORT, d) :: ds).
Proof.
  intros He [->|(d' & k & He' & Hk & ->)]; right.
  - exists d, 1%nat. split; [done|]. split; [lia|done].
  - rewrite He in He'. simplify_eq. exists d', (S k). split; [done|]. split; [lia|done].
Qed.

Lemma copies_weaken n m ds : copies n m ds -> copies (S n) m ds.
Proof. intros [->|(d & k & He & Hk & ->)]; [by left|]. right. exists d, k. split; [done|]. split; [lia|done]. Qed.

Lemma send_run n m tr : exec (send n m) tr (Done tt) -> copies n m (datagrams tr).
Proof.
  revert tr. induction n as [|n IH]; intros tr H; cbn [send] in H; [exec_steps H; by left|].
  bind_step H as p H1. destruct p as [p|].
  - apply alloc_run in H1 as (Ha & d & He & Hd). bind_step H as r H2. apply broadcast_run in H2.
    bind_step H as u H3. exec_steps H3. apply IH in H. unfold datagrams in *. rewrite !collect_app, Ha.
    cbn [collect app datagram_seen]. destruct H2 as [->| ->]; [by apply copies_weaken|].
    by apply copies_cons.
  - exec_steps H. apply no_datagram_alloc in H1. unfold datagrams in *. rewrite app_nil_r. by left.
Qed.

(** The four kinds of messages. *)
Lemma announce_run n p tr :
  exec (id ← generate_uuid_v7; send n (mkMessage id p)) tr (Done tt) ->
  exists id, copies n (mkMessage id p) (datagrams tr).
Proof.
  intros H. bind_step H as id H1. apply no_datagram_uuid in H1. apply send_run in H. exists id.
  unfold datagrams in *. by rewrite collect_app, H1.
Qed.

Lemma send_ledger_run l tr :
  exec (send_ledger l) tr (Done tt) -> exists id, copies 3 (mkMessage id (Payload_Ledger l)) (datagrams tr).
Proof. apply announce_run. Qed.

Lemma send_log_run s tr :
  exec (send_log s) tr (Done tt) -> exists id, copies 2 (mkMessage id (Payload_Log s)) (datagrams tr).
Proof. apply announce_run. Qed.

Lemma send_new_job_run g tr :
  exec (send_new_job_alert g) tr (Done tt) ->
  exists id, copies 3 (mkMessage id (Payload_NewJob (mkNewJob g))) (datagrams tr).
Proof. apply announce_run. Qed.

Lemma send_heartbeat_run tr :
  exec send_heartbeat tr (Done tt) ->
  exists id, copies 1 (mkMessage id (Payload_Heartbeat (mkHeartbeat true))) (datagrams tr).
Proof. apply announce_run. Qed.
End wire.

(** ** What arrives *)

Section laws.
Context `{V : Vendor}.

(** Ledgers are compared by their owner and their jobs; the set that is rebuilt from
    its encoding may keep them in another order. *)
Definition same_ledger (l l' : Ledger) : Prop :=
  owner l = owner l' /\ forall g, g ∈ jobs_iter (jobs l) <-> g ∈ jobs_iter (jobs l').

#[export] Instance same_ledger_equiv : Equivalence same_ledger.
Proof.
  split.
  - intros l. by split.
  - intros l k [Ho Hj]. by split.
  - intros l k m [Ho Hj] [Ho' Hj']. split; [congruence|]. intros g. by rewrite Hj.
Qed.

Definition same_payload (p q : Payload) : Prop :=
  match p, q with
  | Payload_Ledger l, Payload_Ledger k => same_ledger l k
  | Payload_Ledger _, _ | _, Payload_Ledger _ => False
  | _, _ => p = q
  end.

Definition same_message (m m' : Message) : Prop :=
  idempotency m = idempotency m' /\ same_payload (msg_payload m) (msg_payload m').

(** The number of characters of the text a message carries; each takes at most four bytes. *)
Definition text_length (p : Payload) : Z := match p with Payload_Log s => len s | _ => 0 end.

Class WireLaws `{SM : Serialize Message, DM : Deserialize Message} : Prop := {
  wire_length m n b : serialized_size m = Some n -> to_slice m n = Some b -> len b = n;
  wire_bound m n : serialized_size m = Some n -> n <= 1000 + 4 * text_length (msg_payload m);
  wire_round_trip m n b :
    serialized_size m = Some n -> to_slice m n = Some b -> exists m', from_bytes b = Some m' /\ same_message m m'
}.

Context `{W : WireLaws}.

(** A message with a short text, as all that are sent, survives the narrowing of its size to [u16]. *)
Lemma encoding_received m d :
  text_length (msg_payload m) <= 16000 -> encoding m = Some d ->
  exists m', from_bytes d = Some m' /\ same_message m m'.
Proof.
  intros Ht He. unfold encoding in He. destruct (serialized_size m) as [n|] eqn:En; [|done].
  destruct (to_slice m n) as [b|] eqn:Eb; [|done]. apply (inj Some) in He as <-.
  pose proof (wire_length _ _ _ En Eb) as Hl. pose proof (wire_bound _ _ En) as Hb. pose proof (len_nonneg b).
  rewrite ztake_ge; [by eapply wire_round_trip|]. rewrite wrap_small; [lia|]. unfold fits. lia.
Qed.

(** C36. What is broadcast is understood: a message with a text of ordinary length goes out at most as
    often as it is meant to, to the broadcast address and the port every machine listens on, and
    what arrives is decoded as the same message. *)
Theorem broadcast_understood n m tr :
  text_length (msg_payload m) <= 16000 -> exec (send n m) tr (Done tt) ->
  (length (datagrams tr) <= n)%nat /\
  forall q, q ∈ datagrams tr ->
    q.1 = (u32_max, UDP_PORT) /\ exists m', from_bytes q.2 = Some m' /\ same_message m m'.
Proof.
  intros Ht H. apply send_run in H as [->|(d & k & He & Hk & ->)].
  { split; [cbn; lia|]. intros q Hq. by apply elem_of_nil in Hq. }
  rewrite length_replicate. split; [done|]. intros q Hq. apply elem_of_replicate in Hq as [-> _].
  split; [done|]. by apply encoding_received.
Qed.
End laws.

(** ** A concrete encoding *)

Section rebuild.
Context `{V : Vendor} {L : VendorLaws V}.

Definition jobs_of (us : list Uuid) : JobSet := foldr (fun u s => (jobs_insert u s).1) jobs_new us.

Lemma jobs_of_iter us : NoDup us -> len us <= LEDGER_JOBS -> forall g, g ∈ jobs_iter (jobs_of us) <-> g ∈ us.
Proof.
  induction us as [|u us IH]; intros Hn Hl g; cbn [jobs_of foldr].
  { by rewrite jobs_new_iter. }
  apply NoDup_cons in Hn as [Hu Hn]. rewrite len_cons in Hl. specialize (IH Hn ltac:(lia)).
  assert (len (jobs_iter (jobs_of us)) = len us) as El.
  { unfold len. by rewrite (NoDup_Permutation _ us (jobs_nodup _) Hn IH). }
  destruct (jobs_insert_new u (jobs_of us)) as (s' & Es & Hs); [by rewrite IH|lia|].
  fold (jobs_of us). rewrite Es. cbn [fst]. by rewrite Hs, IH, elem_of_cons.
Qed.

(** Ids of 36 characters, one after the other. *)
Fixpoint parse_ids (n : nat) (b : bytes) : option (list Uuid) :=
  match n, b with
  | _, [] => Some []
  | O, _ => None
  | S n, b =>
      match uuid_parse (take 36 b), parse_ids n (drop 36 b) with
      | Some u, Some us => Some (u :: us)
      | _, _ => None
      end
  end.

Lemma take_display u b : take 36 (uuid_display u ++ b) = uuid_display u /\ drop 36 (uuid_display u ++ b) = b.
Proof.
  pose proof (uuid_display_length u) as Hl. unfold len in Hl.
  replace 36%nat with (length (uuid_display u)) by lia. by rewrite take_app_length, drop_app_length.
Qed.

Lemma parse_ids_display us n :
  (length us <= n)%nat -> parse_ids n (concat (uuid_display <$> us)) = Some us.
Proof.
  revert n. induction us as [|u us IH]; intros n Hn; [by destruct n|]. cbn in Hn.
  destruct n as [|n]; [lia|]. cbn [fmap list_fmap concat].
  destruct (take_display u (concat (uuid_display <$> us))) as [Et Ed].
  destruct (uuid_display u ++ _) eqn:E.
  { apply (f_equal len) in E. rewrite len_app, uuid_display_length, len_nil in E.
    pose proof (len_nonneg (concat (uuid_display <$> us))). lia. }
  cbn [parse_ids]. rewrite Et, Ed, uuid_parse_display, IH by lia. done.
Qed.
End rebuild.

Definition demo_parse (id : @Uuid ref_vendor) (b : bytes) : option (@Message ref_vendor) :=
  match b with
  | [0] => Some (mkMessage id (Payload_Heartbeat (mkHeartbeat true)))
  | 1 :: g => (fun g => mkMessage id (Payload_NewJob (mkNewJob g))) <$> uuid_parse g
  | 2 :: a :: b :: c :: d :: us =>
      (fun us => mkMessage id (Payload_Ledger (mkLedger (mkAddr a b c d) (jobs_of us)))) <$> parse_ids (length us) us
  | 3 :: t => Some (mkMessage id (Payload_Log t))
  | 4 :: _ => Some (mkMessage id (Payload_Heartbeat (mkHeartbeat false)))
  | _ => None
  end.

#[export] Instance demo_decode : Deserialize (@Message ref_vendor) := fun b =>
  match uuid_parse (take 36 b) with
  | Some id => demo_parse id (drop 36 b)
  | None => None
  end.

Lemma demo_parse_encode (m : @Message ref_vendor) :
  exists m', demo_parse (idempotency m) (demo_body (msg_payload m)) = Some m' /\ same_message m m'.
Proof.
  destruct m as [id [[[]]|[g]|l|t]]; cbn [msg_payload demo_body alive guid].
  - by eexists.
  - by eexists.
  - cbn [demo_parse]. rewrite uuid_parse_display. by eexists.
  - destruct l as [[a b c d] js]. cbn [octets owner jobs app demo_parse].
    rewrite parse_ids_display.
    + eexists. split; [done|]. split; [done|]. split; [done|]. cbn [jobs]. intros g. symmetry.
      apply jobs_of_iter; [apply jobs_nodup|apply jobs_bound].
    + induction (jobs_iter js) as [|u us IH]; cbn [fmap list_fmap concat length]; [lia|].
      rewrite length_app. pose proof (uuid_display_length u). unfold len in *. lia.
  - by eexists.
Qed.

Lemma demo_body_bound (p : @Payload ref_vendor) : len (demo_body p) <= 300 + text_length p.
Proof.
  destruct p as [[[]]|[g]|l|t]; cbn [demo_body alive guid text_length].
  - by vm_compute.
  - by vm_compute.
  - rewrite len_cons, uuid_display_length. lia.
  - destruct l as [[a b c d] js]. cbn [octets owner jobs app]. rewrite !len_cons.
    assert (forall us : list (@Uuid ref_vendor), len (concat (uuid_display <$> us)) = 36 * len us) as ->.
    { intros us. induction us as [|u us IH]; [done|]. cbn [fmap list_fmap concat].
      rewrite len_app, len_cons, uuid_display_length, IH. lia. }
    pose proof (jobs_bound js). unfold LEDGER_JOBS in *. lia.
  - rewrite len_cons. lia.
Qed.

Lemma demo_decode_encode (m : @Message ref_vendor) :
  exists m', from_bytes (demo_encode m) = Some m' /\ same_message m m'.
Proof.
  unfold from_bytes, demo_decode, demo_encode.
  destruct (take_display (idempotency m) (demo_body (msg_payload m))) as [-> ->].
  rewrite uuid_parse_display. apply demo_parse_encode.
Qed.

#[export] Instance demo_wire : WireLaws (V := ref_vendor).
Proof.
  split.
  - intros m n b [= <-]. cbn. rewrite Z.leb_refl. by intros [= <-].
  - intros m n [= <-]. unfold demo_encode. rewrite len_app, uuid_display_length.
    pose proof (demo_body_bound (msg_payload m)).
    assert (0 <= text_length (msg_payload m)) by (destruct (msg_payload m); cbn; auto using len_nonneg; lia). lia.
  - intros m n b [= <-]. cbn. rewrite Z.leb_refl. intros [= <-]. apply demo_decode_encode.
Qed.

Definition demo_job : @Message ref_vendor := mkMessage (demo_id 1) (Payload_NewJob (mkNewJob (demo_id 2))).

Lemma broadcast_understood_witness :
  let tr := run_trace demo_h (send 3 demo_job) (demo_start []) in
  (length (datagrams tr) <= 3)%nat /\
  forall q, q ∈ datagrams tr ->
    q.1 = (u32_max, UDP_PORT) /\ exists m', from_bytes q.2 = Some m' /\ same_message demo_job m'.
Proof. apply (broadcast_understood (W := demo_wire) 3 demo_job); [cbn; lia|]. by_run. Defined.

(** All three copies are sent. *)
Lemma demo_job_sent : length (datagrams (run_trace demo_h (send 3 demo_job) (demo_start []))) = 3%nat.
Proof. vm_compute. reflexivity. Qed.
