(* ===== verification/Upload.v ===== *)
(** * Serving a connection ([tasks/tcp.rs])

    [handle_conn] answers a GET with the upload form and stores the body of a
    PUT in a file that is renamed once it is complete.  The file is proved to hold
    exactly the announced number of bytes, in order, however the body is cut
    into pbufs and packets. *)

From S2P Require Import Prelude Prog Text Net Vendor VendorRef Data Ffi Env Lwip Pbuf Tcp Udp Fs Http Request.
From S2P Require Import Rng Messages Observe.

Section upload.
Context `{V : Vendor} `{SM : Serialize Message}.

(** [let to_write = min(content_length, chunk.len()); f.write(&chunk[..to_write]);]
    and the new [content_length]. *)
Definition upload_chunk (f : File WriteBytes) (content_length : Z) (chunk : bytes) : io Z :=
  let to_write := Z.min content_length (len chunk) in
  write f (ztake to_write chunk);;
  Ret (saturating_sub content_length to_write).

(** [for chunk in iter]: the remaining length, and whether the loop was left by
    its [break]. *)
Fixpoint write_chunks (f : File WriteBytes) (content_length : Z) (cs : list bytes) : io (Z * bool) :=
  match cs with
  | [] => Ret (content_length, false)
  | chunk :: cs =>
      content_length ← upload_chunk f content_length chunk;
      if content_length =? 0 then Ret (content_length, true) else write_chunks f content_length cs
  end.

(** [while content_length > 0]; [false] when the connection closed first. *)
Fixpoint receive_rest (fuel : nat) (f : File WriteBytes) (path : bytes) (content_length : Z) : io bool :=
  if content_length >? 0 then
    match fuel with
    | O => Fuel
    | S fuel =>
        item ← receive;
        match item with
        | None =>
            close f;;
            delete path;;
            Ret false
        | Some pbuf =>
            r ← write_chunks f content_length (chunks (into_iter pbuf));
            drop_iter (into_iter pbuf);;
            receive_rest fuel f path r.1
        end
    end
  else Ret true.

Definition append_to_ledger (g : Uuid) : io unit :=
  guard ← rt addresses_lock;
  let address_book_is_empty := book_is_empty guard in
  rt (addresses_unlock guard);;
  guard ← rt jobs_lock;
  r ← match guard with
      | None => Ret (guard, false)
      | Some job_state =>
          a ← my_ipaddr;
          match a with
          | None => Ret (guard, false)
          | Some addr =>
              if decide (addr = owner (ledger job_state)) then
                let '(jobs', _) := jobs_insert g (jobs (ledger job_state)) in
                Ret (Some (mkLedgerState (mkLedger (owner (ledger job_state)) jobs') (received job_state)), true)
              else Ret (guard, false)
          end
      end;
  let '(guard, is_owner) := (r : option LedgerState * bool) in
  rt (jobs_unlock guard);;
  if negb is_owner && negb address_book_is_empty then send_new_job_alert g else Ret tt.

(** The end of a complete upload. *)
Definition finish_upload (info : PutInfo) (g : Uuid) (path : bytes) (f : File WriteBytes) : io unit :=
  close f;;
  new_path ← make_path g false;
  rname path new_path;;
  response OK;;
  log_to_udp (lit "File Received");;
  match info_guid info with
  | Some _ => Ret tt
  | None =>
      append_to_ledger g;;
      sent ← rt (files_try_send g);
      if negb sent then log_to_udp (lit "Error sending on channel") else Ret tt
  end.

(** The [Method::Put] branch of [handle_conn]; [iter] is the iterator after its
    first chunk, dropped when it goes out of scope. *)
Definition handle_put (fuel : nat) (iter : PacketBufferIterator) (headers : str) (body : bytes) : io unit :=
  log_to_udp (lit "/ PUT request received");;
  let info := check_put_header headers in
  if put_rejected info then
    response BAD_REQUEST;;
    drop_iter iter
  else
    g ← match info_guid info with
        | Some g => log_to_udp (lit "Receiving file from machine");; Ret g
        | None => generate_uuid_v7
        end;
    path ← make_path g true;
    o ← open path mkWriteBytes;
    match o with
    | Err _ =>
        response INTERNAL_SERVER_ERROR;;
        drop_iter iter
    | Ok f =>
        content_length ← unwrap (size info);
        content_length ← upload_chunk f content_length body;
        r ← write_chunks f content_length (chunks iter);
        drop_iter iter;;
        let '(content_length, broke) := (r : Z * bool) in
        finished ← (if negb broke then receive_rest fuel f path content_length else Ret true);
        if finished : bool then finish_upload info g path f else Ret tt
    end.

Definition handle_conn (fuel : nat) : io unit :=
  log_to_udp (lit "Handling TCP Connection");;
  item ← receive;
  match item with
  | None => Ret tt
  | Some pbuf =>
      let iter := into_iter pbuf in
      let '(next, iter) := iter_next iter in
      match next with
      | None =>
          response BAD_REQUEST;;
          drop_iter iter
      | Some chunk =>
          match split_request chunk with
          | None =>
              response BAD_REQUEST;;
              drop_iter iter
          | Some (start_line, headers, body) =>
              match check_start_line start_line with
              | Err e =>
                  response e;;
                  drop_iter iter
              | Ok Get =>
                  response INDEX_HTML;;
                  drop_iter iter
              | Ok Put => handle_put fuel iter headers body
              end
          end
      end
  end.

(** One turn of [tcp_worker]. *)
Definition tcp_worker_step (fuel : nat) : io unit := with_connection (handle_conn fuel).
End upload.

(** ** What a run shows *)

(** Writes to one handle, together the bytes [d]. *)
Definition writes_to (p : ptr) (d : bytes) (evs : list fs_event) : Prop :=
  exists ds, evs = (fun d => FWrite d p) <$> ds /\ concat ds = d.

Lemma writes_to_nil p : writes_to p [] [].
Proof. by exists []. Qed.

Lemma writes_to_app p d1 e1 d2 e2 :
  writes_to p d1 e1 -> writes_to p d2 e2 -> writes_to p (d1 ++ d2) (e1 ++ e2).
Proof.
  intros (l1 & -> & <-) (l2 & -> & <-). exists (l1 ++ l2). by rewrite fmap_app, concat_app.
Qed.

Section seen.
Context `{V : Vendor} `{SM : Serialize Message}.

(** The file-system calls, the packets taken and the data sent of a trace. *)
Definition seen (tr : trace) (evs : list fs_event) (ps : list PacketBuffer) (rs : list bytes) : Prop :=
  fs_calls tr = evs /\ packets tr = ps /\ replies tr = rs.

Lemma seen_nil : seen [] [] [] [].
Proof. done. Qed.

Lemma seen_app tr1 e1 p1 r1 tr2 e2 p2 r2 :
  seen tr1 e1 p1 r1 -> seen tr2 e2 p2 r2 -> seen (tr1 ++ tr2) (e1 ++ e2) (p1 ++ p2) (r1 ++ r2).
Proof.
  intros (<- & <- & <-) (<- & <- & <-). unfold seen, fs_calls, packets, replies. by rewrite !collect_app.
Qed.

(** Programs that show nothing. *)
Definition hidden {A} (p : io A) : Prop :=
  no_emit fs_seen p /\ no_emit packet_seen p /\ no_emit reply_seen p.

Lemma hidden_seen {A} (p : io A) tr o : hidden p -> exec p tr o -> seen tr [] [] [].
Proof. intros (H1 & H2 & H3) H. by split; [exact (H1 _ _ H)|split; [exact (H2 _ _ H)|exact (H3 _ _ H)]]. Qed.

Lemma hidden_log s : hidden (log_to_udp s).
Proof. split_and!; unfold log_to_udp; eauto with derust typeclass_instances. Qed.

Lemma hidden_drop p : hidden (drop_packet p).
Proof. split_and!; eauto with derust typeclass_instances. Qed.

Lemma hidden_uuid : hidden generate_uuid_v7.
Proof. split_and!; eauto with derust typeclass_instances. Qed.

Lemma hidden_append g : hidden (append_to_ledger g).
Proof.
  split_and!; unfold append_to_ledger; cbv zeta; no_emit_tac; eauto with derust typeclass_instances.
Qed.

Lemma response_seen b tr r : exec (response b) tr (Done r) -> exists rs, seen tr [] [] rs /\ answered b rs.
Proof.
  intros H. exists (replies tr). split; [|by eapply replies_response].
  split_and!; [exact (no_fs_response b _ _ H)|exact (no_packet_response b _ _ H)|done].
Qed.

Lemma receive_seen tr m :
  exec receive tr (Done m) -> seen tr [] (match m with Some p => [p] | None => [] end) [].
Proof.
  intros H. split_and!; [exact (no_fs_receive _ _ H)|by apply packets_receive|exact (no_reply_receive _ _ H)].
Qed.

(** ** Storing a body *)

Lemma ztake_rest n (d1 d2 : bytes) :
  0 <= n -> ztake n (d1 ++ d2) = ztake n d1 ++ ztake (saturating_sub n (len d1)) d2.
Proof.
  intros Hn. pose proof (len_nonneg d1). rewrite ztake_app by done.
  f_equal; [|f_equal; unfold saturating_sub; lia].
  destruct (Z.min_spec n (len d1)) as [[? ->]|[? ->]]; [done|]. by rewrite !ztake_ge by lia.
Qed.

Lemma upload_chunk_run f n c tr m :
  0 <= n -> exec (upload_chunk f n c) tr (Done m) ->
  m = saturating_sub n (len c) /\ exists evs, seen tr evs [] [] /\ writes_to (fp f) (ztake n c) evs.
Proof.
  intros Hn H. pose proof (len_nonneg c). unfold upload_chunk in H. cbv zeta in H.
  apply exec_bind_done in H as (a & tr1 & tr2 & -> & H1 & [-> [= ->]]). rewrite app_nil_r.
  split; [unfold saturating_sub; lia|].
  assert (ztake (Z.min n (len c)) c = ztake n c) as E.
  { destruct (Z.min_spec n (len c)) as [[? ->]|[? ->]]; [done|]. by rewrite !ztake_ge by lia. }
  rewrite E in H1. unfold write in H1. case_decide as Hc.
  - exec_steps H1. rewrite Hc. eauto using seen_nil, writes_to_nil.
  - exec_steps H1. exists [FWrite (ztake n c) (fp f)]. split; [done|].
    exists [ztake n c]. split; [done|]. cbn. by rewrite app_nil_r.
Qed.

Lemma write_chunks_run f n cs tr m b :
  0 <= n -> exec (write_chunks f n cs) tr (Done (m, b)) ->
  m = saturating_sub n (len (concat cs)) /\ (b = true -> m = 0) /\
  exists evs, seen tr evs [] [] /\ writes_to (fp f) (ztake n (concat cs)) evs.
Proof.
  revert n tr. induction cs as [|c cs IH]; intros n tr Hn H.
  - exec_steps H. split; [by apply eq_sym, saturating_sub_0|]. split; [done|].
    cbn. rewrite ztake_nil. eauto using seen_nil, writes_to_nil.
  - cbn [write_chunks] in H. apply exec_bind_done in H as (k & tr1 & tr2 & -> & H1 & H2).
    apply upload_chunk_run in H1 as (-> & evs1 & Hs1 & Hw1); [|done].
    pose proof (len_nonneg c). pose proof (len_nonneg (concat cs)). cbn [concat].
    assert (0 <= saturating_sub n (len c)) by (unfold saturating_sub; lia).
    rewrite ztake_rest by done.
    destruct (Z.eqb_spec (saturating_sub n (len c)) 0) as [E|E].
    + destruct H2 as [-> [= -> ->]]. rewrite app_nil_r, E, ztake_0, app_nil_r.
      split; [unfold saturating_sub in *; rewrite len_app; lia|]. eauto.
    + apply IH in H2 as (-> & Hb & evs2 & Hs2 & Hw2); [|done].
      split; [unfold saturating_sub; rewrite len_app; lia|]. split; [done|].
      exists (evs1 ++ evs2). split; [exact (seen_app _ _ _ _ _ _ _ _ Hs1 Hs2)|by apply writes_to_app].
Qed.

(** The calls that store the first [n] bytes of a body of which [d] arrived, and
    whether they end because the connection closed. *)
Inductive body_log (p : ptr) (path : bytes) (n : Z) (d : bytes) : bool -> list fs_event -> Prop :=
  | body_complete ws : writes_to p (ztake n d) ws -> n <= len d -> body_log p path n d true ws
  | body_closed ws :
      writes_to p d ws -> len d < n -> body_log p path n d false (ws ++ [FClose p; FUnlink path]).

Lemma body_log_app p path n d1 d2 ok ws evs :
  0 <= n -> writes_to p (ztake n d1) ws -> body_log p path (saturating_sub n (len d1)) d2 ok evs ->
  body_log p path n (d1 ++ d2) ok (ws ++ evs).
Proof.
  intros Hn Hw H. pose proof (len_nonneg d1). pose proof (len_nonneg d2).
  destruct H as [ws' Hw' Hl|ws' Hw' Hl]; unfold saturating_sub in Hl.
  - apply body_complete; [rewrite ztake_rest by done; by apply writes_to_app|rewrite len_app; lia].
  - rewrite app_assoc. apply body_closed; [|rewrite len_app; lia].
    apply writes_to_app; [|done]. by rewrite ztake_ge in Hw by lia.
Qed.

Lemma receive_rest_run fuel f path n tr ok :
  0 <= n -> exec (receive_rest fuel f path n) tr (Done ok) ->
  exists evs ps, seen tr evs ps [] /\ body_log (fp f) path n (concat (packet_data <$> ps)) ok evs.
Proof.
  revert n tr. induction fuel as [|fuel IH]; intros n tr Hn H; cbn [receive_rest] in H;
    rewrite Z.gtb_ltb in H; destruct (Z.ltb_spec 0 n) as [Hpos|Hz].
  2,4: destruct H as [-> [= ->]]; exists [], []; split; [done|];
    apply body_complete; cbn; [replace n with 0 by lia; apply writes_to_nil|rewrite len_nil; lia].
  { by destruct H. }
  apply exec_bind_done in H as (m & tr1 & tr2 & -> & H1 & H2). apply receive_seen in H1.
  destruct m as [p|].
  - apply exec_bind_done in H2 as ([k b] & tr3 & tr4 & -> & H3 & H4).
    apply exec_bind_done in H4 as ([] & tr5 & tr6 & -> & H5 & H6).
    apply write_chunks_run in H3 as (-> & _ & ws & Hs & Hw); [|done].
    assert (Hd : hidden (drop_iter (into_iter p))) by apply hidden_drop.
    apply (hidden_seen _ _ _ Hd) in H5. clear Hd. cbn [fst] in H6.
    apply IH in H6 as (evs & ps & Hs6 & Hr); [|unfold saturating_sub; lia].
    exists (ws ++ evs), (p :: ps). split.
    + pose proof (seen_app _ _ _ _ _ _ _ _ H1 (seen_app _ _ _ _ _ _ _ _ Hs (seen_app _ _ _ _ _ _ _ _ H5 Hs6))) as G.
      exact G.
    + cbn [concat fmap list_fmap]. by apply body_log_app.
  - exec_steps H2. exists [FClose (fp f); FUnlink path], []. split.
    + refine (seen_app _ [] [] [] _ [FClose (fp f); FUnlink path] [] [] H1 _). done.
    + apply (body_closed _ _ _ _ []); [apply writes_to_nil|]. cbn. rewrite len_nil. lia.
Qed.
End seen.

(** ** Uploads *)

Section put.
Context `{V : Vendor} {L : VendorLaws V} `{SM : Serialize Message}.

(** The file-system calls of an accepted PUT that announces [n] bytes, of which
    [d] is what arrived, and the data sent back. *)
Inductive put_log (g : Uuid) (n : Z) (d : bytes) : list fs_event -> list bytes -> Prop :=
  | put_no_file rs :
      answered INTERNAL_SERVER_ERROR rs ->
      put_log g n d [FOpen (path_of g true) (lit "wb") null] rs
  | put_stored p ws rs :
      p <> null -> writes_to p (ztake n d) ws -> n <= len d -> answered OK rs ->
      put_log g n d (FOpen (path_of g true) (lit "wb") p ::
                     ws ++ [FClose p; FRename (path_of g true) (path_of g false)]) rs
  | put_aborted p ws :
      p <> null -> writes_to p d ws -> len d < n ->
      put_log g n d (FOpen (path_of g true) (lit "wb") p :: ws ++ [FClose p; FUnlink (path_of g true)]) [].

Lemma finish_upload_run info g f tr :
  exec (finish_upload info g (path_of g true) f) tr (Done tt) ->
  exists rs, seen tr [FClose (fp f); FRename (path_of g true) (path_of g false)] [] rs /\ answered OK rs.
Proof.
  intros H. unfold finish_upload in H.
  bind_step H as [] H1. bind_step H as np H2. rewrite make_path_eq in H2. destruct H2 as [-> [= ->]].
  bind_step H as z H3. bind_step H as r H4. bind_step H as [] H5.
  apply response_seen in H4 as (rs & Hs & Ha). exists rs. split; [|done].
  apply hidden_seen in H5; [|apply hidden_log].
  eapply hidden_seen in H; last first.
  { destruct (info_guid info); [split_and!; apply no_emit_ret|].
    destruct (hidden_append g) as (G1 & G2 & G3), (hidden_log (lit "Error sending on channel")) as (K1 & K2 & K3).
    split_and!; no_emit_tac. }
  exec_steps H1. exec_steps H3.
  refine (seen_app [_] [FClose (fp f)] [] [] _ [_] _ _ _ _); [done|].
  refine (seen_app [] [] [] [] _ _ _ _ _ _); [done|].
  refine (seen_app [_] [FRename _ _] [] [] _ [] _ _ _ _); [done|].
  pose proof (seen_app _ _ _ _ _ _ _ _ Hs (seen_app _ _ _ _ _ _ _ _ H5 H)) as G.
  cbn in G. by rewrite app_nil_r in G.
Qed.

(** The whole run of an accepted PUT after the file was opened. *)
Lemma put_log_intro g n d p ok evs rs :
  p <> null -> body_log p (path_of g true) n d ok evs ->
  (if ok : bool then answered OK rs else rs = []) ->
  put_log g n d (FOpen (path_of g true) (lit "wb") p ::
    evs ++ if ok then [FClose p; FRename (path_of g true) (path_of g false)] else []) rs.
Proof.
  intros Hp H Hr. destruct H as [ws Hw Hl|ws Hw Hl].
  - by apply put_stored.
  - rewrite Hr, app_nil_r. by apply put_aborted.
Qed.

(** The part of [handle_put] that follows [open]. *)
Definition store_body (fuel : nat) (info : PutInfo) (g : Uuid) (path : bytes) (f : File WriteBytes)
    (n : Z) (iter : PacketBufferIterator) (body : bytes) : io unit :=
  content_length ← upload_chunk f n body;
  r ← write_chunks f content_length (chunks iter);
  drop_iter iter;;
  let '(content_length, broke) := (r : Z * bool) in
  finished ← (if negb broke then receive_rest fuel f path content_length else Ret true);
  if finished : bool then finish_upload info g path f else Ret tt.

Lemma store_body_run fuel info g f n it body tr :
  0 <= n -> fp f <> null -> exec (store_body fuel info g (path_of g true) f n it body) tr (Done tt) ->
  exists evs ps rs, seen tr evs ps rs /\
    put_log g n (body ++ concat (chunks it) ++ concat (packet_data <$> ps))
      (FOpen (path_of g true) (lit "wb") (fp f) :: evs) rs.
Proof.
  intros Hn Hp H. unfold store_body in H.
  bind_step H as k H1. apply upload_chunk_run in H1 as (-> & ws1 & Hs1 & Hw1); [|done].
  bind_step H as [m b] H2.
  assert (0 <= saturating_sub n (len body)) as Hn1 by (unfold saturating_sub; lia).
  apply write_chunks_run in H2 as (-> & Hb & ws2 & Hs2 & Hw2); [|done].
  bind_step H as [] H3. apply hidden_seen in H3; [|apply hidden_drop]. cbn beta iota in H.
  set (k := saturating_sub (saturating_sub n (len body)) _) in *.
  assert (0 <= k) as Hn2 by (unfold k, saturating_sub; lia).
  bind_step H as ok H4.
  match type of H4 with exec _ ?t _ => assert (exists evs ps, seen t evs ps [] /\
      body_log (fp f) (path_of g true) k (concat (packet_data <$> ps)) ok evs) as (ws3 & ps & Hs3 & Hr) end.
  { destruct b; [|by apply receive_rest_run in H4]. destruct H4 as [-> [= ->]].
    exists [], []. split; [done|]. apply body_complete; rewrite Hb by done; [apply writes_to_nil|done]. }
  clear H4.
  match type of H with exec _ ?t _ => assert (exists rs,
      seen t (if ok then [FClose (fp f); FRename (path_of g true) (path_of g false)] else []) [] rs /\
      if ok then answered OK rs else rs = []) as (rs & Hs4 & Ha) end.
  { destruct ok; [by apply finish_upload_run in H|]. destruct H as [-> _]. by exists []. }
  clear H.
  pose proof (seen_app _ _ _ _ _ _ _ _ Hs1 (seen_app _ _ _ _ _ _ _ _ Hs2 (seen_app _ _ _ _ _ _ _ _ H3
    (seen_app _ _ _ _ _ _ _ _ Hs3 Hs4)))) as G. cbn [app] in G. rewrite app_nil_r in G.
  eexists _, ps, rs. split; [exact G|]. rewrite (app_assoc ws2), (app_assoc ws1).
  apply put_log_intro; [done| |done].
  apply body_log_app; [done|done|]. by apply body_log_app.
Qed.

(** What a PUT shows, from its headers and the part of its body that arrived. *)
Definition put_outcome (headers : str) (d : bytes) (evs : list fs_event) (rs : list bytes) : Prop :=
  let info := check_put_header headers in
  if put_rejected info then evs = [] /\ answered BAD_REQUEST rs
  else exists g n, size info = Some n /\ (forall g', info_guid info = Some g' -> g = g') /\ put_log g n d evs rs.

Lemma handle_put_run fuel it headers body tr :
  exec (handle_put fuel it headers body) tr (Done tt) ->
  exists evs ps rs, seen tr evs ps rs /\
    put_outcome headers (body ++ concat (chunks it) ++ concat (packet_data <$> ps)) evs rs.
Proof.
  intros H. unfold handle_put in H. bind_step H as [] H1. apply hidden_seen in H1; [|apply hidden_log].
  unfold put_outcome. cbv zeta in *.
  destruct (put_rejected (check_put_header headers)) eqn:Er.
  - bind_step H as r H2. apply response_seen in H2 as (rs & Hs & Ha).
    apply hidden_seen in H; [|apply hidden_drop]. exists [], [], rs. split; [|done].
    pose proof (seen_app _ _ _ _ _ _ _ _ H1 (seen_app _ _ _ _ _ _ _ _ Hs H)) as G.
    cbn in G. by rewrite app_nil_r in G.
  - apply put_accepted in Er as (_ & n & En & Hn).
    bind_step H as g Hg.
    match type of Hg with exec _ ?t _ => assert (seen t [] [] [] /\
        (forall g', info_guid (check_put_header headers) = Some g' -> g = g')) as [Hsg Hgg] end.
    { destruct (info_guid _) as [g'|].
      - bind_step Hg as [] H2. destruct Hg as [-> [= ->]]. rewrite app_nil_r.
        split; [by eapply hidden_seen, H2; apply hidden_log|by intros ? [= ->]].
      - split; [|done]. eapply hidden_seen, Hg. apply hidden_uuid. }
    clear Hg. bind_step H as path Hp. rewrite make_path_eq in Hp. destruct Hp as [-> [= ->]].
    bind_step H as o Ho. unfold open in Ho. rewrite path_of_usb in Ho. cbn [negb] in Ho.
    exec_step Ho as p. case_decide as Hnull.
    + subst p. exec_steps Ho. bind_step H as r H2. apply response_seen in H2 as (rs & Hs & Ha).
      apply hidden_seen in H; [|apply hidden_drop]. eexists _, [], rs. split.
      * pose proof (seen_app _ _ _ _ _ _ _ _ Hs H) as G. cbn in G. rewrite app_nil_r in G.
        refine (seen_app _ _ _ _ _ _ _ _ H1 (seen_app _ _ _ _ _ _ _ _ Hsg
          (seen_app [] [] [] [] _ _ _ _ seen_nil
            (seen_app [Ev (CFs (fopen _ _)) _] [FOpen _ _ _] [] [] _ _ _ _ _ G)))). done.
      * exists g, n. split_and!; [done|done|]. by apply put_no_file.
    + exec_steps Ho. rewrite En in H. cbn [unwrap] in H. bind_step H as n' Hn'.
      destruct Hn' as [-> [= ->]].
      apply store_body_run in H as (evs & ps & rs & Hs & Hl); [|lia|done].
      eexists _, ps, rs. split.
      * refine (seen_app _ _ _ _ _ _ _ _ H1 (seen_app _ _ _ _ _ _ _ _ Hsg
          (seen_app [] [] [] [] _ _ _ _ seen_nil
            (seen_app [Ev (CFs (fopen _ _)) _] [FOpen _ _ _] [] [] _ _ _ _ _
              (seen_app [] [] [] [] _ _ _ _ seen_nil Hs))))). done.
      * exists g, n. done.
Qed.

(** What a request means, from the chunks of its first packet. *)
Inductive verdict : Type :=
  | Refuse (r : bytes)
  | Store (headers : str) (body : bytes).

Definition judge (p : PacketBuffer) : verdict :=
  match chunks (into_iter p) with
  | [] => Refuse BAD_REQUEST
  | c :: cs =>
      match split_request c with
      | None => Refuse BAD_REQUEST
      | Some (start_line, headers, body) =>
          match check_start_line start_line with
          | Err e => Refuse e
          | Ok Get => Refuse INDEX_HTML
          | Ok Put => Store headers (body ++ concat cs)
          end
      end
  end.

(** The whole of a connection: the packets it took, its file-system calls and
    the data it sent. *)
Definition conn_log (ps : list PacketBuffer) (evs : list fs_event) (rs : list bytes) : Prop :=
  match ps with
  | [] => evs = [] /\ rs = []
  | p :: ps =>
      match judge p with
      | Refuse r => ps = [] /\ evs = [] /\ answered r rs
      | Store headers d => put_outcome headers (d ++ concat (packet_data <$> ps)) evs rs
      end
  end.

Lemma refuse_run r p tr :
  exec (response r;; drop_packet p) tr (Done tt) -> exists rs, seen tr [] [] rs /\ answered r rs.
Proof.
  intros H. bind_step H as x H1. apply response_seen in H1 as (rs & Hs & Ha).
  apply hidden_seen in H; [|apply hidden_drop]. exists rs. split; [|done].
  pose proof (seen_app _ _ _ _ _ _ _ _ Hs H) as G. cbn in G. by rewrite app_nil_r in G.
Qed.

Lemma handle_conn_run fuel tr :
  exec (handle_conn fuel) tr (Done tt) ->
  exists evs ps rs, seen tr evs ps rs /\ conn_log ps evs rs.
Proof.
  intros H. unfold handle_conn in H. bind_step H as [] H1. apply hidden_seen in H1; [|apply hidden_log].
  bind_step H as item H2. apply receive_seen in H2.
  pose proof (fun t e p r G => seen_app _ _ _ _ _ _ _ _ H1 (seen_app _ _ _ _ t e p r H2 G)) as Happ.
  clear H1 H2. cbn [app] in Happ. destruct item as [p|].
  2: { destruct H as [-> _]. eexists _, _, _. split; [by apply (Happ [] [] [] [])|done]. }
  cbv zeta in H. rewrite iter_next_chunks in H.
  assert (Hcl : forall r it, it_inner it = p -> judge p = Refuse r ->
      forall t, exec (response r;; drop_iter it) t (Done tt) ->
      exists evs ps rs, seen t evs ps rs /\ conn_log (p :: ps) evs rs).
  { intros r it <- Hj t Ht. apply refuse_run in Ht as (rs & Hs & Ha).
    exists [], [], rs. split; [done|]. cbn. rewrite Hj. done. }
  match type of H with exec _ ?t _ => assert (exists evs ps rs, seen t evs ps rs /\ conn_log (p :: ps) evs rs)
    as (evs & ps & rs & Hs & Hl) end; [|by eexists _, _, _; split; [by apply Happ|]].
  destruct (chunks (into_iter p)) as [|c cs] eqn:Ec; [eapply Hcl, H; [done|by unfold judge; rewrite Ec]|].
  destruct (split_request c) as [[[sl hd] body]|] eqn:Es; cycle 1.
  { eapply Hcl, H; [done|by unfold judge; rewrite Ec, Es]. }
  destruct (check_start_line sl) as [[]|e] eqn:Ek.
  - eapply Hcl, H; [done|by unfold judge; rewrite Ec, Es, Ek].
  - apply handle_put_run in H as (evs & ps & rs & Hs & Ho). exists evs, ps, rs. split; [done|].
    rewrite chunks_tail, Ec in Ho. cbn [conn_log]. unfold judge. rewrite Ec, Es, Ek, <- app_assoc. exact Ho.
  - eapply Hcl, H; [done|by unfold judge; rewrite Ec, Es, Ek].
Qed.

(** C1. A connection does exactly what its request asks for, however lwIP cut it
    into packets and pbufs: a request that is refused, or a GET, touches no file and gets
    at most the one response that is due; an accepted upload of [n] bytes is
    written to one handle as exactly the first [n] bytes that arrived and renamed
    to its final name only when all of them are written, and is deleted, with no
    response, when the connection closes first. *)
Theorem handle_conn_spec fuel tr :
  exec (handle_conn fuel) tr (Done tt) -> conn_log (packets tr) (fs_calls tr) (replies tr).
Proof. intros (evs & ps & rs & (<- & <- & <-) & H)%handle_conn_run. done. Qed.
End put.

(** ** Panics and termination *)

Section live.
Context `{V : Vendor} {L : VendorLaws V} `{SM : Serialize Message}.

(** A run during which a packet without data arrived. *)
Definition starved (tr : trace) : Prop := Exists (fun p => packet_data p = []) (packets tr).

Lemma starved_app tr1 tr2 : starved (tr1 ++ tr2) <-> starved tr1 \/ starved tr2.
Proof. unfold starved, packets. by rewrite collect_app, Exists_app. Qed.

(** A program that never panics and only runs out of fuel when it is starved. *)
Definition live {A} (p : io A) : Prop :=
  always p (fun tr o => match o with Done _ => True | Panicked => False | OutOfFuel => starved tr end).

Lemma live_total {A} (p : io A) : total p -> live p.
Proof. intros Hp tr o H. by destruct (Hp _ _ H) as [a ->]. Qed.

Lemma live_bind_post {A B} (p : io A) (P : A -> Prop) (f : A -> io B) :
  live p -> (forall tr a, exec p tr (Done a) -> P a) -> (forall a, P a -> live (f a)) -> live (p ≫= f).
Proof.
  intros Hp HP Hf tr o H%exec_bind. inversion H as [a tr1 tr2 o' -> H1 H2|H1|H1]; subst.
  - pose proof (Hf a (HP _ _ H1) _ _ H2) as G. destruct o; [done|done|]. apply starved_app. by right.
  - exact (Hp _ _ H1).
  - exact (Hp _ _ H1).
Qed.

Lemma live_bind {A B} (p : io A) (f : A -> io B) : live p -> (forall a, live (f a)) -> live (p ≫= f).
Proof. intros Hp Hf. by apply (live_bind_post p (fun _ => True)). Qed.

Lemma total_upload_chunk f n c : total (upload_chunk f n c).
Proof. unfold upload_chunk, write. cbv zeta. total_tac. Qed.

Lemma total_write_chunks f n cs : total (write_chunks f n cs).
Proof.
  revert n. induction cs as [|c cs IH]; intros n; cbn [write_chunks]; [apply total_ret|].
  apply total_bind; [apply total_upload_chunk|]. intros k. destruct (k =? 0); [apply total_ret|apply IH].
Qed.

Lemma receive_rest_no_panic fuel f path n : no_panic (receive_rest fuel f path n).
Proof.
  revert n. induction fuel as [|fuel IH]; intros n; cbn [receive_rest];
    (destruct (n >? 0); [|apply no_panic_ret]); [apply no_panic_fuel|].
  apply no_panic_bind; [apply no_panic_total; total_tac|]. intros [p|].
  - apply no_panic_bind; [apply no_panic_total, total_write_chunks|]. intros r.
    apply no_panic_bind; [apply no_panic_total, total_drop_packet|]. intros. apply IH.
  - apply no_panic_total. unfold close, drop_file, delete. total_tac.
Qed.

(** Each packet with data brings the loop closer to its end. *)
Lemma receive_rest_starved fuel f path n tr :
  0 <= n <= Z.of_nat fuel -> exec (receive_rest fuel f path n) tr OutOfFuel -> starved tr.
Proof.
  revert n tr. induction fuel as [|fuel IH]; intros n tr Hn H; cbn [receive_rest] in H;
    rewrite Z.gtb_ltb in H; (destruct (Z.ltb_spec 0 n); [|by destruct H]); [lia|].
  apply exec_bind in H. inversion H as [m tr1 tr2 o' -> H1 H2|H1|H1]; subst; [|by destruct (total_receive _ _ H1)].
  destruct m as [p|]; [|by exec_steps H2].
  assert (Hp : packets tr1 = [p]) by by apply packets_receive in H1.
  apply starved_app. destruct (decide (packet_data p = [])) as [He|Hne].
  { left. unfold starved. rewrite Hp. by constructor. }
  right. apply exec_bind in H2. inversion H2 as [[k b] tr3 tr4 o' -> H3 H4|H3|H3]; subst;
    [|by destruct (total_write_chunks _ _ _ _ _ H3)].
  apply write_chunks_run in H3 as (-> & _ & _); [|lia].
  apply exec_bind in H4. inversion H4 as [[] tr5 tr6 o' -> H5 H6|H5|H5]; subst;
    [|by destruct (total_drop_packet _ _ _ H5)].
  apply starved_app. right. apply starved_app. right. apply (IH _ _) in H6; [done|].
  fold (packet_data p). cbn [fst]. assert (0 < len (packet_data p)).
  { destruct (packet_data p); [done|]. rewrite len_cons. pose proof (len_nonneg l). lia. }
  unfold saturating_sub. lia.
Qed.

Lemma receive_rest_live fuel f path n : 0 <= n <= Z.of_nat fuel -> live (receive_rest fuel f path n).
Proof.
  intros Hn tr o H. destruct o; [done|by eapply receive_rest_no_panic|by eapply receive_rest_starved].
Qed.

Lemma total_append g : total (append_to_ledger g).
Proof. unfold append_to_ledger, my_ipaddr. cbv zeta. total_tac. Qed.

Lemma total_log s : total (log_to_udp s).
Proof. unfold log_to_udp. auto with derust. Qed.

Lemma total_finish info g path f : total (finish_upload info g path f).
Proof.
  pose proof total_append. pose proof total_log.
  unfold finish_upload, close, drop_file, rname. rewrite make_path_eq. total_tac.
Qed.

Lemma handle_put_live fuel it headers body : 1000000 <= Z.of_nat fuel -> live (handle_put fuel it headers body).
Proof.
  intros Hf. unfold handle_put. apply live_bind; [apply live_total, total_log|intros _]. cbv zeta.
  destruct (put_rejected _) eqn:Er.
  { apply live_total. unfold drop_iter. total_tac. }
  apply put_accepted in Er as (_ & n & -> & Hn). cbn [unwrap].
  apply live_bind.
  { apply live_total. pose proof total_log. total_tac. }
  intros g. rewrite make_path_eq. apply live_bind; [apply live_total, total_ret|intros path].
  apply live_bind; [apply live_total; unfold open; total_tac|]. intros [f|e]; cycle 1.
  { apply live_total. unfold drop_iter. total_tac. }
  apply live_bind_post with (P := eq n); [apply live_total, total_ret|by intros ? ? [_ [= ->]]|intros ? <-].
  apply live_bind_post with (P := fun m => 0 <= m <= 1000000); [apply live_total, total_upload_chunk| |].
  { intros tr m H. apply upload_chunk_run in H as [-> _]; [|lia]. pose proof (len_nonneg body).
    unfold saturating_sub. lia. }
  intros m Hm. apply live_bind_post with (P := fun r => 0 <= r.1 <= 1000000); [apply live_total, total_write_chunks| |].
  { intros tr [k b] H. apply write_chunks_run in H as [-> _]; [|lia]. pose proof (len_nonneg (concat (chunks it))).
    unfold saturating_sub. cbn. lia. }
  intros [k b] Hk. cbn in Hk. apply live_bind; [apply live_total, total_drop_packet|intros _].
  apply live_bind.
  { destruct b; cbn [negb]; [apply live_total, total_ret|apply receive_rest_live; lia]. }
  intros []; apply live_total; [apply total_finish|apply total_ret].
Qed.

Lemma handle_conn_live fuel : 1000000 <= Z.of_nat fuel -> live (handle_conn fuel).
Proof.
  intros Hf. unfold handle_conn. apply live_bind; [apply live_total, total_log|intros _].
  apply live_bind; [apply live_total, total_receive|]. intros [p|]; [|apply live_total, total_ret].
  cbv zeta. rewrite iter_next_chunks. unfold drop_iter.
  destruct (chunks _) as [|c cs]; [apply live_total; total_tac|].
  destruct (split_request c) as [[[sl hd] body]|]; [|apply live_total; total_tac].
  destruct (check_start_line sl) as [[]|e]; [apply live_total; total_tac| |apply live_total; total_tac].
  by apply handle_put_live.
Qed.

(** C30. No request makes the handler panic, whatever its bytes, and it always
    finishes: a million turns of the receive loop, the largest body that is accepted, are
    enough unless lwIP delivers a packet without data. *)
Theorem handle_conn_total fuel tr o :
  1000000 <= Z.of_nat fuel -> exec (handle_conn fuel) tr o ->
  Forall (fun p => packet_data p <> []) (packets tr) -> o = Done tt.
Proof.
  intros Hf H Hp. pose proof (handle_conn_live fuel Hf _ _ H) as G.
  destruct o as [[]| |]; [done|done|]. apply Exists_exists in G as (p & Hin & He).
  rewrite Forall_forall in Hp. by destruct (Hp _ Hin).
Qed.
End live.

(** ** Lock discipline *)

Section lock.
Context `{V : Vendor} {L : VendorLaws V} `{SM : Serialize Message}.

Lemma locked_fuel {A} l l' : @locked V A l Fuel l'.
Proof. by intros tr a [_ ?]. Qed.

Lemma locked_write_chunks l f n cs : locked l (write_chunks f n cs) l.
Proof.
  revert n. induction cs as [|c cs IH]; intros n; cbn [write_chunks]; [apply locked_ret|].
  unfold upload_chunk, write. cbv zeta. locked_tac.
Qed.

Lemma locked_receive_rest fuel f path n : locked Unlocked (receive_rest fuel f path n) Unlocked.
Proof.
  revert n. induction fuel as [|fuel IH]; intros n; cbn [receive_rest];
    (destruct (n >? 0); [|apply locked_ret]); [apply locked_fuel|].
  pose proof locked_write_chunks. unfold close, drop_file, delete, drop_iter. locked_tac.
Qed.

Lemma locked_append g : locked Unlocked (append_to_ledger g) Unlocked.
Proof. unfold append_to_ledger. cbv zeta. locked_tac. Qed.

Lemma locked_finish info g path f : locked Unlocked (finish_upload info g path f) Unlocked.
Proof.
  pose proof locked_append. unfold finish_upload, log_to_udp, close, drop_file, rname.
  rewrite make_path_eq. locked_tac.
Qed.

Lemma locked_make_path l g p : locked l (make_path g p) l.
Proof. rewrite make_path_eq. apply locked_ret. Qed.

Lemma locked_handle_conn fuel : locked Unlocked (handle_conn fuel) Unlocked.
Proof.
  pose proof locked_finish. pose proof locked_write_chunks. pose proof locked_receive_rest.
  unfold handle_conn, handle_put, log_to_udp, open, upload_chunk, write, drop_iter. cbv zeta.
  pose proof locked_make_path. locked_tac.
Qed.

(** Serving a connection, from taking it off the listener to closing it,
    every lwIP call is made with the core lock held or on lwIP's own thread,
    the lock is never taken twice and is free again at the end. *)
Theorem tcp_worker_locked fuel : locked Unlocked (tcp_worker_step fuel) Unlocked.
Proof. apply locked_with_connection, locked_handle_conn. Qed.
End lock.

(** ** A run of each kind *)

Definition demo_request : bytes :=
  http "PUT / HTTP/1.1@Content-Type: text/x.gcode@Content-Length: 5@@ab".

(** A body in three pieces, of which the last is longer than announced. *)
Definition demo_upload : @demo ref_vendor :=
  demo_start [Some (demo_packet [demo_request; lit "c"]); Some (demo_packet [lit "def"])].

Lemma demo_upload_runs :
  let tr := run_trace demo_h (handle_conn 5) demo_upload in
  exec (handle_conn 5) tr (Done tt) /\
  replies tr = [OK] /\
  fs_calls tr = [FOpen (path_of (demo_id 3) true) (lit "wb") 7; FWrite (lit "ab") 7; FWrite (lit "c") 7;
                 FWrite (lit "de") 7; FClose 7; FRename (path_of (demo_id 3) true) (path_of (demo_id 3) false)].
Proof. split; [by_run|]. split; vm_compute; reflexivity. Qed.

Lemma handle_conn_spec_witness :
  let tr := run_trace demo_h (handle_conn 5) demo_upload in
  exec (handle_conn 5) tr (Done tt) /\ conn_log (packets tr) (fs_calls tr) (replies tr).
Proof.
  assert (E : exec (handle_conn 5) (run_trace demo_h (handle_conn 5) demo_upload) (Done tt)) by by_run.
  split; [exact E|]. exact (handle_conn_spec 5 _ E).
Defined.

Lemma handle_conn_total_witness :
  let tr := run_trace demo_h (handle_conn (Z.to_nat 1000000)) demo_upload in
  exec (handle_conn (Z.to_nat 1000000)) tr (Done tt) /\ length (packets tr) = 2%nat /\ @Done unit tt = Done tt.
Proof.
  assert (E : exec (handle_conn (Z.to_nat 1000000))
                (run_trace demo_h (handle_conn (Z.to_nat 1000000)) demo_upload) (Done tt)) by by_run.
  split; [exact E|]. split; [vm_compute; reflexivity|]. apply (handle_conn_total (Z.to_nat 1000000) _ _ ltac:(rewrite Z2Nat.id; lia) E).
  apply (bool_decide_unpack _). vm_compute. exact I.
Defined.

Lemma tcp_worker_locked_witness : locked Unlocked (tcp_worker_step (V := ref_vendor) 5) Unlocked.
Proof. exact (tcp_worker_locked 5). Defined.
