(* ===== verification/Owns.v ===== *)
(** * Ownership of packet buffers

    A pbuf is owned by the program from the moment it is allocated or taken from
    a channel until it is freed or put in a channel.  [owes l p K]: a run of [p] that
    starts with the pbufs [l] releases each pbuf it owns exactly once, except the
    ones in [K a] that it still owns when it ends with [a]. *)

From S2P Require Import Prelude Prog Net Vendor VendorRef Data Ffi Env Lwip Pbuf Tcp Udp Fs Http Request Rng.
From S2P Require Import Messages Observe Upload.

Definition packet_addr (p : PacketBuffer) : ptr := pbuf_addr (inner p).

Section owns.
Context `{V : Vendor}.

(** Pbufs that come into the hands of the program. *)
Definition acquired_seen (X : Type) (c : call X) : X -> list ptr :=
  match c in call X return X -> list ptr with
  | CLwip c =>
      match c in lwip_call X return X -> list ptr with
      | pbuf_alloc _ _ _ => fun p => if decide (p = null) then [] else [p]
      | _ => fun _ => []
      end
  | CRt c =>
      match c in rt_call X return X -> list ptr with
      | conn_receive => fun m => match m with Some p => [packet_addr p] | None => [] end
      | conn_try_receive => fun m => match m with Some (Some p) => [packet_addr p] | _ => [] end
      | conn_clear => fun l => packet_addr <$> omap id l
      | udp_receive => fun m => [packet_addr m.2]
      | _ => fun _ => []
      end
  | _ => fun _ => []
  end.

(** Pbufs it gives away: freed, or put in a channel that had room. *)
Definition released_seen (X : Type) (c : call X) : X -> list ptr :=
  match c in call X return X -> list ptr with
  | CLwip c =>
      match c in lwip_call X return X -> list ptr with
      | pbuf_free p => fun _ => [p]
      | _ => fun _ => []
      end
  | CRt c =>
      match c in rt_call X return X -> list ptr with
      | conn_try_send (Some p) => fun b => if b : bool then [packet_addr p] else []
      | udp_try_send _ p => fun b => if b : bool then [packet_addr p] else []
      | _ => fun _ => []
      end
  | _ => fun _ => []
  end.

Definition acquired : trace -> list ptr := collect acquired_seen.
Definition released : trace -> list ptr := collect released_seen.

Definition owes {A} (l : list ptr) (p : io A) (K : A -> list ptr) : Prop :=
  forall tr a, exec p tr (Done a) -> l ++ acquired tr ≡ₚ released tr ++ K a.

Lemma owes_ret {A} l (a : A) K : l ≡ₚ K a -> owes l (Ret a) K.
Proof. intros H tr b [-> [= ->]]. cbn. by rewrite app_nil_r. Qed.

Lemma owes_panic {A} l (K : A -> list ptr) : owes l Panic K.
Proof. by intros tr b [_ ?]. Qed.

Lemma owes_fuel {A} l (K : A -> list ptr) : owes l Fuel K.
Proof. by intros tr b [_ ?]. Qed.

Lemma owes_call {A X} l (c : call X) (k : X -> io A) K :
  (forall x, exists l', l ++ acquired_seen X c x ≡ₚ released_seen X c x ++ l' /\ owes l' (k x) K) ->
  owes l (Call c k) K.
Proof.
  intros H tr a (x & tr' & -> & Hk). destruct (H x) as (l' & Hl & Hp). specialize (Hp _ _ Hk).
  cbn. fold (acquired tr') (released tr'). rewrite app_assoc, Hl, <- !app_assoc, Hp. done.
Qed.

Lemma owes_bind {A B} l (p : io A) K1 (f : A -> io B) K :
  owes l p K1 -> (forall a, owes (K1 a) (f a) K) -> owes l (p ≫= f) K.
Proof.
  intros Hp Hf tr b (a & tr1 & tr2 & -> & H1 & H2)%exec_bind_done.
  unfold acquired, released. rewrite !collect_app, app_assoc.
  fold (acquired tr1) (released tr1) (acquired tr2) (released tr2).
  rewrite (Hp _ _ H1), <- !app_assoc, (Hf _ _ _ H2). done.
Qed.

(** What a program does not touch it leaves. *)
Lemma owes_frame {A} fr l (p : io A) K : owes l p K -> owes (l ++ fr) p (fun a => K a ++ fr).
Proof.
  intros Hp tr a H. specialize (Hp _ _ H). rewrite <- app_assoc, (Permutation_app_comm fr), app_assoc, Hp.
  by rewrite app_assoc.
Qed.

(** A program that owns nothing, starts with nothing and ends with nothing. *)
Definition balanced {A} (p : io A) : Prop := owes [] p (fun _ => []).

Lemma balanced_frame {A} l (p : io A) : balanced p -> owes l p (fun _ => l).
Proof. intros H. exact (owes_frame l [] p _ H). Qed.

Lemma balanced_bind {A B} l (p : io A) (f : A -> io B) K :
  balanced p -> (forall a, owes l (f a) K) -> owes l (p ≫= f) K.
Proof. intros Hp Hf. eapply owes_bind; [by apply balanced_frame|done]. Qed.

Lemma owes_unseen {X} l (c : call X) :
  (forall x, acquired_seen X c x = []) -> (forall x, released_seen X c x = []) ->
  owes l (Call c Ret) (fun _ => l).
Proof.
  intros H1 H2. apply owes_call. intros x. exists l. rewrite H1, H2, app_nil_r.
  split; [done|]. by apply owes_ret.
Qed.

Lemma owes_blocking {R} l (closure : io (result R err_t)) K :
  owes l closure K -> owes l (blocking_lwip closure) K.
Proof.
  intros Hc. apply owes_call. intros b. exists l. rewrite app_nil_r. split; [done|]. cbn beta.
  destruct b; [done|]. apply owes_call. intros x. exists l. rewrite app_nil_r. split; [done|].
  eapply owes_bind; [exact Hc|]. intros r. apply owes_call. intros y. exists (K r).
  rewrite app_nil_r. split; [done|]. by apply owes_ret.
Qed.

Lemma owes_async l closure :
  owes l closure (fun _ => l) -> owes l (async_lwip closure) (fun _ => l).
Proof.
  intros Hc. apply owes_call. intros b. exists l. rewrite app_nil_r. split; [done|]. cbn beta.
  destruct (decide _); [by apply owes_ret|].
  eapply owes_bind; [exact Hc|]. intros r. apply owes_call. intros y. exists l.
  rewrite app_nil_r. split; [done|]. by apply owes_ret.
Qed.

Lemma owes_for_each {A} (f : A -> io unit) (g : A -> list ptr) l :
  (forall x, owes (g x) (f x) (fun _ => [])) -> owes (l ≫= g) (for_each f l) (fun _ => []).
Proof.
  intros Hf. induction l as [|x l IH]; cbn [for_each]; [by apply owes_ret|]. cbn.
  eapply owes_bind; [apply owes_frame, Hf|]. intros []. exact IH.
Qed.
End owns.

(** Proves [owes l p (fun _ => l)] for a program whose calls move no pbuf. *)
Ltac owes_step :=
  lazymatch goal with
  | |- owes ?l (Ret _) _ => first [refine (owes_ret _ _ (fun _ => l) _) | apply owes_ret]; reflexivity
  | |- owes _ Panic _ => apply owes_panic
  | |- owes _ Fuel _ => apply owes_fuel
  | |- owes _ (unwrap ?o) _ => destruct o; cbn [unwrap]
  | |- owes _ (lwip _) _ => apply owes_unseen; reflexivity
  | |- owes _ (rt _) _ => apply owes_unseen; reflexivity
  | |- owes _ (fs _) _ => apply owes_unseen; reflexivity
  | |- owes _ (marlin _) _ => apply owes_unseen; reflexivity
  | |- owes _ (blocking_lwip _) _ => apply owes_blocking
  | |- owes _ (async_lwip _) _ => apply owes_async
  | |- owes _ (if ?b then _ else _) _ => destruct b
  | |- owes _ (match ?x with _ => _ end) _ => destruct x
  | |- owes ?l (_ ≫= _) _ => eapply (owes_bind l); [|intros ?]
  end.

Ltac owes_tac := repeat (progress cbn beta || owes_step || (progress intros)).

Section handlers.
Context `{V : Vendor} `{SM : Serialize Message}.

Lemma owes_drop p : owes [packet_addr p] (drop_packet p) (fun _ => []).
Proof.
  unfold drop_packet. eapply (owes_bind _ _ (fun _ => [])); [|intros _; by apply owes_ret].
  apply owes_blocking, owes_call. intros x. exists []. split; [done|]. by apply owes_ret.
Qed.

Lemma owes_alloc {T} `{Serialize T} (msg : T) :
  owes [] (alloc msg) (fun o => match o with Some p => [packet_addr p] | None => [] end).
Proof.
  unfold alloc. destruct (serialized_size msg) as [size|]; [|by apply owes_ret].
  set (K := fun r : result ptr err_t => match r with Ok p => if decide (p = null) then [] else [p] | Err _ => [] end).
  eapply (owes_bind _ _ K).
  { apply owes_blocking, owes_call. intros p. exists (if decide (p = null) then [] else [p]).
    split; [done|]. by apply owes_ret. }
  intros [p|e]; cbn [K result_ok unwrap]; [|apply owes_panic].
  eapply (owes_bind _ _ (fun q => if decide (q = null) then [] else [q])); [by apply owes_ret|].
  intros q. case_decide; [by apply owes_ret|].
  destruct (to_slice msg size) as [payload|]; [by apply owes_ret|].
  eapply (owes_bind _ _ (fun _ => [])); [|intros _; by apply owes_ret].
  apply owes_blocking, owes_call. intros x. exists []. split; [done|]. by apply owes_ret.
Qed.

Lemma owes_broadcast p port : owes [packet_addr p] (broadcast p port) (fun _ => []).
Proof.
  unfold broadcast. eapply (owes_bind _ _ (fun _ => [packet_addr p])); [owes_tac|intros r].
  eapply (owes_bind _ _ (fun _ => [])); [apply owes_drop|intros _]. by apply owes_ret.
Qed.

(** A message that cannot be sent leaks nothing, and each packet that is sent is
    freed once. *)
Lemma balanced_send n m : balanced (send n m).
Proof.
  induction n as [|n IH]; cbn [send]; [by apply owes_ret|].
  eapply (owes_bind _ _ _); [apply owes_alloc|]. intros [p|]; [|by apply owes_ret].
  eapply (owes_bind _ _ (fun _ => [])); [apply owes_broadcast|intros _].
  eapply (owes_bind _ _ (fun _ => [])); [owes_tac|intros _]. exact IH.
Qed.

Lemma balanced_uuid : balanced generate_uuid_v7.
Proof. unfold generate_uuid_v7, balanced. owes_tac. Qed.

Lemma balanced_send_log s : balanced (send_log s).
Proof. apply balanced_bind; [apply balanced_uuid|intros; apply balanced_send]. Qed.

Lemma balanced_new_job g : balanced (send_new_job_alert g).
Proof. apply balanced_bind; [apply balanced_uuid|intros; apply balanced_send]. Qed.

Lemma balanced_send_ledger l : balanced (send_ledger l).
Proof. apply balanced_bind; [apply balanced_uuid|intros; apply balanced_send]. Qed.

Lemma balanced_heartbeat : balanced send_heartbeat.
Proof. apply balanced_bind; [apply balanced_uuid|intros; apply balanced_send]. Qed.

Lemma balanced_response b : balanced (response b).
Proof. unfold response, balanced. owes_tac. Qed.

Lemma owes_receive :
  owes [] receive (fun m => match m with Some p => [packet_addr p] | None => [] end).
Proof.
  unfold receive. eapply owes_bind.
  { apply (owes_call _ _ _ (fun m => match m with Some p => [packet_addr p] | None => [] end)).
    intros m. eexists. split; [done|]. by apply owes_ret. }
  intros [p|]; [|by apply owes_ret]. cbv beta iota zeta.
  eapply (owes_bind _ _ (fun _ => [packet_addr p])); [owes_tac|intros pcb].
  eapply (owes_bind _ _ (fun _ => [packet_addr p])); [owes_tac|intros _]. by apply owes_ret.
Qed.
End handlers.

Section upload.
Context `{V : Vendor} {L : VendorLaws V} `{SM : Serialize Message}.

Lemma balanced_log s : balanced (log_to_udp s).
Proof. apply balanced_send_log. Qed.

Lemma balanced_upload_chunk f n c : balanced (upload_chunk f n c).
Proof. unfold upload_chunk, write, balanced. cbv zeta. owes_tac. Qed.

Lemma balanced_write_chunks f n cs : balanced (write_chunks f n cs).
Proof.
  revert n. induction cs as [|c cs IH]; intros n; cbn [write_chunks]; [by apply owes_ret|].
  apply balanced_bind; [apply balanced_upload_chunk|]. intros k. destruct (k =? 0); [by apply owes_ret|apply IH].
Qed.

Lemma balanced_receive_rest fuel f path n : balanced (receive_rest fuel f path n).
Proof.
  revert n. induction fuel as [|fuel IH]; intros n; cbn [receive_rest];
    (destruct (n >? 0); [|by apply owes_ret]); [apply owes_fuel|].
  eapply owes_bind; [apply owes_receive|]. intros [p|].
  - apply balanced_bind; [apply balanced_write_chunks|]. intros r.
    eapply (owes_bind _ _ (fun _ => [])); [apply owes_drop|intros _]. apply IH.
  - unfold close, drop_file, delete. owes_tac.
Qed.

Lemma balanced_append g : balanced (append_to_ledger g).
Proof.
  assert (balanced my_ipaddr) as Hip by (unfold my_ipaddr, balanced; owes_tac).
  unfold append_to_ledger. cbv zeta.
  apply balanced_bind; [unfold balanced; owes_tac|intros b]. apply balanced_bind; [unfold balanced; owes_tac|intros _].
  apply balanced_bind; [unfold balanced; owes_tac|intros gd]. apply balanced_bind.
  { destruct gd as [st|]; [|by apply owes_ret]. apply balanced_bind; [done|]. unfold balanced. owes_tac. }
  intros [gd' o]. apply balanced_bind; [unfold balanced; owes_tac|intros _].
  destruct (_ && _); [apply balanced_new_job|by apply owes_ret].
Qed.

Lemma balanced_finish info g path f : balanced (finish_upload info g path f).
Proof.
  unfold finish_upload, close, drop_file, rname. rewrite make_path_eq.
  do 2 (apply balanced_bind; [unfold balanced; owes_tac|intros ?]).
  apply balanced_bind; [unfold balanced; owes_tac|intros ?]. apply balanced_bind; [apply balanced_response|intros ?].
  apply balanced_bind; [apply balanced_log|intros _]. destruct (info_guid info); [by apply owes_ret|].
  apply balanced_bind; [apply balanced_append|intros _]. apply balanced_bind; [unfold balanced; owes_tac|intros s].
  destruct s; [by apply owes_ret|apply balanced_log].
Qed.

Lemma owes_refuse r p : owes [packet_addr p] (response r;; drop_packet p) (fun _ => []).
Proof. apply balanced_bind; [apply balanced_response|intros _; apply owes_drop]. Qed.

Lemma owes_handle_put fuel it headers body :
  owes [packet_addr (it_inner it)] (handle_put fuel it headers body) (fun _ => []).
Proof.
  unfold handle_put. apply balanced_bind; [apply balanced_log|intros _]. cbv zeta.
  destruct (put_rejected _); [apply owes_refuse|].
  apply balanced_bind.
  { destruct (info_guid _); [|apply balanced_uuid].
    apply balanced_bind; [apply balanced_log|intros _; by apply owes_ret]. }
  intros g. rewrite make_path_eq. apply balanced_bind; [by apply owes_ret|intros path].
  apply balanced_bind; [unfold open, balanced; owes_tac|]. intros [f|e]; [|apply owes_refuse].
  apply balanced_bind; [unfold balanced; owes_tac|intros n].
  apply balanced_bind; [apply balanced_upload_chunk|intros m].
  apply balanced_bind; [apply balanced_write_chunks|intros [k b]].
  eapply (owes_bind _ _ (fun _ => [])); [apply owes_drop|intros _].
  apply balanced_bind; [destruct (negb b); [apply balanced_receive_rest|by apply owes_ret]|intros ok].
  destruct ok; [apply balanced_finish|by apply owes_ret].
Qed.

Lemma balanced_handle_conn fuel : balanced (handle_conn fuel).
Proof.
  unfold handle_conn. apply balanced_bind; [apply balanced_log|intros _].
  eapply owes_bind; [apply owes_receive|]. intros [p|]; [|by apply owes_ret].
  cbv zeta. rewrite iter_next_chunks. destruct (chunks _) as [|c cs]; [apply owes_refuse|].
  destruct (split_request c) as [[[sl hd] body]|]; [|apply owes_refuse].
  destruct (check_start_line sl) as [[]|e]; [apply owes_refuse| |apply owes_refuse].
  apply (owes_handle_put _ (mkIter p _)).
Qed.

Lemma balanced_drain fuel pcb : balanced (drain_channel fuel pcb).
Proof.
  induction fuel as [|fuel IH]; cbn [drain_channel]; [apply owes_fuel|].
  eapply (owes_bind _ _ (fun m => match m with Some (Some p) => [packet_addr p] | _ => [] end)).
  { apply owes_call. intros m. eexists. split; [done|]. by apply owes_ret. }
  intros [[p|]|]; [|exact IH|by apply owes_ret].
  eapply (owes_bind _ _ (fun _ => [packet_addr p])); [owes_tac|intros _].
  eapply (owes_bind _ _ (fun _ => [])); [apply owes_drop|intros _; exact IH].
Qed.

Lemma balanced_drop_connection : balanced drop_connection.
Proof.
  unfold drop_connection. apply balanced_bind.
  - unfold balanced. apply owes_blocking. apply balanced_bind; [unfold balanced; owes_tac|intros pcb].
    apply balanced_bind; [|intros _; by apply owes_ret]. case_decide; [|by apply owes_ret].
    apply balanced_bind; [unfold balanced; owes_tac|intros r].
    apply balanced_bind; [unfold balanced; owes_tac|intros _].
    apply balanced_bind; [apply balanced_drain|intros _].
    unfold balanced. owes_tac.
  - intros _. eapply (owes_bind _ _ (fun l => packet_addr <$> omap id l)).
    { apply owes_call. intros l. eexists. split; [done|]. by apply owes_ret. }
    intros l. assert (packet_addr <$> omap id l =
      (l ≫= fun o => match o with Some p => [packet_addr p] | None => [] end)) as ->.
    { induction l as [|[p|] l IH]; [done| |done]. cbn. by f_equal. }
    apply owes_for_each. intros [p|]; [apply owes_drop|by apply owes_ret].
Qed.

(** C26. Serving a connection neither leaks a pbuf nor frees one twice: over a whole
    turn of the worker, on every path (refused requests, aborted uploads, messages that
    cannot be sent), the pbufs allocated or taken from the connection's
    channel, those still queued at the end included, are exactly the ones freed. *)
Theorem tcp_worker_frees fuel tr :
  exec (tcp_worker_step fuel) tr (Done tt) -> acquired tr ≡ₚ released tr.
Proof.
  intros H. assert (balanced (tcp_worker_step fuel)) as Hb; [|by rewrite (Hb _ _ H), app_nil_r].
  unfold tcp_worker_step, with_connection.
  do 2 (apply balanced_bind; [unfold balanced; owes_tac|intros ?]).
  apply balanced_bind; [unfold attach_callbacks, balanced; owes_tac|intros ?].
  apply balanced_bind; [apply balanced_handle_conn|intros ?]. apply balanced_drop_connection.
Qed.
End upload.

(** ** Callbacks

    lwIP lends a pbuf to a callback. The UDP callback must always dispose of it; the
    TCP callback must keep or free it when it returns [Ok], and must leave it to lwIP, which
    delivers it again, when it returns an error. *)

Section callbacks.
Context `{V : Vendor}.

Lemma drop_packet_releases p tr a : exec (drop_packet p) tr (Done a) -> released tr = [packet_addr p].
Proof.
  intros H. unfold drop_packet in H. bind_step H as r H1. destruct H as [-> _]. rewrite app_nil_r.
  exec_step H1 as []; exec_steps H1; done.
Qed.

(** A UDP datagram is disposed of exactly once: queued for the receiver, or
    freed when the queue is full. *)
Theorem udp_socket_recv_releases buf addr tr :
  buf <> [] -> exec (udp_socket_recv true buf addr) tr (Done tt) -> released tr = [pbuf_addr buf].
Proof.
  intros Hb H. destruct buf as [|b buf]; [done|].
  unfold udp_socket_recv in H. cbn [negb try_from pbuf_is_null] in H. exec_step H as [].
  - exec_steps H. done.
  - change (exec (drop_packet (mkPacketBuffer (b :: buf) (b :: buf))) x (Done tt)) in H.
    apply drop_packet_releases in H. cbn. exact H.
Qed.

(** What [connection_recv] does with a segment, by the room in its channel. *)
Lemma connection_recv_run arg pcb buf err tr e :
  buf <> [] -> exec (connection_recv arg pcb buf err) tr (Done e) ->
  released tr = [pbuf_addr buf] /\
  (e = err_t.Ok \/ (e = if arg then err_t.Mem else err_t.Val)).
Proof.
  intros Hb H. destruct buf as [|b buf]; [done|].
  unfold connection_recv in H. destruct arg; cbn [negb try_from pbuf_is_null] in H.
  - cbn [result_ok unwrap] in H. change (exec (sent ← rt (conn_try_send (Some (mkPacketBuffer (b :: buf) (b :: buf))));
      if sent : bool then Ret err_t.Ok else drop_packet (mkPacketBuffer (b :: buf) (b :: buf));; Ret err_t.Mem) tr (Done e)) in H.
    bind_step H as sent H1. destruct H1 as (x' & ? & -> & -> & [= ->]). destruct x'.
    + exec_steps H. auto.
    + bind_step H as [] H1. destruct H as [-> [= ->]]. apply drop_packet_releases in H1.
      split; [|auto]. unfold released. rewrite app_nil_r. cbn. exact H1.
  - exec_steps H. auto.
Qed.

(** A segment that a connection cannot queue is freed and at the same time
    refused: the callback answers [ERR_MEM] after it released the pbuf, so lwIP
    keeps as refused data, and delivers again, a chain it no longer owns. *)
Theorem connection_recv_refused pcb buf err tr e :
  buf <> [] -> exec (connection_recv true pcb buf err) tr (Done e) -> e <> err_t.Ok ->
  e = err_t.Mem /\ released tr = [pbuf_addr buf].
Proof. intros Hb H He. by destruct (connection_recv_run _ _ _ _ _ _ Hb H) as [Hr [?|?]]. Qed.
End callbacks.

(** ** Concrete runs *)

Lemma tcp_worker_frees_witness :
  let tr := run_trace demo_h (tcp_worker_step 5) demo_upload in
  exec (tcp_worker_step 5) tr (Done tt) /\ acquired tr ≡ₚ released tr.
Proof.
  assert (E : exec (tcp_worker_step 5) (run_trace demo_h (tcp_worker_step 5) demo_upload) (Done tt)) by by_run.
  split; [exact E|]. exact (tcp_worker_frees 5 _ E).
Defined.

Lemma udp_socket_recv_releases_witness :
  released (run_trace demo_h (udp_socket_recv true (demo_chain 1 [lit "x"]) 83886090) (demo_start [])) = [1].
Proof. apply (udp_socket_recv_releases (demo_chain 1 [lit "x"]) 83886090); [done|by_run]. Defined.

(** A channel that is full. *)
Definition full_env : handler call (@demo ref_vendor) := fun X c s =>
  match c in call X return X * demo with
  | CRt c =>
      match c in rt_call X return X * demo with
      | conn_try_send _ => (false, s)
      | c => demo_h _ (CRt c) s
      end
  | c => demo_h _ c s
  end.

Lemma connection_recv_refused_witness :
  let p := connection_recv true 5 (demo_chain 1 [lit "x"]) err_t.Ok in
  let tr := run_trace full_env p (demo_start []) in
  exec p tr (Done err_t.Mem) /\ err_t.Mem = err_t.Mem /\ released tr = [1].
Proof.
  assert (E : exec (connection_recv true 5 (demo_chain 1 [lit "x"]) err_t.Ok)
    (run_trace full_env (connection_recv true 5 (demo_chain 1 [lit "x"]) err_t.Ok) (demo_start []))
    (Done err_t.Mem)) by by_run.
  split; [exact E|]. exact (connection_recv_refused 5 (demo_chain 1 [lit "x"]) err_t.Ok _ _ ltac:(discriminate) E ltac:(discriminate)).
Defined.
