(* ===== verification/Put.v ===== *)
(** * Sending a job file to another machine ([lwip/put.rs])

    A [PutRequest] stages its header and the file through a buffer of 1024 bytes.
    lwIP drives it by callbacks; [put_step] is one callback, [put_run] a sequence of
    them. *)

From S2P Require Import Prelude Prog Text Net Vendor VendorRef Data Ffi Env Lwip Pbuf Tcp Udp Fs Http Rng.
From S2P Require Import Messages Observe.

Definition BUF_CAP : Z := 1024.

Section put.
Context `{V : Vendor}.

(** The fields that are not atomics: the pcb and the signal are reached through
    [pcb_load] and the like on [Obj_PutRequest], and [put_signal]. *)
Record PutRequest : Type := mkPut {
  put_guid : Uuid; put_addr : Ipv4Addr; put_port : Z; put_fsize : Z;
  put_fh : File ReadBytes; put_buf : bytes
}.

Definition set_buf (this : PutRequest) (b : bytes) : PutRequest :=
  mkPut (put_guid this) (put_addr this) (put_port this) (put_fsize this) (put_fh this) b.

Definition put_new (g : Uuid) (addr : Ipv4Addr) (port : Z) : io (result PutRequest FResult) :=
  path ← make_path g false;
  st ← stat path;
  match st with
  | Err e => Ret (Err e)
  | Ok st =>
      o ← open path mkReadBytes;
      match o with
      | Err _ => Ret (Err FResult.NoPath)
      | Ok fh => Ret (Ok (mkPut g addr port (fsize st) fh []))
      end
  end.

(** [pump]: tops the buffer up from the file, offers what the pcb has room for and
    shifts the rest down.  [to_send as u16] is the length [tcp_write] gets. *)
Definition pump (this : PutRequest) (pcb : ptr) : io (PutRequest * result unit err_t) :=
  let free := BUF_CAP - len (put_buf this) in
  this ← (if free >? 0 then
            r ← read (put_fh this) free;
            match r with
            | Ok b => Ret (set_buf this (put_buf this ++ b))
            | Err _ => Ret this
            end
          else Ret this);
  sndbuf ← lwip (derusting_tcp_sndbuf pcb);
  let to_send := Z.min (len (put_buf this)) sndbuf in
  if decide (to_send = 0) then Ret (this, Ok tt)
  else
    err ← lwip (tcp_write pcb (ztake (wrap 16 to_send) (put_buf this)) TCP_WRITE_FLAG_COPY);
    if decide (err <> err_t.Ok) then
      Ret (this, if decide (err = err_t.Mem) then Ok tt else Err err)
    else
      let this := set_buf this (zdrop to_send (put_buf this)) in
      lwip (tcp_output pcb);;
      Ret (this, Ok tt).

Definition put_send (this : PutRequest) : io (result unit err_t) :=
  r ← async_lwip (
    pcb ← lwip tcp_new;
    if decide (pcb = null) then Ret (Err err_t.Mem)
    else
      lwip (tcp_arg pcb (Some Obj_PutRequest));;
      lwip (tcp_sent pcb (Some Put_sent));;
      lwip (tcp_recv pcb (Some Put_recv));;
      lwip (tcp_err pcb (Some Put_err));;
      let addr := to_be (to_bits (put_addr this)) in
      err ← lwip (tcp_connect pcb addr (put_port this) Put_connected);
      if decide (err = err_t.Ok) then
        rt (pcb_store Obj_PutRequest pcb);;
        Ret (Ok tt)
      else Ret (Err err));
  match r with
  | Err e => Ret (Err e)
  | Ok _ =>
      err ← rt put_wait;
      if decide (err <> err_t.Ok) then Ret (Err err) else Ret (Ok tt)
  end.

(** The head of the request. *)
Definition put_header (g : Uuid) (fsize : Z) : bytes :=
  http "PUT / HTTP/1.1@guid: " ++ uuid_display g ++
  http "@Content-Type: text/x.gcode@Content-Length: " ++ display_u32 fsize ++
  http "@Connection: close@@".

(** [heapless::Vec::extend_from_slice]: all or nothing. *)
Definition extend_from_slice (b s : bytes) : bytes := if len b + len s <=? BUF_CAP then b ++ s else b.

Definition put_connected (this : PutRequest) (arg : bool) (pcb : ptr) (err : err_t) :
    io (PutRequest * err_t) :=
  if negb arg then Ret (this, err_t.Mem)
  else if decide (err <> err_t.Ok) then
    rt (put_signal err);;
    Ret (this, err)
  else
    match format_n 256 (put_header (put_guid this) (put_fsize this)) with
    | None =>
        rt (put_signal err_t.Mem);;
        Ret (this, err_t.Mem)
    | Some headers =>
        r ← pump (set_buf this (extend_from_slice (put_buf this) headers)) pcb;
        let '(this, res) := (r : PutRequest * result unit err_t) in
        match res with
        | Err err =>
            rt (put_signal err);;
            Ret (this, err)
        | Ok _ =>
            lwip (tcp_output pcb);;
            Ret (this, err_t.Ok)
        end
    end.

Definition put_sent (this : PutRequest) (arg : bool) (pcb : ptr) (len : Z) : io (PutRequest * err_t) :=
  if negb arg then Ret (this, err_t.Mem)
  else
    r ← pump this pcb;
    let '(this, res) := (r : PutRequest * result unit err_t) in
    match res with
    | Err err =>
        rt (put_signal err);;
        Ret (this, err)
    | Ok _ =>
        lwip (tcp_output pcb);;
        Ret (this, err_t.Ok)
    end.

(** Any data is taken for the response; the packet is dropped on return. *)
Definition put_recv (this : PutRequest) (arg : bool) (pcb : ptr) (buf : pbuf_ptr) (err : err_t) :
    io (PutRequest * err_t) :=
  if negb arg then Ret (this, err_t.Mem)
  else if decide (err <> err_t.Ok) then
    rt (put_signal err);;
    Ret (this, err)
  else
    match try_from buf with
    | Err _ =>
        rt (put_signal err_t.Clsd);;
        Ret (this, err_t.Ok)
    | Ok pb =>
        rt (put_signal err_t.Ok);;
        drop_packet pb;;
        Ret (this, err_t.Ok)
    end.

Definition put_err (this : PutRequest) (arg : bool) (err : err_t) : io PutRequest :=
  if negb arg then Ret this
  else
    rt (pcb_store Obj_PutRequest null);;
    rt (put_signal err);;
    Ret this.

(** [impl Drop for PutRequest], and then that of its file. *)
Definition drop_put (this : PutRequest) : io unit :=
  blocking_lwip (
    pcb ← rt (pcb_swap Obj_PutRequest null);
    (if decide (pcb <> null) then
       lwip (tcp_arg pcb None);;
       lwip (tcp_sent pcb None);;
       lwip (tcp_recv pcb None);;
       lwip (tcp_close pcb);;
       Ret tt
     else Ret tt);;
    Ret (Ok tt : result unit err_t));;
  drop_file (put_fh this).

Definition put_file (g : Uuid) (addr : Ipv4Addr) (port : Z) : io (result unit err_t) :=
  o ← put_new g addr port;
  match o with
  | Err _ => Ret (Err err_t.Val)
  | Ok put =>
      r ← put_send put;
      drop_put put;;
      Ret r
  end.

(** The callbacks lwIP may make, with their arguments. *)
Inductive put_event : Type :=
  | On_connected (arg : bool) (pcb : ptr) (err : err_t)
  | On_sent (arg : bool) (pcb : ptr) (len : Z)
  | On_recv (arg : bool) (pcb : ptr) (buf : pbuf_ptr) (err : err_t)
  | On_err (arg : bool) (err : err_t).

Definition put_step (this : PutRequest) (e : put_event) : io PutRequest :=
  match e with
  | On_connected arg pcb err => r ← put_connected this arg pcb err; Ret r.1
  | On_sent arg pcb n => r ← put_sent this arg pcb n; Ret r.1
  | On_recv arg pcb buf err => r ← put_recv this arg pcb buf err; Ret r.1
  | On_err arg err => put_err this arg err
  end.

Fixpoint put_run (this : PutRequest) (es : list put_event) : io PutRequest :=
  match es with
  | [] => Ret this
  | e :: es => this ← put_step this e; put_run this es
  end.
End put.

Arguments put_header : simpl never.

(** ** The stream that is sent *)

Section stream.
Context `{V : Vendor} {L : VendorLaws V}.

(** [fread] stores no more bytes than it was asked for, and a send buffer has no
    negative room. *)
Definition put_answer_ok (e : event call) : Prop :=
  match e with
  | @Ev _ X c x =>
      match c in call X return X -> Prop with
      | CLwip c =>
          match c in lwip_call X return X -> Prop with
          | derusting_tcp_sndbuf _ => fun n => 0 <= n
          | _ => fun _ => True
          end
      | CFs c =>
          match c in fs_call X return X -> Prop with
          | fread n _ => fun b => len b <= n
          | _ => fun _ => True
          end
      | _ => fun _ => True
      end x
  end.

Fixpoint put_answers_ok (tr : trace) : Prop :=
  match tr with
  | [] => True
  | e :: tr => put_answer_ok e /\ put_answers_ok tr
  end.

Lemma put_answers_ok_app tr1 tr2 : put_answers_ok (tr1 ++ tr2) <-> put_answers_ok tr1 /\ put_answers_ok tr2.
Proof. induction tr1 as [|e tr1 IH]; cbn; [tauto|]. rewrite IH. tauto. Qed.

Lemma put_header_ascii g n : Forall is_ascii (put_header g n).
Proof.
  unfold put_header. repeat (apply Forall_app; split); try by apply (bool_decide_unpack _).
  - apply uuid_display_ascii.
  - eapply Forall_impl; [by apply display_aux_digits|]. intros c Hc. apply in_range_true in Hc.
    unfold is_ascii. lia.
Qed.

(** The header fits the 256 bytes set aside for it, with room to spare. *)
Lemma put_header_length g n : fits 32 n -> len (put_header g n) <= 140.
Proof.
  intros Hn. unfold put_header. rewrite !len_app, uuid_display_length.
  assert (len (display_u32 n) <= 10) as H10.
  { unfold display_u32, len. pose proof (display_aux_length 10 n []). cbn [length] in *. lia. }
  change (len (http "PUT / HTTP/1.1@guid: ")) with 22.
  change (len (http "@Content-Type: text/x.gcode@Content-Length: ")) with 46.
  change (len (http "@Connection: close@@")) with 23. lia.
Qed.

Lemma put_header_format g n : fits 32 n -> format_n 256 (put_header g n) = Some (put_header g n).
Proof.
  intros Hn. apply format_n_ascii; [apply put_header_ascii|]. pose proof (put_header_length g n Hn). lia.
Qed.

(** Nothing is lost, repeated or reordered between the file and lwIP; what
    [tcp_write] did not take stays in the buffer. *)
Definition conserves (this this' : PutRequest) (tr : trace) : Prop :=
  put_buf this ++ file_read tr = tcp_accepted tr ++ put_buf this' /\
  len (put_buf this') <= BUF_CAP /\ set_buf this' (put_buf this) = this.

Lemma conserves_quiet this tr :
  len (put_buf this) <= BUF_CAP -> file_read tr = [] -> tcp_accepted tr = [] -> conserves this this tr.
Proof. intros Hl Hf Ht. split_and!; [by rewrite Hf, Ht, app_nil_r|done|by destruct this]. Qed.

Lemma conserves_app this1 this2 this3 tr1 tr2 :
  conserves this1 this2 tr1 -> conserves this2 this3 tr2 -> conserves this1 this3 (tr1 ++ tr2).
Proof.
  intros (H1 & _ & E1) (H2 & Hl & E2). unfold conserves, file_read, tcp_accepted in *.
  split_and!; [|done|].
  - rewrite !collect_app, app_assoc, H1, <- app_assoc, H2. by rewrite app_assoc.
  - rewrite <- E1. rewrite <- E2. by destruct this3.
Qed.

Lemma pump_run this pcb tr this' r :
  len (put_buf this) <= BUF_CAP -> put_answers_ok tr ->
  exec (pump this pcb) tr (Done (this', r)) -> conserves this this' tr.
Proof.
  intros Hl Hok H. unfold pump in H. cbv zeta in H. bind_step H as this1 H1. apply put_answers_ok_app in Hok as [Hok1 Hok2].
  match type of H1 with exec _ ?t _ => assert (conserves this this1 t) as Hc1 end.
  { rewrite Z.gtb_ltb in H1. destruct (Z.ltb_spec 0 (BUF_CAP - len (put_buf this))) as [Hf|Hf].
    - exec_steps H1. destruct Hok1 as [Hr _]. cbn in Hr.
      split_and!; [|by cbn; rewrite len_app; lia|by destruct this]. cbn. by rewrite app_nil_r.
    - destruct H1 as [-> [= ->]]. by apply conserves_quiet. }
  eapply conserves_app; [exact Hc1|]. destruct Hc1 as (_ & Hl1 & _). clear H1 Hok1.
  exec_step H as sndbuf. destruct Hok2 as [Hs _]. cbn in Hs.
  pose proof (len_nonneg (put_buf this1)).
  case_decide as Hz; [exec_steps H; by apply conserves_quiet|].
  exec_step H as e. case_decide as He.
  - exec_steps H. apply conserves_quiet; [done|done|]. cbn. by rewrite decide_False.
  - subst e. exec_steps H. set (n := Z.min _ sndbuf) in *.
    assert (wrap 16 n = n) as ->. { apply wrap_small. unfold fits, BUF_CAP in *. change (2 ^ 16) with 65536. lia. }
    split_and!; [|cbn; rewrite len_zdrop; lia|by destruct this1].
    cbn. rewrite decide_True by done. rewrite !app_nil_r. by rewrite ?app_nil_r, ztake_zdrop.
Qed.

Lemma extend_from_slice_header g n : fits 32 n -> extend_from_slice [] (put_header g n) = put_header g n.
Proof.
  intros Hn. unfold extend_from_slice. rewrite (proj2 (Z.leb_le _ _)); [done|].
  pose proof (put_header_length g n Hn). unfold BUF_CAP. cbn. rewrite len_nil. lia.
Qed.

Lemma conserves_silent {A} this (p : io A) tr o :
  len (put_buf this) <= BUF_CAP -> no_emit read_seen p -> no_emit tcp_seen p -> exec p tr o ->
  conserves this this tr.
Proof. intros Hl Hr Ht H. apply conserves_quiet; [done|exact (Hr _ _ H)|exact (Ht _ _ H)]. Qed.

(** The header is in the buffer before the first byte of the file. *)
Lemma put_connected_run this pcb tr this' e :
  fits 32 (put_fsize this) -> put_buf this = [] -> put_answers_ok tr ->
  exec (put_connected this true pcb err_t.Ok) tr (Done (this', e)) ->
  conserves (set_buf this (put_header (put_guid this) (put_fsize this))) this' tr.
Proof.
  intros Hn Hb Hok H. unfold put_connected in H. cbn [negb] in H. rewrite decide_False in H by auto.
  rewrite put_header_format, Hb, extend_from_slice_header in H by done.
  bind_step H as [this1 r] H1. apply put_answers_ok_app in Hok as [Hok1 _].
  pose proof (put_header_length (put_guid this) _ Hn).
  apply pump_run in H1; [|cbn; unfold BUF_CAP; lia|done].
  eapply conserves_app; [exact H1|]. destruct H1 as (_ & Hl & _).
  destruct r; exec_steps H; by apply conserves_quiet.
Qed.

Lemma put_sent_run this arg pcb n tr this' e :
  len (put_buf this) <= BUF_CAP -> put_answers_ok tr ->
  exec (put_sent this arg pcb n) tr (Done (this', e)) -> conserves this this' tr.
Proof.
  intros Hl Hok H. unfold put_sent in H. destruct arg; cbn [negb] in H; [|exec_steps H; by apply conserves_quiet].
  bind_step H as [this1 r] H1. apply put_answers_ok_app in Hok as [Hok1 _].
  apply pump_run in H1; [|done|done].
  eapply conserves_app; [exact H1|]. destruct H1 as (_ & Hl1 & _).
  destruct r; exec_steps H; by apply conserves_quiet.
Qed.

Lemma put_recv_run this arg pcb buf err tr this' e :
  len (put_buf this) <= BUF_CAP -> exec (put_recv this arg pcb buf err) tr (Done (this', e)) ->
  conserves this this' tr.
Proof.
  intros Hl H. unfold put_recv in H. destruct arg; cbn [negb] in H; [|exec_steps H; by apply conserves_quiet].
  case_decide; [exec_steps H; by apply conserves_quiet|].
  destruct (try_from buf) as [pb|]; [|exec_steps H; by apply conserves_quiet].
  bind_step H as [] H1. eapply conserves_app; [eapply conserves_silent, H1; [done|no_emit_tac|no_emit_tac]|].
  bind_step H as [] H2. destruct H as [-> [= -> ->]]. rewrite app_nil_r.
  eapply conserves_silent, H2; eauto with derust typeclass_instances.
Qed.

(** Every callback but the first. *)
Definition later (e : put_event) : Prop := match e with On_connected _ _ _ => False | _ => True end.

Lemma put_step_run this e tr this' :
  len (put_buf this) <= BUF_CAP -> later e -> put_answers_ok tr ->
  exec (put_step this e) tr (Done this') -> conserves this this' tr.
Proof.
  intros Hl He Hok H. destruct e as [| | |arg err]; [done| | |]; cbn [put_step] in H.
  - bind_step H as [this1 r] H1. destruct H as [-> [= ->]]. rewrite app_nil_r in *. by eapply put_sent_run.
  - bind_step H as [this1 r] H1. destruct H as [-> [= ->]]. rewrite app_nil_r in *. by eapply put_recv_run.
  - unfold put_err in H. destruct arg; exec_steps H; by apply conserves_quiet.
Qed.

Lemma put_run_conserves this es tr this' :
  len (put_buf this) <= BUF_CAP -> Forall later es -> put_answers_ok tr ->
  exec (put_run this es) tr (Done this') -> conserves this this' tr.
Proof.
  revert this tr. induction es as [|e es IH]; intros this tr Hl He Hok H; cbn [put_run] in H.
  - exec_steps H. by apply conserves_quiet.
  - apply Forall_cons in He as [He Hes]. bind_step H as this1 H1.
    apply put_answers_ok_app in Hok as [Hok1 Hok2]. apply put_step_run in H1; [|done|done|done].
    eapply conserves_app; [exact H1|]. destruct H1 as (_ & Hl1 & _). by apply IH.
Qed.

Lemma put_run_stream this pcb es tr this' :
  fits 32 (put_fsize this) -> put_buf this = [] -> Forall later es -> put_answers_ok tr ->
  exec (put_run this (On_connected true pcb err_t.Ok :: es)) tr (Done this') ->
  put_header (put_guid this) (put_fsize this) ++ file_read tr = tcp_accepted tr ++ put_buf this' /\
  len (put_buf this') <= BUF_CAP.
Proof.
  intros Hn Hb He Hok H. cbn [put_run put_step] in H. bind_step H as this1 H1.
  bind_step H1 as [this2 e] H2. destruct H1 as [-> [= ->]]. rewrite app_nil_r in *.
  apply put_answers_ok_app in Hok as [Hok1 Hok2]. apply put_connected_run in H2; [|done|done|done].
  match goal with |- context [file_read ?t] =>
    assert (conserves (set_buf this (put_header (put_guid this) (put_fsize this))) this' t) as (Hs & Hl & _) end.
  { eapply conserves_app; [exact H2|]. destruct H2 as (_ & Hl1 & _). by eapply put_run_conserves. }
  done.
Qed.

(** C7. Whatever callbacks lwIP makes after the connection is up, in any order and
    with any answers from [tcp_write], what it accepted so far followed by what is
    still buffered is the request head followed by what was read from the file: no byte is
    lost, repeated or reordered. The buffer never exceeds its capacity, so the
    unsafe [set_len] and the narrowing to [u16] are in range. *)
Theorem put_stream this pcb es tr this' :
  fits 32 (put_fsize this) -> put_buf this = [] -> Forall later es -> put_answers_ok tr ->
  exec (put_run this (On_connected true pcb err_t.Ok :: es)) tr (Done this') ->
  put_header (put_guid this) (put_fsize this) ++ file_read tr = tcp_accepted tr ++ put_buf this' /\
  len (put_buf this') <= BUF_CAP.
Proof. apply put_run_stream. Qed.
End stream.

(** ** Lock discipline and termination *)

Section safety.
Context `{V : Vendor} {L : VendorLaws V}.

Lemma locked_make_path' l g p : locked l (make_path g p) l.
Proof. rewrite make_path_eq. apply locked_ret. Qed.

Lemma locked_pump l this pcb : l <> Unlocked -> locked l (pump this pcb) l.
Proof. intros Hl. unfold pump, read. cbv zeta. locked_tac. Qed.

Lemma locked_put_step l this e : l <> Unlocked -> locked l (put_step this e) l.
Proof.
  intros Hl. pose proof (fun t p => locked_pump l t p Hl).
  destruct e; cbn [put_step]; unfold put_connected, put_sent, put_recv, put_err; locked_tac.
Qed.

Lemma locked_put_file g addr port : locked Unlocked (put_file g addr port) Unlocked.
Proof.
  pose proof locked_make_path'. unfold put_file, put_new, stat, open, put_send, drop_put, drop_file. cbv zeta.
  locked_tac.
Qed.

Lemma total_put_file g addr port : total (put_file g addr port).
Proof.
  unfold put_file, put_new, stat, open, put_send, drop_put, drop_file. cbv zeta. rewrite make_path_eq. total_tac.
Qed.

(** The sender keeps to lwIP's locking rules: its task calls lwIP only from
    lwIP's thread or under the lock, and its callbacks, which run with the lock, never
    take or release it. *)
Theorem put_file_locked g addr port this e l :
  locked Unlocked (put_file g addr port) Unlocked /\ (l <> Unlocked -> locked l (put_step this e) l).
Proof. split; [apply locked_put_file|apply locked_put_step]. Qed.
End safety.

#[export] Hint Resolve locked_put_file total_put_file : derust.

(** ** A concrete transfer *)

Definition demo_put : @PutRequest ref_vendor := mkPut (demo_id 3) (demo_addr 7) 8080 3 (mkFile 7 mkReadBytes) [].

(** The file holds three bytes, and the connection has room for 100 at a time. *)
Definition demo_sender : @demo ref_vendor :=
  mkDemo [] [] [lit "abc"] 5 7 (to_be (to_bits (demo_addr 5))) book_new None 1000.

Definition demo_callbacks : list put_event := [On_connected true 5 err_t.Ok; On_sent true 5 100; On_sent true 5 50].

Definition demo_sent : trace := run_trace demo_h (put_run demo_put demo_callbacks) demo_sender.

Definition demo_put_end : @PutRequest ref_vendor :=
  value_of demo_put (run demo_h (put_run demo_put demo_callbacks) demo_sender).1.

Lemma demo_sent_runs :
  exec (put_run demo_put demo_callbacks) demo_sent (Done demo_put_end) /\
  tcp_accepted demo_sent = put_header (demo_id 3) 3 ++ lit "abc".
Proof. split; [by_run_value|]. vm_compute. reflexivity. Qed.

Lemma put_stream_witness :
  put_header (demo_id 3) 3 ++ file_read demo_sent = tcp_accepted demo_sent ++ put_buf demo_put_end /\
  len (put_buf demo_put_end) <= BUF_CAP.
Proof.
  apply (put_stream demo_put 5 [On_sent true 5 100; On_sent true 5 50] demo_sent demo_put_end).
  - by_eval.
  - done.
  - repeat constructor.
  - by_eval.
  - by_run_value.
Defined.

Lemma put_file_locked_witness :
  locked Unlocked (put_file (V := ref_vendor) (demo_id 3) (demo_addr 7) 8080) Unlocked /\
  locked Locked (put_step demo_put (On_sent true 5 1)) Locked.
Proof.
  destruct (put_file_locked (V := ref_vendor) (demo_id 3) (demo_addr 7) 8080 demo_put (On_sent true 5 1) Locked) as [H1 H2].
  split; [exact H1|]. by apply H2.
Defined.
