(* ===== verification/Deliver.v ===== *)
(** * A transfer makes progress ([lwip/put.rs])

    [put_stream] of [Put.v] says that what lwIP accepted is a prefix of the request head and the file; here,
    that enough acknowledgements bring it to the end, and what the sender relies on for it. *)

From S2P Require Import Prelude Prog Text Net Vendor VendorRef Data Ffi Env Lwip Pbuf Tcp Udp Fs Http Rng.
From S2P Require Import Messages Observe Put.

(** ** What the file and the connection answered *)

Section answers.
Context `{V : Vendor}.

(** Each [fread]: how much was asked for, and what came. *)
Definition fread_seen (X : Type) (c : call X) : X -> list (Z * bytes) :=
  match c in call X return X -> list (Z * bytes) with
  | CFs c =>
      match c in fs_call X return X -> list (Z * bytes) with
      | fread n _ => fun d => [(n, d)]
      | _ => fun _ => []
      end
  | _ => fun _ => []
  end.

(** The room in the send buffer when it was asked for. *)
Definition room_seen (X : Type) (c : call X) : X -> list Z :=
  match c in call X return X -> list Z with
  | CLwip c =>
      match c in lwip_call X return X -> list Z with
      | derusting_tcp_sndbuf _ => fun n => [n]
      | _ => fun _ => []
      end
  | _ => fun _ => []
  end.

(** What [tcp_write] answered. *)
Definition write_seen (X : Type) (c : call X) : X -> list err_t :=
  match c in call X return X -> list err_t with
  | CLwip c =>
      match c in lwip_call X return X -> list err_t with
      | tcp_write _ _ _ => fun e => [e]
      | _ => fun _ => []
      end
  | _ => fun _ => []
  end.

(** What the callbacks told the task that waits. *)
Definition signal_seen (X : Type) (c : call X) : X -> list err_t :=
  match c in call X return X -> list err_t with
  | CRt c =>
      match c in rt_call X return X -> list err_t with
      | put_signal e => fun _ => [e]
      | _ => fun _ => []
      end
  | _ => fun _ => []
  end.

(** The reads of a file with [rest] still to come leave [rest']: each gets as much as there is. *)
Fixpoint fed (rest : bytes) (reads : list (Z * bytes)) (rest' : bytes) : Prop :=
  match reads with
  | [] => rest' = rest
  | (n, b) :: reads => b = ztake n rest /\ fed (zdrop n rest) reads rest'
  end.

Lemma fed_app rest r1 r2 rest' : fed rest (r1 ++ r2) rest' <-> exists mid, fed rest r1 mid /\ fed mid r2 rest'.
Proof.
  revert rest. induction r1 as [|[n b] r1 IH]; intros rest; cbn.
  - split; [by eexists|by intros (mid & -> & ?)].
  - setoid_rewrite IH. split; [intros (? & mid & ? & ?); eauto|intros (mid & [? ?] & ?); eauto].
Qed.

(** There is always room for [r] bytes, and [tcp_write] takes them. *)
Definition roomy (r : Z) (tr : trace) : Prop :=
  Forall (fun n => r <= n) (collect room_seen tr) /\ Forall (eq err_t.Ok) (collect write_seen tr).

Lemma roomy_app r tr1 tr2 : roomy r (tr1 ++ tr2) <-> roomy r tr1 /\ roomy r tr2.
Proof. unfold roomy. rewrite !collect_app. rewrite !Forall_app. tauto. Qed.
End answers.

(** ** One callback *)

Section progress.
Context `{V : Vendor} {L : VendorLaws V}.

(** Out of the buffer and the rest of the file, in order, at least [r] bytes went to lwIP, or all. *)
Definition advances (r : Z) (this : PutRequest) (rest : bytes) (this' : PutRequest) (rest' : bytes) (tr : trace) : Prop :=
  put_buf this ++ rest = tcp_accepted tr ++ put_buf this' ++ rest' /\
  Z.min r (len (put_buf this ++ rest)) <= len (tcp_accepted tr) /\
  len (put_buf this') <= BUF_CAP /\ set_buf this' (put_buf this) = this /\ collect signal_seen tr = [].

Lemma advances_app r1 r2 this1 rest1 this2 rest2 this3 rest3 tr1 tr2 :
  0 <= r2 -> advances r1 this1 rest1 this2 rest2 tr1 -> advances r2 this2 rest2 this3 rest3 tr2 ->
  advances (r1 + r2) this1 rest1 this3 rest3 (tr1 ++ tr2).
Proof.
  intros Hr (H1 & B1 & _ & E1 & S1) (H2 & B2 & L2 & E2 & S2). unfold advances, tcp_accepted in *.
  rewrite H1, H2, !len_app in B1. rewrite H2, !len_app in B2. rewrite !collect_app, H1, H2, S1, S2, !len_app.
  pose proof (len_nonneg (collect tcp_seen tr1)). pose proof (len_nonneg (put_buf this3)). pose proof (len_nonneg rest3).
  split_and!; [by rewrite <- app_assoc|lia|done| |done]. rewrite <- E1, <- E2. by destruct this3.
Qed.

Lemma advances_quiet this rest tr :
  len (put_buf this) <= BUF_CAP -> tcp_accepted tr = [] -> collect signal_seen tr = [] -> advances 0 this rest this rest tr.
Proof.
  intros Hl Ht Hs. pose proof (len_nonneg (put_buf this ++ rest)).
  unfold advances. rewrite Ht, Hs. pose proof (@len_nil Z). split_and!; [done|lia|done|by destruct this|done].
Qed.

Lemma pump_advances r this pcb rest rest' tr this' res :
  len (put_buf this) <= BUF_CAP -> 1 <= r <= BUF_CAP -> roomy r tr -> fed rest (collect fread_seen tr) rest' ->
  exec (pump this pcb) tr (Done (this', res)) -> advances r this rest this' rest' tr /\ res = Ok tt.
Proof.
  intros Hl Hr Hroom Hfed H. unfold pump in H. cbv zeta in H. bind_step H as this1 H1.
  apply roomy_app in Hroom as [_ Hroom]. rewrite collect_app in Hfed. apply fed_app in Hfed as (mid & Hfed1 & Hfed2).
  match type of H1 with exec _ ?t _ =>
    assert (advances 0 this rest this1 mid t /\ (len (put_buf this1) = BUF_CAP \/ mid = [])) as [Ha Hfull] end.
  { rewrite Z.gtb_ltb in H1. destruct (Z.ltb_spec 0 (BUF_CAP - len (put_buf this))) as [Hf|Hf].
    - exec_steps H1. destruct Hfed1 as [-> ->]. set (n := BUF_CAP - _) in *.
      pose proof (len_nonneg (put_buf this ++ rest)). unfold advances. cbn.
      pose proof (@len_nil Z).
      rewrite !len_app, len_ztake, <- app_assoc, ztake_zdrop by lia.
      split_and!; [done|lia|lia|by destruct this|done|].
      destruct (Z.le_gt_cases n (len rest)); [left; lia|right]. apply length_zero_iff_nil. pose proof (len_zdrop n rest). unfold len in *. lia.
    - destruct H1 as [-> [= ->]]. cbn in Hfed1. subst mid. split; [by apply advances_quiet|left; lia]. }
  pose proof (proj1 (proj2 (proj2 Ha))) as Hl1. clear H1 Hfed1 Hl.
  exec_step H as sndbuf. destruct Hroom as [Hs Hw]. cbn in Hs. apply Forall_cons in Hs as [Hs _].
  pose proof (len_nonneg (put_buf this1)).
  case_decide as Hz.
  { exec_steps H. cbn in Hfed2. subst rest'. split; [|done].
    assert (put_buf this1 = []) as E by (apply length_zero_iff_nil; unfold len in *; lia).
    assert (mid = []) as -> by (destruct Hfull; [unfold BUF_CAP in *; lia|done]).
    destruct Ha as (H1 & _ & _ & E1 & S1). unfold advances, tcp_accepted in *.
    rewrite H1, E, !collect_app, S1. cbn. rewrite !app_nil_r.
    split_and!; [done|lia|by cbn|done..]. }
  exec_step H as e. cbn in Hw. apply Forall_cons in Hw as [<- _]. rewrite decide_False in H by auto.
  exec_steps H. cbn in Hfed2. subst rest'. split; [|done]. set (n := Z.min _ sndbuf) in *.
  assert (wrap 16 n = n) as ->. { apply wrap_small. unfold fits, BUF_CAP in *. change (2 ^ 16) with 65536. lia. }
  replace r with (0 + r) by lia. eapply (advances_app 0 r); [lia|exact Ha|].
  unfold advances. cbn. rewrite !decide_True by done. rewrite ?app_nil_r, (app_assoc (ztake _ _)), ztake_zdrop, len_app, len_ztake, len_zdrop by lia.
  split_and!; [done| |lia|by destruct this1|done]. pose proof (@len_nil Z). destruct Hfull as [Hb| ->]; lia.
Qed.

(** ** A sequence of callbacks *)

Lemma flushed (this : PutRequest) pcb tr u o :
  exec (lwip (tcp_output pcb);; Ret (this, u : err_t)) tr (Done o) ->
  o = (this, u) /\ tcp_accepted tr = [] /\ collect signal_seen tr = [] /\ collect fread_seen tr = [].
Proof. intros H. exec_steps H. done. Qed.

Lemma put_sent_advances r this pcb n rest rest' tr this' e :
  len (put_buf this) <= BUF_CAP -> 1 <= r <= BUF_CAP -> roomy r tr -> fed rest (collect fread_seen tr) rest' ->
  exec (put_sent this true pcb n) tr (Done (this', e)) -> advances r this rest this' rest' tr.
Proof.
  intros Hl Hr Hroom Hfed H. unfold put_sent in H. cbn [negb] in H. bind_step H as [this1 res] H1.
  apply roomy_app in Hroom as [Hroom _]. rewrite collect_app in Hfed. apply fed_app in Hfed as (mid & Hfed & Hfed2).
  eapply pump_advances in H1 as [Ha ->]; [|done..]. apply flushed in H as ([= -> ->] & Ht & Hs & Hf).
  rewrite Hf in Hfed2. cbn in Hfed2. subst rest'. replace r with (r + 0) by lia.
  eapply advances_app; [lia|exact Ha|]. apply advances_quiet; [apply Ha|done..].
Qed.

Lemma put_connected_advances r this pcb rest rest' tr this' e :
  fits 32 (put_fsize this) -> put_buf this = [] -> 1 <= r <= BUF_CAP -> roomy r tr ->
  fed rest (collect fread_seen tr) rest' -> exec (put_connected this true pcb err_t.Ok) tr (Done (this', e)) ->
  advances r (set_buf this (put_header (put_guid this) (put_fsize this))) rest this' rest' tr.
Proof.
  intros Hn Hb Hr Hroom Hfed H. unfold put_connected in H. cbn [negb] in H. rewrite decide_False in H by auto.
  rewrite put_header_format, Hb, extend_from_slice_header in H by done. bind_step H as [this1 res] H1.
  apply roomy_app in Hroom as [Hroom _]. rewrite collect_app in Hfed. apply fed_app in Hfed as (mid & Hfed & Hfed2).
  pose proof (put_header_length (put_guid this) _ Hn).
  eapply pump_advances in H1 as [Ha ->]; [|cbn; unfold BUF_CAP; lia|done..]. apply flushed in H as ([= -> ->] & Ht & Hs & Hf).
  rewrite Hf in Hfed2. cbn in Hfed2. subst rest'. replace r with (r + 0) by lia.
  eapply advances_app; [lia|exact Ha|]. apply advances_quiet; [apply Ha|done..].
Qed.

(** Acknowledgements, each with its number of bytes. *)
Definition acks (pcb : ptr) (ns : list Z) : list put_event := On_sent true pcb <$> ns.

Lemma put_acks_advance r this pcb ns rest rest' tr this' :
  len (put_buf this) <= BUF_CAP -> 1 <= r <= BUF_CAP -> roomy r tr -> fed rest (collect fread_seen tr) rest' ->
  exec (put_run this (acks pcb ns)) tr (Done this') -> advances (len ns * r) this rest this' rest' tr.
Proof.
  intros Hl Hr. revert this rest tr Hl. induction ns as [|n ns IH]; intros this rest tr Hl Hroom Hfed H.
  - cbn in H. destruct H as [-> [= ->]]. cbn in Hfed. subst rest'. by apply advances_quiet.
  - cbn [acks fmap list_fmap put_run put_step] in H. bind_step H as this1 H1. bind_step H1 as [this2 e] H2.
    destruct H1 as [-> [= ->]]. rewrite app_nil_r in *.
    apply roomy_app in Hroom as [Hroom1 Hroom2]. rewrite collect_app in Hfed. apply fed_app in Hfed as (mid & Hfed1 & Hfed2).
    eapply put_sent_advances in H2; [|done..]. pose proof (len_nonneg ns).
    replace (len (n :: ns) * r) with (r + len ns * r) by (rewrite len_cons; lia).
    eapply advances_app; [nia|exact H2|]. apply IH; [apply H2|done..].
Qed.

(** C29. Progress: when the file gives what it holds and lwIP has room for [r] bytes whenever it reports some as sent,
    then header and file are handed over completely once the connection is up and
    [(length of header and file) / r] reports came, whatever numbers they carry. *)
Theorem put_completes r this pcb ns rest rest' tr this' :
  fits 32 (put_fsize this) -> put_buf this = [] -> 1 <= r <= BUF_CAP -> roomy r tr ->
  fed rest (collect fread_seen tr) rest' ->
  exec (put_run this (On_connected true pcb err_t.Ok :: acks pcb ns)) tr (Done this') ->
  len (put_header (put_guid this) (put_fsize this) ++ rest) <= (1 + len ns) * r ->
  tcp_accepted tr = put_header (put_guid this) (put_fsize this) ++ rest /\ put_buf this' = [] /\ rest' = [].
Proof.
  intros Hn Hb Hr Hroom Hfed H Hlen. cbn [put_run put_step] in H. bind_step H as this1 H1. bind_step H1 as [this2 e] H2.
  destruct H1 as [-> [= ->]]. rewrite app_nil_r in *.
  apply roomy_app in Hroom as [Hroom1 Hroom2]. rewrite collect_app in Hfed. apply fed_app in Hfed as (mid & Hfed1 & Hfed2).
  eapply put_connected_advances in H2; [|done..]. pose proof (len_nonneg ns).
  eapply put_acks_advance in H; [|apply H2|done..].
  pose proof (fun h => advances_app r (len ns * r) _ _ _ _ _ _ _ _ h H2 H) as Ha.
  destruct Ha as (Hs & Hp & _); [nia|]. cbn [put_buf set_buf] in Hs, Hp.
  match type of Hs with _ = ?acc ++ ?b ++ _ => assert (len (b ++ rest') <= 0) as Hz by (rewrite Hs, !len_app in *; lia) end.
  pose proof (len_nonneg (put_buf this')). pose proof (len_nonneg rest'). rewrite len_app in Hz.
  assert (put_buf this' = []) as E1 by (apply length_zero_iff_nil; unfold len in *; lia).
  assert (rest' = []) as E2 by (apply length_zero_iff_nil; unfold len in *; lia).
  by rewrite Hs, E1, E2, !app_nil_r.
Qed.

Lemma pump_refused this pcb tr this' res :
  Forall (eq err_t.Mem) (collect write_seen tr) -> exec (pump this pcb) tr (Done (this', res)) ->
  res = Ok tt /\ tcp_accepted tr = [] /\ collect signal_seen tr = [].
Proof.
  intros Hw H. unfold pump in H. cbv zeta in H. bind_step H as this1 H1.
  rewrite collect_app in Hw. apply Forall_app in Hw as [_ Hw]. unfold tcp_accepted. rewrite !collect_app.
  match type of H1 with exec _ ?t _ => assert (collect tcp_seen t = [] /\ collect signal_seen t = []) as [-> ->] end.
  { destruct (_ >? 0); exec_steps H1; done. }
  exec_step H as sndbuf. case_decide; [by exec_steps H|]. exec_step H as e. cbn in Hw. apply Forall_cons in Hw as [<- _].
  rewrite decide_True in H by done. exec_steps H. cbn. by rewrite decide_False.
Qed.

(** When [tcp_write] refuses the first piece for want of memory, the callback succeeds, nothing is in flight
    and the task that waits is told nothing. *)
Lemma put_connected_refused this pcb tr this' e :
  fits 32 (put_fsize this) -> put_buf this = [] -> Forall (eq err_t.Mem) (collect write_seen tr) ->
  exec (put_connected this true pcb err_t.Ok) tr (Done (this', e)) ->
  e = err_t.Ok /\ tcp_accepted tr = [] /\ collect signal_seen tr = [].
Proof.
  intros Hn Hb Hw H. unfold put_connected in H. cbn [negb] in H. rewrite decide_False in H by auto.
  rewrite put_header_format, Hb, extend_from_slice_header in H by done. bind_step H as [this1 res] H1.
  rewrite collect_app in Hw. apply Forall_app in Hw as [Hw _].
  apply pump_refused in H1 as (-> & Ht & Hs); [|done]. apply flushed in H as ([= -> ->] & Ht' & Hs' & _).
  unfold tcp_accepted in *. by rewrite !collect_app, Ht, Ht', Hs, Hs'.
Qed.
End progress.

(** ** The transfer of [Put.v], to its end *)

Lemma put_completes_witness : tcp_accepted demo_sent = put_header (demo_id 3) 3 ++ lit "abc".
Proof.
  apply (put_completes (L := ref_vendor_laws) 100 demo_put 5 [100; 50] (lit "abc") [] demo_sent demo_put_end).
  - by_eval.
  - done.
  - by_eval.
  - vm_compute. split; repeat constructor; discriminate.
  - by_eval.
  - by_run_value.
  - by_eval.
Defined.
