(* ===== verification/Transfer.v ===== *)
(** * From one machine to another

    [distribute_file] of [tasks/tcp.rs], and the two ends of a transfer together: the
    head that [PutRequest] sends is the one [handle_conn] understands. *)

From S2P Require Import Prelude Prog Text Net Vendor VendorRef Data Ffi Env Lwip Pbuf Tcp Udp Fs Http Request.
From S2P Require Import Rng Messages Observe Upload Put.

Section distribute.
Context `{V : Vendor} `{SM : Serialize Message}.

(** The address and port, as [{addr}:{TCP_PORT}]. *)
Definition display_peer (addr : Ipv4Addr) : str := display_addr addr ++ lit ":" ++ display_u16 TCP_PORT.

(** The body of the loop over the address book. *)
Definition distribute_to (g : Uuid) (addr : Ipv4Addr) : io unit :=
  msg ← unwrap (format_n 128 (lit "PUT " ++ uuid_display g ++ lit " to " ++ display_peer addr));
  log_to_udp msg;;
  r ← put_file g addr TCP_PORT;
  match r with
  | Ok _ =>
      msg ← unwrap (format_n 128 (lit "FILE SENT [" ++ display_peer addr ++ lit "]"));
      log_to_udp msg
  | Err err =>
      msg ← unwrap (format_n 128 (lit "FILE FAIL [" ++ display_peer addr ++ lit "] " ++ err_t.display err));
      log_to_udp msg
  end.

(** [for (addr, _v) in addrs]. *)
Definition distribute_all (g : Uuid) (addrs : Book) : io unit :=
  for_each (fun e => distribute_to g e.1) (book_iter addrs).

(** One turn of [distribute_file]. *)
Definition distribute_step : io unit :=
  g ← rt files_receive;
  addrs ← rt addresses_lock;
  rt (addresses_unlock addrs);;
  distribute_all g addrs.
End distribute.

(** ** Distribution *)

Section distribute_facts.
Context `{V : Vendor} {L : VendorLaws V} `{SM : Serialize Message}.

Lemma display_u16_ascii n : Forall is_ascii (display_u16 n).
Proof.
  eapply Forall_impl; [by apply display_aux_digits|]. intros c Hc. apply in_range_true in Hc.
  unfold is_ascii. lia.
Qed.

Lemma display_u8_ascii n : Forall is_ascii (display_u8 n).
Proof.
  eapply Forall_impl; [by apply display_aux_digits|]. intros c Hc. apply in_range_true in Hc.
  unfold is_ascii. lia.
Qed.

Lemma display_addr_ascii a : Forall is_ascii (display_addr a).
Proof.
  pose proof display_u8_ascii. assert (is_ascii 46) by (unfold is_ascii; lia). unfold display_addr.
  repeat (apply Forall_app; split; [done|]; constructor; [done|]). done.
Qed.

Lemma display_peer_ascii a : Forall is_ascii (display_peer a).
Proof.
  unfold display_peer. apply Forall_app; split; [apply display_addr_ascii|].
  apply Forall_app; split; [by apply (bool_decide_unpack _)|apply display_u16_ascii].
Qed.

Lemma display_peer_length a : len (display_peer a) <= 20.
Proof.
  unfold display_peer. rewrite !len_app. pose proof (display_addr_length a).
  change (len (lit ":")) with 1. change (len (display_u16 TCP_PORT)) with 4. unfold len. lia.
Qed.

(** The texts of [distribute_to] fit their buffers. *)
Lemma format_put g a :
  format_n 128 (lit "PUT " ++ uuid_display g ++ lit " to " ++ display_peer a) =
    Some (lit "PUT " ++ uuid_display g ++ lit " to " ++ display_peer a).
Proof.
  apply format_n_ascii.
  - apply Forall_app; split; [by apply (bool_decide_unpack _)|].
    apply Forall_app; split; [apply uuid_display_ascii|].
    apply Forall_app; split; [by apply (bool_decide_unpack _)|apply display_peer_ascii].
  - rewrite !len_app, uuid_display_length. pose proof (display_peer_length a).
    change (len (lit "PUT ")) with 4. change (len (lit " to ")) with 4. lia.
Qed.

Lemma format_tail pre a post :
  Forall is_ascii pre -> Forall is_ascii post -> len pre + len post <= 108 ->
  format_n 128 (pre ++ display_peer a ++ post) = Some (pre ++ display_peer a ++ post).
Proof.
  intros H1 H2 Hl. apply format_n_ascii.
  - apply Forall_app; split; [done|]. apply Forall_app; split; [apply display_peer_ascii|done].
  - rewrite !len_app. pose proof (display_peer_length a). lia.
Qed.

Lemma err_display_bound e : Forall is_ascii (err_t.display e) /\ len (err_t.display e) <= 60.
Proof. destruct e; (split; [by apply (bool_decide_unpack _)|by apply (bool_decide_unpack _)]). Qed.

Lemma total_distribute_to g a : total (distribute_to g a).
Proof.
  unfold distribute_to. rewrite format_put. cbn [unwrap].
  pose proof total_log. pose proof total_put_file.
  apply total_bind; [apply total_ret|intros msg]. apply total_bind; [done|intros _].
  apply total_bind; [done|]. intros [u|e].
  - rewrite (format_tail (lit "FILE SENT [")) by by apply (bool_decide_unpack _). cbn [unwrap]. total_tac.
  - destruct (err_display_bound e) as [Ha Hl].
    rewrite (format_tail (lit "FILE FAIL [")); [cbn [unwrap]; total_tac|by apply (bool_decide_unpack _)| |].
    + apply Forall_app; split; [by apply (bool_decide_unpack _)|done].
    + rewrite len_app. change (len (lit "FILE FAIL [")) with 11. change (len (lit "] ")) with 2. lia.
Qed.

(** A turn of [distribute_file] always finishes without a panic: the messages
    it formats fit their buffers for every job, address and error. *)
Theorem distribute_step_total : total distribute_step.
Proof.
  unfold distribute_step, distribute_all. pose proof total_distribute_to. total_tac.
Qed.
End distribute_facts.

(** ** Heads made of lines *)

Fixpoint join_lines (ls : list str) : str :=
  match ls with
  | [] => []
  | [l] => l
  | l :: ls => l ++ crlf ++ join_lines ls
  end.

Definition clean_line (l : str) : Prop := l <> [] /\ (13 ∉ l) /\ (10 ∉ l) /\ Forall is_ascii l.

Lemma join_lines_cons l ls : ls <> [] -> join_lines (l :: ls) = l ++ crlf ++ join_lines ls.
Proof. by destruct ls. Qed.

Lemma join_lines_head ls rest : ls <> [] -> Forall clean_line ls -> head (join_lines ls ++ rest) <> Some 13.
Proof.
  intros Hne Hls. destruct Hls as [|l ls (Hl & H13 & _) _]; [done|].
  destruct l as [|c l]; [done|]. destruct ls; cbn; intros [= ->]; apply H13; by left.
Qed.

Lemma position_skip pat x t : starts_with (x :: t) pat = false -> position pat (x :: t) = S <$> position pat t.
Proof. intros H. cbn [position]. by rewrite H. Qed.

Lemma position_here pat post : position pat (pat ++ post) = Some 0%nat.
Proof.
  assert (starts_with (pat ++ post) pat = true) as E by (apply starts_with_true; eauto).
  destruct (pat ++ post); cbn [position]; by rewrite E.
Qed.

Lemma position_pre c pat pre post :
  c ∉ pre -> position (c :: pat) (pre ++ post) = Nat.add (length pre) <$> position (c :: pat) post.
Proof.
  induction pre as [|x pre IH]; intros Hc; [cbn [app length]; by destruct (position (c :: pat) post)|].
  apply not_elem_of_cons in Hc as [Hx Hc]. cbn [app]. rewrite position_skip.
  - rewrite IH by done. by destruct (position _ post).
  - apply not_true_iff_false. intros [r Hr]%starts_with_true. cbn in Hr. congruence.
Qed.

Lemma position_line l rest :
  13 ∉ l -> head rest <> Some 13 ->
  position (crlf ++ crlf) (l ++ crlf ++ rest) = Nat.add (length l + 2) <$> position (crlf ++ crlf) rest.
Proof.
  intros Hl Hr. change (crlf ++ crlf) with [13; 10; 13; 10]. rewrite (position_pre 13) by done. unfold crlf. cbn [app].
  rewrite position_skip, position_skip.
  - destruct (position _ rest); cbn; [|done]. f_equal. lia.
  - apply not_true_iff_false. by intros [r Hr']%starts_with_true.
  - apply not_true_iff_false. intros [r Hr']%starts_with_true. cbn in Hr'. injection Hr' as ->. done.
Qed.

(** The first empty line is the one after the last line. *)
Lemma position_head ls body :
  ls <> [] -> Forall clean_line ls ->
  position (crlf ++ crlf) (join_lines ls ++ crlf ++ crlf ++ body) = Some (length (join_lines ls)).
Proof.
  intros Hne Hls. induction Hls as [|l ls (Hl & H13 & _) Hls IH]; [done|].
  destruct ls as [|l' ls].
  - cbn [join_lines]. change (crlf ++ crlf) with [13; 10; 13; 10]. rewrite (position_pre 13) by done.
    rewrite (position_here [13; 10; 13; 10] body : position _ (crlf ++ crlf ++ body) = _). cbn. f_equal. lia.
  - rewrite join_lines_cons, <- !app_assoc by done. rewrite position_line; [|done|by apply join_lines_head].
    rewrite IH by done. cbn [fmap option_fmap option_map]. f_equal. rewrite !length_app. cbn. lia.
Qed.

Lemma lines_join ls : Forall clean_line ls -> lines (join_lines ls) = ls.
Proof.
  induction 1 as [|l ls (Hl & _ & H10 & _) Hls IH]; [done|]. destruct ls as [|l' ls].
  - by apply lines_last.
  - rewrite join_lines_cons by done. unfold crlf. by rewrite lines_crlf, IH.
Qed.

Lemma join_lines_ascii ls : Forall clean_line ls -> Forall is_ascii (join_lines ls).
Proof.
  induction 1 as [|l ls (_ & _ & _ & Ha) Hls IH]; [constructor|]. destruct ls as [|l' ls]; [done|].
  rewrite join_lines_cons by done. apply Forall_app; split; [done|].
  apply Forall_app; split; [by apply (bool_decide_unpack _)|done].
Qed.

Section parse.
Context `{V : Vendor}.

(** A request written line by line is split where it should. *)
Lemma split_request_lines sl ls body :
  clean_line sl -> ls <> [] -> Forall clean_line ls ->
  split_request (sl ++ crlf ++ join_lines ls ++ crlf ++ crlf ++ body) = Some (sl, join_lines ls, body).
Proof.
  intros (_ & H13 & _ & Ha) Hne Hls. unfold split_request. cbv zeta.
  assert (position crlf (sl ++ crlf ++ join_lines ls ++ crlf ++ crlf ++ body) = Some (length sl)) as ->.
  { change crlf with [13; 10] at 1. rewrite (position_pre 13), position_here by done. cbn. f_equal. lia. }
  rewrite drop_app_length, take_app_length.
  change (drop 2 (crlf ++ ?r)) with r. rewrite position_head by done.
  rewrite drop_app_length, take_app_length. change (drop 4 (crlf ++ crlf ++ body)) with body.
  rewrite from_utf8_ascii by done. by rewrite from_utf8_ascii by by apply join_lines_ascii.
Qed.
End parse.

(** ** The head of a transfer *)

Section head.
Context `{V : Vendor} {L : VendorLaws V}.

Definition put_lines (g : Uuid) (n : Z) : list str :=
  [lit "guid: " ++ uuid_display g; lit "Content-Type: text/x.gcode";
   lit "Content-Length: " ++ display_u32 n; lit "Connection: close"].

Lemma put_header_lines g n :
  put_header g n = lit "PUT / HTTP/1.1" ++ crlf ++ join_lines (put_lines g n) ++ crlf ++ crlf.
Proof.
  unfold put_header.
  change (http "PUT / HTTP/1.1@guid: ") with (lit "PUT / HTTP/1.1" ++ crlf ++ lit "guid: ").
  change (http "@Content-Type: text/x.gcode@Content-Length: ") with
    (crlf ++ lit "Content-Type: text/x.gcode" ++ crlf ++ lit "Content-Length: ").
  change (http "@Connection: close@@") with (crlf ++ lit "Connection: close" ++ crlf ++ crlf).
  unfold put_lines. cbn [join_lines]. by rewrite <- !app_assoc.
Qed.

Lemma clean_line_intro pre s :
  bool_decide (pre <> [] /\ (13 ∉ pre) /\ (10 ∉ pre) /\ Forall is_ascii pre) = true ->
  Forall (fun c => 32 < c < 128) s -> clean_line (pre ++ s).
Proof.
  intros (Hp & H13 & H10 & Ha)%bool_decide_eq_true Hs. rewrite Forall_forall in Hs.
  assert (forall c, c ∈ s -> 32 < c < 128) as Hs' by exact Hs.
  split; [by destruct pre|]. rewrite !not_elem_of_app, Forall_app. split_and!; try done.
  - intros Hin. apply Hs' in Hin. lia.
  - intros Hin. apply Hs' in Hin. lia.
  - apply Forall_forall. intros c Hin. apply Hs' in Hin. unfold is_ascii. lia.
Qed.

Lemma uuid_display_graph g : Forall (fun c => 32 < c < 128) (uuid_display g).
Proof.
  eapply Forall_impl; [apply uuid_display_chars|]. intros c. unfold is_uuid_char.
  rewrite !orb_true_iff, !in_range_true, Z.eqb_eq. lia.
Qed.

Lemma display_u32_graph n : Forall (fun c => 32 < c < 128) (display_u32 n).
Proof.
  eapply Forall_impl; [by apply display_aux_digits|]. intros c Hc. apply in_range_true in Hc. lia.
Qed.

Lemma put_lines_clean g n : Forall clean_line (put_lines g n).
Proof.
  assert (forall l : str, bool_decide (l <> [] /\ (13 ∉ l) /\ (10 ∉ l) /\ Forall is_ascii l) = true -> clean_line l)
    as Hc by (intros l H; by apply bool_decide_eq_true in H).
  unfold put_lines. apply Forall_cons; split; [by apply clean_line_intro, uuid_display_graph|].
  apply Forall_cons; split; [by apply Hc|].
  apply Forall_cons; split; [by apply clean_line_intro, display_u32_graph|].
  apply Forall_cons; split; [by apply Hc|constructor].
Qed.

(** The head that [PutRequest] writes is read back by the server. *)
Lemma check_put_header_put g n :
  fits 32 n -> check_put_header (join_lines (put_lines g n)) = mkPutInfo (Some n) (Some g) true.
Proof.
  intros Hn. unfold check_put_header. rewrite lines_join by apply put_lines_clean.
  assert (forall key v info, (58 ∉ key) -> Forall (fun c => is_whitespace c = false) v ->
    Forall (fun c => is_whitespace c = false) key ->
    put_header_line info (key ++ 58 :: 32 :: v) =
      (if eq_ignore_ascii_case key (lit "content-length") then mkPutInfo (parse_usize v) (info_guid info) (is_gcode info)
       else if eq_ignore_ascii_case key (lit "content-type") && bool_decide (v = lit "text/x.gcode") then
         mkPutInfo (size info) (info_guid info) true
       else if eq_ignore_ascii_case key (lit "guid") then mkPutInfo (size info) (uuid_parse v) (is_gcode info)
       else info)) as Hline.
  { intros key v info Hk Hv Hkey. unfold put_header_line. rewrite split_once_app by done.
    rewrite trim_space, !trim_clean by done. done. }
  unfold put_lines. cbn [foldl].
  change (lit "guid: " ++ uuid_display g) with (lit "guid" ++ 58 :: 32 :: uuid_display g).
  change (lit "Content-Type: text/x.gcode") with (lit "Content-Type" ++ 58 :: 32 :: lit "text/x.gcode").
  change (lit "Content-Length: " ++ display_u32 n) with (lit "Content-Length" ++ 58 :: 32 :: display_u32 n).
  change (lit "Connection: close") with (lit "Connection" ++ 58 :: 32 :: lit "close").
  assert (Forall (fun c => is_whitespace c = false) (uuid_display g)).
  { eapply Forall_impl; [apply uuid_display_chars|]. apply uuid_char_not_whitespace. }
  assert (Forall (fun c => is_whitespace c = false) (display_u32 n)).
  { eapply Forall_impl; [by apply display_aux_digits|]. apply is_digit_not_whitespace. }
  rewrite !Hline by first [done | by apply (bool_decide_unpack _)].
  repeat match goal with |- context [eq_ignore_ascii_case ?a ?b] =>
    let r := eval vm_compute in (eq_ignore_ascii_case a b) in change (eq_ignore_ascii_case a b) with r end.
  cbn [andb size info_guid is_gcode]. rewrite bool_decide_true by done. cbn [size info_guid is_gcode].
  by rewrite uuid_parse_display, parse_display_u32.
Qed.

Lemma split_request_put g n body :
  split_request (put_header g n ++ body) = Some (lit "PUT / HTTP/1.1", join_lines (put_lines g n), body).
Proof.
  rewrite put_header_lines, <- !app_assoc. apply split_request_lines; [|done|apply put_lines_clean].
  by apply (bool_decide_unpack _).
Qed.
End head.

(** ** Both ends *)

Section ends.
Context `{V : Vendor} {L : VendorLaws V} `{SM : Serialize Message}.

Lemma check_start_line_put : check_start_line (lit "PUT / HTTP/1.1") = Ok Put.
Proof. reflexivity. Qed.

Lemma judge_put g n p d0 cs :
  chunks (into_iter p) = (put_header g n ++ d0) :: cs ->
  judge p = Store (join_lines (put_lines g n)) (d0 ++ concat cs).
Proof. intros Hc. unfold judge. by rewrite Hc, split_request_put, check_start_line_put. Qed.

Lemma put_outcome_put g n d evs rs :
  0 < n <= 1000000 -> put_outcome (join_lines (put_lines g n)) d evs rs -> put_log g n d evs rs.
Proof.
  intros Hn H. assert (fits 32 n) as Hf by (unfold fits; change (2 ^ 32) with 4294967296; lia).
  unfold put_outcome in H. rewrite check_put_header_put in H by done.
  assert (put_rejected (mkPutInfo (Some n) (Some g) true) = false) as Hr.
  { unfold put_rejected. cbn. rewrite Z.gtb_ltb. apply orb_false_iff. split; [apply Z.eqb_neq|apply Z.ltb_ge]; lia. }
  cbv zeta in H. rewrite Hr in H. destruct H as (g' & n' & [= <-] & Hg & Hl). by rewrite (Hg g eq_refl) in Hl.
Qed.

(** The request that one machine sends is understood by the other: when the
    first buffer holds the whole head, the upload is accepted under the same job id
    and with the announced size, and what follows the head is what is stored. *)
Theorem transfer_accepted fuel tr p ps g n d0 cs :
  0 < n <= 1000000 -> exec (handle_conn fuel) tr (Done tt) ->
  packets tr = p :: ps -> chunks (into_iter p) = (put_header g n ++ d0) :: cs ->
  put_log g n (d0 ++ concat cs ++ concat (packet_data <$> ps)) (fs_calls tr) (replies tr).
Proof.
  intros Hn (evs & qs & rs & (<- & <- & <-) & H)%handle_conn_run Hp Hc.
  rewrite Hp in H. cbn [conn_log] in H. rewrite (judge_put _ _ _ _ _ Hc), <- app_assoc in H.
  by apply put_outcome_put.
Qed.

(** The calls of a receiver that gives the file its final name. *)
Lemma transfer_run fuel rtr p ps d0 cs this pcb es str this' :
  0 < put_fsize this <= 1000000 -> put_buf this = [] -> Forall later es -> put_answers_ok str ->
  exec (put_run this (On_connected true pcb err_t.Ok :: es)) str (Done this') ->
  exec (handle_conn fuel) rtr (Done tt) -> packets rtr = p :: ps ->
  chunks (into_iter p) = (put_header (put_guid this) (put_fsize this) ++ d0) :: cs ->
  concat (packet_data <$> packets rtr) `prefix_of` tcp_accepted str ->
  FRename (path_of (put_guid this) true) (path_of (put_guid this) false) ∈ fs_calls rtr ->
  exists q ws, q <> null /\
    fs_calls rtr = FOpen (path_of (put_guid this) true) (lit "wb") q :: ws ++
      [FClose q; FRename (path_of (put_guid this) true) (path_of (put_guid this) false)] /\
    writes_to q (ztake (put_fsize this) (file_read str)) ws /\
    put_fsize this <= len (file_read str).
Proof.
  intros Hn Hb He Hok Hs Hr Hp Hc [k Hk] Hin.
  set (g := put_guid this) in *. set (n := put_fsize this) in *.
  assert (fits 32 n) as Hf by (unfold fits; change (2 ^ 32) with 4294967296; lia).
  apply put_run_stream in Hs as [Hs _]; [|done..]. fold g n in Hs.
  destruct (handle_conn_run _ _ Hr) as (evs & qs & rs & (<- & <- & <-) & H).
  rewrite Hp in H, Hk. cbn [conn_log] in H. rewrite (judge_put _ _ _ _ _ Hc), <- app_assoc in H.
  apply put_outcome_put in H; [|done]. set (d := d0 ++ concat cs ++ concat (packet_data <$> ps)) in *.
  assert (exists t, file_read str = d ++ t) as [t Ht].
  { cbn [fmap list_fmap concat] in Hk. unfold packet_data in Hk at 1. rewrite Hc in Hk.
    cbn [concat] in Hk. rewrite Hk, <- !app_assoc in Hs. apply app_inv_head in Hs.
    exists (k ++ put_buf this'). unfold d. by rewrite Hs, <- !app_assoc. }
  clear Hk Hs. pose proof (len_nonneg t).
  revert Hin. destruct H as [rs' Ha|q ws rs' Hq Hw Hl Ha|q ws Hq Hw Hl]; intros Hin.
  - exfalso. by apply list_elem_of_singleton in Hin.
  - exists q, ws. split; [done|]. split; [done|]. rewrite Ht, len_app. split; [|lia].
    rewrite ztake_rest by lia. replace (saturating_sub n (len d)) with 0 by (unfold saturating_sub; lia).
    by rewrite ztake_0, app_nil_r.
  - exfalso. destruct Hw as (ds & -> & _). apply elem_of_cons in Hin as [?|Hin]; [done|].
    apply elem_of_app in Hin as [(? & ? & _)%list_elem_of_fmap|Hin]; [done|].
    rewrite !elem_of_cons in Hin. destruct Hin as [?|[?|?%elem_of_nil]]; done.
Qed.
(** C2. A job file travels whole: if TCP delivers, in order, some prefix of what the
    sender handed over, and the receiver gives the file its final name, then
    what the receiver wrote is the first [put_fsize] bytes the sender read from
    its file, exactly, however either end was scheduled. *)
Theorem transfer_end_to_end fuel rtr p ps d0 cs this pcb es str this' :
  0 < put_fsize this <= 1000000 -> put_buf this = [] -> Forall later es -> put_answers_ok str ->
  exec (put_run this (On_connected true pcb err_t.Ok :: es)) str (Done this') ->
  exec (handle_conn fuel) rtr (Done tt) -> packets rtr = p :: ps ->
  chunks (into_iter p) = (put_header (put_guid this) (put_fsize this) ++ d0) :: cs ->
  concat (packet_data <$> packets rtr) `prefix_of` tcp_accepted str ->
  FRename (path_of (put_guid this) true) (path_of (put_guid this) false) ∈ fs_calls rtr ->
  exists q ws,
    fs_calls rtr = FOpen (path_of (put_guid this) true) (lit "wb") q :: ws ++
      [FClose q; FRename (path_of (put_guid this) true) (path_of (put_guid this) false)] /\
    writes_to q (ztake (put_fsize this) (file_read str)) ws /\
    put_fsize this <= len (file_read str).
Proof.
  intros. edestruct (transfer_run fuel rtr p ps d0 cs this pcb es str this') as (q & ws & _ & H'); eauto.
Qed.
End ends.

(** ** Concrete transfers *)

Lemma distribute_step_total_witness : total (distribute_step (V := ref_vendor)).
Proof. exact distribute_step_total. Defined.

Definition demo_arrival : PacketBuffer := demo_packet [put_header (demo_id 3) 3 ++ lit "a"; lit "bc"].

Definition demo_receiver : @demo ref_vendor := demo_start [Some demo_arrival].

Definition demo_received : trace := run_trace demo_h (handle_conn 5) demo_receiver.

Lemma transfer_accepted_witness :
  exec (handle_conn 5) demo_received (Done tt) /\
  put_log (demo_id 3) 3 (lit "a" ++ concat [lit "bc"] ++ concat (packet_data <$> []))
    (fs_calls demo_received) (replies demo_received).
Proof.
  assert (E : exec (handle_conn 5) demo_received (Done tt)) by by_run.
  split; [exact E|].
  apply (transfer_accepted 5 demo_received demo_arrival [] (demo_id 3) 3 (lit "a") [lit "bc"]).
  - lia.
  - exact E.
  - vm_compute. reflexivity.
  - vm_compute. reflexivity.
Defined.

Lemma transfer_end_to_end_witness :
  exists q ws,
    fs_calls demo_received = FOpen (path_of (demo_id 3) true) (lit "wb") q :: ws ++
      [FClose q; FRename (path_of (demo_id 3) true) (path_of (demo_id 3) false)] /\
    writes_to q (ztake 3 (file_read demo_sent)) ws /\ 3 <= len (file_read demo_sent).
Proof.
  apply (transfer_end_to_end 5 demo_received demo_arrival [] (lit "a") [lit "bc"] demo_put 5
           [On_sent true 5 100; On_sent true 5 50] demo_sent demo_put_end).
  - cbn. lia.
  - done.
  - repeat constructor.
  - by_eval.
  - by_run_value.
  - by_run.
  - vm_compute. reflexivity.
  - vm_compute. reflexivity.
  - exists []. vm_compute. reflexivity.
  - vm_compute. repeat first [apply list_elem_of_here | apply list_elem_of_further].
Defined.
