(* ===== verification/Stick.v ===== *)
(** * What an upload leaves on the USB stick

    The file-system calls of a connection and what FatFs answered them, against a stick that keeps
    whole files: a refused request changes nothing, a complete upload is a new file under
    its final name, an aborted one leaves no trace.  With the sender's side, a job file is replicated
    byte for byte.  Only the connection's task and the start-up write to the stick. *)

From stdpp Require Import gmap.
From S2P Require Import Prelude Prog Text Net Vendor VendorRef Data Ffi Env Lwip Pbuf Tcp Udp Fs Http Request Rng.
From S2P Require Import Messages Observe Upload Put Transfer.

(** The content of the file at a path, the path a handle writes to, and the effect of a call that
    answered the number.  [FOpen] carries its own answer, [FClose] has none. *)
Class FileStore (S : Type) : Type := {
  content : S -> bytes -> option bytes;
  opened : S -> ptr -> option bytes;
  store : fs_event -> Z -> S -> S
}.

(** What the C library documents: opening for writing empties the file, [fwrite] answers how much of
    the data it appended, and [unlink] and [rename] take place when they answer 0 and not otherwise. *)
Class FileStoreLaws (S : Type) `{FileStore S} : Prop := {
  store_open path p a s :
    p <> null ->
    opened (store (FOpen path (lit "wb") p) a s) p = Some path /\
    forall q, content (store (FOpen path (lit "wb") p) a s) q = if decide (q = path) then Some [] else content s q;
  store_no_open path mode a s : forall q, content (store (FOpen path mode null) a s) q = content s q;
  store_write d p path a s :
    0 <= a <= len d -> opened s p = Some path ->
    opened (store (FWrite d p) a s) p = Some path /\
    forall q, content (store (FWrite d p) a s) q =
      if decide (q = path) then (fun old => old ++ ztake a d) <$> content s q else content s q;
  store_close p a s : forall q, content (store (FClose p) a s) q = content s q;
  store_unlink path a s :
    forall q, content (store (FUnlink path) a s) q = if decide (a = 0 /\ q = path) then None else content s q;
  store_rename path path' a s :
    forall q, content (store (FRename path path') a s) q =
      if decide (a <> 0) then content s q
      else if decide (q = path') then content s path
      else if decide (q = path) then None else content s q
}.

(** ** A stick as a finite map *)

Record stick : Type := mkStick { stick_files : gmap bytes bytes; stick_handles : gmap Z bytes }.

Definition stick_rename (path path' : bytes) (m : gmap bytes bytes) : gmap bytes bytes :=
  match m !! path with
  | Some d => <[path' := d]> (base.delete path m)
  | None => base.delete path' (base.delete path m)
  end.

Definition stick_store (e : fs_event) (a : Z) (s : stick) : stick :=
  let '(mkStick m h) := s in
  match e with
  | FOpen path _ p => if decide (p = null) then s else mkStick (<[path := []]> m) (<[p := path]> h)
  | FWrite d p =>
      match h !! p with
      | Some path => mkStick (alter (fun old => old ++ ztake a d) path m) h
      | None => s
      end
  | FClose p => mkStick m (base.delete p h)
  | FUnlink path => if decide (a = 0) then mkStick (base.delete path m) h else s
  | FRename path path' => if decide (a = 0) then mkStick (stick_rename path path' m) h else s
  end.

#[export] Instance stick_filestore : FileStore stick := {
  content s path := stick_files s !! path;
  opened s p := stick_handles s !! p;
  store := stick_store
}.

Lemma stick_rename_lookup path path' m q :
  stick_rename path path' m !! q =
    if decide (q = path') then m !! path else if decide (q = path) then None else m !! q.
Proof.
  unfold stick_rename. destruct (m !! path) as [d|] eqn:E; repeat case_decide; subst; by simplify_map_eq.
Qed.

#[export] Instance stick_filestore_laws : FileStoreLaws stick.
Proof.
  split; intros; destruct s as [m h]; cbn in *; rewrite ?decide_False by done; cbn.
  - split; [by simplify_map_eq|intros q]. case_decide; subst; by simplify_map_eq.
  - done.
  - simplify_map_eq. split; [done|intros q]. case_decide; subst; by simplify_map_eq.
  - done.
  - repeat case_decide; cbn; destruct_and?; subst; try done; simplify_map_eq; tauto.
  - repeat case_decide; cbn; rewrite ?stick_rename_lookup; repeat case_decide; done.
Qed.

(** ** What the connection's calls do to it *)

Section stick.
Context `{V : Vendor} {L : VendorLaws V} `{SM : Serialize Message} {S : Type} {FS : FileStore S} {FL : FileStoreLaws S}.

(** The calls that change files, with their answers. *)
Definition fs_done_seen (X : Type) (c : call X) : X -> list (fs_event * Z) :=
  match c in call X return X -> list (fs_event * Z) with
  | CFs c =>
      match c in fs_call X return X -> list (fs_event * Z) with
      | fopen path flags => fun f => [(FOpen path flags f, 0)]
      | fwrite data f => fun n => [(FWrite data f, n)]
      | fclose f => fun _ => [(FClose f, 0)]
      | unlink path => fun r => [(FUnlink path, r)]
      | rename p q => fun r => [(FRename p q, r)]
      | _ => fun _ => []
      end
  | _ => fun _ => []
  end.

Definition fs_done : trace -> list (fs_event * Z) := collect fs_done_seen.

Definition store_all (evs : list (fs_event * Z)) (s : S) : S := foldl (fun s e => store e.1 e.2 s) s evs.

(** The stick after a run. *)
Definition stick_after (tr : trace) (s : S) : S := store_all (fs_done tr) s.

(** The answer of a call that did all it was asked for, except that a [rename] answers [r], and a run
    in which all calls answered so. *)
Definition full_answer (r : Z) (e : fs_event) : Z :=
  match e with FWrite d _ => len d | FRename _ _ => r | _ => 0 end.

Definition fs_answers (r : Z) (tr : trace) : Prop := Forall (fun e => e.2 = full_answer r e.1) (fs_done tr).

Definition in_full (r : Z) (evs : list fs_event) : list (fs_event * Z) := (fun e => (e, full_answer r e)) <$> evs.

Lemma fs_done_fst tr : (fs_done tr).*1 = fs_calls tr.
Proof.
  induction tr as [|[X c x] tr IH]; [done|]. unfold fs_done, fs_calls in *. cbn. rewrite fmap_app, IH. f_equal.
  destruct c as [?|? c| | | |]; try done. by destruct c.
Qed.

Lemma fs_done_full r tr : fs_answers r tr -> fs_done tr = in_full r (fs_calls tr).
Proof.
  unfold fs_answers, in_full. rewrite <- fs_done_fst. intros Hok.
  induction Hok as [|[e a] evs He _ IH]; [done|]. cbn in *. by rewrite <- IH, He.
Qed.

Lemma store_all_app evs1 evs2 s : store_all (evs1 ++ evs2) s = store_all evs2 (store_all evs1 s).
Proof. apply foldl_app. Qed.

(** Writes to an open handle append their data to its file. *)
Lemma store_writes r p path d ws s :
  writes_to p d ws -> opened s p = Some path ->
  forall q, content (store_all (in_full r ws) s) q =
    if decide (q = path) then (fun old => old ++ d) <$> content s q else content s q.
Proof.
  intros (ds & -> & <-). revert s. induction ds as [|d' ds IH]; intros s Ho q; cbn.
  - case_decide; [|done]. destruct (content s q); cbn; by rewrite ?app_nil_r.
  - pose proof (len_nonneg d'). destruct (store_write d' p path (len d') s) as [Ho' Hc]; [lia|done|].
    specialize (IH _ Ho' q). unfold store_all, in_full in IH. rewrite IH, Hc, ztake_ge by done.
    case_decide; [|done]. destruct (content s q); cbn; by rewrite ?app_assoc.
Qed.

(** The file after it was opened for writing and [d] written. *)
Lemma store_body r p path d ws s :
  p <> null -> writes_to p d ws ->
  forall q, content (store_all (in_full r (FOpen path (lit "wb") p :: ws)) s) q =
    if decide (q = path) then Some d else content s q.
Proof.
  intros Hp Hw q. destruct (store_open path p 0 s Hp) as [Ho Hc].
  change (in_full r (_ :: ws)) with ((FOpen path (lit "wb") p, 0) :: in_full r ws).
  change (store_all (?e :: ?l) s) with (store_all l (store e.1 e.2 s)). cbn [fst snd].
  rewrite (store_writes r p path d) by done. rewrite !Hc. by case_decide.
Qed.

(** The stick before and after an accepted upload of [n] bytes, of which [d] arrived, whose partial file
    was opened as [h]: untouched if it could not be created ([h] is null); otherwise the outcome depends
    on whether all [n] bytes arrived and on what [rename] answered. *)
Definition upload_result (r : Z) (h : ptr) (g : Uuid) (n : Z) (d : bytes) (s s' : S) : Prop :=
  if decide (h = null) then forall q, content s' q = content s q else
  (forall q, q <> path_of g true -> q <> path_of g false -> content s' q = content s q) /\
  content s' (path_of g true) = (if decide (n <= len d /\ r <> 0) then Some (ztake n d) else None) /\
  content s' (path_of g false) =
    if decide (n <= len d /\ r = 0) then Some (ztake n d) else content s (path_of g false).

Lemma partial_final g : path_of g true <> path_of g false.
Proof. intros E. by apply path_of_inj in E as [_ ?]. Qed.

Lemma put_log_result r g n d evs rs s :
  put_log g n d evs rs ->
  exists h calls, evs = FOpen (path_of g true) (lit "wb") h :: calls /\
    upload_result r h g n d s (store_all (in_full r evs) s).
Proof.
  pose proof (partial_final g) as Hne. intros H.
  destruct H as [rs _|p ws rs Hp Hw Hl _|p ws Hp Hw Hl]; eexists _, _; (split; [reflexivity|]); unfold upload_result.
  { rewrite decide_True by done. apply store_no_open. }
  all: rewrite decide_False by done.
  all: rewrite app_comm_cons; unfold in_full; rewrite fmap_app, store_all_app; fold (in_full r (FOpen (path_of g true) (lit "wb") p :: ws)).
  all: set (s1 := store_all (in_full r _) s); pose proof (store_body r p (path_of g true) _ ws s Hp Hw) as H1; fold s1 in H1.
  all: cbn [fmap list_fmap full_answer store_all foldl fst snd].
  - split_and!; intros; rewrite store_rename, !store_close, !H1; repeat case_decide; destruct_and?; try done; tauto.
  - rewrite !(decide_False (P := n <= len d /\ _)) by lia.
    split_and!; intros; rewrite store_unlink, !store_close, !H1; repeat case_decide; destruct_and?; try done; tauto.
Qed.

(** What a connection that took the packets [ps] and made the calls [evs] leaves on the stick. *)
Definition conn_result (r : Z) (ps : list PacketBuffer) (evs : list fs_event) (s s' : S) : Prop :=
  match ps with
  | [] => forall q, content s' q = content s q
  | p :: ps =>
      match judge p with
      | Refuse _ => forall q, content s' q = content s q
      | Store headers d =>
          let info := check_put_header headers in
          if put_rejected info then forall q, content s' q = content s q
          else exists g n h calls, size info = Some n /\ (forall g', info_guid info = Some g' -> g = g') /\
                 evs = FOpen (path_of g true) (lit "wb") h :: calls /\
                 upload_result r h g n (d ++ concat (packet_data <$> ps)) s s'
      end
  end.

Lemma conn_log_result r ps evs rs s : conn_log ps evs rs -> conn_result r ps evs s (store_all (in_full r evs) s).
Proof.
  intros H. destruct ps as [|p ps]; cbn in *; [by destruct H as [-> _]|].
  destruct (judge p) as [r'|headers d]; [by destruct H as (_ & -> & _)|]. unfold put_outcome in H. cbv zeta in *.
  destruct (put_rejected _); [by destruct H as [-> _]|]. destruct H as (g & n & Hs & Hg & H).
  apply (put_log_result r _ _ _ _ _ s) in H as (h & calls & He & H). by exists g, n, h, calls.
Qed.

(** C3. What is on the stick after a connection follows from the request, the handle [fopen] answered and
    the answer of [rename], if every write is taken in full and every unlink succeeds: a refused request or
    a GET changes no file; for an accepted upload the handler's first call opens the partial file, and when
    that answers null nothing changes; otherwise an upload whose body arrives whole leaves exactly its
    announced bytes under its final name and no partial file, or, when [rename] fails because the name is
    taken, leaves them in the partial file for good and the final name as it was; one that is cut off leaves
    no partial file and the final name as it was; no other file is touched. *)
Theorem upload_stored fuel tr r s :
  exec (handle_conn fuel) tr (Done tt) -> fs_answers r tr -> conn_result r (packets tr) (fs_calls tr) s (stick_after tr s).
Proof.
  intros (evs & ps & rs & (<- & <- & <-) & H)%handle_conn_run Hok. unfold stick_after.
  rewrite (fs_done_full r) by done. by eapply conn_log_result.
Qed.

(** C6. A job is replicated byte for byte: when the sender's file is the announced size and was read from
    its start, TCP delivered in order some prefix of what was sent, every call on the receiver's stick
    succeeded in full (in particular the stick was not full: [fwrite]'s answer is not looked at), and the
    receiver renamed the file, then the receiver's stick holds the same content under the same name as the
    sender's. *)
Theorem job_replicated {S' : Type} `{FileStore S'} fuel rtr p ps d0 cs this pcb es str this' (ss : S') data s :
  content ss (path_of (put_guid this) false) = Some data -> len data = put_fsize this ->
  file_read str `prefix_of` data ->
  0 < put_fsize this <= 1000000 -> put_buf this = [] -> Forall later es -> put_answers_ok str ->
  exec (put_run this (On_connected true pcb err_t.Ok :: es)) str (Done this') ->
  exec (handle_conn fuel) rtr (Done tt) -> fs_answers 0 rtr -> packets rtr = p :: ps ->
  chunks (into_iter p) = (put_header (put_guid this) (put_fsize this) ++ d0) :: cs ->
  concat (packet_data <$> packets rtr) `prefix_of` tcp_accepted str ->
  FRename (path_of (put_guid this) true) (path_of (put_guid this) false) ∈ fs_calls rtr ->
  content (stick_after rtr s) (path_of (put_guid this) false) = content ss (path_of (put_guid this) false).
Proof.
  intros Hd Hl Hpre Hn Hb He Ha Hs Hr Hok Hp Hc Hk Hin.
  destruct (transfer_run fuel rtr p ps d0 cs this pcb es str this') as (q & ws & Hq & Hcs & Hw & Hlen); [done..|].
  unfold stick_after. rewrite (fs_done_full 0), Hcs, Hd by done. rewrite app_comm_cons. unfold in_full.
  rewrite fmap_app, store_all_app. fold (in_full 0 (FOpen (path_of (put_guid this) true) (lit "wb") q :: ws)).
  pose proof (store_body 0 q (path_of (put_guid this) true) _ ws s Hq Hw) as H1.
  cbn [fmap list_fmap full_answer store_all foldl fst snd] in *.
  rewrite store_rename, !store_close, !H1. rewrite decide_False by lia. rewrite !decide_True by done.
  destruct Hpre as [t ->]. rewrite len_app in Hl. pose proof (len_nonneg t).
  rewrite ztake_ge by lia. assert (len t = 0) as Ht by lia. destruct t; [by rewrite app_nil_r|].
  rewrite len_cons in Ht. pose proof (len_nonneg t). lia.
Qed.
End stick.

(** ** Concrete sticks *)

(** The receiver's stick holds another job, and the sender's this one. *)
Definition demo_usb : stick := mkStick {[ path_of (demo_id 9) false := lit "old" ]} ∅.

Definition demo_sender_stick : stick := mkStick {[ path_of (demo_id 3) false := lit "abc" ]} ∅.

Lemma upload_stored_witness :
  fs_answers 0 demo_received /\ conn_result 0 (packets demo_received) (fs_calls demo_received) demo_usb (stick_after demo_received demo_usb) /\
  stick_files (stick_after demo_received demo_usb) !! path_of (demo_id 3) false = Some (lit "abc").
Proof.
  assert (E : fs_answers 0 demo_received) by (vm_compute; repeat constructor).
  split; [exact E|]. split; [|vm_compute; reflexivity].
  apply (upload_stored 5 demo_received 0 demo_usb); [by_run|exact E].
Defined.

(** The same upload when the name is taken. *)
Definition taken_h : handler call (@demo ref_vendor) := fun X c s =>
  match c in call X return X * demo with
  | CFs c =>
      match c in fs_call X return X * demo with
      | rename _ _ => (-1, s)
      | c => demo_h _ (CFs c) s
      end
  | c => demo_h _ c s
  end.

Definition demo_taken : trace := run_trace taken_h (handle_conn 5) demo_receiver.

Definition demo_taken_stick : stick := mkStick {[ path_of (demo_id 3) false := lit "old" ]} ∅.

Lemma demo_taken_result :
  replies demo_taken = [OK] /\
  stick_files (stick_after demo_taken demo_taken_stick) !! path_of (demo_id 3) false = Some (lit "old") /\
  stick_files (stick_after demo_taken demo_taken_stick) !! path_of (demo_id 3) true = Some (lit "abc").
Proof. vm_compute. done. Qed.

Lemma job_replicated_witness :
  content (stick_after demo_received demo_usb) (path_of (demo_id 3) false) =
    content demo_sender_stick (path_of (demo_id 3) false).
Proof.
  apply (job_replicated 5 demo_received demo_arrival [] (lit "a") [lit "bc"] demo_put 5
           [On_sent true 5 100; On_sent true 5 50] demo_sent demo_put_end demo_sender_stick (lit "abc") demo_usb).
  - vm_compute. reflexivity.
  - reflexivity.
  - exists []. vm_compute. reflexivity.
  - cbn. lia.
  - done.
  - repeat constructor.
  - by_eval.
  - by_run_value.
  - by_run.
  - vm_compute. repeat constructor.
  - vm_compute. reflexivity.
  - vm_compute. reflexivity.
  - exists []. vm_compute. reflexivity.
  - vm_compute. repeat first [apply list_elem_of_here | apply list_elem_of_further].
Defined.
