(* ===== verification/Marlin.v ===== *)
(** * The printer ([marlin.rs]) and the firmware log ([log.rs]) *)

From S2P Require Import Prelude Prog Text Net Vendor VendorRef Data Ffi Env Fs Observe.

Module Severity.
Inductive t : Type := Debug | Info | Warning | Error | Critical.
Definition code (s : t) : Z :=
  match s with Debug => 1 | Info => 2 | Warning => 3 | Error => 4 | Critical => 5 end.
End Severity.

Section marlin.
Context `{V : Vendor}.

(** [log]: a message of at most 63 bytes, or a fixed text. *)
Definition log (severity : Severity.t) (args : str) : io unit :=
  match format_n 64 (args ++ [0]) with
  | Some msg => log_c (derusting_log_event (Severity.code severity) msg)
  | None => log_c (derusting_log_event (Severity.code severity) (lit "Message too long..." ++ [0]))
  end.

(** The macros [log_info!] and the like, with their arguments already formatted. *)
Definition log_info (args : str) : io unit := log Severity.Info args.
Definition log_debug (args : str) : io unit := log Severity.Debug args.
Definition log_error (args : str) : io unit := log Severity.Error args.
Definition log_warning (args : str) : io unit := log Severity.Warning args.
Definition log_critical (args : str) : io unit := log Severity.Critical args.

Inductive marlin_error : Type := MarlinReturnedFalse | ExtendFailed (e : ExtendError) | Busy.

Definition is_idle : io bool := marlin derusting_is_idle.

Definition is_ready : io bool := marlin ready_flag_load.

Definition set_offline : io unit :=
  marlin (ready_flag_store false);;
  marlin derusting_update_ui.

(** [print]: the file is selected with [M32]; [M111 S8] before it makes the print
    a dry run. *)
Definition print (path : bytes) (dry : bool) : io (result unit marlin_error) :=
  idle ← is_idle;
  if idle : bool then
    match cstring_extend 64 [] (lit "M32 ") with
    | Err e => Ret (Err (ExtendFailed e))
    | Ok cmd =>
        match cstring_extend 64 cmd path with
        | Err e => Ret (Err (ExtendFailed e))
        | Ok cmd =>
            r ← (if dry then
                   res ← marlin (derusting_gcode_cmd (lit "M111 S8"));
                   if negb res then Ret (Err MarlinReturnedFalse) else Ret (Ok tt)
                 else Ret (Ok tt));
            match r with
            | Err e => Ret (Err e)
            | Ok _ =>
                res ← marlin (derusting_gcode_cmd cmd);
                if res : bool then Ret (Ok tt) else Ret (Err MarlinReturnedFalse)
            end
        end
    end
  else Ret (Err Busy).

Definition home : io (result unit marlin_error) :=
  idle ← is_idle;
  if idle : bool then
    res ← marlin (derusting_gcode_cmd (lit "G28"));
    if res : bool then Ret (Ok tt) else Ret (Err MarlinReturnedFalse)
  else Ret (Err Busy).
End marlin.

Section facts.
Context `{V : Vendor} {L : VendorLaws V}.

(** The command line of a job always fits. *)
Lemma print_command g :
  cstring_extend 64 (lit "M32 ") (path_of g false) = Ok (lit "M32 " ++ path_of g false).
Proof.
  apply cstring_extend_fits; [apply path_of_no_nul|]. rewrite path_of_length. by apply (bool_decide_unpack _).
Qed.

Lemma print_prefix : cstring_extend 64 [] (lit "M32 ") = Ok (lit "M32 ").
Proof. apply cstring_extend_fits; by apply (bool_decide_unpack _). Qed.

(** What Marlin is sent for a job, with its answers, and the result. *)
Definition print_log (g : Uuid) (r : result unit marlin_error) (cmds : list (bytes * bool)) : Prop :=
  (r = Err Busy /\ cmds = []) \/
  (r = Err MarlinReturnedFalse /\ cmds = [(lit "M111 S8", false)]) \/
  (r = Err MarlinReturnedFalse /\ cmds = [(lit "M111 S8", true); (lit "M32 " ++ path_of g false, false)]) \/
  (r = Ok tt /\ cmds = [(lit "M111 S8", true); (lit "M32 " ++ path_of g false, true)]).

Lemma print_run g tr r : exec (print (path_of g false) true) tr (Done r) -> print_log g r (gcode tr).
Proof.
  unfold print. rewrite print_prefix, print_command. intros H.
  exec_step H as []; [|exec_steps H; by left].
  exec_step H as []; [|exec_steps H; right; by left].
  exec_step H as []; exec_steps H; right; right; [by right|by left].
Qed.

(** Printing a job sends Marlin the dry-run command and then, only if that was
    taken, the command that selects the job's file; it succeeds exactly when Marlin took
    both, and a busy printer is sent nothing. The command line of a job always
    fits its buffer. *)
Theorem print_sends g tr r : exec (print (path_of g false) true) tr (Done r) -> print_log g r (gcode tr).
Proof. apply print_run. Qed.

(** The text handed to the firmware's logger is always terminated by a nul and
    at most 64 bytes long, whatever is logged. *)
Theorem log_terminated sev args tr :
  exec (log sev args) tr (Done tt) ->
  exists msg, tr = [Ev (CLog (derusting_log_event (Severity.code sev) (msg ++ [0]))) tt] /\
    len (msg ++ [0]) <= 64 /\ (msg = as_bytes args \/ 63 < len (as_bytes args)).
Proof.
  unfold log. intros H. assert (as_bytes (args ++ [0]) = as_bytes args ++ [0]) as E by by rewrite as_bytes_app.
  destruct (decide (len (as_bytes (args ++ [0])) <= 64)) as [Hl|Hl].
  - rewrite format_n_fits in H by done. destruct H as ([] & tr' & -> & -> & _).
    exists (as_bytes args). rewrite <- E. auto.
  - rewrite format_n_full in H by lia. destruct H as ([] & tr' & -> & -> & _).
    exists (lit "Message too long..."). split; [done|]. split; [by apply (bool_decide_unpack _)|].
    right. rewrite E, len_app in Hl. change (len [0]) with 1 in Hl. lia.
Qed.
End facts.

(** ** Concrete runs *)

Definition demo_print : io (result unit (@marlin_error ref_vendor)) := print (path_of (demo_id 3) false) true.

Lemma print_sends_witness :
  let tr := run_trace demo_h demo_print (demo_start []) in
  let r := value_of (Err Busy) (run demo_h demo_print (demo_start [])).1 in
  exec demo_print tr (Done r) /\ print_log (demo_id 3) r (gcode tr).
Proof.
  cbv zeta. set (r := value_of _ _).
  assert (E : exec demo_print (run_trace demo_h demo_print (demo_start [])) (Done r)) by by_run_value.
  split; [exact E|]. exact (print_sends (demo_id 3) _ _ E).
Defined.

Lemma log_terminated_witness :
  exists msg, run_trace demo_h (log (V := ref_vendor) Severity.Info (lit "hello")) (demo_start []) =
      [Ev (CLog (derusting_log_event (Severity.code Severity.Info) (msg ++ [0]))) tt] /\
    len (msg ++ [0]) <= 64 /\ (msg = as_bytes (lit "hello") \/ 63 < len (as_bytes (lit "hello"))).
Proof. apply (log_terminated Severity.Info (lit "hello")). by_run. Defined.
