(* ===== verification/Receiver.v ===== *)
(** * Receiving messages ([udp_receiver], [heartbeat] and
    [address_book_lifetime_check] of [tasks/udp.rs])

    [udp_receiver_step] is one turn of the receiver's loop, with the history of
    idempotency keys threaded through. *)

From S2P Require Import Prelude Prog Net Vendor VendorRef Data Ffi Env Lwip Pbuf Tcp Udp Rng Messages Observe Wire.
From S2P Require Import Upload Owns.

Section receiver.
Context `{V : Vendor} `{DM : Deserialize Message}.

(** What a message changes in the shared state, after the address book. *)
Definition handle_payload (p : Payload) : io unit :=
  match p with
  | Payload_NewJob data =>
      guard ← rt jobs_lock;
      let guard :=
        match guard with
        | Some st =>
            Some (mkLedgerState (mkLedger (owner (ledger st)) (jobs_insert (guid data) (jobs (ledger st))).1)
                                (received st))
        | None => None
        end in
      rt (jobs_unlock guard)
  | Payload_Ledger sent_ledger =>
      l ← rt jobs_lock;
      st ← ledger_state_new sent_ledger;
      rt (jobs_unlock (Some st))
  | _ => Ret tt
  end.

(** The part that follows a successful decoding. *)
Definition handle_message (history : History) (addr : Ipv4Addr) (msg : Message) : io History :=
  if history_contains (idempotency msg) history then Ret history
  else
    let history := history_write (idempotency msg) history in
    book ← rt addresses_lock;
    now ← rt instant_now;
    rt (addresses_unlock (book_insert addr now book).1);;
    handle_payload (msg_payload msg);;
    Ret history.

(** The iterator is a temporary of the [let] statement that takes its first
    slice: it is dropped, and the packet freed, before the slice is decoded. *)
Definition udp_receiver_step (history : History) : io History :=
  r ← udp_socket_receive;
  let '(addr, packet) := (r : Ipv4Addr * PacketBuffer) in
  let '(next, it) := iter_next (into_iter packet) in
  drop_iter it;;
  match next with
  | None => Ret history
  | Some slice =>
      msg ← rt (slice_read slice);
      match from_bytes msg with
      | None => Ret history
      | Some msg => handle_message history addr msg
      end
  end.

Definition heartbeat_step `{SM : Serialize Message} : io unit :=
  my_ipaddr;;
  send_heartbeat;;
  rt (timer_after_secs 2).

(** The entries the closure of [retain] keeps: a tick is a millisecond. *)
Fixpoint fresh_entries (es : list (Ipv4Addr * Z)) : io (list Ipv4Addr) :=
  match es with
  | [] => Ret []
  | (k, instant) :: es =>
      e ← rt (instant_elapsed instant);
      ks ← fresh_entries es;
      Ret (if e / 1000 <? 20 then k :: ks else ks)
  end.

Definition lifetime_check_step : io unit :=
  rt (timer_after_secs 10);;
  book ← rt addresses_lock;
  kept ← fresh_entries (book_iter book);
  rt (addresses_unlock (book_retain (fun k _ => bool_decide (k ∈ kept)) book)).
End receiver.

(** ** The shared state as the tasks see it *)

(** What a trace writes back to the two mutexes. *)
Section writes.
Context `{V : Vendor}.

Definition book_seen (X : Type) (c : call X) : X -> list Book :=
  match c in call X return X -> list Book with
  | CRt c =>
      match c in rt_call X return X -> list Book with
      | addresses_unlock b => fun _ => [b]
      | _ => fun _ => []
      end
  | _ => fun _ => []
  end.

Definition jobs_seen (X : Type) (c : call X) : X -> list (option LedgerState) :=
  match c in call X return X -> list (option LedgerState) with
  | CRt c =>
      match c in rt_call X return X -> list (option LedgerState) with
      | jobs_unlock l => fun _ => [l]
      | _ => fun _ => []
      end
  | _ => fun _ => []
  end.

Definition books_written : trace -> list Book := collect book_seen.
Definition jobs_written : trace -> list (option LedgerState) := collect jobs_seen.

(** What it found in them, and the times it read. *)
Definition book_found_seen (X : Type) (c : call X) : X -> list Book :=
  match c in call X return X -> list Book with
  | CRt c =>
      match c in rt_call X return X -> list Book with
      | addresses_lock => fun b => [b]
      | _ => fun _ => []
      end
  | _ => fun _ => []
  end.

Definition jobs_found_seen (X : Type) (c : call X) : X -> list (option LedgerState) :=
  match c in call X return X -> list (option LedgerState) with
  | CRt c =>
      match c in rt_call X return X -> list (option LedgerState) with
      | jobs_lock => fun l => [l]
      | _ => fun _ => []
      end
  | _ => fun _ => []
  end.

Definition clock_seen (X : Type) (c : call X) : X -> list Z :=
  match c in call X return X -> list Z with
  | CRt c =>
      match c in rt_call X return X -> list Z with
      | instant_now => fun t => [t]
      | _ => fun _ => []
      end
  | _ => fun _ => []
  end.

Definition books_found : trace -> list Book := collect book_found_seen.
Definition jobs_found : trace -> list (option LedgerState) := collect jobs_found_seen.
Definition clock_read : trace -> list Z := collect clock_seen.

(** The pbufs released and the freed memory read, in order. *)
Definition memory_seen (X : Type) (c : call X) : X -> list (ptr + bytes) :=
  match c in call X return X -> list (ptr + bytes) with
  | CLwip c =>
      match c in lwip_call X return X -> list (ptr + bytes) with
      | pbuf_free p => fun _ => [inl p]
      | _ => fun _ => []
      end
  | CRt c =>
      match c in rt_call X return X -> list (ptr + bytes) with
      | slice_read s => fun _ => [inr s]
      | _ => fun _ => []
      end
  | _ => fun _ => []
  end.
Definition memory_trace : trace -> list (ptr + bytes) := collect memory_seen.
End writes.

(** Calls on the two mutexes, and observations of nothing else. *)
Definition on_mutex `{V : Vendor} {X} (c : call X) : bool :=
  match c with
  | CRt (addresses_lock | addresses_unlock _ | jobs_lock | jobs_unlock _) => true
  | _ => false
  end.

Class MutexOnly `{V : Vendor} {B} (f : forall X, call X -> X -> list B) : Prop :=
  mutex_only : forall X (c : call X) x, on_mutex c = false -> f X c x = [].

(** Calls on what the tasks and lwIP's thread share: the mutexes, the printer and the channels between them; and
    observations of nothing else. *)
Definition on_shared `{V : Vendor} {X} (c : call X) : bool :=
  match c with
  | CMarlin _ => true
  | CRt (listener_try_send _ | listener_receive | listener_try_receive | udp_try_send _ _ | udp_receive) => true
  | CRt (files_try_send _ | files_receive) => true
  | c => on_mutex c
  end.

Class Aloof `{V : Vendor} {B} (f : forall X, call X -> X -> list B) : Prop :=
  aloof : forall X (c : call X) x, on_shared c = false -> f X c x = [].

(** Calls that wait for something another party may never do: for a connection, a datagram, a finished upload, the next
    packet or the outcome of a request.  (Timers end, and lwIP's thread runs what it is asked to.)  Observations that may see them too. *)
Definition awaits `{V : Vendor} {X} (c : call X) : bool :=
  match c with
  | CRt (listener_receive | udp_receive | files_receive | conn_receive | put_wait) => true
  | _ => false
  end.

Class Locking `{V : Vendor} {B} (f : forall X, call X -> X -> list B) : Prop :=
  locking : forall X (c : call X) x, on_mutex c = false -> awaits c = false -> f X c x = [].

(** Calls by which a task puts what it was handed in its place: a connection's pcb in its cell, an upload under its name. *)
Definition stows `{V : Vendor} {X} (c : call X) : bool :=
  match c with
  | CRt (pcb_store Obj_TcpConnection _) | CFs (rename _ _) => true
  | _ => false
  end.

Class Handing `{V : Vendor} {B} (f : forall X, call X -> X -> list B) : Prop :=
  handing : forall X (c : call X) x, on_shared c = false -> stows c = false -> f X c x = [].

Class Apart `{V : Vendor} {B} (f : forall X, call X -> X -> list B) : Prop :=
  apart : forall X (c : call X) x, on_shared c = false -> awaits c = false -> stows c = false -> f X c x = [].

Section mutex_only.
Context `{V : Vendor}.

#[export] Instance mutex_aloof {B} (f : forall X, call X -> X -> list B) : MutexOnly f -> Aloof f.
Proof. intros Hf X c x Hc. apply Hf. destruct c as [X c|X c|X c|X c|X c|X c]; try done; by destruct c. Qed.

#[export] Instance mutex_locking {B} (f : forall X, call X -> X -> list B) : MutexOnly f -> Locking f.
Proof. intros Hf X c x Hc _. by apply Hf. Qed.

#[export] Instance aloof_apart {B} (f : forall X, call X -> X -> list B) : Aloof f -> Apart f.
Proof. intros Hf X c x Hc _ _. by apply Hf. Qed.

#[export] Instance aloof_handing {B} (f : forall X, call X -> X -> list B) : Aloof f -> Handing f.
Proof. intros Hf X c x Hc _. by apply Hf. Qed.

#[export] Instance handing_apart {B} (f : forall X, call X -> X -> list B) : Handing f -> Apart f.
Proof. intros Hf X c x Hc _ Hs. by apply Hf. Qed.

#[export] Instance locking_apart {B} (f : forall X, call X -> X -> list B) : Locking f -> Apart f.
Proof. intros Hf X c x Hc Ha _. apply Hf; [|done]. destruct c as [X c|X c|X c|X c|X c|X c]; try done; by destruct c. Qed.

#[export] Instance gcode_aloof : Aloof gcode_seen.
Proof. intros X c x. by destruct c. Qed.

#[export] Instance book_mutex : MutexOnly book_seen.
Proof. intros X c x. destruct c as [X c|X c|X c|X c|X c|X c]; try done; by destruct c. Qed.
#[export] Instance jobs_mutex : MutexOnly jobs_seen.
Proof. intros X c x. destruct c as [X c|X c|X c|X c|X c|X c]; try done; by destruct c. Qed.
#[export] Instance book_found_mutex : MutexOnly book_found_seen.
Proof. intros X c x. destruct c as [X c|X c|X c|X c|X c|X c]; try done; by destruct c. Qed.
#[export] Instance jobs_found_mutex : MutexOnly jobs_found_seen.
Proof. intros X c x. destruct c as [X c|X c|X c|X c|X c|X c]; try done; by destruct c. Qed.
End mutex_only.

Ltac unseen ::= intros; first [reflexivity | apply foreground; reflexivity | apply mutex_only; reflexivity | apply aloof; reflexivity
    | apply locking; reflexivity | apply handing; reflexivity | apply apart; reflexivity].

Section facts.
Context `{V : Vendor} {L : VendorLaws V} `{DM : Deserialize Message}.

Lemma no_memory_message h a m : no_emit memory_seen (handle_message h a m).
Proof. unfold handle_message, handle_payload, ledger_state_new. cbv zeta. no_emit_tac. Qed.

(** The receiver decodes every message out of memory that it has already given
    back to lwIP: the packet is freed, and only then is its payload read. *)
Theorem udp_receiver_reads_freed h tr h' :
  exec (udp_receiver_step h) tr (Done h') ->
  exists a p tr', tr = Ev (CRt udp_receive) (a, p) :: tr' /\
    memory_trace tr =
      inl (packet_addr p) :: match current p with b :: _ => [inr (pbuf_slice b)] | [] => [] end.
Proof.
  intros H. destruct H as ([a p] & tr' & -> & H). exists a, p, tr'. split; [done|].
  change (memory_trace tr' =
    inl (packet_addr p) :: match current p with b :: _ => [inr (pbuf_slice b)] | [] => [] end).
  assert (Hd : forall t x, exec (drop_packet p) t (Done x) -> memory_trace t = [inl (packet_addr p)]).
  { intros t x Ht. unfold drop_packet in Ht. bind_step Ht as r H2. destruct Ht as [-> _]. rewrite app_nil_r.
    exec_step H2 as []; exec_steps H2; done. }
  change (exec (let '(next, it) := iter_next (into_iter p) in
    drop_iter it;;
    match next with
    | None => Ret h
    | Some slice =>
        msg ← rt (slice_read slice);
        match from_bytes msg with None => Ret h | Some msg => handle_message h a msg end
    end) tr' (Done h')) in H.
  unfold iter_next, into_iter in H. cbn [it_current it_inner] in H.
  destruct (current p) as [|b rest]; bind_step H as [] H1; unfold memory_trace; rewrite collect_app;
    apply Hd in H1; unfold memory_trace in H1; rewrite H1; [by destruct H as [-> _]|].
  exec_step H as s. cbn. do 2 f_equal.
  destruct (from_bytes s) as [m|]; [|by exec_steps H]. exact (no_memory_message _ _ _ _ _ H).
Qed.
End facts.

(** ** What a message does *)

Section effect.
Context `{V : Vendor} {L : VendorLaws V}.

(** The address book and the ledger a payload leaves, from the ledger it found. *)
Definition payload_effect (p : Payload) (found : option LedgerState) (now : Z) : list (option LedgerState) :=
  match p with
  | Payload_NewJob data =>
      [(fun st => mkLedgerState (mkLedger (owner (ledger st)) (jobs_insert (guid data) (jobs (ledger st))).1)
                                (received st)) <$> found]
  | Payload_Ledger l => [Some (mkLedgerState l now)]
  | _ => []
  end.

(** A run that handles a payload after finding [found] in the ledger at time [now]. *)
Definition payload_log (p : Payload) (found : option LedgerState) (now : Z) (tr : trace) : Prop :=
  jobs_found tr = match p with Payload_NewJob _ | Payload_Ledger _ => [found] | _ => [] end /\
  clock_read tr = match p with Payload_Ledger _ => [now] | _ => [] end /\
  books_found tr = [] /\ books_written tr = [] /\ jobs_written tr = payload_effect p found now.

Lemma handle_payload_run p tr :
  exec (handle_payload p) tr (Done tt) -> exists found now, payload_log p found now tr.
Proof.
  intros H. destruct p as [hb|data|l|s]; cbn [handle_payload] in H.
  - exec_steps H. by exists None, 0.
  - exec_step H as found. exec_steps H. exists found, 0. by destruct found.
  - exec_step H as found. exec_step H as now. exec_steps H. by exists found, now.
  - exec_steps H. by exists None, 0.
Qed.

(** A run that acts on a message. *)
Definition message_log (a : Ipv4Addr) (p : Payload) (tr : trace) : Prop :=
  exists book t found now,
    books_found tr = [book] /\ books_written tr = [(book_insert a t book).1] /\
    jobs_found tr = match p with Payload_NewJob _ | Payload_Ledger _ => [found] | _ => [] end /\
    clock_read tr = t :: match p with Payload_Ledger _ => [now] | _ => [] end /\
    jobs_written tr = payload_effect p found now.

Lemma handle_message_run h a m tr h' :
  exec (handle_message h a m) tr (Done h') ->
  (history_contains (idempotency m) h = true /\ h' = h /\ books_written tr = [] /\ jobs_written tr = []) \/
  (history_contains (idempotency m) h = false /\ h' = history_write (idempotency m) h /\
   message_log a (msg_payload m) tr).
Proof.
  intros H. unfold handle_message in H. destruct (history_contains _ h) eqn:Eh; [exec_steps H; by left|].
  right. split; [done|]. cbv zeta in H. exec_step H as book. exec_step H as t. exec_step H as u.
  apply exec_bind_done in H as ([] & tr1 & tr2 & -> & H1 & [-> [= ->]]).
  apply handle_payload_run in H1 as (found & now & Hjf & Hc & Hbf & Hb & Hj). rewrite app_nil_r.
  split; [done|]. exists book, t, found, now.
  unfold books_found, books_written, jobs_found, clock_read, jobs_written in *. cbn. by rewrite Hjf, Hc, Hbf, Hb, Hj.
Qed.

(** Messages handled one after the other. *)
Fixpoint handle_messages (h : History) (ms : list (Ipv4Addr * Message)) : io History :=
  match ms with
  | [] => Ret h
  | (a, m) :: ms => h ← handle_message h a m; handle_messages h ms
  end.

(** [u] is in the history with at most [k] keys after it. *)
Definition recent (u : Uuid) (k : nat) (h : History) : Prop :=
  exists l1 l2, history_iter h = l1 ++ u :: l2 /\ (length l2 <= k)%nat.

Lemma recent_written u h : recent u 0 (history_write u h).
Proof.
  unfold recent. rewrite history_write_spec. eexists _, []. split; [reflexivity|]. cbn. lia.
Qed.

Lemma recent_mono u k k' h : (k <= k')%nat -> recent u k h -> recent u k' h.
Proof. intros Hk (l1 & l2 & E & Hl). exists l1, l2. split; [done|lia]. Qed.

Lemma recent_write u w k h : (k < 23)%nat -> recent u k h -> recent u (S k) (history_write w h).
Proof.
  intros Hk (l1 & l2 & E & Hl). unfold recent. rewrite history_write_spec, E.
  unfold len, HISTORY_ENTRIES. rewrite length_app. cbn [length].
  destruct (Z.eqb_spec (Z.of_nat (length l1 + S (length l2))) 24) as [H24|_].
  - destruct l1 as [|x l1]; [cbn in H24; lia|]. exists l1, (l2 ++ [w]).
    change (drop 1 ((x :: l1) ++ u :: l2)) with (l1 ++ u :: l2). split; [by rewrite <- app_assoc|]. rewrite length_app. cbn. lia.
  - exists l1, (l2 ++ [w]). split; [by rewrite <- app_assoc|]. rewrite length_app. cbn. lia.
Qed.

Lemma recent_contains u k h : recent u k h -> history_contains u h = true.
Proof.
  intros (l1 & l2 & E & _). rewrite history_contains_spec, bool_decide_eq_true, E.
  apply elem_of_app. right. by left.
Qed.

Lemma recent_messages u k h ms tr h' :
  (k + length ms <= 23)%nat -> recent u k h -> exec (handle_messages h ms) tr (Done h') ->
  recent u (k + length ms) h'.
Proof.
  revert k h tr. induction ms as [|[a m] ms IH]; intros k h tr Hk Hr H; cbn [handle_messages length] in *.
  - exec_steps H. by rewrite Nat.add_0_r.
  - bind_step H as h1 H1. rewrite <- Nat.add_succ_comm. eapply IH; [lia| |exact H].
    apply handle_message_run in H1 as [(_ & -> & _)|(_ & -> & _)].
    + by eapply recent_mono; [|exact Hr]; lia.
    + apply recent_write; [lia|done].
Qed.

(** C31. A message acts once. After a message with a new key was handled, the copies
    of it that [Message::send] repeats, or that the network duplicates, change neither the
    address book nor the ledger nor the history, as long as at most 23 other
    messages were handled in between. *)
Theorem repeats_ignored h a m tr1 h1 ms tr2 h2 a' m' tr3 h3 :
  history_contains (idempotency m) h = false -> exec (handle_message h a m) tr1 (Done h1) ->
  (length ms <= 23)%nat -> exec (handle_messages h1 ms) tr2 (Done h2) ->
  idempotency m' = idempotency m -> exec (handle_message h2 a' m') tr3 (Done h3) ->
  h3 = h2 /\ books_written tr3 = [] /\ jobs_written tr3 = [].
Proof.
  intros Hn H1 Hl H2 Hid H3. apply handle_message_run in H1 as [[? _]|(_ & -> & _)]; [congruence|].
  eapply (recent_messages _ 0) in H2; [|done|apply recent_written].
  apply recent_contains in H2. rewrite <- Hid in H2.
  apply handle_message_run in H3 as [(_ & -> & Hb & Hj)|[? _]]; [done|congruence].
Qed.

(** A new message makes its sender known, stamped with the time it was handled,
    when the address book has room or knows the sender already; the other entries stay as they
    are. A job announcement then adds the job to the ledger this machine holds,
    if any, and a ledger replaces the one held, owner included. *)
Theorem message_effect h a m tr h' :
  history_contains (idempotency m) h = false -> exec (handle_message h a m) tr (Done h') ->
  exists book book' t found now,
    books_found tr = [book] /\ books_written tr = [book'] /\
    jobs_found tr = match msg_payload m with Payload_NewJob _ | Payload_Ledger _ => [found] | _ => [] end /\
    clock_read tr = t :: match msg_payload m with Payload_Ledger _ => [now] | _ => [] end /\
    jobs_written tr = payload_effect (msg_payload m) found now /\
    (a ∈ book_keys book \/ len (book_iter book) < ADDRESS_BOOK_ENTRIES ->
     forall k v, (k, v) ∈ book_iter book' <-> k = a /\ v = t \/ k <> a /\ (k, v) ∈ book_iter book) /\
    (a ∉ book_keys book -> len (book_iter book) = ADDRESS_BOOK_ENTRIES ->
     forall k v, (k, v) ∈ book_iter book' <-> (k, v) ∈ book_iter book).
Proof.
  intros Hn H. apply handle_message_run in H as [[? _]|(_ & _ & book & t & found & now & Hbf & Hb & Hjf & Hc & Hj)];
    [congruence|].
  exists book, (book_insert a t book).1, t, found, now. do 5 (split; [done|]). split.
  - intros Hroom. by destruct (book_insert_room a t book Hroom) as (b' & old & -> & ?).
  - intros Ha Hf. by destruct (book_insert_full a t book Ha Hf) as (b' & -> & ?).
Qed.
End effect.

(** ** Pruning the address book *)

Section prune.
Context `{V : Vendor} {L : VendorLaws V}.

(** The elapsed times of a trace, as the function [E] of the instant. *)
Fixpoint elapsed_by (E : Z -> Z) (tr : trace) : Prop :=
  match tr with
  | [] => True
  | @Ev _ X c x :: tr =>
      match c in call X return X -> Prop with
      | CRt c =>
          match c in rt_call X return X -> Prop with
          | instant_elapsed t => fun e => e = E t
          | _ => fun _ => True
          end
      | _ => fun _ => True
      end x /\ elapsed_by E tr
  end.

Lemma elapsed_by_app E tr1 tr2 : elapsed_by E (tr1 ++ tr2) <-> elapsed_by E tr1 /\ elapsed_by E tr2.
Proof. induction tr1 as [|[X c x] tr1 IH]; cbn; [tauto|]. rewrite IH. tauto. Qed.

Lemma fresh_entries_run E es tr ks :
  elapsed_by E tr -> exec (fresh_entries es) tr (Done ks) ->
  ks = (filter (fun e => E e.2 / 1000 < 20) es).*1 /\ books_found tr = [] /\ books_written tr = [].
Proof.
  revert tr ks. induction es as [|[k t] es IH]; intros tr ks HE H; cbn [fresh_entries] in H.
  - by exec_steps H.
  - bind_step H as e H1. destruct H1 as (e' & ? & -> & -> & [= ->]).
    bind_step H as ks' H2. destruct H as [-> [= ->]]. rewrite app_nil_r in *.
    apply elapsed_by_app in HE as [[He _] HE]. apply IH in H2 as (-> & Hf & Hw); [|done].
    rewrite filter_cons. cbn [snd]. rewrite <- He.
    split; [|unfold books_found, books_written in *; by rewrite !collect_app, Hf, Hw].
    case_decide; destruct (Z.ltb_spec (e' / 1000) 20); first [lia | done].
Qed.

(** The periodic clean-up keeps exactly the machines heard of during the last
    twenty seconds, with their time stamps. *)
Theorem lifetime_check_prunes E tr :
  elapsed_by E tr -> exec lifetime_check_step tr (Done tt) ->
  exists b b', books_found tr = [b] /\ books_written tr = [b'] /\
    forall k t, (k, t) ∈ book_iter b' <-> (k, t) ∈ book_iter b /\ E t < 20000.
Proof.
  intros HE H. unfold lifetime_check_step in H. exec_step H as u. exec_step H as b.
  apply exec_bind_done in H as (ks & tr1 & tr2 & -> & H1 & H2).
  cbn in HE. destruct HE as (_ & _ & HE). apply elapsed_by_app in HE as [HE _].
  apply (fresh_entries_run E) in H1 as (-> & Hf & Hw); [|done]. exec_steps H2.
  eexists b, _. unfold books_found, books_written in *. cbn. rewrite !collect_app, Hf, Hw.
  do 2 (split; [done|]). intros k t. rewrite book_retain_spec, bool_decide_eq_true.
  assert (Hlt : forall x, E x / 1000 < 20 <-> E x < 20000).
  { intros z. pose proof (Z.div_lt_upper_bound (E z) 1000 20). pose proof (Z.mul_div_le (E z) 1000).
    pose proof (Z.mod_pos_bound (E z) 1000). pose proof (Z.div_mod (E z) 1000). lia. }
  split; intros [Hin H]; (split; [done|]).
  - apply list_elem_of_fmap in H as ([k' t'] & -> & [Ht Hin']%list_elem_of_filter).
    pose proof (book_stamp b k' t' t Hin' Hin) as ->.
    by apply Hlt.
  - apply list_elem_of_fmap. exists (k, t). split; [done|]. apply list_elem_of_filter.
    split; [by apply Hlt|done].
Qed.
End prune.

(** ** Ownership, locking and termination *)

Section safety.
Context `{V : Vendor} `{DM : Deserialize Message}.

Lemma total_handle_message h a m : total (handle_message h a m).
Proof. unfold handle_message, handle_payload, ledger_state_new. cbv zeta. total_tac. Qed.

Lemma total_receiver h : total (udp_receiver_step h).
Proof.
  pose proof total_handle_message. unfold udp_receiver_step, udp_socket_receive, drop_iter.
  apply total_bind; [total_tac|intros [a p]]. destruct (iter_next _). total_tac.
Qed.

Lemma balanced_receiver h : balanced (udp_receiver_step h).
Proof.
  unfold udp_receiver_step, udp_socket_receive.
  eapply (owes_bind _ _ (fun m => [packet_addr m.2])).
  { apply owes_call. intros m. eexists. split; [done|]. by apply owes_ret. }
  intros [a p]. rewrite iter_next_chunks. cbn [snd].
  destruct (chunks (into_iter p)) as [|c cs];
    (eapply (owes_bind _ _ (fun _ => [])); [apply owes_drop|intros _]); [by apply owes_ret|].
  apply balanced_bind; [unfold balanced; owes_tac|intros s].
  destruct (from_bytes s) as [m|]; [|by apply owes_ret].
  unfold handle_message, handle_payload, ledger_state_new. cbv zeta. owes_tac.
Qed.

Lemma locked_receiver h : locked Unlocked (udp_receiver_step h) Unlocked.
Proof.
  unfold udp_receiver_step, udp_socket_receive, handle_message, handle_payload, ledger_state_new, drop_iter.
  cbv zeta. eapply locked_bind; [locked_tac|intros [a p]]. destruct (iter_next _). locked_tac.
Qed.

(** Whatever arrives over UDP, a turn of the receiver ends without a panic,
    frees the packet it took exactly once, and keeps to lwIP's locking rules. *)
Theorem udp_receiver_safe h :
  total (udp_receiver_step h) /\ balanced (udp_receiver_step h) /\
  locked Unlocked (udp_receiver_step h) Unlocked.
Proof. split; [apply total_receiver|]. split; [apply balanced_receiver|apply locked_receiver]. Qed.
End safety.

(** ** Concrete messages *)

Definition demo_message (n : Z) : @Message ref_vendor :=
  mkMessage (demo_id n) (Payload_NewJob (mkNewJob (demo_id (n + 100)))).

Definition demo_ledger (owner : Ipv4Addr) (js : list Z) : @LedgerState ref_vendor :=
  mkLedgerState (mkLedger owner (foldr (fun n s => (jobs_insert (demo_id n) s).1) jobs_new js)) 900.

(** Another machine is known, a ledger is held and a datagram is waiting. *)
Definition demo_peer (udp : list (Ipv4Addr * PacketBuffer)) : @demo ref_vendor :=
  mkDemo [] udp [] 5 7 (to_be (to_bits (demo_addr 5))) (book_insert (demo_addr 7) 500 book_new).1
    (Some (demo_ledger (demo_addr 5) [4])) 1000.

Definition demo_turn : io (@History ref_vendor) := udp_receiver_step history_new.

Lemma udp_receiver_reads_freed_witness :
  let tr := run_trace demo_h demo_turn (demo_peer [(demo_addr 7, demo_packet [demo_encode (demo_message 1)])]) in
  exists a p tr', tr = Ev (CRt udp_receive) (a, p) :: tr' /\
    memory_trace tr = inl (packet_addr p) :: match current p with b :: _ => [inr (pbuf_slice b)] | [] => [] end.
Proof.
  apply (udp_receiver_reads_freed (history_new (Vendor := ref_vendor)) _
    (value_of history_new (run demo_h demo_turn
      (demo_peer [(demo_addr 7, demo_packet [demo_encode (demo_message 1)])])).1)).
  by_run_value.
Defined.

Definition demo_handle (h : @History ref_vendor) (n : Z) : io (@History ref_vendor) :=
  handle_message h (demo_addr 7) (demo_message n).

Definition demo_after (h : @History ref_vendor) (p : io (@History ref_vendor)) : @History ref_vendor :=
  value_of h (run demo_h p (demo_peer [])).1.

Definition demo_h1 : @History ref_vendor := demo_after history_new (demo_handle history_new 1).
Definition demo_others : list (Ipv4Addr * @Message ref_vendor) :=
  [(demo_addr 8, demo_message 2); (demo_addr 7, demo_message 1)].
Definition demo_h2 : @History ref_vendor := demo_after history_new (handle_messages demo_h1 demo_others).

Lemma repeats_ignored_witness :
  let tr := run_trace demo_h (demo_handle demo_h2 1) (demo_peer []) in
  demo_after history_new (demo_handle demo_h2 1) = demo_h2 /\ books_written tr = [] /\ jobs_written tr = [].
Proof.
  apply (repeats_ignored (L := ref_vendor_laws) history_new (demo_addr 7) (demo_message 1)
    (run_trace demo_h (demo_handle history_new 1) (demo_peer [])) demo_h1 demo_others
    (run_trace demo_h (handle_messages demo_h1 demo_others) (demo_peer [])) demo_h2 (demo_addr 7) (demo_message 1)).
  - vm_compute. reflexivity.
  - by_run_value.
  - cbn. lia.
  - by_run_value.
  - reflexivity.
  - by_run_value.
Defined.

Lemma message_effect_witness :
  exists book book' t found now,
    books_found (run_trace demo_h (demo_handle history_new 1) (demo_peer [])) = [book] /\
    books_written (run_trace demo_h (demo_handle history_new 1) (demo_peer [])) = [book'] /\
    jobs_found (run_trace demo_h (demo_handle history_new 1) (demo_peer [])) = [found] /\
    clock_read (run_trace demo_h (demo_handle history_new 1) (demo_peer [])) = [t] /\
    jobs_written (run_trace demo_h (demo_handle history_new 1) (demo_peer [])) =
      payload_effect (msg_payload (demo_message 1)) found now /\
    (demo_addr 7 ∈ book_keys book \/ len (book_iter book) < ADDRESS_BOOK_ENTRIES ->
     forall k v, (k, v) ∈ book_iter book' <->
       k = demo_addr 7 /\ v = t \/ k <> demo_addr 7 /\ (k, v) ∈ book_iter book) /\
    (demo_addr 7 ∉ book_keys book -> len (book_iter book) = ADDRESS_BOOK_ENTRIES ->
     forall k v, (k, v) ∈ book_iter book' <-> (k, v) ∈ book_iter book).
Proof.
  apply (message_effect (L := ref_vendor_laws) history_new (demo_addr 7) (demo_message 1) _ demo_h1).
  - vm_compute. reflexivity.
  - by_run_value.
Defined.

Lemma lifetime_check_prunes_witness :
  let tr := run_trace demo_h (lifetime_check_step (V := ref_vendor)) (demo_peer []) in
  exists b b', books_found tr = [b] /\ books_written tr = [b'] /\
    forall k t, (k, t) ∈ book_iter b' <-> (k, t) ∈ book_iter b /\ 1000 - t < 20000.
Proof.
  apply (lifetime_check_prunes (L := ref_vendor_laws) (fun t => 1000 - t)).
  - by_eval.
  - by_run.
Defined.
