(* ===== verification/Ledger.v ===== *)
(** * The token-ring ledger ([manage_ledger] of [tasks/udp.rs])

    The machine that owns the ledger may print one of its jobs and then passes the
    ledger on. [manage_ledger_step] is one turn of the task; its argument and
    result are [observed_ownership]. *)

From S2P Require Import Prelude Prog Text Net Vendor VendorRef Data Ffi Env Lwip Pbuf Tcp Udp Fs Rng Messages.
From S2P Require Import Observe Wire Upload Owns Marlin Receiver.

Section ledger.
Context `{V : Vendor}.

Definition set_owner (st : LedgerState) (a : Ipv4Addr) : LedgerState :=
  mkLedgerState (mkLedger a (jobs (ledger st))) (received st).

Definition set_jobs (st : LedgerState) (j : JobSet) : LedgerState :=
  mkLedgerState (mkLedger (owner (ledger st)) j) (received st).

(** The ledger has not been updated for 45 seconds. *)
Definition takeover (my_addr : Ipv4Addr) (addresses : Book) (st : LedgerState) : io LedgerState :=
  e ← rt (instant_elapsed (received st));
  if e >? 45000 then
    match addr_min (book_keys addresses) with
    | Some min_addr => if decide (min_addr = my_addr) then Ret (set_owner st my_addr) else Ret st
    | None => Ret (set_owner st my_addr)
    end
  else Ret st.

(** [jobs.iter().find_map(..)]: the first job whose file can be opened, which is
    closed again at once. *)
Fixpoint find_printable (gs : list Uuid) : io (option (Uuid * bytes)) :=
  match gs with
  | [] => Ret None
  | g :: gs =>
      path ← make_path g false;
      o ← open path mkReadBytes;
      match o with
      | Ok f => drop_file f;; Ret (Some (g, path))
      | Err _ => find_printable gs
      end
  end.

Context `{SM : Serialize Message}.

Definition print_job (st : LedgerState) : io LedgerState :=
  printable_job ← find_printable (jobs_iter (jobs (ledger st)));
  match printable_job with
  | None => Ret st
  | Some (g, path) =>
      r ← print path true;
      match r with
      | Ok _ =>
          set_offline;;
          let st := set_jobs st (jobs_remove g (jobs (ledger st))).1 in
          msg ← unwrap (format_n 64 (lit "Job Accepted: " ++ uuid_display g));
          send_log msg;;
          Ret st
      | Err _ => Ret st
      end
  end.

(** The loop over the address book that looks for the next machine: the address and
    its distance in the last octet. *)
Definition next_turn (my_addr : Ipv4Addr) (acc : Ipv4Addr * Z) (addr : Ipv4Addr) : Ipv4Addr * Z :=
  let '(next_addr, next_highest) := acc in
  let diff := saturating_sub (oct3 addr) (oct3 my_addr) in
  if (diff >? 0) && (diff <? next_highest) then (addr, diff) else (next_addr, next_highest).

(** The next owner; the book is not empty. *)
Definition next_owner (my_addr : Ipv4Addr) (keys : list Ipv4Addr) : option Ipv4Addr :=
  let '(next_addr, next_highest) := foldl (next_turn my_addr) (mkAddr 255 255 255 255, u8_max) keys in
  if (next_highest >? 0) && (next_highest <? u8_max) then Some next_addr else addr_min keys.

(** The end of a turn; the result is the ledger and [observed_ownership]. *)
Definition pass_on (my_addr : Ipv4Addr) (addresses : Book) (st : LedgerState) (observed : bool) :
    io (LedgerState * bool) :=
  own ← is_owner st;
  if (own : bool) && observed then
    if book_is_empty addresses then
      send_ledger (ledger st);;
      Ret (st, observed)
    else
      next ← unwrap (next_owner my_addr (book_keys addresses));
      let st := set_owner st next in
      send_ledger (ledger st);;
      Ret (st, false)
  else Ret (st, observed).

(** What the loop body does with a ledger. *)
Definition manage_state (my_addr : Ipv4Addr) (addresses : Book) (st : LedgerState) (observed : bool) :
    io (LedgerState * bool) :=
  st ← takeover my_addr addresses st;
  own ← is_owner st;
  if (own : bool) && negb observed then Ret (st, true)
  else
    own ← is_owner st;
    available ← (if (own : bool) && observed then
                   ready ← is_ready;
                   if ready : bool then is_idle else Ret false
                 else Ret false);
    st ← (if available : bool then print_job st else Ret st);
    pass_on my_addr addresses st observed.

(** The guards are dropped in the reverse of the order in which they were taken. *)
Definition manage_ledger_step (observed : bool) : io bool :=
  rt (timer_after_secs 5);;
  a ← my_ipaddr;
  match a with
  | None => Ret observed
  | Some my_addr =>
      addresses ← rt addresses_lock;
      jobs_guard ← rt jobs_lock;
      match jobs_guard with
      | None =>
          st ← ledger_state_new (mkLedger my_addr jobs_new);
          send_ledger (ledger st);;
          rt (jobs_unlock (Some st));;
          rt (addresses_unlock addresses);;
          Ret observed
      | Some st =>
          r ← manage_state my_addr addresses st observed;
          let '(st, observed) := (r : LedgerState * bool) in
          rt (jobs_unlock (Some st));;
          rt (addresses_unlock addresses);;
          Ret observed
      end
  end.
End ledger.

(** ** One turn of the owner *)

Section turn.
Context `{V : Vendor} {L : VendorLaws V} `{SM : Serialize Message}.

(** The machine's address is [a] whenever it is asked for. *)
Fixpoint address_is (a : Ipv4Addr) (tr : trace) : Prop :=
  match tr with
  | [] => True
  | @Ev _ X c x :: tr =>
      match c in call X return X -> Prop with
      | CLwip c =>
          match c in lwip_call X return X -> Prop with
          | netif_default_is_null => fun b => b = false
          | netif_default_ip_addr => fun z => z = to_be (to_bits a)
          | _ => fun _ => True
          end
      | _ => fun _ => True
      end x /\ address_is a tr
  end.

Lemma address_is_app a tr1 tr2 : address_is a (tr1 ++ tr2) <-> address_is a tr1 /\ address_is a tr2.
Proof. induction tr1 as [|[X c x] tr1 IH]; cbn; [tauto|]. rewrite IH. tauto. Qed.

(** How long the ledger had not been updated when it was asked. *)
Definition elapsed_seen (X : Type) (c : call X) : X -> list Z :=
  match c in call X return X -> list Z with
  | CRt c =>
      match c in rt_call X return X -> list Z with
      | instant_elapsed _ => fun e => [e]
      | _ => fun _ => []
      end
  | _ => fun _ => []
  end.
Definition elapsed_read : trace -> list Z := collect elapsed_seen.

Lemma my_ipaddr_run a tr r :
  addr_wf a -> address_is a tr -> exec my_ipaddr tr (Done r) -> r = Some a.
Proof.
  intros Ha Hi H. exec_step H as b. destruct Hi as [-> Hi]. exec_step H as z. destruct Hi as [-> _].
  exec_steps H. unfold from_be, to_be. by rewrite swap_bytes32_involutive, from_to_bits by by try apply to_bits_fits.
Qed.

(** What a step shows: the commands it sends the printer, the elapsed times it reads and
    the datagrams it broadcasts. *)
Definition shows (tr : trace) (cmds : list (bytes * bool)) (es : list Z) (ds : list (Z * Z * bytes)) : Prop :=
  gcode tr = cmds /\ elapsed_read tr = es /\ datagrams tr = ds.

Definition still (tr : trace) : Prop := shows tr [] [] [].

Lemma shows_app tr1 tr2 c1 c2 e1 e2 d1 d2 :
  shows tr1 c1 e1 d1 -> shows tr2 c2 e2 d2 -> shows (tr1 ++ tr2) (c1 ++ c2) (e1 ++ e2) (d1 ++ d2).
Proof.
  intros (<- & <- & <-) (<- & <- & <-). unfold shows, gcode, elapsed_read, datagrams. by rewrite !collect_app.
Qed.

Lemma shows_still tr1 tr2 c e d : still tr1 -> shows tr2 c e d -> shows (tr1 ++ tr2) c e d.
Proof. apply (shows_app tr1 tr2 [] c [] e [] d). Qed.

Lemma still_intro {A} (p : io A) tr o :
  no_emit gcode_seen p -> no_emit elapsed_seen p -> no_emit datagram_seen p -> exec p tr o -> still tr.
Proof. intros H1 H2 H3 H. split; [exact (H1 _ _ H)|]. split; [exact (H2 _ _ H)|exact (H3 _ _ H)]. Qed.

Ltac still_tac H := eapply still_intro, H; no_emit_tac.

Lemma is_owner_run a st tr b :
  addr_wf a -> address_is a tr -> exec (is_owner st) tr (Done b) ->
  b = bool_decide (a = owner (ledger st)) /\ still tr.
Proof.
  intros Ha Hi H. split.
  - unfold is_owner in H. bind_step H as r H1. apply address_is_app in Hi as [Hi _].
    apply (my_ipaddr_run a) in H1 as ->; [|done|done]. by exec_steps H.
  - unfold is_owner, my_ipaddr in H. still_tac H.
Qed.

Lemma no_elapsed_send n m : no_emit elapsed_seen (send n m).
Proof. induction n as [|n IH]; cbn [send]; [no_emit_tac|]. unfold alloc, broadcast, drop_packet. no_emit_tac. Qed.

(** A message that is sent shows its copies. *)
Lemma shows_sent (p : io unit) tr ds :
  no_emit gcode_seen p -> no_emit elapsed_seen p -> exec p tr (Done tt) -> datagrams tr = ds -> shows tr [] [] ds.
Proof. intros H1 H2 H Hd. split; [exact (H1 _ _ H)|]. split; [exact (H2 _ _ H)|done]. Qed.

(** [ds] are copies of a message that announces the ledger [l]. *)
Definition announced (l : Ledger) (ds : list (Z * Z * bytes)) : Prop :=
  exists id, copies 3 (mkMessage id (Payload_Ledger l)) ds.

Definition accepted_text (g : Uuid) : str := lit "Job Accepted: " ++ uuid_display g.

Definition accepted (g : Uuid) (ds : list (Z * Z * bytes)) : Prop :=
  exists id, copies 2 (mkMessage id (Payload_Log (accepted_text g))) ds.

Lemma shows_send_log g tr :
  exec (send_log (accepted_text g)) tr (Done tt) -> exists ds, shows tr [] [] ds /\ accepted g ds.
Proof.
  intros H. pose proof (send_log_run _ _ H) as Ha. eexists. split; [|exact Ha].
  eapply shows_sent, eq_refl; [| |exact H]; [auto with derust typeclass_instances|].
  pose proof no_elapsed_send. unfold send_log, generate_uuid_v7. no_emit_tac.
Qed.

Lemma shows_send_ledger l tr :
  exec (send_ledger l) tr (Done tt) -> exists ds, shows tr [] [] ds /\ announced l ds.
Proof.
  intros H. pose proof (send_ledger_run _ _ H) as Ha. eexists. split; [|exact Ha].
  eapply shows_sent, eq_refl; [| |exact H]; [auto with derust typeclass_instances|].
  pose proof no_elapsed_send. unfold send_ledger, generate_uuid_v7. no_emit_tac.
Qed.

Lemma job_accepted_format g : format_n 64 (accepted_text g) = Some (accepted_text g).
Proof.
  apply format_n_ascii; [apply Forall_app; split; [by apply (bool_decide_unpack _)|apply uuid_display_ascii]|].
  unfold accepted_text. rewrite len_app, uuid_display_length. by apply (bool_decide_unpack _).
Qed.

(** What a turn does to the jobs, with the commands and the log messages it sends: at most one
    job is tried, and it leaves the ledger when Marlin took it. *)
Definition jobs_log (js : JobSet) (cmds : list (bytes * bool)) (ds : list (Z * Z * bytes)) (js' : JobSet) : Prop :=
  (cmds = [] /\ ds = [] /\ js' = js) \/
  (exists g r, g ∈ jobs_iter js /\ print_log g r cmds /\
     if is_ok r then accepted g ds /\ js' = (jobs_remove g js).1 else ds = [] /\ js' = js).

Lemma still_open path tr o : exec (open path mkReadBytes) tr o -> still tr.
Proof. unfold open. intros H. still_tac H. Qed.

Lemma still_drop_file (f : File ReadBytes) tr o : exec (drop_file f) tr o -> still tr.
Proof. unfold drop_file. intros H. still_tac H. Qed.

Lemma still_set_offline tr o : exec set_offline tr o -> still tr.
Proof. unfold set_offline. intros H. still_tac H. Qed.

Lemma find_printable_run gs tr o :
  exec (find_printable gs) tr (Done o) ->
  still tr /\ match o with Some (g, path) => g ∈ gs /\ path = path_of g false | None => True end.
Proof.
  revert tr. induction gs as [|g gs IH]; intros tr H; cbn [find_printable] in H; [by exec_steps H|].
  rewrite make_path_eq in H. bind_step H as path H1. destruct H1 as [-> [= ->]].
  bind_step H as f H2. apply still_open in H2. cbn [app]. destruct f as [f|e].
  - bind_step H as u H3. destruct H as [-> [= ->]]. apply still_drop_file in H3.
    rewrite app_nil_r. split; [by apply shows_still|]. split; [by left|done].
  - apply IH in H as [Hs Ho]. split; [by apply shows_still|]. destruct o as [[g' p']|]; [|done].
    destruct Ho as [Hin ->]. split; [by right|done].
Qed.

Lemma print_shows g tr r : exec (print (path_of g false) true) tr (Done r) -> shows tr (gcode tr) [] [].
Proof.
  intros H. unfold print, is_idle in H. rewrite print_prefix, print_command in H.
  silent elapsed_seen H. silent datagram_seen H. done.
Qed.

Lemma print_job_run st tr st' :
  exec (print_job st) tr (Done st') ->
  exists cmds ds js, shows tr cmds [] ds /\ st' = set_jobs st js /\ jobs_log (jobs (ledger st)) cmds ds js.
Proof.
  intros H. unfold print_job in H. bind_step H as o H1. apply find_printable_run in H1 as [Hs1 Ho].
  assert (st = set_jobs st (jobs (ledger st))) as Hid by by destruct st as [[] ?].
  destruct o as [[g path]|]; [destruct Ho as [Hin ->]|].
  2: { destruct H as [-> [= ->]]. exists [], [], (jobs (ledger st)). rewrite app_nil_r. split; [done|]. split; [done|]. by left. }
  bind_step H as r H2. pose proof (print_shows _ _ _ H2) as Hs2. apply print_run in H2.
  destruct r as [[]|e].
  - bind_step H as u H3. apply still_set_offline in H3. fold (accepted_text g) in H.
    rewrite job_accepted_format in H. bind_step H as msg H4. destruct H4 as [-> [= ->]].
    bind_step H as [] H5. destruct H as [-> [= ->]]. apply shows_send_log in H5 as (ds & Hs5 & Ha).
    eexists _, ds, _. split; [|split; [done|right; by exists g, (Ok tt)]].
    apply (shows_still _ _ _ _ _ Hs1). rewrite <- (app_nil_r (gcode _)).
    apply (shows_app _ _ _ [] [] [] [] ds Hs2), (shows_still _ _ _ _ _ H3). by rewrite app_nil_r.
  - destruct H as [-> [= ->]]. rewrite app_nil_r. eexists _, [], _.
    split; [apply (shows_still _ _ _ _ _ Hs1), Hs2|]. split; [exact Hid|]. right. by exists g, (Err e).
Qed.

(** Who owns the ledger after the check for a stuck ledger. *)
Definition owner_after (my_addr : Ipv4Addr) (keys : list Ipv4Addr) (e : Z) (st : LedgerState) : Ipv4Addr :=
  if decide (45000 < e /\ (addr_min keys = Some my_addr \/ keys = [])) then my_addr else owner (ledger st).

Lemma takeover_run my_addr b st tr st' :
  exec (takeover my_addr b st) tr (Done st') ->
  exists e, shows tr [] [e] [] /\ st' = set_owner st (owner_after my_addr (book_keys b) e st).
Proof.
  intros H. unfold takeover in H. exec_step H as e. rewrite Z.gtb_ltb in H. exists e. unfold owner_after.
  assert (Hid : set_owner st (owner (ledger st)) = st) by by destruct st as [[] ?].
  destruct (Z.ltb_spec 45000 e) as [He|He].
  2: { exec_steps H. split; [done|]. by rewrite decide_False by lia. }
  destruct (addr_min (book_keys b)) as [m|] eqn:Em.
  - case_decide as Hm; exec_steps H; (split; [done|]).
    + by rewrite decide_True by auto.
    + rewrite decide_False; [done|]. intros [_ [[= ->]|Hn]]; [done|]. by rewrite Hn in Em.
  - exec_steps H. split; [done|]. apply addr_min_none in Em. by rewrite decide_True by auto.
Qed.

(** Where the ledger goes at the end of a turn in which its owner acted. *)
Definition passed_log (my_addr : Ipv4Addr) (b : Book) (st : LedgerState) (ds : list (Z * Z * bytes))
    (st' : LedgerState) (observed' : bool) : Prop :=
  announced (ledger st') ds /\
  if book_is_empty b then st' = st /\ observed' = true
  else exists next, next_owner my_addr (book_keys b) = Some next /\ st' = set_owner st next /\ observed' = false.

Lemma pass_on_run my_addr b st observed tr st' observed' :
  addr_wf my_addr -> address_is my_addr tr ->
  exec (pass_on my_addr b st observed) tr (Done (st', observed')) ->
  exists ds, shows tr [] [] ds /\
    if bool_decide (my_addr = owner (ledger st)) && observed
    then passed_log my_addr b st ds st' observed' else ds = [] /\ st' = st /\ observed' = observed.
Proof.
  intros Ha Hi H. unfold pass_on in H. bind_step H as own H1. apply address_is_app in Hi as [Hi1 Hi2].
  apply (is_owner_run my_addr) in H1 as [-> Hs]; [|done|done]. unfold passed_log.
  destruct (bool_decide _ && observed) eqn:Eo.
  2: { destruct H as [-> [= -> ->]]. exists []. by rewrite app_nil_r. }
  apply andb_true_iff in Eo as [_ ->]. destruct (book_is_empty b).
  - bind_step H as [] H2. destruct H as [-> [= -> ->]]. apply shows_send_ledger in H2 as (ds & Hs2 & Hd).
    exists ds. rewrite app_nil_r. split; [by apply shows_still|done].
  - destruct (next_owner _ _) as [next|]; cbn [unwrap] in H; bind_step H as n H2; [|by destruct H2].
    destruct H2 as [-> [= ->]]. cbv zeta in H. bind_step H as [] H3. destruct H as [-> [= -> ->]].
    apply shows_send_ledger in H3 as (ds & Hs3 & Hd). exists ds. rewrite app_nil_r.
    split; [by apply shows_still|]. split; [done|]. by exists next.
Qed.

(** [.. && is_ready() && is_idle()]. *)
Lemma available_run (own : bool) tr b :
  exec (if own then (ready ← is_ready; if ready : bool then is_idle else Ret false) else Ret false) tr (Done b) ->
  still tr /\ (b = true -> own = true).
Proof.
  intros H. split; [unfold is_ready, is_idle in H; still_tac H|]. destruct own; [done|]. by exec_steps H.
Qed.

(** The whole turn. *)
Definition turn_log (my_addr : Ipv4Addr) (b : Book) (st : LedgerState) (observed : bool)
    (cmds : list (bytes * bool)) (ds : list (Z * Z * bytes)) (st' : LedgerState) (observed' : bool) (e : Z) : Prop :=
  let st1 := set_owner st (owner_after my_addr (book_keys b) e st) in
  if decide (owner (ledger st1) <> my_addr) then cmds = [] /\ ds = [] /\ st' = st1 /\ observed' = observed
  else if observed then
    exists js ds1 ds2, ds = ds1 ++ ds2 /\ jobs_log (jobs (ledger st)) cmds ds1 js /\
      passed_log my_addr b (set_jobs st1 js) ds2 st' observed'
  else cmds = [] /\ ds = [] /\ st' = st1 /\ observed' = true.

Lemma manage_state_run my_addr b st observed tr st' observed' :
  addr_wf my_addr -> address_is my_addr tr ->
  exec (manage_state my_addr b st observed) tr (Done (st', observed')) ->
  exists e cmds ds, shows tr cmds [e] ds /\ turn_log my_addr b st observed cmds ds st' observed' e.
Proof.
  intros Ha Hi H. unfold manage_state in H. bind_step H as st1 H1. apply address_is_app in Hi as [_ Hi].
  apply takeover_run in H1 as (e & Hs1 & ->). exists e. unfold turn_log. cbv zeta.
  set (st1 := set_owner st _) in *.
  bind_step H as own H2. apply address_is_app in Hi as [Hi2 Hi].
  apply (is_owner_run my_addr) in H2 as [-> Hs2]; [|done|done].
  destruct (bool_decide _ && negb observed) eqn:Eo.
  { apply andb_true_iff in Eo as [Eo%bool_decide_eq_true En%negb_true_iff]. destruct H as [-> [= -> ->]].
    exists [], []. rewrite app_nil_r. split; [apply (shows_app _ _ [] [] [e] [] [] []); done|].
    rewrite decide_False by auto. by rewrite En. }
  bind_step H as own H3. apply address_is_app in Hi as [Hi3 Hi].
  apply (is_owner_run my_addr) in H3 as [-> Hs3]; [|done|done].
  bind_step H as av H4. apply address_is_app in Hi as [_ Hi]. apply available_run in H4 as [Hs4 Hav].
  bind_step H as st2 H5. apply address_is_app in Hi as [_ Hi].
  match type of H5 with exec _ ?t _ =>
    assert (exists cmds ds js, shows t cmds [] ds /\ st2 = set_jobs st1 js /\
      (av = false -> cmds = []) /\ jobs_log (jobs (ledger st)) cmds ds js)
      as (cmds & ds1 & js & Hs5 & -> & Hc & Hj) end.
  { destruct av.
    - apply print_job_run in H5 as (cmds & ds & js & ? & ? & ?). by exists cmds, ds, js.
    - destruct H5 as [-> [= ->]]. exists [], [], (jobs (ledger st)). repeat split. by left. }
  apply (pass_on_run my_addr) in H as (ds2 & Hs6 & Hp); [|done|done].
  exists cmds, (ds1 ++ ds2). split.
  { apply (shows_app _ _ [] cmds [e] [] [] (ds1 ++ ds2) Hs1), (shows_still _ _ _ _ _ Hs2),
      (shows_still _ _ _ _ _ Hs3), (shows_still _ _ _ _ _ Hs4). rewrite <- (app_nil_r cmds).
    by apply (shows_app _ _ cmds [] [] []). }
  change (owner (ledger (set_jobs st1 js))) with (owner (ledger st1)) in Hp.
  destruct (decide (owner (ledger st1) <> my_addr)) as [Hn|Hy].
  - rewrite bool_decide_eq_false_2 in Hp, Hav by auto. cbn [andb] in Hp, Hav. destruct Hp as (-> & -> & ->).
    destruct av; [by specialize (Hav eq_refl)|]. specialize (Hc eq_refl) as ->.
    destruct Hj as [(_ & -> & ->)|(g & r & _ & Hpr & Hr)]; [by repeat split; destruct st as [[] ?]|].
    destruct Hpr as [[-> _]|[[_ ?]|[[_ ?]|[_ ?]]]]; [|done..]. destruct Hr as [-> ->].
    by repeat split; destruct st as [[] ?].
  - rewrite bool_decide_eq_true_2 in Hp, Eo by (symmetry; by apply dec_stable).
    cbn [andb] in *. destruct observed; [|done]. by exists js, ds1, ds2.
Qed.

Section apart.
Context {B} (f : forall X, call X -> X -> list B) `{!Apart f}.

Lemma no_mutex_send n m : no_emit f (send n m).
Proof.
  induction n as [|n IH]; cbn [send]; [no_emit_tac|]. unfold alloc, broadcast, drop_packet. no_emit_tac.
Qed.

Lemma no_mutex_send_ledger l : no_emit f (send_ledger l).
Proof. pose proof no_mutex_send. unfold send_ledger, generate_uuid_v7. no_emit_tac. Qed.

Lemma no_mutex_send_log s : no_emit f (send_log s).
Proof. pose proof no_mutex_send. unfold send_log, generate_uuid_v7. no_emit_tac. Qed.

Lemma no_mutex_new_job g : no_emit f (send_new_job_alert g).
Proof. pose proof no_mutex_send. unfold send_new_job_alert, generate_uuid_v7. no_emit_tac. Qed.

Lemma no_mutex_heartbeat : no_emit f send_heartbeat.
Proof. pose proof no_mutex_send. unfold send_heartbeat, generate_uuid_v7. no_emit_tac. Qed.

Lemma no_mutex_find gs : no_emit f (find_printable gs).
Proof.
  induction gs as [|g gs IH]; cbn [find_printable]; [no_emit_tac|].
  rewrite make_path_eq. unfold open, drop_file. no_emit_tac.
Qed.
End apart.

Section guarded.
Context {B} (f : forall X, call X -> X -> list B) `{!Locking f}.

Lemma no_mutex_manage my_addr b st observed : no_emit f (manage_state my_addr b st observed).
Proof.
  pose proof (no_mutex_send_ledger f). pose proof (no_mutex_send_log f). pose proof (no_mutex_find f).
  unfold manage_state, takeover, pass_on, print_job, print, is_owner, my_ipaddr, is_ready, is_idle, set_offline.
  no_emit_tac.
Qed.
End guarded.

(** What a turn found in the two mutexes and left there. *)
Definition mutex_log (tr : trace) (b : Book) (l l' : option LedgerState) : Prop :=
  books_found tr = [b] /\ books_written tr = [b] /\ jobs_found tr = [l] /\ jobs_written tr = [l'].

Lemma mutex_log_intro pre b l l' tr u1 u2 :
  collect book_found_seen pre = [] -> collect book_seen pre = [] ->
  collect jobs_found_seen pre = [] -> collect jobs_seen pre = [] ->
  collect book_found_seen tr = [] -> collect book_seen tr = [] ->
  collect jobs_found_seen tr = [] -> collect jobs_seen tr = [] ->
  mutex_log (pre ++ Ev (CRt addresses_lock) b :: Ev (CRt jobs_lock) l ::
    tr ++ [Ev (CRt (jobs_unlock l')) u1; Ev (CRt (addresses_unlock b)) u2]) b l l'.
Proof.
  intros P1 P2 P3 P4 H1 H2 H3 H4. unfold mutex_log, books_found, books_written, jobs_found, jobs_written.
  rewrite !collect_app, P1, P2, P3, P4. cbn. by rewrite !collect_app, H1, H2, H3, H4.
Qed.

(** The turn as the other files use it: what it may leave, send and print. *)
Lemma manage_turn_run my_addr observed tr observed' :
  addr_wf my_addr -> address_is my_addr tr ->
  exec (manage_ledger_step observed) tr (Done observed') ->
  exists b l l', mutex_log tr b l l' /\
    match l with
    | None => exists t, l' = Some (mkLedgerState (mkLedger my_addr jobs_new) t) /\
                        observed' = observed /\ gcode tr = [] /\ announced (mkLedger my_addr jobs_new) (datagrams tr)
    | Some st => exists st' e, l' = Some st' /\ elapsed_read tr = [e] /\
                   turn_log my_addr b st observed (gcode tr) (datagrams tr) st' observed' e
    end.
Proof.
  intros Ha Hi H. unfold manage_ledger_step in H. bind_step H as u H0. destruct H0 as (? & ? & -> & -> & _).
  apply address_is_app in Hi as [_ Hi]. bind_step H as a H1. apply address_is_app in Hi as [Hi1 Hi].
  pose proof H1 as H1'. apply (my_ipaddr_run my_addr) in H1' as ->; [|done|done].
  exec_step H1 as nl. destruct Hi1 as [-> _]. exec_step H1 as z. destruct H1 as [-> _].
  bind_step H as b H1. destruct H1 as (b' & ? & -> & -> & [= ->]).
  bind_step H as l H1. destruct H1 as (l' & ? & -> & -> & [= ->]).
  do 2 apply address_is_app in Hi as [_ Hi]. cbn [app] in *. destruct l' as [st|].
  - bind_step H as [st' ob] H1. apply address_is_app in Hi as [Hi _].
    pose proof (no_mutex_manage book_found_seen _ _ _ _ _ _ H1). pose proof (no_mutex_manage book_seen _ _ _ _ _ _ H1).
    pose proof (no_mutex_manage jobs_found_seen _ _ _ _ _ _ H1). pose proof (no_mutex_manage jobs_seen _ _ _ _ _ _ H1).
    apply (manage_state_run my_addr) in H1 as (e & cmds & ds & Hs & Ht); [|done|done]. exec_steps H.
    exists b', (Some st), (Some st'). split; [by apply (mutex_log_intro [_; _; _])|]. exists st', e. split; [done|].
    destruct Hs as (<- & He & <-). unfold gcode, elapsed_read, datagrams in *. cbn.
    rewrite !collect_app, He. cbn. by rewrite !app_nil_r.
  - bind_step H as st H1. destruct H1 as (t & ? & -> & -> & [= ->]). bind_step H as [] H2.
    pose proof (no_mutex_send_ledger book_found_seen _ _ _ H2). pose proof (no_mutex_send_ledger book_seen _ _ _ H2).
    pose proof (no_mutex_send_ledger jobs_found_seen _ _ _ H2). pose proof (no_mutex_send_ledger jobs_seen _ _ _ H2).
    apply shows_send_ledger in H2 as (ds & (Hg & _ & <-) & Hd). exec_steps H.
    eexists b', None, _. split; [by apply (mutex_log_intro [_; _; _] _ _ _ (Ev (CRt instant_now) t :: _))|].
    exists t. split; [done|]. split; [done|]. unfold gcode, datagrams in *. cbn. rewrite !collect_app, Hg.
    split; [done|]. cbn. by rewrite app_nil_r.
Qed.

(** A stuck ledger is not recovered when the address book only knows the other
    machines: whatever its age, a machine that is not in its own, non-empty, address book
    never takes the ledger over. *)
Theorem takeover_needs_self my_addr b st tr st' :
  my_addr ∉ book_keys b -> book_keys b <> [] -> exec (takeover my_addr b st) tr (Done st') ->
  owner (ledger st') = owner (ledger st).
Proof.
  intros Hin Hne H. apply takeover_run in H as (e & _ & ->). cbn. unfold owner_after.
  rewrite decide_False; [done|]. intros [_ [Hm|?]]; [|done]. by apply addr_min_in in Hm.
Qed.
End turn.

(** ** Termination and locking *)

Section safety.
Context `{V : Vendor} {L : VendorLaws V} `{SM : Serialize Message}.

Lemma next_owner_some my_addr keys : keys <> [] -> exists a, next_owner my_addr keys = Some a.
Proof.
  intros Hne. unfold next_owner. destruct (foldl _ _ keys) as [a n]. destruct (_ && _); [by exists a|].
  destruct (addr_min keys) eqn:E; [eauto|]. by apply addr_min_none in E.
Qed.

Lemma total_find_printable gs : total (find_printable gs).
Proof.
  induction gs as [|g gs IH]; cbn [find_printable]; [apply total_ret|]. rewrite make_path_eq.
  unfold open, drop_file. total_tac.
Qed.

Lemma total_print path : total (print path true).
Proof. unfold print, is_idle. total_tac. Qed.

Lemma total_print_job st : total (print_job st).
Proof.
  pose proof total_find_printable. pose proof total_print. unfold print_job, set_offline.
  apply total_bind; [done|]. intros [[g path]|]; [|apply total_ret].
  fold (accepted_text g). rewrite job_accepted_format. cbn [unwrap]. total_tac.
Qed.

Lemma total_pass_on my_addr b st observed : total (pass_on my_addr b st observed).
Proof.
  unfold pass_on, is_owner, my_ipaddr. apply total_bind; [total_tac|intros own].
  destruct (own && observed); [|apply total_ret].
  destruct (book_is_empty b) eqn:Eb; [total_tac|].
  destruct (next_owner_some my_addr (book_keys b)) as [a ->]; [|cbn [unwrap]; total_tac].
  unfold book_is_empty in Eb. apply bool_decide_eq_false in Eb. unfold book_keys. by destruct (book_iter b).
Qed.

Lemma total_manage_state my_addr b st observed : total (manage_state my_addr b st observed).
Proof.
  pose proof total_print_job. pose proof total_pass_on.
  unfold manage_state, takeover, is_owner, my_ipaddr, is_ready, is_idle. total_tac.
Qed.

Lemma total_manage_step observed : total (manage_ledger_step observed).
Proof.
  pose proof total_manage_state. unfold manage_ledger_step, my_ipaddr, ledger_state_new. total_tac.
Qed.

Lemma locked_find_printable l gs : locked l (find_printable gs) l.
Proof.
  induction gs as [|g gs IH]; cbn [find_printable]; [apply locked_ret|]. rewrite make_path_eq.
  unfold open, drop_file. locked_tac.
Qed.

Lemma locked_manage_step observed : locked Unlocked (manage_ledger_step observed) Unlocked.
Proof.
  pose proof locked_find_printable.
  unfold manage_ledger_step, ledger_state_new, manage_state, takeover, pass_on, print_job, is_owner, is_ready,
    is_idle, print, is_idle, set_offline. locked_tac.
Qed.

(** A turn of the ledger task always ends without a panic, the unwraps of the next
    owner and of the message included, and keeps to lwIP's locking rules. *)
Theorem manage_step_safe observed :
  total (manage_ledger_step observed) /\ locked Unlocked (manage_ledger_step observed) Unlocked.
Proof. split; [apply total_manage_step|apply locked_manage_step]. Qed.
End safety.

(** ** Concrete turns *)

(** The owner of a ledger with one job, which it has observed; another machine is known. *)
Definition demo_manage : io bool := manage_ledger_step (V := ref_vendor) true.

(** It tries the job it has and hands the ledger on. *)
Lemma demo_manage_runs :
  let tr := run_trace demo_h demo_manage (demo_peer []) in
  gcode tr = [(lit "M111 S8", true); (lit "M32 " ++ path_of (demo_id 4) false, true)] /\
  map (option_map (fun st => (owner (ledger st), len (jobs_iter (jobs (ledger st)))))) (jobs_written tr) =
    [Some (demo_addr 7, 0)].
Proof. split; vm_compute; reflexivity. Qed.

Definition demo_stuck : @LedgerState ref_vendor := mkLedgerState (mkLedger (demo_addr 9) jobs_new) (-100000).

Definition demo_book : @Book ref_vendor := (book_insert (demo_addr 7) 500 book_new).1.

Lemma takeover_needs_self_witness :
  owner (ledger (value_of demo_stuck (run demo_h (takeover (demo_addr 5) demo_book demo_stuck) (demo_peer [])).1)) =
  owner (ledger demo_stuck).
Proof.
  apply (takeover_needs_self (V := ref_vendor) (demo_addr 5) demo_book demo_stuck
    (run_trace demo_h (takeover (demo_addr 5) demo_book demo_stuck) (demo_peer []))).
  - vm_compute. intros H. inversion H as [|? ? ? H']. inversion H'.
  - vm_compute. discriminate.
  - by_run_value.
Defined.

Lemma manage_step_safe_witness :
  total (manage_ledger_step (V := ref_vendor) true) /\ locked Unlocked (manage_ledger_step (V := ref_vendor) true) Unlocked.
Proof. exact (manage_step_safe true). Defined.
