(* ===== verification/Turn.v ===== *)
(** * One turn of the ledger task, deed by deed

    [manage_turn_run] of [Ledger.v] says what a turn leaves in the ledger and what it broadcasts at most.  Here is
    everything it asks and does, in order: the questions to the printer, each file it tries to open, the commands
    to Marlin, and how every single copy of a message fared. *)

From S2P Require Import Prelude Prog Text Net Vendor VendorRef Data Ffi Env Lwip Pbuf Tcp Udp Fs Rng Messages.
From S2P Require Import Observe Wire Upload Owns Marlin Receiver Ledger.

Section turn.
Context `{V : Vendor} {L : VendorLaws V} `{SM : Serialize Message}.

(** ** Deeds *)

Inductive deed : Type :=
  | Asked_ready (b : bool)
  | Asked_idle (b : bool)
  | Opened (path mode : bytes) (f : ptr)
  | Closed (f : ptr)
  | Command (cmd : bytes) (taken : bool)
  | Ready_set (b : bool)
  | No_memory
  | Not_queued
  | No_socket
  | Sent (addr port : Z) (data : bytes) (e : err_t).

(** What a call shows, with its answer: a copy for which there is no memory, whose closure is refused, for which
    there is no socket, or that is given to [udp_sendto]. *)
Definition deed_seen (X : Type) (c : call X) : X -> list deed :=
  match c in call X return X -> list deed with
  | CMarlin c =>
      match c in marlin_call X return X -> list deed with
      | ready_flag_load => fun b => [Asked_ready b]
      | derusting_is_idle => fun b => [Asked_idle b]
      | derusting_gcode_cmd cmd => fun b => [Command cmd b]
      | ready_flag_store b => fun _ => [Ready_set b]
      | derusting_update_ui => fun _ => []
      end
  | CFs c =>
      match c in fs_call X return X -> list deed with
      | fopen path mode => fun f => [Opened path mode f]
      | fclose f => fun _ => [Closed f]
      | _ => fun _ => []
      end
  | CLwip c =>
      match c in lwip_call X return X -> list deed with
      | pbuf_alloc _ _ _ => fun p => if decide (p = null) then [No_memory] else []
      | tcpip_callback => fun e => if decide (e = err_t.Ok) then [] else [Not_queued]
      | udp_sendto _ p addr port => fun e => [Sent addr port (concat (pbuf_slice <$> p)) e]
      | _ => fun _ => []
      end
  | CRt c =>
      match c in rt_call X return X -> list deed with
      | pcb_load Obj_UdpSocket => fun p => if decide (p = null) then [No_socket] else []
      | _ => fun _ => []
      end
  | _ => fun _ => []
  end.

Definition deeds : trace -> list deed := collect deed_seen.

Lemma deeds_app tr1 tr2 : deeds (tr1 ++ tr2) = deeds tr1 ++ deeds tr2.
Proof. apply collect_app. Qed.

(** One copy of a message whose encoding is [d]. *)
Inductive copy (d : bytes) : deed -> Prop :=
  | copy_not_queued : copy d Not_queued
  | copy_no_socket : copy d No_socket
  | copy_sent e : copy d (Sent u32_max UDP_PORT d e).

(** Sending a message [n] times: every copy is attempted, until one finds no memory; a message that cannot be encoded
    is not sent at all. *)
Inductive sending (m : Message) : nat -> list deed -> Prop :=
  | sending_done : sending m 0 []
  | sending_unencoded n ds : encoding m = None -> ds = [] \/ ds = [No_memory] -> sending m (S n) ds
  | sending_no_memory n : sending m (S n) [No_memory]
  | sending_copy n d x ds : encoding m = Some d -> copy d x -> sending m n ds -> sending m (S n) (x :: ds).

(** A message with this payload and some id. *)
Definition sends (n : nat) (p : Payload) (ds : list deed) : Prop := exists id, sending (mkMessage id p) n ds.

Definition open_failed (g : Uuid) : deed := Opened (path_of g false) (lit "rb") null.

(** Printing the job [g], whose file could be opened: Marlin is asked again whether it is idle, gets the dry-run
    command and then the file, and only if it took both the job leaves the set and a log message says so. *)
Inductive printing (g : Uuid) (js : JobSet) : list deed -> JobSet -> Prop :=
  | printing_busy : printing g js [Asked_idle false] js
  | printing_no_dry_run : printing g js [Asked_idle true; Command (lit "M111 S8") false] js
  | printing_refused :
      printing g js [Asked_idle true; Command (lit "M111 S8") true; Command (lit "M32 " ++ path_of g false) false] js
  | printing_taken ds :
      sends 2 (Payload_Log (accepted_text g)) ds ->
      printing g js
        ([Asked_idle true; Command (lit "M111 S8") true; Command (lit "M32 " ++ path_of g false) true; Ready_set false] ++ ds)
        (jobs_remove g js).1.

(** The work on the jobs: only if the printer is ready and idle; the jobs are tried in order, and the first whose file
    can be opened is printed. *)
Inductive working (js : JobSet) : list deed -> JobSet -> Prop :=
  | working_not_ready : working js [Asked_ready false] js
  | working_not_idle : working js [Asked_ready true; Asked_idle false] js
  | working_no_file : working js ([Asked_ready true; Asked_idle true] ++ (open_failed <$> jobs_iter js)) js
  | working_prints gs g gs' f ds js' :
      jobs_iter js = gs ++ g :: gs' -> f <> null -> printing g js ds js' ->
      working js ([Asked_ready true; Asked_idle true] ++ (open_failed <$> gs) ++
                  [Opened (path_of g false) (lit "rb") f; Closed f] ++ ds) js'.

(** The end of the turn of an owner: the next machine of the book gets the ledger, or it keeps it when the book is
    empty; either way three copies are broadcast. *)
Definition passing (my_addr : Ipv4Addr) (b : Book) (st : LedgerState) (ds : list deed) (st' : LedgerState) (observed' : bool) : Prop :=
  sends 3 (Payload_Ledger (ledger st')) ds /\
  if book_is_empty b then st' = st /\ observed' = true
  else exists next, next_owner my_addr (book_keys b) = Some next /\ st' = set_owner st next /\ observed' = false.

(** A whole turn with a ledger that had not been updated for [e] milliseconds. *)
Definition turn_deeds (my_addr : Ipv4Addr) (b : Book) (st : LedgerState) (observed : bool) (e : Z)
    (ds : list deed) (st' : LedgerState) (observed' : bool) : Prop :=
  let st1 := set_owner st (owner_after my_addr (book_keys b) e st) in
  if decide (owner (ledger st1) <> my_addr) then ds = [] /\ st' = st1 /\ observed' = observed
  else if observed then
    exists js ds1 ds2, ds = ds1 ++ ds2 /\ working (jobs (ledger st)) ds1 js /\ passing my_addr b (set_jobs st1 js) ds2 st' observed'
  else ds = [] /\ st' = st1 /\ observed' = true.

(** ** Sending *)

Lemma no_deed_ipaddr : no_emit deed_seen my_ipaddr.
Proof. unfold my_ipaddr. no_emit_tac. Qed.

Lemma no_deed_uuid : no_emit deed_seen generate_uuid_v7.
Proof. unfold generate_uuid_v7. no_emit_tac. Qed.

Lemma no_deed_drop p : no_emit deed_seen (drop_packet p).
Proof. unfold drop_packet. no_emit_tac. Qed.

Lemma blocking_alloc_deeds size tr r :
  exec (blocking_lwip (pbuf ← lwip (pbuf_alloc Transport (wrap 16 size) Ram); Ret (Ok pbuf : result ptr err_t))) tr (Done r) ->
  exists p, r = Ok p /\ deeds tr = if decide (p = null) then [No_memory] else [].
Proof.
  intros H. exec_step H as c. destruct c.
  - exec_step H as p. exec_steps H. exists p. split; [done|]. cbn. by rewrite app_nil_r.
  - exec_step H as u. exec_step H as p. exec_step H as u'. exec_steps H. exists p. split; [done|]. cbn. by rewrite app_nil_r.
Qed.

Lemma alloc_deeds m tr r :
  exec (alloc m) tr (Done r) ->
  match r with
  | Some p => deeds tr = [] /\ exists d, encoding m = Some d /\ concat (pbuf_slice <$> inner p) = d
  | None => deeds tr = [No_memory] \/ encoding m = None /\ deeds tr = []
  end.
Proof.
  unfold alloc, encoding. destruct (serialized_size m) as [size|]; [|intros H; exec_steps H; by right].
  intros H. bind_step H as a H1. apply blocking_alloc_deeds in H1 as (p & -> & Hd). cbn [result_ok unwrap] in H.
  bind_step H as b H2. destruct H2 as [-> [= ->]]. rewrite !deeds_app, Hd. case_decide as Hp.
  { exec_steps H. by left. }
  destruct (to_slice m size) as [d|].
  - destruct H as [-> [= ->]]. split; [done|]. eexists. split; [done|]. cbn. by rewrite app_nil_r.
  - bind_step H as c H3. destruct H as [-> [= ->]]. right. split; [done|]. cbn. rewrite app_nil_r.
    assert (no_emit deed_seen (blocking_lwip (n ← lwip (pbuf_free p); Ret (Ok n : result Z err_t)))) as Hn by no_emit_tac.
    exact (Hn _ _ H3).
Qed.

Lemma broadcast_deeds p tr r :
  exec (broadcast p UDP_PORT) tr (Done r) -> exists x, deeds tr = [x] /\ copy (concat (pbuf_slice <$> inner p)) x.
Proof.
  intros H. unfold broadcast in H. bind_step H as res H1. bind_step H as u H2. destruct H as [-> _].
  pose proof (no_deed_drop _ _ _ H2) as Hd. rewrite !deeds_app. unfold deeds at 2 3. rewrite Hd. cbn [collect]. rewrite !app_nil_r.
  clear H2 Hd. exec_step H1 as e. case_decide as He.
  { exec_steps H1. cbn. rewrite decide_False by done. eexists. split; [done|constructor]. }
  exec_step H1 as pcb. case_decide as Hp.
  { exec_steps H1. cbn. rewrite decide_True by done.
    rewrite decide_True by done. eexists. split; [done|constructor]. }
  exec_step H1 as e'. destruct (decide (e' = err_t.Ok)); exec_steps H1; cbn;
    (rewrite decide_True by done); rewrite decide_False by done;
    eexists; (split; [done|constructor]).
Qed.

Lemma send_deeds n m tr : exec (send n m) tr (Done tt) -> sending m n (deeds tr).
Proof.
  revert tr. induction n as [|n IH]; intros tr H; cbn [send] in H; [exec_steps H; constructor|].
  bind_step H as p H1. apply alloc_deeds in H1. destruct p as [p|].
  - destruct H1 as (Hd & d & He & Ep). bind_step H as r H2. apply broadcast_deeds in H2 as (y & Hx & Hc).
    bind_step H as u H3. destruct H3 as (? & ? & -> & -> & _). apply IH in H. rewrite Ep in Hc.
    rewrite !deeds_app, Hd, Hx. by eapply sending_copy.
  - destruct H as [-> _]. rewrite deeds_app, app_nil_r. destruct H1 as [->|[He ->]]; [apply sending_no_memory|].
    apply sending_unencoded; [done|by left].
Qed.

Lemma announce_deeds n p tr :
  exec (id ← generate_uuid_v7; send n (mkMessage id p)) tr (Done tt) -> sends n p (deeds tr).
Proof.
  intros H. bind_step H as id H1. apply no_deed_uuid in H1. apply send_deeds in H. exists id.
  rewrite deeds_app. unfold deeds at 1. by rewrite H1.
Qed.

(** ** Printing *)

Lemma find_deeds gs tr o :
  exec (find_printable gs) tr (Done o) ->
  match o with
  | None => deeds tr = open_failed <$> gs
  | Some (g, path) => exists gs1 gs2 f, gs = gs1 ++ g :: gs2 /\ path = path_of g false /\ f <> null /\
      deeds tr = (open_failed <$> gs1) ++ [Opened (path_of g false) (lit "rb") f; Closed f]
  end.
Proof.
  revert tr. induction gs as [|g gs IH]; intros tr H; cbn [find_printable] in H; [by exec_steps H|].
  rewrite make_path_eq in H. bind_step H as path H1. destruct H1 as [-> [= ->]].
  bind_step H as f H2. unfold open in H2. rewrite path_of_usb in H2. cbn [negb] in H2. exec_step H2 as h. case_decide as Hh.
  - destruct H2 as [-> [= ->]]. apply IH in H. cbn [app]. destruct o as [[g' p']|].
    + destruct H as (gs1 & gs2 & f & -> & -> & Hf & Hd). exists (g :: gs1), gs2, f.
      split_and!; [done..|]. cbn. fold deeds. by rewrite Hd, Hh.
    + cbn. fold deeds. by rewrite H, Hh.
  - destruct H2 as [-> [= ->]]. bind_step H as u H3. destruct H as [-> [= ->]]. destruct H3 as (z & ? & -> & -> & _).
    exists [], gs, h. split_and!; done.
Qed.

Lemma print_deeds g tr r js :
  exec (print (path_of g false) true) tr (Done r) ->
  match r with
  | Ok _ => deeds tr = [Asked_idle true; Command (lit "M111 S8") true; Command (lit "M32 " ++ path_of g false) true]
  | Err _ => printing g js (deeds tr) js
  end.
Proof.
  unfold print. rewrite print_prefix, print_command. intros H.
  exec_step H as []; [|exec_steps H; constructor]. exec_step H as []; [|exec_steps H; constructor].
  exec_step H as []; exec_steps H; [done|constructor].
Qed.

Lemma print_job_deeds st tr st' :
  exec (print_job st) tr (Done st') ->
  exists js, st' = set_jobs st js /\ working (jobs (ledger st)) ([Asked_ready true; Asked_idle true] ++ deeds tr) js.
Proof.
  intros H. unfold print_job in H. bind_step H as o H1. apply find_deeds in H1.
  assert (st = set_jobs st (jobs (ledger st))) as Hid by by destruct st as [[] ?].
  destruct o as [[g path]|].
  2: { destruct H as [-> [= ->]]. exists (jobs (ledger st)). split; [done|]. rewrite app_nil_r, H1. constructor. }
  destruct H1 as (gs1 & gs2 & f & Hgs & -> & Hf & Hd). bind_step H as r H2.
  apply (print_deeds _ _ _ (jobs (ledger st))) in H2. destruct r as [[]|e].
  - bind_step H as u H3. destruct H3 as (u1 & ? & -> & (u2 & ? & -> & -> & _)). fold (accepted_text g) in H.
    rewrite job_accepted_format in H. bind_step H as msg H4. destruct H4 as [-> [= ->]].
    bind_step H as [] H5. destruct H as [-> [= ->]]. apply announce_deeds in H5.
    eexists. split; [done|]. rewrite !deeds_app, Hd, H2. cbn [app]. rewrite app_nil_r, <- app_assoc.
    eapply working_prints; [done|done|]. by apply printing_taken.
  - destruct H as [-> [= ->]]. exists (jobs (ledger st)). split; [done|]. rewrite !deeds_app, app_nil_r, Hd, <- app_assoc.
    by eapply working_prints.
Qed.

(** ** The whole turn *)

Lemma is_owner_deeds a st tr b :
  addr_wf a -> address_is a tr -> exec (is_owner st) tr (Done b) -> b = bool_decide (a = owner (ledger st)) /\ deeds tr = [].
Proof.
  intros Ha Hi H. split; [by apply (is_owner_run a st tr b Ha Hi H)|].
  assert (no_emit deed_seen (is_owner st)) as Hn by (unfold is_owner; pose proof no_deed_ipaddr; no_emit_tac). exact (Hn _ _ H).
Qed.

Lemma pass_on_deeds my_addr b st observed tr st' observed' :
  addr_wf my_addr -> address_is my_addr tr ->
  exec (pass_on my_addr b st observed) tr (Done (st', observed')) ->
  if bool_decide (my_addr = owner (ledger st)) && observed
  then passing my_addr b st (deeds tr) st' observed' else deeds tr = [] /\ st' = st /\ observed' = observed.
Proof.
  intros Ha Hi H. unfold pass_on in H. bind_step H as own H1. apply address_is_app in Hi as [Hi1 Hi2].
  apply (is_owner_deeds my_addr) in H1 as [-> Hs]; [|done|done]. unfold passing. rewrite deeds_app, Hs. cbn [app].
  destruct (bool_decide _ && observed) eqn:Eo; [|by destruct H as [-> [= -> ->]]].
  apply andb_true_iff in Eo as [_ ->]. destruct (book_is_empty b).
  - bind_step H as [] H2. destruct H as [-> [= -> ->]]. apply announce_deeds in H2. rewrite app_nil_r. done.
  - destruct (next_owner _ _) as [next|]; cbn [unwrap] in H; bind_step H as n H2; [|by destruct H2].
    destruct H2 as [-> [= ->]]. cbv zeta in H. bind_step H as [] H3. destruct H as [-> [= -> ->]].
    apply announce_deeds in H3. rewrite app_nil_r. split; [done|]. by exists next.
Qed.

Lemma takeover_deeds my_addr b st tr st' : exec (takeover my_addr b st) tr (Done st') -> deeds tr = [].
Proof.
  assert (no_emit deed_seen (takeover my_addr b st)) as Hn by (unfold takeover; no_emit_tac). apply Hn.
Qed.
(** [.. && is_ready() && is_idle()], and the work it guards. *)
Lemma available_deeds st (own : bool) tr1 tr2 av st' :
  exec (if own then (ready ← is_ready; if ready : bool then is_idle else Ret false) else Ret false) tr1 (Done av) ->
  exec (if av then print_job st else Ret st) tr2 (Done st') ->
  if own then exists js, st' = set_jobs st js /\ working (jobs (ledger st)) (deeds tr1 ++ deeds tr2) js
  else st' = st /\ deeds tr1 = [] /\ deeds tr2 = [].
Proof.
  intros H1 H2. assert (st = set_jobs st (jobs (ledger st))) as Hid by by destruct st as [[] ?].
  destruct own; [|destruct H1 as [-> [= ->]]; by destruct H2 as [-> [= ->]]].
  exec_step H1 as ready. destruct ready; [exec_step H1 as idle; destruct idle|]; exec_steps H1.
  - by apply print_job_deeds in H2.
  - destruct H2 as [-> [= ->]]. exists (jobs (ledger st)). split; [done|]. apply working_not_idle.
  - destruct H2 as [-> [= ->]]. exists (jobs (ledger st)). split; [done|]. apply working_not_ready.
Qed.

Lemma manage_state_deeds my_addr b st observed tr st' observed' :
  addr_wf my_addr -> address_is my_addr tr ->
  exec (manage_state my_addr b st observed) tr (Done (st', observed')) ->
  exists e, elapsed_read tr = [e] /\ turn_deeds my_addr b st observed e (deeds tr) st' observed'.
Proof.
  intros Ha Hi H. destruct (manage_state_run _ _ _ _ _ _ _ Ha Hi H) as (e & cmds & ds & (_ & He & _) & _).
  exists e. split; [done|].
  unfold manage_state in H. bind_step H as st1 H1. apply address_is_app in Hi as [_ Hi].
  pose proof (takeover_deeds _ _ _ _ _ H1) as Hd1. apply takeover_run in H1 as (e' & (_ & He1 & _) & ->).
  unfold elapsed_read in He, He1. rewrite collect_app, He1 in He. injection He as -> _. clear He1.
  unfold turn_deeds. cbv zeta. set (st1 := set_owner st _) in *. rewrite deeds_app, Hd1. cbn [app].
  bind_step H as own H2. apply address_is_app in Hi as [Hi2 Hi].
  apply (is_owner_deeds my_addr) in H2 as [-> Hd2]; [|done|done]. rewrite deeds_app, Hd2. cbn [app].
  destruct (bool_decide _ && negb observed) eqn:Eo.
  { apply andb_true_iff in Eo as [Eo%bool_decide_eq_true En%negb_true_iff]. destruct H as [-> [= -> ->]].
    rewrite decide_False by auto. by rewrite En. }
  bind_step H as own H3. apply address_is_app in Hi as [Hi3 Hi].
  apply (is_owner_deeds my_addr) in H3 as [-> Hd3]; [|done|done]. rewrite deeds_app, Hd3. cbn [app].
  bind_step H as av H4. apply address_is_app in Hi as [_ Hi]. bind_step H as st2 H5. apply address_is_app in Hi as [_ Hi].
  pose proof (available_deeds _ _ _ _ _ _ H4 H5) as Hw. rewrite !deeds_app. clear H4 H5.
  apply (pass_on_deeds my_addr) in H; [|done|done].
  destruct (decide (owner (ledger st1) <> my_addr)) as [Hn|Hy].
  - rewrite bool_decide_eq_false_2 in Hw by auto. cbn [andb] in Hw. destruct Hw as (-> & -> & ->).
    rewrite bool_decide_eq_false_2 in H by auto. by destruct H as (-> & -> & ->).
  - rewrite bool_decide_eq_true_2 in Hw, Eo by (symmetry; by apply dec_stable). cbn [andb] in *.
    destruct observed; [|done]. destruct Hw as (js & -> & Hw).
    change (owner (ledger (set_jobs st1 js))) with (owner (ledger st1)) in H.
    rewrite bool_decide_eq_true_2 in H by (symmetry; by apply dec_stable).
    eexists js, _, _. split; [by rewrite app_assoc|]. done.
Qed.

(** C8. What one turn of the ledger task does, exactly, as long as the machine keeps its address. Without a ledger it
    creates an empty one that it owns, and sends it. A machine that does not own the ledger asks and sends nothing
    and changes nothing, unless the ledger is more than 45 seconds old and the machine is the lowest of
    its address book, or the book is empty, in which case it becomes the owner. An owner only takes note of it on
    its first turn. On the next it asks whether the printer is ready and idle; only if both hold does it try the
    jobs in the order of the set until the file of one can be opened on its stick, and prints that one: the job leaves the
    ledger exactly when Marlin takes both commands. Then it hands the ledger to the next machine of the address book, or
    keeps it when it is alone, and sends the ledger it holds then. Every message is attempted as often as
    it is meant to, each copy broadcast or lost to a full memory, a refused closure or a missing socket, and only
    a failed allocation ends the attempts early. The address book stays as it is. *)
Theorem manage_turn my_addr observed tr observed' :
  addr_wf my_addr -> address_is my_addr tr ->
  exec (manage_ledger_step observed) tr (Done observed') ->
  exists b l l', mutex_log tr b l l' /\
    match l with
    | None => exists t, l' = Some (mkLedgerState (mkLedger my_addr jobs_new) t) /\ observed' = observed /\
                        sends 3 (Payload_Ledger (mkLedger my_addr jobs_new)) (deeds tr)
    | Some st => exists st' e, l' = Some st' /\ elapsed_read tr = [e] /\
                   turn_deeds my_addr b st observed e (deeds tr) st' observed'
    end.
Proof.
  intros Ha Hi H. destruct (manage_turn_run _ _ _ _ Ha Hi H) as (b & l & l' & Hm & _). exists b, l, l'. split; [done|].
  destruct Hm as (Mb & _ & Ml & Ml'). unfold manage_ledger_step in H. bind_step H as u H0. destruct H0 as (? & ? & -> & -> & _).
  apply address_is_app in Hi as [_ Hi]. bind_step H as a H1. apply address_is_app in Hi as [Hi1 Hi].
  pose proof H1 as H1'. apply (my_ipaddr_run my_addr) in H1' as ->; [|done|done].
  exec_step H1 as nl. destruct Hi1 as [-> _]. exec_step H1 as z. destruct H1 as [-> _].
  bind_step H as b1 H1. destruct H1 as (b' & ? & -> & -> & [= ->]).
  bind_step H as l1 H1. destruct H1 as (l1' & ? & -> & -> & [= ->]).
  do 2 apply address_is_app in Hi as [_ Hi]. cbn [app] in *.
  cbn in Mb, Ml. injection Mb as -> _. injection Ml as -> _. destruct l as [st|].
  - bind_step H as [st' ob] H1. apply address_is_app in Hi as [Hi _].
    pose proof (no_mutex_manage jobs_seen _ _ _ _ _ _ H1) as Hn.
    apply (manage_state_deeds my_addr) in H1 as (e & He & Ht); [|done|done]. exec_steps H.
    unfold jobs_written in Ml'. cbn in Ml'. rewrite collect_app, Hn in Ml'. cbn in Ml'. injection Ml' as <-.
    exists st', e. split; [done|]. unfold elapsed_read, deeds in *. cbn. rewrite !collect_app, He. cbn. by rewrite !app_nil_r.
  - bind_step H as st H1. destruct H1 as (t & ? & -> & -> & [= ->]). bind_step H as [] H2.
    pose proof (no_mutex_send_ledger jobs_seen _ _ _ H2) as Hn. apply announce_deeds in H2. exec_steps H.
    unfold jobs_written in Ml'. cbn in Ml'. rewrite collect_app, Hn in Ml'. cbn in Ml'. injection Ml' as <-.
    exists t. split; [done|]. split; [done|]. unfold deeds in *. cbn. rewrite collect_app. cbn. by rewrite app_nil_r.
Qed.
End turn.

(** ** A concrete turn *)

(** The owner prints the job it has, says so twice, and sends the ledger three times to the other machine. *)
Lemma manage_turn_witness :
  let tr := run_trace demo_h demo_manage (demo_peer []) in
  exec demo_manage tr (Done false) /\ length (deeds tr) = 13%nat /\
  exists b l l', mutex_log tr b l l' /\
    match l with
    | None => exists t, l' = Some (mkLedgerState (mkLedger (demo_addr 5) jobs_new) t) /\ false = true /\
                        sends 3 (Payload_Ledger (mkLedger (demo_addr 5) jobs_new)) (deeds tr)
    | Some st => exists st' e, l' = Some st' /\ elapsed_read tr = [e] /\
                   turn_deeds (demo_addr 5) b st true e (deeds tr) st' false
    end.
Proof.
  assert (E : exec demo_manage (run_trace demo_h demo_manage (demo_peer [])) (Done false)) by by_run.
  split; [exact E|]. split; [vm_compute; reflexivity|].
  apply (manage_turn (L := ref_vendor_laws) (demo_addr 5) true); [|by_eval|exact E].
  apply addr_wf_bounds. by_eval.
Defined.
