(* ===== verification/Ring.v ===== *)
(** * The ring the ledger travels on

    [next_owner] on its own, and then repeatedly: on a network whose machines share the first
    three octets and know each other, the ledger visits every machine. *)

From S2P Require Import Prelude Prog Net Vendor Data Ffi Env Ledger.

(** ** One step *)

(** The state of the loop over the address book after some keys: no closer machine
    above [my_addr] was seen than the one recorded. *)
Definition turn_inv (my_addr : Ipv4Addr) (keys : list Ipv4Addr) (acc : Ipv4Addr * Z) : Prop :=
  (acc.2 = u8_max /\ forall c, c ∈ keys -> oct3 c <= oct3 my_addr) \/
  (acc.1 ∈ keys /\ acc.2 = oct3 acc.1 - oct3 my_addr /\ 0 < acc.2 < u8_max /\
   forall c, c ∈ keys -> oct3 my_addr < oct3 c -> oct3 acc.1 <= oct3 c).

Lemma next_turn_inv my_addr keys acc addr :
  oct3 addr - oct3 my_addr < u8_max -> turn_inv my_addr keys acc ->
  turn_inv my_addr (keys ++ [addr]) (next_turn my_addr acc addr).
Proof.
  intros Hd Hinv. destruct acc as [a n]. unfold next_turn, saturating_sub. unfold turn_inv in Hinv. cbn [fst snd] in Hinv.
  rewrite Z.gtb_ltb. unfold turn_inv. setoid_rewrite elem_of_app. setoid_rewrite list_elem_of_singleton.
  destruct (Z.ltb_spec 0 (Z.max 0 (oct3 addr - oct3 my_addr))) as [Hp|Hp];
    destruct (Z.ltb_spec (Z.max 0 (oct3 addr - oct3 my_addr)) n) as [Hn|Hn]; cbn [andb fst snd].
  - right. split; [by right|]. split; [lia|]. split; [lia|]. intros c [Hc| ->] Hm; [|lia].
    destruct Hinv as [[_ Hall]|(_ & -> & _ & Hall)]; [specialize (Hall c Hc); lia|].
    cbn [fst snd] in *. specialize (Hall c Hc Hm). lia.
  - destruct Hinv as [[-> Hall]|(Hin & -> & Hr & Hall)]; cbn [fst snd] in *; [lia|].
    right. split; [by left|]. split; [done|]. split; [done|]. intros c [Hc| ->] Hm; [by apply Hall|lia].
  - destruct Hinv as [[-> Hall]|(Hin & -> & Hr & Hall)]; cbn [fst snd] in *.
    + left. split; [done|]. intros c [Hc| ->]; [by apply Hall|lia].
    + right. split; [by left|]. split; [done|]. split; [done|]. intros c [Hc| ->] Hm; [by apply Hall|lia].
  - destruct Hinv as [[-> Hall]|(Hin & -> & Hr & Hall)]; cbn [fst snd] in *; [unfold u8_max in *; lia|].
    right. split; [by left|]. split; [done|]. split; [done|]. intros c [Hc| ->] Hm; [by apply Hall|lia].
Qed.

Lemma foldl_turn_inv my_addr keys :
  (forall c, c ∈ keys -> oct3 c - oct3 my_addr < u8_max) ->
  turn_inv my_addr keys (foldl (next_turn my_addr) (mkAddr 255 255 255 255, u8_max) keys).
Proof.
  induction keys as [|c keys IH] using rev_ind; intros Hd.
  - left. split; [done|]. by intros c Hc%elem_of_nil.
  - rewrite foldl_snoc. apply next_turn_inv; [apply Hd, elem_of_app; right; by left|].
    apply IH. intros d Hin. apply Hd, elem_of_app. by left.
Qed.

(** The closest machine above, or the lowest of all when there is none above. *)
(** The next owner is always a known machine. *)
Lemma next_owner_in my_addr keys next : next_owner my_addr keys = Some next -> next ∈ keys.
Proof.
  unfold next_owner. assert (forall acc, foldl (next_turn my_addr) acc keys = acc \/
    (foldl (next_turn my_addr) acc keys).1 ∈ keys) as Hf.
  { induction keys as [|c keys IH]; intros acc; [by left|]. cbn [foldl].
    destruct (IH (next_turn my_addr acc c)) as [E|Hin]; [|right; by right]. rewrite E. unfold next_turn.
    destruct acc as [a n]. destruct (_ && _); [right; by left|by left]. }
  destruct (Hf (mkAddr 255 255 255 255, u8_max)) as [->|Hin]; [by apply addr_min_in|].
  destruct (foldl _ _ _) as [a n]. destruct (_ && _); [by intros [= <-]|by apply addr_min_in].
Qed.

Lemma next_owner_run my_addr keys next :
  (forall c, c ∈ keys -> oct3 c - oct3 my_addr < u8_max) -> next_owner my_addr keys = Some next ->
  next ∈ keys /\
  ((exists c, c ∈ keys /\ oct3 my_addr < oct3 c) ->
     oct3 my_addr < oct3 next /\ forall c, c ∈ keys -> oct3 my_addr < oct3 c -> oct3 next <= oct3 c) /\
  ((forall c, c ∈ keys -> oct3 c <= oct3 my_addr) -> addr_min keys = Some next).
Proof.
  intros Hd H. pose proof (foldl_turn_inv my_addr keys Hd) as Hinv. unfold next_owner in H.
  destruct (foldl _ _ keys) as [a n]. unfold turn_inv in Hinv; cbn in Hinv. rewrite Z.gtb_ltb in H.
  destruct Hinv as [[-> Hall]|(Hin & -> & Hr & Hall)].
  - change ((0 <? u8_max) && (u8_max <? u8_max)) with false in H. split; [by apply addr_min_in|].
    split; [intros (c & Hc & Hm); specialize (Hall c Hc); lia|done].
  - rewrite (proj2 (Z.ltb_lt _ _)), (proj2 (Z.ltb_lt _ _)) in H by lia. injection H as <-.
    split; [done|]. split; [intros _; split; [lia|done]|]. intros Hle. specialize (Hle a Hin). lia.
Qed.

(** The next owner is the known machine with the closest higher last octet, and
    when the owner is the highest, the machine with the lowest address. *)
Theorem next_owner_spec my_addr keys next :
  (forall c, c ∈ keys -> oct3 c - oct3 my_addr < u8_max) -> next_owner my_addr keys = Some next ->
  next ∈ keys /\
  ((exists c, c ∈ keys /\ oct3 my_addr < oct3 c) ->
     oct3 my_addr < oct3 next /\ forall c, c ∈ keys -> oct3 my_addr < oct3 c -> oct3 next <= oct3 c) /\
  ((forall c, c ∈ keys -> oct3 c <= oct3 my_addr) -> addr_min keys = Some next).
Proof. apply next_owner_run. Qed.

(** ** The ring *)

Section ring.
(** The machines, all on one /24 network with host numbers that are neither zero nor
    broadcast, and what each has in its address book: the others, in any order. *)
Context (M : list Ipv4Addr) (books : Ipv4Addr -> list Ipv4Addr) (p0 p1 p2 : Z).
Hypothesis Hnet : forall a, a ∈ M -> exists h, a = mkAddr p0 p1 p2 h /\ 0 < h < 255.
Hypothesis Hpre : is_byte p0 /\ is_byte p1 /\ is_byte p2.
Hypothesis Hbooks : forall a x, a ∈ M -> x ∈ books a <-> x ∈ M /\ x <> a.

Definition succ (a : Ipv4Addr) : Ipv4Addr := default a (next_owner a (books a)).

Lemma same_host a b : a ∈ M -> b ∈ M -> oct3 a = oct3 b -> a = b.
Proof. intros (h & -> & _)%Hnet (h' & -> & _)%Hnet. by intros [= ->]. Qed.

Lemma member_wf a : a ∈ M -> addr_wf a.
Proof.
  intros (h & -> & Hh)%Hnet. destruct Hpre as (H0 & H1 & H2). apply addr_wf_bounds. cbn.
  split_and!; try done. unfold is_byte. lia.
Qed.

Lemma books_gap a : a ∈ M -> forall c, c ∈ books a -> oct3 c - oct3 a < u8_max.
Proof.
  intros Ha c [Hc _]%Hbooks; [|done]. destruct (Hnet a Ha) as (h & -> & Hh), (Hnet c Hc) as (h' & -> & Hh').
  unfold u8_max. cbn. lia.
Qed.

(** The ring goes up to the next machine, or back to the lowest. *)
Lemma succ_up a c :
  a ∈ M -> c ∈ M -> oct3 a < oct3 c -> succ a ∈ M /\ oct3 a < oct3 (succ a) <= oct3 c.
Proof.
  intros Ha Hc Hlt. assert (c ∈ books a) as Hcb by (apply Hbooks; [done|]; split; [done|intros ->; lia]).
  unfold succ. destruct (next_owner a (books a)) as [n|] eqn:En.
  - apply next_owner_run in En as (Hin & Hup & _); [|by apply books_gap]. cbn.
    destruct Hup as [H1 H2]; [by exists c|]. apply Hbooks in Hin as [Hin _]; [|done].
    split; [done|]. split; [done|]. by apply H2.
  - unfold next_owner in En. destruct (foldl _ _ _) as [? ?]. destruct (_ && _); [done|].
    apply addr_min_none in En. rewrite En in Hcb. by apply elem_of_nil in Hcb.
Qed.

Lemma succ_wrap a c :
  a ∈ M -> (forall x, x ∈ M -> oct3 x <= oct3 a) -> c ∈ M -> c <> a ->
  succ a ∈ M /\ oct3 (succ a) <= oct3 c.
Proof.
  intros Ha Hmax Hc Hne. assert (c ∈ books a) as Hcb by (apply Hbooks; [done|]; split; done).
  unfold succ. destruct (next_owner a (books a)) as [n|] eqn:En.
  - apply next_owner_run in En as (Hin & _ & Hwrap); [|by apply books_gap]. cbn.
    assert (addr_min (books a) = Some n) as Hm.
    { apply Hwrap. intros x [Hx _]%Hbooks; [|done]. by apply Hmax. }
    apply (addr_min_le _ _ c) in Hm; [|apply Forall_forall; intros x [Hx _]%Hbooks; [by apply member_wf|done]|done].
    apply Hbooks in Hin as [Hin _]; [|done]. split; [done|].
    destruct (Hnet n Hin) as (h & -> & _), (Hnet c Hc) as (h' & -> & _). unfold to_bits in Hm. cbn in *. lia.
  - unfold next_owner in En. destruct (foldl _ _ _) as [? ?]. destruct (_ && _); [done|].
    apply addr_min_none in En. rewrite En in Hcb. by apply elem_of_nil in Hcb.
Qed.

(** Machines with a host number in a range. *)
Definition between (lo hi : Z) : list Ipv4Addr := filter (fun c => lo < oct3 c <= hi) M.

Lemma between_step a b :
  a ∈ M -> oct3 a < oct3 (succ a) -> succ a ∈ M -> oct3 (succ a) <= oct3 b ->
  (length (between (oct3 (succ a)) (oct3 b)) < length (between (oct3 a) (oct3 b)))%nat.
Proof.
  intros Ha Hlt Hin Hle. unfold between. generalize dependent (succ a). intros s Hlt Hin Hle.
  clear Hnet Hbooks Ha. induction M as [|x l IH]; [by apply elem_of_nil in Hin|].
  rewrite !filter_cons. apply elem_of_cons in Hin as [->|Hin].
  - rewrite decide_False by lia. rewrite decide_True by lia. cbn [length]. apply Nat.lt_succ_r.
    clear IH. induction l as [|y l IH]; [done|]. rewrite !filter_cons.
    repeat case_decide; cbn [length]; lia.
  - specialize (IH Hin). repeat case_decide; cbn [length]; lia.
Qed.

Lemma climb n a b :
  a ∈ M -> b ∈ M -> oct3 a <= oct3 b -> (length (between (oct3 a) (oct3 b)) <= n)%nat ->
  exists k, (k <= n)%nat /\ Nat.iter k succ a = b.
Proof.
  revert a. induction n as [|n IH]; intros a Ha Hb Hle Hn.
  - exists 0%nat. split; [done|]. apply same_host; [done|done|]. destruct (Z.eq_dec (oct3 a) (oct3 b)) as [|Hne]; [done|].
    exfalso. assert (b ∈ between (oct3 a) (oct3 b)) as Hin by (apply list_elem_of_filter; split; [lia|done]).
    destruct (between _ _); [by apply elem_of_nil in Hin|cbn in Hn; lia].
  - destruct (Z.eq_dec (oct3 a) (oct3 b)) as [E|Hne].
    + exists 0%nat. split; [lia|]. by apply same_host.
    + destruct (succ_up a b Ha Hb) as [Hs [Hlt Hle']]; [lia|].
      pose proof (between_step a b Ha Hlt Hs Hle').
      destruct (IH (succ a) Hs Hb Hle') as (k & Hk & E); [lia|].
      exists (S k). split; [lia|]. by rewrite Nat.iter_succ_r.
Qed.

(** Two disjoint parts of the machines and one more. *)
Lemma disjoint_parts (P Q : Ipv4Addr -> Prop) `{!forall x, Decision (P x), !forall x, Decision (Q x)} a :
  (forall x, P x -> Q x -> False) -> a ∈ M -> ~ P a -> ~ Q a ->
  (length (filter P M) + length (filter Q M) + 1 <= length M)%nat.
Proof.
  intros Hd Hin Ha Hb. clear Hnet Hbooks. revert Hin. induction M as [|x l IH]; intros Hin; [by apply elem_of_nil in Hin|].
  assert (Hle : (length (filter P l) + length (filter Q l) <= length l)%nat).
  { clear IH Hin. induction l as [|y l IH]; [done|]. rewrite !filter_cons.
    repeat case_decide; cbn [length] in *; try lia. by destruct (Hd y). }
  rewrite !filter_cons. apply elem_of_cons in Hin as [->|Hin].
  - rewrite !decide_False by done. cbn [length]. lia.
  - specialize (IH Hin). repeat case_decide; cbn [length]; try lia. by destruct (Hd x).
Qed.

Lemma highest a : a ∈ M -> exists m, m ∈ M /\ forall x, x ∈ M -> oct3 x <= oct3 m.
Proof.
  clear Hnet Hbooks. revert a. induction M as [|x l IH]; intros a Ha; [by apply elem_of_nil in Ha|].
  destruct l as [|y l].
  - exists x. split; [by left|]. intros z Hz%list_elem_of_singleton. by subst.
  - destruct (IH y) as (m & Hm & Hmax); [by left|]. destruct (Z.le_gt_cases (oct3 x) (oct3 m)) as [H|H].
    + exists m. split; [by right|]. intros z [->|Hz]%elem_of_cons; [done|by apply Hmax].
    + exists x. split; [by left|]. intros z [->|Hz]%elem_of_cons; [lia|]. specialize (Hmax z Hz). lia.
Qed.

Lemma ring_visits_run a b : a ∈ M -> b ∈ M -> exists k, (k <= length M)%nat /\ Nat.iter k succ a = b.
Proof.
  intros Ha Hb. destruct (Z.le_gt_cases (oct3 a) (oct3 b)) as [Hle|Hgt].
  - destruct (climb (length M) a b Ha Hb Hle) as (k & Hk & E); [apply length_filter|]. by exists k.
  - destruct (highest a Ha) as (m & Hm & Hmax).
    assert (b <> m) as Hbm by (intros ->; specialize (Hmax a Ha); lia).
    destruct (succ_wrap m b Hm Hmax Hb Hbm) as [Hs Hsb].
    destruct (climb _ a m Ha Hm (Hmax a Ha) (le_n _)) as (k1 & Hk1 & E1).
    destruct (climb _ (succ m) b Hs Hb Hsb (le_n _)) as (k2 & Hk2 & E2).
    exists (k2 + S k1)%nat. rewrite Nat.iter_add.
    change (Nat.iter (S k1) succ a) with (succ (Nat.iter k1 succ a)). rewrite E1, E2. split; [|done].
    assert (length (between (oct3 a) (oct3 m)) + length (between (oct3 (succ m)) (oct3 b)) + 1 <= length M)%nat.
    { apply disjoint_parts with a; [intros x; lia|done|lia|lia]. }
    lia.
Qed.
End ring.

(** The ledger reaches everybody: passed on by [next_owner] from any machine, it gets to
    any other in at most as many steps as there are machines, whatever the order of the address
    books. *)
Theorem ring_visits M books p0 p1 p2 a b :
  (forall x, x ∈ M -> exists h, x = mkAddr p0 p1 p2 h /\ 0 < h < 255) ->
  is_byte p0 /\ is_byte p1 /\ is_byte p2 ->
  (forall x y, x ∈ M -> y ∈ books x <-> y ∈ M /\ y <> x) ->
  a ∈ M -> b ∈ M ->
  exists k, (k <= length M)%nat /\ Nat.iter k (succ books) a = b.
Proof. intros Hnet Hpre Hbooks. exact (ring_visits_run M books p0 p1 p2 Hnet Hpre Hbooks a b). Qed.

(** ** A ring of three *)

Definition demo_ring : list Ipv4Addr := [demo_addr 9; demo_addr 5; demo_addr 7].
Definition demo_books (a : Ipv4Addr) : list Ipv4Addr := filter (fun x => x <> a) demo_ring.

Lemma next_owner_spec_witness :
  demo_addr 7 ∈ [demo_addr 9; demo_addr 7] /\
  ((exists c, c ∈ [demo_addr 9; demo_addr 7] /\ oct3 (demo_addr 5) < oct3 c) ->
     oct3 (demo_addr 5) < oct3 (demo_addr 7) /\
     forall c, c ∈ [demo_addr 9; demo_addr 7] -> oct3 (demo_addr 5) < oct3 c -> oct3 (demo_addr 7) <= oct3 c) /\
  ((forall c, c ∈ [demo_addr 9; demo_addr 7] -> oct3 c <= oct3 (demo_addr 5)) ->
     addr_min [demo_addr 9; demo_addr 7] = Some (demo_addr 7)).
Proof.
  apply (next_owner_spec (demo_addr 5) [demo_addr 9; demo_addr 7] (demo_addr 7)); [|reflexivity].
  intros c Hc. rewrite !elem_of_cons in Hc. unfold u8_max. destruct Hc as [->|[->|Hc]]; [by cbn|by cbn|].
  by apply elem_of_nil in Hc.
Defined.

Lemma ring_visits_witness :
  exists k, (k <= length demo_ring)%nat /\ Nat.iter k (succ demo_books) (demo_addr 7) = demo_addr 5.
Proof.
  apply (ring_visits demo_ring demo_books 10 0 0).
  - intros x Hx. unfold demo_ring in Hx. rewrite !elem_of_cons in Hx.
    destruct Hx as [->|[->|[->|Hx]]]; [by exists 9|by exists 5|by exists 7|by apply elem_of_nil in Hx].
  - by_eval.
  - intros x y _. unfold demo_books. rewrite list_elem_of_filter. tauto.
  - by right; right; left.
  - by right; left.
Defined.
