(* ===== verification/Network.v ===== *)
(** * Machines on a network

    Several machines, the datagrams between them, and the steps that concern the ledger: a turn of
    [manage_ledger], an upload that ends, a message that is received or lost.  Each step
    is a run of the code of one machine, against the ledger that machine holds.  From these: the
    ledger is a token, and a job that was printed is not printed again.

    A turn holds both mutexes from its start to its end, and the other steps lock the ledger once, so
    they are atomic ([Device.v] and [Critical.v] show it of the running machine).  The copies of a message count as one ([repeats_ignored] of [Receiver.v]).
    Turns in which a machine creates a ledger or takes a stuck one over are left out: they make
    a second token when the first is still there. *)

From stdpp Require Import functions.
From S2P Require Import Prelude Prog Text Net Vendor VendorRef Data Ffi Env Lwip Pbuf Tcp Udp Fs Rng Messages.
From S2P Require Import Observe Wire Upload Owns Marlin Receiver Ledger Ring.

(** ** Where an upload ends *)

Section append.
Context `{V : Vendor} {L : VendorLaws V} `{SM : Serialize Message}.

Definition owned_by (a : Ipv4Addr) (found : option LedgerState) : bool :=
  match found with Some st => bool_decide (a = owner (ledger st)) | None => false end.

(** The ledger that a new job leaves on the machine with address [a]. *)
Definition append_result (a : Ipv4Addr) (g : Uuid) (found : option LedgerState) : option LedgerState :=
  if owned_by a found then (fun st => set_jobs st (jobs_insert g (jobs (ledger st))).1) <$> found else found.

Definition append_log (a : Ipv4Addr) (g : Uuid) (b : Book) (found : option LedgerState) (tr : trace) : Prop :=
  books_found tr = [b] /\ jobs_found tr = [found] /\ jobs_written tr = [append_result a g found] /\
  if owned_by a found || book_is_empty b then datagrams tr = []
  else exists id, copies 3 (mkMessage id (Payload_NewJob (mkNewJob g))) (datagrams tr).

(** The end of [append_to_ledger], after both mutexes were given back. *)
Lemma append_end (owned empty : bool) g tr :
  exec (if negb owned && negb empty then send_new_job_alert g else Ret tt) tr (Done tt) ->
  books_found tr = [] /\ jobs_found tr = [] /\ jobs_written tr = [] /\
  if owned || empty then datagrams tr = []
  else exists id, copies 3 (mkMessage id (Payload_NewJob (mkNewJob g))) (datagrams tr).
Proof.
  destruct owned; [by intros [-> _]|]. destruct empty; [by intros [-> _]|]. cbn [negb andb orb]. intros H.
  pose proof (no_mutex_new_job book_found_seen g _ _ H). pose proof (no_mutex_new_job jobs_found_seen g _ _ H).
  pose proof (no_mutex_new_job jobs_seen g _ _ H). pose proof (send_new_job_run _ _ H). done.
Qed.

Lemma append_run a g tr :
  addr_wf a -> address_is a tr -> exec (append_to_ledger g) tr (Done tt) ->
  exists b found, append_log a g b found tr.
Proof.
  intros Ha Hi H. unfold append_to_ledger in H. exec_step H as b. exec_step H as u. exec_step H as found.
  destruct Hi as (_ & _ & _ & Hi). exists b, found.
  apply exec_bind_done in H as ([guard own] & tr1 & tr2 & -> & H1 & H). apply address_is_app in Hi as [Hi _].
  exec_step H as u'. apply append_end in H as (Hbf & Hjf & Hj & Hd).
  assert (own = owned_by a found /\ guard = append_result a g found /\ books_found tr1 = [] /\ jobs_found tr1 = [] /\
    jobs_written tr1 = [] /\ datagrams tr1 = []) as (-> & -> & Hbf1 & Hjf1 & Hj1 & Hd1).
  { unfold append_result, owned_by. destruct found as [st|]; [|destruct H1 as [-> [= -> ->]]; done].
    exec_step H1 as n. destruct Hi as [-> Hi]. exec_step H1 as z. destruct Hi as [-> _].
    unfold from_be, to_be in H1. rewrite swap_bytes32_involutive, from_to_bits in H1 by by try apply to_bits_fits.
    unfold set_jobs.
    case_decide as Ho; [rewrite bool_decide_eq_true_2 by done|rewrite bool_decide_eq_false_2 by done].
    - cbn [fmap option_fmap option_map]. destruct (jobs_insert g (jobs (ledger st))) as [js r]. destruct H1 as [-> [= -> ->]]. done.
    - destruct H1 as [-> [= -> ->]]. done. }
  unfold append_log, books_found, jobs_found, jobs_written, datagrams in *. cbn.
  rewrite !collect_app, Hbf1, Hjf1, Hj1, Hd1. cbn. rewrite Hbf, Hjf, Hj. done.
Qed.

(** The end of an upload. A machine that owns the ledger puts the job on it and
    sends nothing; any other leaves its ledger as it is and announces the job to the network,
    unless its address book is empty: then the job is on no ledger at all. *)
Theorem append_effect a g tr :
  addr_wf a -> address_is a tr -> exec (append_to_ledger g) tr (Done tt) ->
  exists b found, append_log a g b found tr.
Proof. apply append_run. Qed.
End append.

(** ** The network *)

Section network.
Context `{V : Vendor} {L : VendorLaws V} `{SM : Serialize Message, DM : Deserialize Message} {W : WireLaws}.

(** What a machine keeps for the ledger between the steps: the content of the mutex, and
    [observed_ownership]. *)
Record Machine : Type := mkMachine { m_jobs : option LedgerState; m_observed : bool }.

(** The datagrams in flight, with the machine each is going to. *)
Record Network : Type := mkNetwork { machines : Ipv4Addr -> Machine; flight : list (Ipv4Addr * bytes) }.

(** Broadcasting [ds] from [a] puts at most one copy per receiver in flight, for any set of
    receivers other than [a]. *)
Definition delivered (a : Ipv4Addr) (ds : list (Z * Z * bytes)) (sent : list (Ipv4Addr * bytes)) : Prop :=
  NoDup sent /\ forall b d, (b, d) ∈ sent -> b <> a /\ exists q, q ∈ ds /\ q.2 = d.

(** The steps: a turn of the ledger task, with the commands it sent; the end of an upload; any other message;
    the reception of a datagram; its loss. *)
Inductive net_event : Type :=
  | Managed (a : Ipv4Addr) (cmds : list (bytes * bool))
  | Uploaded (a : Ipv4Addr) (g : Uuid)
  | Talked (a : Ipv4Addr)
  | Received (a : Ipv4Addr) (p : Payload)
  | Lost.

Inductive net_step (N : Network) : net_event -> Network -> Prop :=
  | Step_managed a b st st' tr o' sent :
      addr_wf a -> address_is a tr -> a ∉ book_keys b ->
      m_jobs (machines N a) = Some st -> Forall (fun e => e <= 45000) (elapsed_read tr) ->
      exec (manage_ledger_step (m_observed (machines N a))) tr (Done o') ->
      mutex_log tr b (Some st) (Some st') -> delivered a (datagrams tr) sent ->
      net_step N (Managed a (gcode tr)) (mkNetwork (<[a := mkMachine (Some st') o']> (machines N)) (sent ++ flight N))
  | Step_uploaded a g tr l' sent :
      addr_wf a -> address_is a tr -> exec (append_to_ledger g) tr (Done tt) ->
      jobs_found tr = [m_jobs (machines N a)] -> jobs_written tr = [l'] -> delivered a (datagrams tr) sent ->
      net_step N (Uploaded a g)
        (mkNetwork (<[a := mkMachine l' (m_observed (machines N a))]> (machines N)) (sent ++ flight N))
  | Step_talked a p tr sent :
      p = send_heartbeat \/ (exists s, len s <= 16000 /\ p = send_log s) ->
      exec p tr (Done tt) -> delivered a (datagrams tr) sent ->
      net_step N (Talked a) (mkNetwork (machines N) (sent ++ flight N))
  | Step_received a d fl m h src tr h' :
      flight N ≡ₚ (a, d) :: fl -> from_bytes d = Some m -> exec (handle_message h src m) tr (Done h') ->
      Forall (eq (m_jobs (machines N a))) (jobs_found tr) ->
      net_step N (Received a (msg_payload m))
        (mkNetwork (<[a := mkMachine (default (m_jobs (machines N a)) (last (jobs_written tr)))
                             (m_observed (machines N a))]> (machines N)) fl)
  | Step_lost x fl : flight N ≡ₚ x :: fl -> net_step N Lost (mkNetwork (machines N) fl).

(** A turn of [Step_managed] with its trace and the address book it found. *)
Inductive managed_with (N : Network) (a : Ipv4Addr) (b : Book) (tr : trace) : Network -> Prop :=
  | Managed_with st st' o' sent :
      addr_wf a -> address_is a tr -> a ∉ book_keys b ->
      m_jobs (machines N a) = Some st -> Forall (fun e => e <= 45000) (elapsed_read tr) ->
      exec (manage_ledger_step (m_observed (machines N a))) tr (Done o') ->
      mutex_log tr b (Some st) (Some st') -> delivered a (datagrams tr) sent ->
      managed_with N a b tr (mkNetwork (<[a := mkMachine (Some st') o']> (machines N)) (sent ++ flight N)).

Lemma managed_with_step N a b tr N' : managed_with N a b tr N' -> net_step N (Managed a (gcode tr)) N'.
Proof. destruct 1. by eapply Step_managed. Qed.

Inductive net_run (N : Network) : list net_event -> Network -> Prop :=
  | Run_nil : net_run N [] N
  | Run_cons e es N' N'' : net_step N e N' -> net_run N' es N'' -> net_run N (e :: es) N''.

(** *** Datagrams in flight *)

Definition payload_of (d : bytes) : option Payload := msg_payload <$> from_bytes d.

(** The ledger a datagram brings to the machine that is to own it. *)
Definition grants (x : Ipv4Addr * bytes) : option Ledger :=
  match payload_of x.2 with
  | Some (Payload_Ledger l) => if decide (owner l = x.1) then Some l else None
  | _ => None
  end.

Lemma copies_payload n m ds q :
  text_length (msg_payload m) <= 16000 -> copies n m ds -> q ∈ ds ->
  encoding m = Some q.2 /\ exists p, payload_of q.2 = Some p /\ same_payload (msg_payload m) p.
Proof.
  intros Ht [->|(d & k & He & _ & ->)] Hq; [by apply elem_of_nil in Hq|].
  apply elem_of_replicate in Hq as [-> _]. split; [done|].
  destruct (encoding_received m d Ht He) as (m' & Hm & _ & Hp). exists (msg_payload m').
  unfold payload_of. cbn. by rewrite Hm.
Qed.

(** What a broadcast that is no ledger puts in flight. *)
Definition mute (x : Ipv4Addr * bytes) : Prop := grants x = None.

Lemma same_payload_mute p q a d :
  payload_of d = Some q -> same_payload p q -> (forall l, p <> Payload_Ledger l) -> grants (a, d) = None.
Proof. intros Hd Hp Hn. unfold grants. cbn. rewrite Hd. destruct q as [| |l|]; try done. destruct p; try done. by edestruct Hn. Qed.

Lemma sent_mute a n m ds sent :
  text_length (msg_payload m) <= 16000 -> (forall l, msg_payload m <> Payload_Ledger l) ->
  copies n m ds -> delivered a ds sent -> Forall mute sent.
Proof.
  intros Ht Hn Hc [_ Hs]. apply Forall_forall. intros [b d] Hin. apply Hs in Hin as (_ & q & Hq & <-).
  destruct (copies_payload n m ds q Ht Hc Hq) as (_ & p & Hp & Hsp). by eapply same_payload_mute.
Qed.

Lemma mute_grants xs : Forall mute xs -> omap grants xs = [].
Proof. induction 1 as [|x xs Hx _ IH]; [done|]. unfold mute in Hx. cbn. by rewrite Hx. Qed.

(** If one element only can be mapped, at most one is. *)
Lemma omap_one {A B} (f : A -> option B) (P : B -> Prop) x0 xs :
  NoDup xs -> (forall x y, x ∈ xs -> f x = Some y -> x = x0 /\ P y) ->
  omap f xs = [] \/ exists y, omap f xs = [y] /\ P y /\ x0 ∈ xs.
Proof.
  induction 1 as [|x xs Hx _ IH]; intros Hf; [by left|].
  destruct IH as [E|(y & E & Hy & Hin)]; [intros x' y Hx'; apply Hf; by right| |];
    cbn; destruct (f x) as [z|] eqn:Ez; rewrite ?E.
  - right. destruct (Hf x z) as [-> Hz]; [by left|done|]. exists z. split; [done|]. split; [done|]. by left.
  - by left.
  - destruct (Hf x z) as [-> _]; [by left|done|]. done.
  - right. exists y. split; [done|]. split; [done|]. by right.
Qed.

(** The datagrams of a turn in which the owner acted: one of them, at most, grants the ledger. *)
Lemma acted_grants a js cmds ds1 js' l ds2 sent :
  jobs_log js cmds ds1 js' -> announced l ds2 -> delivered a (ds1 ++ ds2) sent ->
  omap grants sent = [] \/ exists l', omap grants sent = [l'] /\ same_ledger l l' /\ owner l <> a.
Proof.
  intros Hj (id & Ha) [Hn Hs]. set (m := mkMessage id (Payload_Ledger l)) in *.
  assert (forall q, q ∈ ds1 -> forall b, grants (b, q.2) = None) as Hm.
  { intros q Hq b. destruct Hj as [(_ & -> & _)|(g & r & _ & _ & Hr)]; [by apply elem_of_nil in Hq|].
    destruct (is_ok r); [|destruct Hr as [-> _]; by apply elem_of_nil in Hq]. destruct Hr as [[id' Hc] _].
    eapply copies_payload in Hc as (_ & p & Hp & Hsp); [| |exact Hq]; [by eapply same_payload_mute|].
    cbn. unfold accepted_text. rewrite len_app, uuid_display_length. by apply (bool_decide_unpack _). }
  edestruct (omap_one grants (fun l' => same_ledger l l') (owner l, default [] (encoding m)) sent Hn)
    as [E|(l' & E & Hl & Hin)]; [|by left|].
  - intros [b d] l' Hin Hg. apply Hs in Hin as (_ & q & Hq & <-). apply elem_of_app in Hq as [Hq|Hq].
    { by rewrite Hm in Hg. }
    eapply copies_payload in Ha as (He & p & Hp & Hsp); [| |exact Hq]; [|cbn; lia]. rewrite He. cbn.
    unfold grants in Hg. cbn in Hg. rewrite Hp in Hg. destruct p as [| |k|]; try done.
    case_decide as Ho; simplify_eq. destruct Hsp as [Ho' Hj']. by rewrite Ho'.
  - right. exists l'. split; [done|]. split; [done|]. by apply Hs in Hin as [? _].
Qed.

(** *** The token *)

(** Where the ledger is: with its owner, on the way to it, or lost. *)
Inductive token : Type :=
  | At (a : Ipv4Addr) (l : Ledger)
  | Under_way (l : Ledger)
  | Gone.

(** What a turn does to the jobs, with the commands it sends. *)
Definition works (js : JobSet) (cmds : list (bytes * bool)) (js' : JobSet) : Prop :=
  (cmds = [] /\ js' = js) \/
  (exists g r, g ∈ jobs_iter js /\ print_log g r cmds /\ js' = if is_ok r then (jobs_remove g js).1 else js).

Inductive token_step : token -> net_event -> token -> Prop :=
  | Token_rests t e : (forall a cmds, e = Managed a cmds -> cmds = []) -> token_step t e t
  | Token_kept a l cmds js :
      works (jobs l) cmds js -> token_step (At a l) (Managed a cmds) (At a (mkLedger a js))
  | Token_passed a l cmds js l' :
      works (jobs l) cmds js -> owner l' <> a -> (forall g, g ∈ jobs_iter (jobs l') <-> g ∈ jobs_iter js) ->
      token_step (At a l) (Managed a cmds) (Under_way l')
  | Token_missed a l cmds js : works (jobs l) cmds js -> token_step (At a l) (Managed a cmds) Gone
  | Token_uploaded a l g : token_step (At a l) (Uploaded a g) (At a (mkLedger a (jobs_insert g (jobs l)).1))
  | Token_announced a l g :
      token_step (At a l) (Received a (Payload_NewJob (mkNewJob g))) (At a (mkLedger a (jobs_insert g (jobs l)).1))
  | Token_arrived l : token_step (Under_way l) (Received (owner l) (Payload_Ledger l)) (At (owner l) l)
  | Token_dropped t e : (e = Lost \/ exists a p, e = Received a p) -> token_step t e Gone.

Inductive token_run : token -> list net_event -> token -> Prop :=
  | Token_nil t : token_run t [] t
  | Token_cons t e es t' t'' : token_step t e t' -> token_run t' es t'' -> token_run t (e :: es) t''.

(** The ledger of a machine that owns it. *)
Definition held_by (a : Ipv4Addr) (m : Machine) : option Ledger :=
  match m_jobs m with
  | Some st => if decide (owner (ledger st) = a) then Some (ledger st) else None
  | None => None
  end.

Definition held (N : Network) (a : Ipv4Addr) : option Ledger := held_by a (machines N a).

(** At most one machine owns its ledger, and then no datagram grants it. *)
Definition refines (N : Network) (t : token) : Prop :=
  match t with
  | At a l => held N a = Some l /\ (forall b, b <> a -> held N b = None) /\ omap grants (flight N) = []
  | Under_way l => (forall b, held N b = None) /\ omap grants (flight N) = [l]
  | Gone => (forall b, held N b = None) /\ omap grants (flight N) = []
  end.

Lemma held_update N a m fl b :
  held (mkNetwork (<[a := m]> (machines N)) fl) b = if decide (b = a) then held_by a m else held N b.
Proof.
  unfold held. cbn. case_decide as E; [subst; by rewrite fn_lookup_insert|]. by rewrite fn_lookup_insert_ne by auto.
Qed.

Lemma held_same N fl b : held (mkNetwork (machines N) fl) b = held N b.
Proof. done. Qed.

(** A step that neither changes what is held nor puts a grant in flight. *)
Lemma refines_rest N N' t :
  (forall b, held N' b = held N b) -> omap grants (flight N') = omap grants (flight N) -> refines N t -> refines N' t.
Proof.
  intros Hh Hf. destruct t as [a l|l|]; cbn; setoid_rewrite Hh; rewrite Hf; tauto.
Qed.

(** A step that only loses: what is held and what is granted becomes less. *)
Lemma refines_less N N' t :
  (forall b, held N' b = held N b \/ held N' b = None) ->
  omap grants (flight N') = omap grants (flight N) \/ omap grants (flight N') = [] ->
  refines N t -> refines N' t \/ refines N' Gone.
Proof.
  intros Hh Hf. destruct t as [a l|l|]; cbn.
  - intros (Ha & Hb & Hg). destruct (Hh a) as [E|E]; [left|right].
    + split; [by rewrite E|]. split; [|destruct Hf; congruence]. intros b Hne. destruct (Hh b) as [->|]; auto.
    + split; [|destruct Hf; congruence]. intros b. destruct (decide (b = a)) as [->|Hne]; [done|].
      destruct (Hh b) as [->|]; auto.
  - intros [Hb Hg]. destruct Hf as [E|E]; [left|right]; (split; [|congruence]);
      intros b; destruct (Hh b) as [->|]; auto.
  - intros [Hb Hg]. left. split; [|destruct Hf; congruence]. intros b. destruct (Hh b) as [->|]; auto.
Qed.

(** Taking a datagram out of flight. *)
Lemma grants_taken N x fl t :
  flight N ≡ₚ x :: fl -> refines N t ->
  match grants x with
  | Some l => t = Under_way l /\ omap grants fl = []
  | None => omap grants fl = omap grants (flight N)
  end.
Proof.
  intros Hp Ht. apply (omap_Permutation grants) in Hp. cbn in Hp.
  destruct (grants x) as [l|].
  - destruct t as [a k|k|]; cbn in Ht.
    + destruct Ht as (_ & _ & E). rewrite E in Hp. by apply Permutation_nil_cons in Hp.
    + destruct Ht as (_ & E). rewrite E in Hp. apply Permutation_singleton_l in Hp. by simplify_eq.
    + destruct Ht as (_ & E). rewrite E in Hp. by apply Permutation_nil_cons in Hp.
  - destruct t as [a k|k|]; cbn in Ht; destruct_and? Ht;
      match goal with E : omap grants (flight N) = _ |- _ => rewrite E in Hp |- * end;
      [by apply Permutation_nil_l in Hp|by apply Permutation_singleton_l in Hp|by apply Permutation_nil_l in Hp].
Qed.

Lemma step_talked N a p tr sent t :
  p = send_heartbeat \/ (exists s, len s <= 16000 /\ p = send_log s) ->
  exec p tr (Done tt) -> delivered a (datagrams tr) sent -> refines N t ->
  refines (mkNetwork (machines N) (sent ++ flight N)) t.
Proof.
  intros Hp H Hd. apply refines_rest; [done|]. cbn. rewrite omap_app, mute_grants; [done|].
  destruct Hp as [->|(s & Hs & ->)].
  - apply send_heartbeat_run in H as [id Hc]. by eapply sent_mute in Hc.
  - apply send_log_run in H as [id Hc]. by eapply sent_mute in Hc.
Qed.

Lemma refines_held N a l t : refines N t -> held N a = Some l -> t = At a l /\ owner l = a.
Proof.
  intros Ht Ha. assert (owner l = a) as Ho.
  { revert Ha. unfold held, held_by. destruct (m_jobs _) as [st|]; [|done]. case_decide; [|done]. by intros [= <-]. }
  split; [|done]. destruct t as [c k|k|]; cbn in Ht.
  - destruct Ht as (Hc & Hb & _). destruct (decide (a = c)) as [->|Hne]; [congruence|]. rewrite Hb in Ha; done.
  - destruct Ht as [Hb _]. by rewrite Hb in Ha.
  - destruct Ht as [Hb _]. by rewrite Hb in Ha.
Qed.

(** The holder replaces its ledger. *)
Lemma refines_replace N a l t m l' fl :
  refines N t -> held N a = Some l -> held_by a m = Some l' -> omap grants fl = omap grants (flight N) ->
  refines (mkNetwork (<[a := m]> (machines N)) fl) (At a l').
Proof.
  intros Ht Ha Hm Hf. destruct (refines_held _ _ _ _ Ht Ha) as [-> _]. destruct Ht as (_ & Hb & Hg).
  cbn. setoid_rewrite held_update. rewrite Hf. split; [by rewrite decide_True|]. split; [|done].
  intros b Hne. rewrite decide_False by done. auto.
Qed.

(** A machine's ledger changes, but not what it holds. *)
Lemma refines_unchanged N a t m fl :
  refines N t -> held_by a m = held N a -> omap grants fl = omap grants (flight N) ->
  refines (mkNetwork (<[a := m]> (machines N)) fl) t.
Proof.
  intros Ht Hm Hf. apply (refines_rest N); [|done|done]. intros b. rewrite held_update. by case_decide; subst.
Qed.

Lemma delivered_nil a sent : delivered a [] sent -> sent = [].
Proof.
  intros [_ Hs]. destruct sent as [|[b d] sent]; [done|]. destruct (Hs b d) as (_ & q & Hq & _); [by left|].
  by apply elem_of_nil in Hq.
Qed.

Lemma step_uploaded N a g tr l' sent t :
  addr_wf a -> address_is a tr -> exec (append_to_ledger g) tr (Done tt) ->
  jobs_found tr = [m_jobs (machines N a)] -> jobs_written tr = [l'] -> delivered a (datagrams tr) sent ->
  refines N t ->
  exists t', token_step t (Uploaded a g) t' /\
    refines (mkNetwork (<[a := mkMachine l' (m_observed (machines N a))]> (machines N)) (sent ++ flight N)) t'.
Proof.
  intros Ha Hi H Hf Hw Hd Ht. apply (append_run a) in H as (b & found & _ & Hf' & Hw' & Hds); [|done|done].
  rewrite Hf in Hf'. rewrite Hw in Hw'. simplify_eq.
  assert (omap grants (sent ++ flight N) = omap grants (flight N)) as Hg.
  { rewrite omap_app. destruct (owned_by a (m_jobs (machines N a)) || book_is_empty b).
    - rewrite Hds in Hd. by rewrite (delivered_nil _ _ Hd).
    - destruct Hds as [id Hc]. eapply sent_mute in Hc; [|by cbn|by cbn|exact Hd]. by rewrite mute_grants. }
  assert (held N a = held_by a (machines N a)) as Hh by done. unfold held_by in Hh. unfold append_result, owned_by.
  destruct (m_jobs (machines N a)) as [st|] eqn:Ej; cbn.
  - destruct (decide (owner (ledger st) = a)) as [Ho|Ho].
    + rewrite bool_decide_eq_true_2 by done. destruct (refines_held _ _ _ _ Ht Hh) as [-> _].
      eexists. split; [apply Token_uploaded|]. eapply refines_replace; [done|done| |done].
      unfold held_by, set_jobs. cbn. rewrite decide_True by done. by rewrite Ho.
    + rewrite bool_decide_eq_false_2 by auto. exists t. split; [by apply Token_rests|].
      apply refines_unchanged; [done| |done]. rewrite Hh. unfold held_by. cbn. by rewrite decide_False.
  - exists t. split; [by apply Token_rests|]. by apply refines_unchanged.
Qed.

Lemma jobs_log_works js cmds ds js' : jobs_log js cmds ds js' -> works js cmds js'.
Proof.
  intros [(-> & _ & ->)|(g & r & Hg & Hp & Hr)]; [by left|]. right. exists g, r. split; [done|]. split; [done|].
  destruct (is_ok r); by destruct Hr as [_ ->].
Qed.

Lemma step_managed N a b st st' tr o' sent t :
  addr_wf a -> address_is a tr -> a ∉ book_keys b ->
  m_jobs (machines N a) = Some st -> Forall (fun e => e <= 45000) (elapsed_read tr) ->
  exec (manage_ledger_step (m_observed (machines N a))) tr (Done o') ->
  mutex_log tr b (Some st) (Some st') -> delivered a (datagrams tr) sent -> refines N t ->
  exists t', token_step t (Managed a (gcode tr)) t' /\
    refines (mkNetwork (<[a := mkMachine (Some st') o']> (machines N)) (sent ++ flight N)) t'.
Proof.
  intros Ha Hi Hb Hj He H Hm Hd Ht.
  apply (manage_turn_run a) in H as (b1 & l1 & l1' & Hm1 & Hl); [|done|done].
  destruct Hm as (Hm2 & _ & Hm3 & Hm4), Hm1 as (Hm5 & _ & Hm6 & Hm7).
  rewrite Hm5 in Hm2. rewrite Hm6 in Hm3. rewrite Hm7 in Hm4. simplify_eq.
  destruct Hl as (st1 & e & [= <-] & Hel & Hl). rewrite Hel in He. apply Forall_inv in He.
  unfold turn_log, owner_after in Hl. rewrite (decide_False (P := 45000 < e /\ _)) in Hl by lia. cbn in Hl.
  assert (set_owner st (owner (ledger st)) = st) as Hid by by destruct st as [[] ?]. rewrite Hid in Hl.
  assert (held N a = held_by a (machines N a)) as Hh by done. unfold held_by in Hh. rewrite Hj in Hh.
  destruct (decide (owner (ledger st) <> a)) as [Ho|Ho].
  { destruct Hl as (-> & Hds & -> & ->). rewrite Hds in Hd. rewrite (delivered_nil _ _ Hd).
    exists t. split; [apply Token_rests; congruence|]. apply refines_unchanged; [done| |done].
    by rewrite Hh. }
  apply dec_stable in Ho. rewrite (decide_True (P := owner (ledger st) = a)) in Hh by done. destruct (refines_held _ _ _ _ Ht Hh) as [-> _].
  destruct (m_observed (machines N a)).
  2: { destruct Hl as (-> & Hds & -> & ->). rewrite Hds in Hd. rewrite (delivered_nil _ _ Hd).
    exists (At a (ledger st)). split; [apply Token_rests; congruence|]. apply refines_unchanged; [done| |done].
    rewrite Hh. unfold held_by. cbn. by rewrite decide_True. }
  destruct Hl as (js & ds1 & ds2 & Hds & Hjl & Hann & Hp). rewrite Hds in Hd.
  pose proof (jobs_log_works _ _ _ _ Hjl) as Hw. pose proof (acted_grants _ _ _ _ _ _ _ _ Hjl Hann Hd) as Hg.
  destruct (book_is_empty b).
  - destruct Hp as [-> ->]. destruct Hg as [Hg|(l' & _ & _ & Hne)]; [|by cbn in Hne].
    exists (At a (mkLedger a js)). split; [by apply Token_kept|].
    eapply refines_replace; [done|done| |by rewrite omap_app, Hg]. unfold held_by, set_jobs. cbn.
    rewrite decide_True by done. by rewrite Ho.
  - destruct Hp as (next & Hnext & -> & ->). apply next_owner_in in Hnext as Hin.
    assert (next <> a) as Hne by congruence. destruct Ht as (_ & Hothers & Hfl).
    assert (forall b', held (mkNetwork (<[a := mkMachine (Some (set_owner (set_jobs st js) next)) false]> (machines N))
              (sent ++ flight N)) b' = None) as Hnone.
    { intros b'. rewrite held_update. case_decide as Eb; [|auto]. unfold held_by. cbn. by rewrite decide_False. }
    destruct Hg as [Hg|(l' & Hg & [Ho' Hjs] & _)].
    + exists Gone. split; [by eapply Token_missed|]. split; [done|]. cbn. by rewrite omap_app, Hg.
    + exists (Under_way l'). split.
      * eapply Token_passed; [done|by rewrite <- Ho'|]. intros g. by rewrite <- Hjs.
      * split; [done|]. cbn. by rewrite omap_app, Hg, Hfl.
Qed.

Lemma held_by_new a st l o :
  held_by a (mkMachine (Some (mkLedgerState l st)) o) = if decide (owner l = a) then Some l else None.
Proof. done. Qed.

Lemma grants_other a d m :
  from_bytes d = Some m -> (forall l, msg_payload m <> Payload_Ledger l) -> grants (a, d) = None.
Proof.
  intros Hd Hn. unfold grants, payload_of. cbn. rewrite Hd. cbn. destruct (msg_payload m); try done. by edestruct Hn.
Qed.

(** A datagram that changes nothing where it arrives. *)
Lemma step_ignored N a d fl o e t :
  flight N ≡ₚ (a, d) :: fl -> (e = Lost \/ exists a p, e = Received a p) -> (forall b cmds, e = Managed b cmds -> cmds = []) ->
  held_by a (mkMachine (m_jobs (machines N a)) o) = held N a -> refines N t ->
  exists t', token_step t e t' /\
    refines (mkNetwork (<[a := mkMachine (m_jobs (machines N a)) o]> (machines N)) fl) t'.
Proof.
  intros Hf He He' Hh Ht. pose proof (grants_taken _ _ _ _ Hf Ht) as Hg.
  destruct (refines_less N (mkNetwork (<[a := mkMachine (m_jobs (machines N a)) o]> (machines N)) fl) t) as [Hr|Hr].
  - intros b. rewrite held_update. case_decide; subst; by left.
  - cbn. destruct (grants (a, d)); [right; tauto|by left].
  - done.
  - exists t. by split; [apply Token_rests|].
  - exists Gone. by split; [apply Token_dropped|].
Qed.

Lemma step_lost N x fl t :
  flight N ≡ₚ x :: fl -> refines N t ->
  exists t', token_step t Lost t' /\ refines (mkNetwork (machines N) fl) t'.
Proof.
  intros Hf Ht. pose proof (grants_taken _ _ _ _ Hf Ht) as Hg.
  destruct (refines_less N (mkNetwork (machines N) fl) t) as [Hr|Hr]; [by left| |done| |].
  - cbn. destruct (grants x); [right; tauto|by left].
  - exists t. by split; [apply Token_rests|].
  - exists Gone. by split; [apply Token_dropped; left|].
Qed.

Lemma step_new_job N a d m g fl t st :
  flight N ≡ₚ (a, d) :: fl -> from_bytes d = Some m -> msg_payload m = Payload_NewJob (mkNewJob g) ->
  m_jobs (machines N a) = Some st -> refines N t ->
  exists t', token_step t (Received a (Payload_NewJob (mkNewJob g))) t' /\
    refines (mkNetwork (<[a := mkMachine (Some (set_jobs st (jobs_insert g (jobs (ledger st))).1))
                                         (m_observed (machines N a))]> (machines N)) fl) t'.
Proof.
  intros Hf Hd Hm Hj Ht. pose proof (grants_taken _ _ _ _ Hf Ht) as Hg.
  rewrite (grants_other _ _ m) in Hg by (try done; by rewrite Hm).
  assert (held N a = held_by a (machines N a)) as Hh by done. unfold held_by in Hh. rewrite Hj in Hh.
  destruct (decide (owner (ledger st) = a)) as [Ho|Ho].
  - destruct (refines_held _ _ _ _ Ht Hh) as [-> _]. eexists. split; [apply Token_announced|].
    eapply refines_replace; [done|done| |done]. unfold held_by, set_jobs. cbn. rewrite decide_True by done. by rewrite Ho.
  - exists t. split; [by apply Token_rests|]. apply refines_unchanged; [done| |done].
    rewrite Hh. unfold held_by. cbn. by rewrite decide_False.
Qed.

Lemma step_ledger N a d m l fl now t :
  flight N ≡ₚ (a, d) :: fl -> from_bytes d = Some m -> msg_payload m = Payload_Ledger l -> refines N t ->
  exists t', token_step t (Received a (Payload_Ledger l)) t' /\
    refines (mkNetwork (<[a := mkMachine (Some (mkLedgerState l now)) (m_observed (machines N a))]> (machines N)) fl) t'.
Proof.
  intros Hf Hd Hm Ht. pose proof (grants_taken _ _ _ _ Hf Ht) as Hg.
  assert (grants (a, d) = if decide (owner l = a) then Some l else None) as E.
  { unfold grants, payload_of. cbn. rewrite Hd. cbn. by rewrite Hm. }
  rewrite E in Hg. clear E. destruct (decide (owner l = a)) as [Ho|Ho].
  - destruct Hg as [-> Hfl]. exists (At a l). split; [rewrite <- Ho; apply Token_arrived|].
    destruct Ht as [Hnone _]. split; [|split; [|done]].
    + rewrite held_update, decide_True by done. by rewrite held_by_new, decide_True.
    + intros b Hne. by rewrite held_update, decide_False.
  - destruct (refines_less N (mkNetwork (<[a := mkMachine (Some (mkLedgerState l now)) (m_observed (machines N a))]> (machines N)) fl) t)
      as [Hr|Hr]; [|by left|done| |].
    + intros b. rewrite held_update. case_decide; [|by left]. right. by rewrite held_by_new, decide_False.
    + exists t. by split; [apply Token_rests|].
    + exists Gone. split; [apply Token_dropped; eauto|done].
Qed.

Lemma step_received N a d fl m h src tr h' t :
  flight N ≡ₚ (a, d) :: fl -> from_bytes d = Some m -> exec (handle_message h src m) tr (Done h') ->
  Forall (eq (m_jobs (machines N a))) (jobs_found tr) -> refines N t ->
  exists t', token_step t (Received a (msg_payload m)) t' /\
    refines (mkNetwork (<[a := mkMachine (default (m_jobs (machines N a)) (last (jobs_written tr)))
                                         (m_observed (machines N a))]> (machines N)) fl) t'.
Proof.
  intros Hf Hd H Hj Ht.
  assert (held_by a (mkMachine (m_jobs (machines N a)) (m_observed (machines N a))) = held N a) as Hh by done.
  assert (Hignored : exists t', token_step t (Received a (msg_payload m)) t' /\
    refines (mkNetwork (<[a := mkMachine (m_jobs (machines N a)) (m_observed (machines N a))]> (machines N)) fl) t').
  { eapply step_ignored; [done|by eauto|done|done|done]. }
  apply handle_message_run in H as [(_ & _ & _ & ->)|(_ & _ & book & t0 & found & now & _ & _ & Hjf & _ & ->)]; [done|].
  destruct (msg_payload m) as [hb|[g]|l|s] eqn:Em; cbn [payload_effect last default]; [done| | |done].
  - rewrite Hjf in Hj. apply Forall_inv in Hj as <-. cbn. destruct (m_jobs (machines N a)) as [st|] eqn:Ej; [|done].
    by eapply step_new_job.
  - by eapply step_ledger.
Qed.

Lemma net_step_refines N e N' t : net_step N e N' -> refines N t -> exists t', token_step t e t' /\ refines N' t'.
Proof.
  intros H Ht. destruct H.
  - by eapply step_managed.
  - by eapply step_uploaded.
  - exists t. split; [by apply Token_rests|]. by eapply step_talked.
  - by eapply step_received.
  - by eapply step_lost.
Qed.

Lemma net_run_refines N es N' t :
  net_run N es N' -> refines N t -> exists t', token_run t es t' /\ refines N' t'.
Proof.
  intros H. revert t. induction H as [N|N e es N1 N2 Hs _ IH]; intros t Ht; [exists t; by split; [constructor|]|].
  destruct (net_step_refines _ _ _ _ Hs Ht) as (t1 & Hts & Ht1). destruct (IH _ Ht1) as (t2 & Htr & Ht2).
  exists t2. split; [by econstructor|done].
Qed.

(** C9. On the network the ledger is a token.  While no machine creates a ledger or takes one
    over, every sequence of turns, uploads, receptions and losses is one of the token: it is
    with one machine, on its way to one, or lost; only the machine that has it sends the
    printer commands, for jobs it lists, and passes it on; and it never becomes two. *)
Theorem token_refinement N es N' t :
  net_run N es N' -> refines N t -> exists t', token_run t es t' /\ refines N' t'.
Proof. apply net_run_refines. Qed.

(** *** A job is printed once *)

(** The command that makes Marlin print a job's file. *)
Definition select (g : Uuid) : bytes := lit "M32 " ++ path_of g false.

Definition prints (g : Uuid) (e : net_event) : Prop :=
  match e with Managed _ cmds => exists ok, (select g, ok) ∈ cmds | _ => False end.

(** The job is uploaded, or an announcement of it arrives. *)
Definition announces (g : Uuid) (e : net_event) : Prop :=
  match e with Uploaded _ u => u = g | Received _ (Payload_NewJob j) => guid j = g | _ => False end.

Definition lacks (g : Uuid) (t : token) : Prop :=
  match t with At _ l | Under_way l => g ∉ jobs_iter (jobs l) | Gone => True end.

Lemma select_not_mode g : select g <> lit "M111 S8".
Proof. intros E. apply (f_equal (fun l => nth 1 l 0)) in E. by vm_compute in E. Qed.

Lemma select_inj g u : select g = select u -> g = u.
Proof. intros E. apply app_inv_head in E. by apply path_of_inj in E as [? _]. Qed.

Lemma jobs_insert_in g u s : g ∈ jobs_iter (jobs_insert u s).1 -> g = u \/ g ∈ jobs_iter s.
Proof.
  destruct (decide (u ∈ jobs_iter s)) as [Hin|Hin].
  - destruct (jobs_insert_present u s Hin) as (s' & -> & Hs). cbn. rewrite Hs. auto.
  - pose proof (jobs_bound s). destruct (decide (len (jobs_iter s) = LEDGER_JOBS)) as [Hf|Hf].
    + destruct (jobs_insert_full u s Hin Hf) as (s' & -> & Hs). cbn. rewrite Hs. auto.
    + destruct (jobs_insert_new u s Hin) as (s' & -> & Hs); [lia|]. cbn. by rewrite Hs.
Qed.

Lemma works_jobs js cmds js' : works js cmds js' -> forall g, g ∈ jobs_iter js' -> g ∈ jobs_iter js.
Proof.
  intros [[_ ->]|(u & r & _ & _ & ->)] g; [done|]. destruct (is_ok r); [|done].
  destruct (jobs_remove_spec u js) as (s' & -> & Hs). cbn. rewrite Hs. tauto.
Qed.

Lemma print_log_select u r cmds g ok : print_log u r cmds -> (select g, ok) ∈ cmds -> g = u /\ is_ok r = ok.
Proof.
  assert (forall b, (select g, ok) = (lit "M111 S8", b) -> False) as Hm.
  { intros b E. by apply (f_equal fst), select_not_mode in E. }
  intros [[-> ->]|[[-> ->]|[[-> ->]|[-> ->]]]] Hin; repeat apply elem_of_cons in Hin as [Hin|Hin];
    try (by apply elem_of_nil in Hin); try (by apply Hm in Hin).
  all: apply (f_equal fst) in Hin as E; apply (f_equal snd) in Hin as Hok; cbn in Hok; subst ok;
    by apply select_inj in E as ->.
Qed.

Lemma works_select js cmds js' g ok :
  works js cmds js' -> (select g, ok) ∈ cmds -> g ∈ jobs_iter js /\ (ok = true -> g ∉ jobs_iter js').
Proof.
  intros [[-> _]|(u & r & Hu & Hp & ->)] Hin; [by apply elem_of_nil in Hin|].
  destruct (print_log_select _ _ _ _ _ Hp Hin) as [-> <-]. split; [done|]. intros ->.
  destruct (jobs_remove_spec u js) as (s' & -> & Hs). cbn. rewrite Hs. tauto.
Qed.

Lemma token_printed g t a cmds t' :
  token_step t (Managed a cmds) t' -> (select g, true) ∈ cmds -> lacks g t'.
Proof.
  intros H Hin. inversion H as [? ? Hc|? ? ? js Hw|? ? ? js l' Hw _ Hl|? ? ? js Hw| | | |? ? [?|(?&?&?)]]; subst; try done.
  - rewrite (Hc a cmds eq_refl) in Hin. by apply elem_of_nil in Hin.
  - by eapply works_select.
  - cbn. rewrite Hl. by eapply works_select.
Qed.

Lemma token_lacks g t e t' :
  token_step t e t' -> lacks g t -> ~ announces g e -> ~ prints g e /\ lacks g t'.
Proof.
  intros H Hl Ha.
  assert (forall js cmds js', works js cmds js' -> g ∉ jobs_iter js -> ~ prints g (Managed (mkAddr 0 0 0 0) cmds)) as Hp.
  { intros js cmds js' Hw Hn [ok Hin]. by apply (works_select _ _ _ _ _ Hw) in Hin as [? _]. }
  destruct H as [t e Hc|a l cmds js Hw|a l cmds js l' Hw _ Hjs|a l cmds js Hw|a l u|a l u|l|t e He]; cbn in Hl, Ha |- *.
  - split; [|done]. destruct e as [a cmds| | | |]; cbn; try tauto. intros [ok Hin].
    rewrite (Hc a cmds eq_refl) in Hin. by apply elem_of_nil in Hin.
  - split; [by eapply Hp|]. intros Hin. by eapply works_jobs in Hin.
  - split; [by eapply Hp|]. rewrite Hjs. intros Hin. by eapply works_jobs in Hin.
  - by split; [eapply Hp|].
  - split; [tauto|]. intros Hin. apply jobs_insert_in in Hin as [->|]; tauto.
  - split; [tauto|]. intros Hin. apply jobs_insert_in in Hin as [->|]; tauto.
  - split; [tauto|done].
  - split; [|done]. destruct He as [->|(a & p & ->)]; cbn; tauto.
Qed.

Lemma token_run_lacks g t es t' :
  token_run t es t' -> lacks g t -> (forall e, e ∈ es -> ~ announces g e) -> forall e, e ∈ es -> ~ prints g e.
Proof.
  induction 1 as [t|t e es t1 t2 Hs _ IH]; intros Hl Ha e' Hin; [by apply elem_of_nil in Hin|].
  destruct (token_lacks g _ _ _ Hs Hl) as [Hp Hl']; [apply Ha; by left|].
  apply elem_of_cons in Hin as [->|Hin]; [done|]. apply IH; [done| |done]. intros x Hx. apply Ha. by right.
Qed.

End network.

(** ** A concrete network *)

Lemma append_effect_witness :
  let tr := run_trace demo_h (append_to_ledger (V := ref_vendor) (demo_id 9)) (demo_peer []) in
  exists b found, append_log (demo_addr 5) (demo_id 9) b found tr.
Proof.
  apply (append_effect (demo_addr 5)).
  - apply addr_wf_bounds. by_eval.
  - by_eval.
  - by_run.
Defined.

(** Machine 5 owns the ledger, with one job, and machine 7 has none yet. *)
Definition demo_net : @Network ref_vendor :=
  mkNetwork (fun a => if decide (a = demo_addr 5) then mkMachine (Some (demo_ledger (demo_addr 5) [4])) true
                      else mkMachine None false) [].

(** Machine 5 prints the job and passes the ledger on. *)
Definition demo_passing : list (event (call (V := ref_vendor))) := run_trace demo_h demo_manage (demo_peer []).

Definition demo_passed : @LedgerState ref_vendor :=
  match jobs_written demo_passing with [Some st] => st | _ => demo_stuck end.

Definition demo_datagram : bytes := default [] (last (snd <$> datagrams demo_passing)).

Definition demo_net1 : @Network ref_vendor :=
  mkNetwork (<[demo_addr 5 := mkMachine (Some demo_passed) false]> (machines demo_net)) [(demo_addr 7, demo_datagram)].

Lemma demo_managed_with : managed_with demo_net (demo_addr 5) demo_book demo_passing demo_net1.
Proof.
  apply (Managed_with demo_net (demo_addr 5) demo_book demo_passing (demo_ledger (demo_addr 5) [4]) demo_passed false
    [(demo_addr 7, demo_datagram)]).
  - apply addr_wf_bounds. by_eval.
  - by_eval.
  - vm_compute. intros H. inversion H as [|? ? ? H']. inversion H'.
  - reflexivity.
  - vm_compute. repeat constructor. discriminate.
  - by_run.
  - by repeat split.
  - split; [apply NoDup_singleton|]. intros b d Hin. apply list_elem_of_singleton in Hin. apply pair_equal_spec in Hin as [-> ->].
    split; [by apply (bool_decide_unpack _)|]. exists (u32_max, UDP_PORT, demo_datagram). split; [|done].
    apply (bool_decide_unpack _). vm_compute. exact I.
Qed.

Lemma demo_managed : net_step demo_net (Managed (demo_addr 5) (gcode demo_passing)) demo_net1.
Proof. apply (managed_with_step _ _ demo_book), demo_managed_with. Qed.

(** Machine 7 receives it. *)
Definition demo_grant : @Message ref_vendor := default (demo_message 0) (from_bytes demo_datagram).

Definition demo_receiving : io (@History ref_vendor) := handle_message history_new (demo_addr 5) demo_grant.

Definition demo_newcomer : @demo ref_vendor :=
  mkDemo [] [] [] 5 7 (to_be (to_bits (demo_addr 7))) book_new None 1000.

Definition demo_received_trace : list (event (call (V := ref_vendor))) := run_trace demo_h demo_receiving demo_newcomer.

Definition demo_net2 : @Network ref_vendor :=
  mkNetwork (<[demo_addr 7 := mkMachine (default None (last (jobs_written demo_received_trace))) false]> (machines demo_net1)) [].

Lemma demo_received_step : net_step demo_net1 (Received (demo_addr 7) (msg_payload demo_grant)) demo_net2.
Proof.
  apply (Step_received demo_net1 (demo_addr 7) demo_datagram [] demo_grant history_new (demo_addr 5) demo_received_trace
    (value_of history_new (run demo_h demo_receiving demo_newcomer).1)).
  - exact (Permutation_refl [(demo_addr 7, demo_datagram)]).
  - vm_cast_no_check (eq_refl (Some demo_grant)).
  - by_run_value.
  - assert (jobs_found demo_received_trace = [None]) as ->
      by vm_cast_no_check (eq_refl [@None (@LedgerState ref_vendor)]).
    by repeat constructor.
Qed.

Lemma demo_refines : refines demo_net (At (demo_addr 5) (ledger (demo_ledger (demo_addr 5) [4]))).
Proof.
  split; [reflexivity|]. split; [|reflexivity]. intros b Hb. unfold held, held_by, demo_net. cbn.
  by rewrite decide_False.
Qed.

(** The ledger, one job shorter, is with machine 7. *)
Lemma demo_net2_runs :
  (fun l => (owner l, len (jobs_iter (jobs l)))) <$> held demo_net2 (demo_addr 7) = Some (demo_addr 7, 0) /\
  held demo_net2 (demo_addr 5) = None.
Proof. split; [vm_compute; reflexivity|vm_cast_no_check (eq_refl (@None (@Ledger ref_vendor)))]. Qed.

Lemma token_refinement_witness :
  exists t', token_run (At (demo_addr 5) (ledger (demo_ledger (demo_addr 5) [4])))
      [Managed (demo_addr 5) (gcode demo_passing); Received (demo_addr 7) (msg_payload demo_grant)] t' /\
    refines demo_net2 t'.
Proof.
  apply (token_refinement (L := ref_vendor_laws) demo_net).
  - eapply Run_cons; [apply demo_managed|]. eapply Run_cons; [apply demo_received_step|]. apply Run_nil.
  - apply demo_refines.
Defined.

