(* ===== verification/Circulate.v ===== *)
(** * The ledger circulates

    Liveness of the network of [Network.v]: if the machines on a /24 know each other and no datagram
    with the ledger is lost, it goes round the ring of [Ring.v], and where the printers are willing every
    round takes one job off it until none is left. *)

From stdpp Require Import functions finite.
From S2P Require Import Prelude Prog Text Net Vendor VendorRef Data Ffi Env Lwip Pbuf Tcp Udp Fs Rng Messages.
From S2P Require Import Observe Wire Upload Owns Marlin Receiver Ledger Ring Network.

(** ** A willing machine *)

Section willing.
Context `{V : Vendor} {L : VendorLaws V} `{SM : Serialize Message}.

(** The printer is ready and idle and takes every command, and every file can be opened. *)
Definition willing_event (e : event call) : Prop :=
  match e with
  | @Ev _ X c x =>
      match c in call X return X -> Prop with
      | CMarlin c =>
          match c in marlin_call X return X -> Prop with
          | ready_flag_load => fun b => b = true
          | derusting_is_idle => fun b => b = true
          | derusting_gcode_cmd _ => fun b => b = true
          | _ => fun _ => True
          end
      | CFs c => match c in fs_call X return X -> Prop with fopen _ _ => fun p => p <> null | _ => fun _ => True end
      | _ => fun _ => True
      end x
  end.

Fixpoint willing (tr : trace) : Prop :=
  match tr with
  | [] => True
  | e :: tr => willing_event e /\ willing tr
  end.

Lemma willing_app tr1 tr2 : willing (tr1 ++ tr2) <-> willing tr1 /\ willing tr2.
Proof. induction tr1 as [|e tr1 IH]; cbn; [tauto|]. rewrite IH. tauto. Qed.

Lemma find_printable_willing g gs tr o :
  exec (find_printable (g :: gs)) tr (Done o) -> willing tr -> o = Some (g, path_of g false).
Proof.
  intros H Hw. cbn [find_printable] in H. rewrite make_path_eq in H. bind_step H as path H1. destruct H1 as [-> [= ->]].
  bind_step H as f H2. cbn [app] in Hw. apply willing_app in Hw as [Hw _]. unfold open in H2. exec_step H2 as p.
  destruct Hw as [Hp _]. case_decide; [done|]. exec_steps H2. bind_step H as v H3. by destruct H as [_ [= ->]].
Qed.

Lemma willing_accepts tr : willing tr -> Forall (fun c => c.2 = true) (gcode tr).
Proof.
  unfold gcode. induction tr as [|[X c x] tr IH]; [by constructor|]. intros [Hw H]. cbn. apply Forall_app_2; [|by apply IH].
  destruct c as [X c|X c|X c|X c|X c|X c]; try by constructor. destruct c; try by constructor.
Qed.

(** What Marlin is told when it accepts a job. *)
Definition print_accepted (g : Uuid) : list (bytes * bool) := [(lit "M111 S8", true); (select g, true)].

Lemma print_willing g tr r : exec (print (path_of g false) true) tr (Done r) -> willing tr -> gcode tr <> [].
Proof.
  unfold print. rewrite print_prefix, print_command. intros H Hw. exec_step H as b. destruct Hw as [Hb Hw]. cbn in Hb. subst b.
  exec_step H as b. destruct Hw as [Hb Hw]. cbn in Hb. by subst b.
Qed.

Lemma is_owner_value a st tr b : addr_wf a -> address_is a tr -> exec (is_owner st) tr (Done b) -> b = bool_decide (a = owner (ledger st)).
Proof. intros Ha Hi H. by apply (is_owner_run a) in H as [-> _]. Qed.

(** An owner that acts, with a job on its ledger, prints one. *)
Lemma manage_state_willing a b st tr st' ob' :
  addr_wf a -> address_is a tr -> owner (ledger st) = a -> willing tr -> jobs_iter (jobs (ledger st)) <> [] ->
  exec (manage_state a b st true) tr (Done (st', ob')) -> gcode tr <> [].
Proof.
  intros Ha Hi Ho Hw Hj H. unfold manage_state in H. bind_step H as st1 H1. apply address_is_app in Hi as [_ Hi]. apply willing_app in Hw as [_ Hw].
  apply takeover_run in H1 as (e & _ & ->). assert (owner_after a (book_keys b) e st = a) as Ea by (unfold owner_after; by case_decide).
  rewrite Ea in H. bind_step H as own H2. apply address_is_app in Hi as [Hi2 Hi]. apply willing_app in Hw as [_ Hw].
  apply (is_owner_value a) in H2 as ->; [|done|done]. rewrite bool_decide_eq_true_2 in H by done. cbn [andb negb] in H.
  bind_step H as own H3. apply address_is_app in Hi as [Hi3 Hi]. apply willing_app in Hw as [_ Hw].
  apply (is_owner_value a) in H3 as ->; [|done|done]. rewrite bool_decide_eq_true_2 in H by done. cbn [andb] in H.
  bind_step H as av H4. apply willing_app in Hw as [Hw4 Hw]. unfold is_ready, is_idle in H4.
  exec_step H4 as r. destruct Hw4 as [Hr Hw4]. cbn in Hr. subst r. exec_step H4 as i. destruct Hw4 as [Hi4 _]. cbn in Hi4. subst i.
  destruct H4 as [-> [= ->]]. bind_step H as st2 H5. apply willing_app in Hw as [Hw5 _].
  unfold print_job in H5. bind_step H5 as o H6. apply willing_app in Hw5 as [Hw6 Hw5].
  cbn [ledger jobs set_owner] in H6. destruct (jobs_iter (jobs (ledger st))) as [|g gs]; [done|].
  apply find_printable_willing in H6 as ->; [|done]. bind_step H5 as r H7. apply willing_app in Hw5 as [Hw7 _].
  apply print_willing in H7; [|done]. unfold gcode in *. rewrite !collect_app. intros E.
  repeat apply app_eq_nil in E as [? E]. repeat match goal with H : _ ++ _ = [] |- _ => apply app_eq_nil in H as [? ?] end. congruence.
Qed.

Lemma manage_willing a st tr o' :
  addr_wf a -> address_is a tr -> owner (ledger st) = a -> willing tr -> jobs_iter (jobs (ledger st)) <> [] ->
  exec (manage_ledger_step true) tr (Done o') -> jobs_found tr = [Some st] -> gcode tr <> [].
Proof.
  intros Ha Hi Ho Hw Hj H Hf. unfold manage_ledger_step in H. bind_step H as v H0. destruct H0 as (? & ? & -> & -> & _).
  apply address_is_app in Hi as [_ Hi]. apply willing_app in Hw as [_ Hw]. bind_step H as m H1. apply address_is_app in Hi as [Hi1 Hi].
  apply willing_app in Hw as [_ Hw]. pose proof H1 as H1'. apply (my_ipaddr_run a) in H1' as ->; [|done|done].
  exec_step H1 as nl. destruct Hi1 as [-> Hi1]. exec_step H1 as z. destruct H1 as [-> _].
  bind_step H as b H1. destruct H1 as (b' & ? & -> & -> & [= ->]). bind_step H as l H1. destruct H1 as (l' & ? & -> & -> & [= ->]).
  do 2 (apply address_is_app in Hi as [_ Hi]; apply willing_app in Hw as [_ Hw]). cbn in Hf. injection Hf as -> _.
  bind_step H as [st' ob] H1. apply address_is_app in Hi as [Hi _]. apply willing_app in Hw as [Hw _].
  apply (manage_state_willing a) in H1; [|done..]. unfold gcode in *. cbn. rewrite collect_app. intros E. by apply app_eq_nil in E as [? _].
Qed.

(** What a willing owner does with its jobs. *)
Lemma willing_works js cmds ds js' :
  Forall (fun c => c.2 = true) cmds -> jobs_log js cmds ds js' -> cmds <> [] ->
  exists g, g ∈ jobs_iter js /\ cmds = print_accepted g /\ js' = (jobs_remove g js).1.
Proof.
  intros Hc [(-> & _)|(g & r & Hg & Hp & Hr)] Hn; [done|]. exists g. split; [done|].
  destruct Hp as [[_ ->]|[[_ ->]|[[_ ->]|[-> ->]]]]; [done|..].
  - by apply Forall_inv in Hc.
  - by apply Forall_inv_tail, Forall_inv in Hc.
  - by destruct Hr as [_ ->].
Qed.
End willing.

(** ** One round *)

Section round.
Context `{V : Vendor} {L : VendorLaws V} `{SM : Serialize Message, DM : Deserialize Message} {W : WireLaws}.

(** A ledger is brought to machine [a]; it has a turn; it is given a job. *)
Definition brings_ledger (a : Ipv4Addr) (e : net_event) : Prop :=
  match e with Received b (Payload_Ledger _) => b = a | _ => False end.

Definition has_turn (a : Ipv4Addr) (e : net_event) : Prop := match e with Managed b _ => b = a | _ => False end.

Definition given_job (a : Ipv4Addr) (e : net_event) : Prop :=
  match e with Uploaded b _ => b = a | Received b (Payload_NewJob _) => b = a | _ => False end.

(** Neither of the first two: then the holder of the ledger keeps it. *)
Definition calm (a : Ipv4Addr) (es : list net_event) : Prop := forall e, e ∈ es -> ~ has_turn a e /\ ~ brings_ledger a e.

Lemma calm_step N e N' a l :
  net_step N e N' -> ~ has_turn a e -> ~ brings_ledger a e -> held N a = Some l ->
  exists l', held N' a = Some l' /\ m_observed (machines N' a) = m_observed (machines N a) /\ (~ given_job a e -> l' = l).
Proof.
  intros Hs Ht Hb Hh. pose proof Hh as Hj. unfold held, held_by in Hj.
  destruct Hs as [b bk st st' tr o' sent|b g tr l1 sent Ha Hi H Hf Hw Hd|b p tr sent|b d fl m h src tr h' Hfl Hd H Hf|x fl]; [| | | |exists l; by rewrite held_same].
  - exists l. unfold held. cbn in *. by rewrite fn_lookup_insert_ne.
  - destruct (decide (b = a)) as [->|Hne]; [|exists l; unfold held; cbn; by rewrite fn_lookup_insert_ne].
    apply (append_run a) in H as (bk & found & _ & Hf' & Hw' & _); [|done|done]. rewrite Hf in Hf'. injection Hf' as <-. rewrite Hw in Hw'. injection Hw' as ->.
    unfold held. cbn. rewrite fn_lookup_insert. unfold append_result, owned_by. revert Hj.
    destruct (m_jobs (machines N a)) as [st|]; [|done]. case_decide as Ho; [|done]. intros [= <-]. rewrite bool_decide_eq_true_2 by done. cbn. unfold held_by. cbn. rewrite decide_True by done.
    eexists. split; [done|]. split; [done|]. intros Hg. by destruct Hg.
  - exists l. by rewrite held_same.
  - destruct (decide (b = a)) as [->|Hne]; [|exists l; unfold held; cbn; by rewrite fn_lookup_insert_ne].
    unfold held. cbn. rewrite fn_lookup_insert. cbn in Hb.
    apply handle_message_run in H as [(_ & _ & _ & ->)|(_ & _ & bk & t0 & found & now & _ & _ & Hjf & _ & ->)]; [by exists l|].
    destruct (msg_payload m) as [hb|[g]|k|s] eqn:Em; cbn [payload_effect last default]; [by exists l| |by destruct Hb|by exists l].
    rewrite Hjf in Hf. apply Forall_inv in Hf as <-. revert Hj. destruct (m_jobs (machines N a)) as [st|]; [|done].
    case_decide as Ho; [|done]. intros [= <-]. cbn. unfold held_by. cbn. rewrite decide_True by done. eexists. split; [done|]. split; [done|]. intros Hg. by destruct Hg.
Qed.

Lemma calm_run N es N' a l :
  net_run N es N' -> calm a es -> refines N (At a l) ->
  exists l', refines N' (At a l') /\ m_observed (machines N' a) = m_observed (machines N a) /\
    ((forall e, e ∈ es -> ~ given_job a e) -> l' = l).
Proof.
  intros H. revert l. induction H as [|N e es N1 N2 Hs _ IH]; intros l Hq Hr; [by exists l|].
  destruct (Hq e) as [Ht Hb]; [by left|]. pose proof Hr as [Hh _].
  destruct (calm_step _ _ _ _ _ Hs Ht Hb Hh) as (l1 & Hh1 & Ho1 & Hl1).
  destruct (net_step_refines _ _ _ _ Hs Hr) as (t & _ & Hr1). destruct (refines_held _ _ _ _ Hr1 Hh1) as [-> _].
  destruct (IH l1) as (l2 & Hr2 & Ho2 & Hl2); [intros e' He'; apply Hq; by right|done|]. exists l2. split; [done|]. split; [congruence|].
  intros Hg. rewrite Hl2; [apply Hl1, Hg; by left|]. intros e' He'. apply Hg. by right.
Qed.

(** A ledger on its way stays on its way, unless it is lost, while no other arrives where it is going. *)
Lemma way_run N es N' l :
  net_run N es N' -> (forall e, e ∈ es -> ~ brings_ledger (owner l) e) -> refines N (Under_way l) \/ refines N Gone ->
  refines N' (Under_way l) \/ refines N' Gone.
Proof.
  induction 1 as [|N e es N1 N2 Hs _ IH]; intros Hq Hr; [done|]. apply IH; [intros e' He'; apply Hq; by right|].
  assert (~ brings_ledger (owner l) e) as He by (apply Hq; by left).
  destruct Hr as [Hr|Hr]; destruct (net_step_refines _ _ _ _ Hs Hr) as (t & Ht & Hr'); inversion Ht; subst; try (by left); try (by right).
Qed.

(** The first turn of a new owner. *)
Lemma managed_notes N a l b tr N' :
  refines N (At a l) -> m_observed (machines N a) = false -> managed_with N a b tr N' ->
  refines N' (At a l) /\ m_observed (machines N' a) = true.
Proof.
  intros Ht Ho [st st' o' sent Ha Hi Hb Hj He H Hm Hd]. rewrite Ho in H.
  apply (manage_turn_run a) in H as (b1 & l1 & l1' & Hm1 & Hl); [|done|done].
  destruct Hm as (Hm2 & _ & Hm3 & Hm4), Hm1 as (Hm5 & _ & Hm6 & Hm7).
  rewrite Hm5 in Hm2. rewrite Hm6 in Hm3. rewrite Hm7 in Hm4. simplify_eq.
  destruct Hl as (st1 & e & [= <-] & Hel & Hl). rewrite Hel in He. apply Forall_inv in He.
  unfold turn_log, owner_after in Hl. rewrite (decide_False (P := 45000 < e /\ _)) in Hl by lia. cbn in Hl.
  assert (set_owner st (owner (ledger st)) = st) as Hid by by destruct st as [[] ?]. rewrite Hid in Hl.
  assert (held N a = Some l) as Hh by by destruct Ht. pose proof Hh as Hh'. unfold held, held_by in Hh. rewrite Hj in Hh.
  case_decide as Hw; [|done]. injection Hh as <-. rewrite decide_False in Hl by auto. destruct Hl as (_ & Hds & -> & ->).
  rewrite Hds in Hd. rewrite (delivered_nil _ _ Hd). split; [|cbn; by rewrite fn_lookup_insert].
  apply refines_unchanged; [done| |done]. rewrite Hh'. unfold held_by. cbn. by rewrite decide_True.
Qed.

(** The turn in which it acts: it works on its jobs and hands the ledger to the next machine of its address book, unless the
    message is lost at once. *)
Lemma managed_acts N a l b tr N' :
  refines N (At a l) -> m_observed (machines N a) = true -> managed_with N a b tr N' -> book_keys b <> [] ->
  exists js ds next l', jobs_log (jobs l) (gcode tr) ds js /\ next_owner a (book_keys b) = Some next /\
    owner l' = next /\ (forall g, g ∈ jobs_iter (jobs l') <-> g ∈ jobs_iter js) /\
    (willing tr -> jobs_iter (jobs l) <> [] -> gcode tr <> []) /\
    (refines N' (Under_way l') \/ refines N' Gone) /\ m_observed (machines N' a) = false.
Proof.
  intros Ht Ho [st st' o' sent Ha Hi Hb Hj He H Hm Hd] Hbk. rewrite Ho in H. pose proof H as Hex.
  apply (manage_turn_run a) in H as (b1 & l1 & l1' & Hm1 & Hl); [|done|done].
  destruct Hm as (Hm2 & _ & Hm3 & Hm4), Hm1 as (Hm5 & _ & Hm6 & Hm7).
  rewrite Hm5 in Hm2. rewrite Hm6 in Hm3. rewrite Hm7 in Hm4. simplify_eq.
  destruct Hl as (st1 & e & [= <-] & Hel & Hl). rewrite Hel in He. apply Forall_inv in He.
  unfold turn_log, owner_after in Hl. rewrite (decide_False (P := 45000 < e /\ _)) in Hl by lia. cbn in Hl.
  assert (set_owner st (owner (ledger st)) = st) as Hid by by destruct st as [[] ?]. rewrite Hid in Hl.
  assert (held N a = Some l) as Hh by by destruct Ht. unfold held, held_by in Hh. rewrite Hj in Hh.
  case_decide as Hw; [|done]. injection Hh as <-. rewrite decide_False in Hl by auto.
  destruct Hl as (js & ds1 & ds2 & Hds & Hjl & Hann & Hp). rewrite Hds in Hd.
  unfold book_is_empty in Hp. rewrite bool_decide_eq_false_2 in Hp by (intros E; apply Hbk; unfold book_keys; by rewrite E).
  destruct Hp as (next & Hnext & -> & ->). apply next_owner_in in Hnext as Hin. assert (next <> a) as Hne by congruence.
  destruct Ht as (_ & Hothers & Hfl). pose proof (acted_grants _ _ _ _ _ _ _ _ Hjl Hann Hd) as Hg.
  assert (forall b', held (mkNetwork (<[a := mkMachine (Some (set_owner (set_jobs st js) next)) false]> (machines N))
            (sent ++ flight N)) b' = None) as Hnone.
  { intros b'. rewrite held_update. case_decide as Eb; [|auto]. unfold held_by. cbn. by rewrite decide_False. }
  exists js, ds1, next. assert (willing tr -> jobs_iter (jobs (ledger st)) <> [] -> gcode tr <> []) as Hwill.
  { intros Hw' Hjs. by eapply (manage_willing a st). }
  destruct Hg as [Hg|(l' & Hg & [Ho' Hjs] & _)].
  - exists (mkLedger next js). split_and!; try done; [right|by cbn; rewrite fn_lookup_insert]. split; [done|]. cbn. by rewrite omap_app, Hg.
  - exists l'. split; [done|]. split; [done|]. split; [by rewrite <- Ho'|]. split; [intros g; by rewrite <- Hjs|].
    split; [done|]. split; [left|by cbn; rewrite fn_lookup_insert].
    split; [done|]. cbn. by rewrite omap_app, Hg, Hfl.
Qed.
End round.

(** ** Round after round *)

Section rounds.
Context `{V : Vendor} {L : VendorLaws V} `{SM : Serialize Message, DM : Deserialize Message} {W : WireLaws}.

(** The machines, all on one /24 network, and in what order each keeps the others in its address book. *)
Context (M : list Ipv4Addr) (books : Ipv4Addr -> list Ipv4Addr) (p0 p1 p2 : Z).
Hypothesis Hnet : forall a, a ∈ M -> exists h, a = mkAddr p0 p1 p2 h /\ 0 < h < 255.
Hypothesis Hpre : is_byte p0 /\ is_byte p1 /\ is_byte p2.
Hypothesis Hbooks : forall a x, a ∈ M -> x ∈ books a <-> x ∈ M /\ x <> a.

(** What a machine may be answered in a turn in which it acts, and whether it may be given jobs while it has the ledger. *)
Context (P : trace -> Prop) (more : bool).

Definition between_turns (a : Ipv4Addr) (es : list net_event) : Prop :=
  calm a es /\ (more = false -> forall e, e ∈ es -> ~ given_job a e).

(** A round: the machine that holds the ledger takes note of it, if it has not yet, and acts in a later turn, when it knows all the
    others; the ledger it announces reaches the next machine.  In between there may be uploads, messages, losses and turns of
    the other machines; but no other copy of a ledger comes to the machine that has it or is to get it. *)
Inductive round (N : Network) (a : Ipv4Addr) (cmds : list (bytes * bool)) : Network -> Prop :=
  | Round es1 N1 N2 es2 N3 b tr N4 es3 N5 l N6 :
      held N a <> None -> net_run N es1 N1 -> between_turns a es1 ->
      (if m_observed (machines N1 a) then N2 = N1 else exists b0 tr0, managed_with N1 a b0 tr0 N2) ->
      net_run N2 es2 N3 -> between_turns a es2 ->
      managed_with N3 a b tr N4 -> P tr -> gcode tr = cmds -> (forall x, x ∈ book_keys b <-> x ∈ M /\ x <> a) ->
      net_run N4 es3 N5 -> (forall e, e ∈ es3 -> ~ brings_ledger (succ books a) e) -> omap grants (flight N5) <> [] ->
      net_step N5 (Received (owner l) (Payload_Ledger l)) N6 -> held N6 (owner l) = Some l ->
      round N a cmds N6.

Inductive rounds (N : Network) : list Ipv4Addr -> list (list (bytes * bool)) -> Network -> Prop :=
  | Rounds_nil : rounds N [] [] N
  | Rounds_cons a cmds N1 ms cs N' : round N a cmds N1 -> rounds N1 ms cs N' -> rounds N (a :: ms) (cmds :: cs) N'.

(** The order of the address book does not matter. *)
Lemma next_owner_members a keys n :
  a ∈ M -> (forall x, x ∈ keys <-> x ∈ M /\ x <> a) -> next_owner a keys = Some n -> n = succ books a /\ n ∈ M.
Proof.
  intros Ha Hk Hn. assert (forall c, c ∈ keys -> oct3 c - oct3 a < u8_max) as Hg.
  { intros c Hc. apply (books_gap M books p0 p1 p2 Hnet Hbooks a Ha). by apply Hbooks, Hk. }
  apply next_owner_run in Hn as (Hin & Hup & Hwrap); [|done]. pose proof (proj1 (Hk n) Hin) as [HnM Hne]. split; [|done].
  pose proof (same_host M p0 p1 p2 Hnet) as Hsame. destruct (decide (Exists (fun c => oct3 a < oct3 c) keys)) as [He|He].
  - apply Exists_exists in He as (c & Hc & Hlt). destruct Hup as [H1 H2]; [by exists c|].
    destruct (succ_up M books p0 p1 p2 Hnet Hbooks a n) as [HsM [Hs1 Hs2]]; [done|done|done|].
    apply Hsame; [done|done|]. assert (oct3 n <= oct3 (succ books a)); [|lia]. apply H2; [|done].
    apply Hk. split; [done|]. intros E. rewrite E in Hs1. lia.
  - assert (forall c, c ∈ keys -> oct3 c <= oct3 a) as Hle.
    { intros c Hc. apply Z.nlt_ge. intros Hlt. apply He, Exists_exists. eauto. }
    assert (forall x, x ∈ M -> oct3 x <= oct3 a) as Hmax.
    { intros x Hx. destruct (decide (x = a)) as [->|Hxa]; [lia|]. by apply Hle, Hk. }
    destruct (succ_wrap M books p0 p1 p2 Hnet Hpre Hbooks a n) as [HsM Hs]; [done..|].
    assert (succ books a <> a) as Hsa.
    { unfold succ. destruct (next_owner a (books a)) as [m|] eqn:E; cbn; [by apply next_owner_in, Hbooks in E as [_ ?]|].
      unfold next_owner in E. destruct (foldl _ _ _) as [? ?]. destruct (_ && _); [done|]. apply addr_min_none in E.
      assert (n ∈ books a) as Hnb by (by apply Hbooks). rewrite E in Hnb. by apply elem_of_nil in Hnb. }
    apply Hsame; [done|done|]. apply Hwrap, (addr_min_le _ _ (succ books a)) in Hle as Hmin.
    + destruct (Hnet n HnM) as (h & -> & _). destruct (Hnet _ HsM) as (h' & E & _). rewrite E in *. unfold to_bits in Hmin. cbn in *. lia.
    + apply Forall_forall. intros x Hx. by eapply (member_wf M p0 p1 p2 Hnet Hpre), Hk.
    + by apply Hk.
Qed.

(** One round takes the ledger to the next machine. *)
Lemma round_step N a l cmds N' :
  refines N (At a l) -> a ∈ M -> (exists c, c ∈ M /\ c <> a) -> round N a cmds N' ->
  exists l0 js ds l', jobs_log (jobs l0) cmds ds js /\ (more = false -> l0 = l) /\
    succ books a ∈ M /\ refines N' (At (succ books a) l') /\
    (forall g, g ∈ jobs_iter (jobs l') <-> g ∈ jobs_iter js) /\
    ((forall tr, P tr -> willing tr) -> Forall (fun c => c.2 = true) cmds /\ (jobs_iter (jobs l0) <> [] -> cmds <> [])).
Proof.
  intros Ht Ha (c & Hc & Hca) [es1 N1 N2 es2 N3 b tr N4 es3 N5 k N6 _ Hr1 [Hq1 Hg1] H2 Hr2 [Hq2 Hg2] Hm HP <- Hb Hr3 Hq3 Hg Hs Hh].
  destruct (calm_run _ _ _ _ _ Hr1 Hq1 Ht) as (l1 & Ht1 & _ & Hl1).
  assert (refines N2 (At a l1) /\ m_observed (machines N2 a) = true) as [Ht2 Ho2].
  { destruct (m_observed (machines N1 a)) eqn:Ho; [by subst N2|]. destruct H2 as (b0 & tr0 & Hm0). by eapply managed_notes. }
  destruct (calm_run _ _ _ _ _ Hr2 Hq2 Ht2) as (l2 & Ht3 & Hm3 & Hl2). rewrite <- Hm3 in Ho2.
  assert (book_keys b <> []) as Hbk by (intros E; assert (c ∈ book_keys b) as Hin by (by apply Hb); rewrite E in Hin; by apply elem_of_nil in Hin).
  destruct (managed_acts _ _ _ _ _ _ Ht3 Ho2 Hm Hbk) as (js & ds & next & l' & Hj & Hn & Ho & Hjs & Hw & Ht4 & _).
  apply next_owner_members in Hn as [-> HsM]; [|done|done]. rewrite <- Ho in Hq3.
  destruct (way_run _ _ _ _ Hr3 Hq3 Ht4) as [Ht5|[_ Hgone]]; [|done].
  destruct (net_step_refines _ _ _ _ Hs Ht5) as (t6 & Hst & Ht6). destruct (refines_held _ _ _ _ Ht6 Hh) as [-> _].
  assert (k = l') as -> by (by inversion Hst).
  exists l2, js, ds, l'. rewrite Ho in Ht6. split; [done|]. split; [intros Hmore; by rewrite Hl2, Hl1 by auto|].
  split; [done|]. split; [done|]. split; [done|]. intros HPw. split; [by apply willing_accepts, HPw|]. by apply Hw, HPw.
Qed.

Hypothesis Htwo : exists c d, c ∈ M /\ d ∈ M /\ c <> d.

Lemma another a : exists c, c ∈ M /\ c <> a.
Proof. destruct Htwo as (c & d & Hc & Hd & Hne). destruct (decide (c = a)) as [->|Hca]; eauto. Qed.

Lemma round_held N a l c cmds N' : refines N (At a l) -> round N c cmds N' -> c = a.
Proof.
  intros Ht [es1 N1 N2 es2 N3 b tr N4 es3 N5 k N6 Hh _ _ _ _ _ _ _ _ _ _ _ _ _ _].
  destruct (held N c) as [l'|] eqn:E; [|done]. by destruct (refines_held _ _ _ _ Ht E) as [[= ->] _].
Qed.

Lemma rounds_ring N ms cs N' a l :
  rounds N ms cs N' -> refines N (At a l) -> a ∈ M ->
  (forall k m, ms !! k = Some m -> m = Nat.iter k (succ books) a) /\
  exists l', refines N' (At (Nat.iter (length ms) (succ books) a) l').
Proof.
  intros H. revert a l. induction H as [N|N c cmds N1 ms cs N' Hr _ IH]; intros a l Ht Ha; [split; [done|by exists l]|].
  pose proof (round_held _ _ _ _ _ _ Ht Hr) as ->.
  destruct (round_step _ _ _ _ _ Ht Ha (another a) Hr) as (l0 & js & ds & l' & _ & _ & HsM & Ht1 & _).
  destruct (IH _ _ Ht1 HsM) as [Hk [l'' Ht2]]. split.
  - intros [|k] m; cbn; [by intros [= <-]|]. intros Hm. rewrite (Hk k m Hm). apply Nat.iter_swap.
  - exists l''. cbn [length]. by rewrite Nat.iter_succ_r.
Qed.

Lemma rounds_drain N ms cs N' a l :
  (forall tr, P tr -> willing tr) -> more = false -> rounds N ms cs N' -> refines N (At a l) -> a ∈ M ->
  exists gs rest l', gs ++ rest ≡ₚ jobs_iter (jobs l) /\ (rest <> [] -> length gs = length cs) /\ (length gs <= length cs)%nat /\
    cs = (print_accepted <$> gs) ++ replicate (length cs - length gs) [] /\
    refines N' (At (Nat.iter (length ms) (succ books) a) l') /\ jobs_iter (jobs l') ≡ₚ rest.
Proof.
  intros HP Hmore H. revert a l. induction H as [N|N c cmds N1 ms cs N' Hr _ IH]; intros a l Ht Ha.
  - exists [], (jobs_iter (jobs l)), l. by do 5 (split; [done|]).
  - pose proof (round_held _ _ _ _ _ _ Ht Hr) as ->.
    destruct (round_step _ _ _ _ _ Ht Ha (another a) Hr) as (l0 & js & ds & l1 & Hj & Hl0 & HsM & Ht1 & Hjs & Hw).
    rewrite (Hl0 Hmore) in *.
    destruct (Hw HP) as [Hacc Hsome]. destruct (IH _ _ Ht1 HsM) as (gs & rest & l' & Hp & Hl & Hle & Hcs & Ht' & Hr').
    assert (jobs_iter (jobs l1) ≡ₚ jobs_iter js) as Hperm by (apply NoDup_Permutation; auto using jobs_nodup).
    destruct (decide (jobs_iter (jobs l) = [])) as [E|Hne].
    + assert (cmds = [] /\ js = jobs l) as [-> ->].
      { destruct Hj as [(-> & _ & ->)|(g & _ & Hg & _)]; [done|]. rewrite E in Hg. by apply elem_of_nil in Hg. }
      rewrite Hperm, E in Hp. apply Permutation_nil_r, app_eq_nil in Hp as [-> ->]. exists [], [], l'. rewrite E. cbn.
      split; [done|]. split; [done|]. split; [lia|]. split; [|by rewrite <- Nat.iter_succ_r in Ht'].
      rewrite Hcs. cbn. by rewrite Nat.sub_0_r, length_replicate.
    + destruct (willing_works _ _ _ _ Hacc Hj (Hsome Hne)) as (g & Hg & -> & ->).
      destruct (jobs_remove_spec g (jobs l)) as (js' & Ejs & Hin). rewrite Ejs in *. cbn in *.
      exists (g :: gs), rest, l'. cbn. split; [|split; [intros; f_equal; auto|split; [lia|split]]].
      * rewrite Hp, Hperm. symmetry. apply NoDup_Permutation; [apply jobs_nodup| |].
        -- constructor; [rewrite Hin; tauto|apply jobs_nodup].
        -- intros w. rewrite elem_of_cons, Hin. destruct (decide (w = g)) as [->|]; tauto.
      * by rewrite <- Hcs.
      * by rewrite <- Nat.iter_succ_r in Ht'.
Qed.
End rounds.

Section circulates.
Context `{V : Vendor} {L : VendorLaws V} `{SM : Serialize Message, DM : Deserialize Message} {W : WireLaws}.

(** Who can be reached in a finite set can be reached in fewer steps than it has members. *)
Lemma iter_short (f : Ipv4Addr -> Ipv4Addr) (M : list Ipv4Addr) a b k :
  (forall j, Nat.iter j f a ∈ M) -> Nat.iter k f a = b -> exists j, (j < length M)%nat /\ Nat.iter j f a = b.
Proof.
  intros HM. induction (lt_wf k) as [k _ IH]. intros Hk. destruct (decide (k < length M)%nat) as [Hlt|Hge]; [by exists k|].
  assert (forall j, exists n, list_find (.= Nat.iter j f a) M = Some (n, Nat.iter j f a)) as Hf.
  { intros j. destruct (list_find_elem_of (.= Nat.iter j f a) M (Nat.iter j f a)) as [[n x] E]; [apply HM|done|].
    exists n. rewrite E. apply list_find_Some in E as (_ & -> & _). done. }
  destruct (nat_pigeonhole (fun j => default 0%nat (fst <$> list_find (.= Nat.iter j f a) M)) (S k) (length M)) as (i & j & Hij & E); [lia| |].
  { intros j _. destruct (Hf j) as [n E]. rewrite E. cbn. apply list_find_Some in E as (E & _). by eapply lookup_lt_Some. }
  destruct (Hf i) as [n Ei], (Hf j) as [n' Ej]. rewrite Ei, Ej in E. cbn in E. subst n'.
  apply list_find_Some in Ei as (Ei & _), Ej as (Ej & _). rewrite Ei in Ej. injection Ej as Ej.
  apply (IH (k - j + i)%nat); [lia|]. rewrite Nat.iter_add, Ej, <- Nat.iter_add. by replace (k - j + j)%nat with k by lia.
Qed.

Lemma ring_reaches M books p0 p1 p2 a b :
  (forall x, x ∈ M -> exists h, x = mkAddr p0 p1 p2 h /\ 0 < h < 255) -> is_byte p0 /\ is_byte p1 /\ is_byte p2 ->
  (forall x y, x ∈ M -> y ∈ books x <-> y ∈ M /\ y <> x) -> a ∈ M -> b ∈ M ->
  exists k, (k < length M)%nat /\ Nat.iter k (succ books) a = b.
Proof.
  intros Hnet Hpre Hbooks Ha Hb. destruct (ring_visits_run M books p0 p1 p2 Hnet Hpre Hbooks a b Ha Hb) as (k & _ & Hk).
  eapply iter_short; [|exact Hk]. intros j. induction j as [|j IH]; [done|]. cbn. unfold succ at 1.
  destruct (next_owner _ _) as [n|] eqn:E; [|done]. by apply next_owner_in, Hbooks in E as [? _].
Qed.

(** C18. The ledger goes round. On a /24 network of at least two machines that know each other, the machine that holds the ledger in the
    k-th round is the k-th on the ring, so that after as many rounds as there are machines each has had it. A
    round is one in which the announcement of the ledger reaches the machine it is for; whatever else is uploaded, said, received or
    lost in the meantime makes no difference, except that no other copy of a ledger, such as an old announcement that was
    delayed, comes to the machine that has the ledger or to the one that is to get it, and that no ledger is taken over or created
    ([net_step]). *)
Theorem ledger_circulates M books p0 p1 p2 N ms cs N' a l :
  (forall x, x ∈ M -> exists h, x = mkAddr p0 p1 p2 h /\ 0 < h < 255) ->
  is_byte p0 /\ is_byte p1 /\ is_byte p2 ->
  (forall x y, x ∈ M -> y ∈ books x <-> y ∈ M /\ y <> x) -> (exists c d, c ∈ M /\ d ∈ M /\ c <> d) ->
  rounds M books (fun _ => True) true N ms cs N' -> refines N (At a l) -> a ∈ M ->
  (forall k m, ms !! k = Some m -> m = Nat.iter k (succ books) a) /\
  ((length M <= length ms)%nat -> forall b, b ∈ M -> b ∈ ms) /\
  exists l', refines N' (At (Nat.iter (length ms) (succ books) a) l').
Proof.
  intros Hnet Hpre Hbooks Htwo Hr Ht Ha.
  destruct (rounds_ring M books p0 p1 p2 Hnet Hpre Hbooks _ _ Htwo _ _ _ _ _ _ Hr Ht Ha) as [Hk Hl]. split; [done|]. split; [|done].
  intros Hlen b Hb. destruct (ring_reaches M books p0 p1 p2 a b Hnet Hpre Hbooks Ha Hb) as (k & Hlt & <-).
  destruct (lookup_lt_is_Some_2 ms k) as [m Hm]; [lia|]. rewrite <- (Hk k m Hm). by eapply list_elem_of_lookup_2.
Qed.

(** C19. Every job gets printed. If moreover each machine, when it acts, finds its printer ready, idle and willing and
    the files on its stick, and no jobs are added, each round prints one job of the ledger, a different one every time, until none
    is left: n rounds print exactly n of the jobs, or all of them if there are fewer, each once and one a round, and leave the
    others on the ledger; from then on a round prints nothing. Rounds are those of [ledger_circulates]: the
    announcement arrives, and no other copy of a ledger comes to the machine that has it or to the next one. *)
Theorem ledger_drains M books p0 p1 p2 N ms cs N' a l :
  (forall x, x ∈ M -> exists h, x = mkAddr p0 p1 p2 h /\ 0 < h < 255) ->
  is_byte p0 /\ is_byte p1 /\ is_byte p2 ->
  (forall x y, x ∈ M -> y ∈ books x <-> y ∈ M /\ y <> x) -> (exists c d, c ∈ M /\ d ∈ M /\ c <> d) ->
  rounds M books willing false N ms cs N' -> refines N (At a l) -> a ∈ M ->
  exists gs rest l', gs ++ rest ≡ₚ jobs_iter (jobs l) /\
    length gs = (length cs `min` length (jobs_iter (jobs l)))%nat /\
    cs = (print_accepted <$> gs) ++ replicate (length cs - length gs) [] /\
    refines N' (At (Nat.iter (length ms) (succ books) a) l') /\ jobs_iter (jobs l') ≡ₚ rest /\
    ((length (jobs_iter (jobs l)) <= length cs)%nat -> rest = []).
Proof.
  intros Hnet Hpre Hbooks Htwo Hr Ht Ha.
  destruct (rounds_drain M books p0 p1 p2 Hnet Hpre Hbooks _ _ Htwo _ _ _ _ _ _ (fun _ H => H) eq_refl Hr Ht Ha)
    as (gs & rest & l' & Hp & Hl & Hle & Hcs & Ht' & Hjs).
  exists gs, rest, l'. split; [done|]. apply Permutation_length in Hp. rewrite length_app in Hp.
  split; [destruct rest as [|g rest]; [cbn in Hp; lia|specialize (Hl ltac:(done)); cbn in Hp; lia]|].
  split; [done|]. split; [done|]. split; [done|]. intros Hlen. destruct rest as [|g rest]; [done|].
  specialize (Hl ltac:(done)). cbn in Hp. lia.
Qed.
End circulates.

(** ** Two machines *)

Definition demo_pair : list Ipv4Addr := [demo_addr 5; demo_addr 7].
Definition demo_pair_books (a : Ipv4Addr) : list Ipv4Addr := filter (fun x => x <> a) demo_pair.
Definition demo_granted : @Ledger ref_vendor := match msg_payload demo_grant with Payload_Ledger l => l | _ => ledger demo_stuck end.

Lemma demo_pair_seven x : x ∈ [demo_addr 7] <-> x ∈ demo_pair /\ x <> demo_addr 5.
Proof.
  unfold demo_pair. rewrite !elem_of_cons, !elem_of_nil. split.
  - intros [->|H]; [|done]. split; [tauto|]. by apply (bool_decide_unpack _).
  - intros [[H|[H|H]] Hne]; [done|by left|done].
Qed.

Lemma demo_granted_payload : Received (demo_addr 7) (msg_payload demo_grant) = Received (owner demo_granted) (Payload_Ledger demo_granted).
Proof. match goal with |- _ = ?r => vm_cast_no_check (eq_refl r) end. Qed.

(** Machine 5 prints its job and hands the ledger to machine 7. *)
Lemma demo_round (P : list (event (@call ref_vendor)) -> Prop) more :
  P demo_passing -> round demo_pair demo_pair_books P more demo_net (demo_addr 5) (gcode demo_passing) demo_net2.
Proof.
  intros HP. apply (Round demo_pair demo_pair_books P more demo_net (demo_addr 5) (gcode demo_passing) [] demo_net demo_net [] demo_net demo_book
    demo_passing demo_net1 [] demo_net1 demo_granted).
  - destruct demo_refines as [-> _]. discriminate.
  - apply Run_nil.
  - split; [|intros _]; by intros e He%elem_of_nil.
  - reflexivity.
  - apply Run_nil.
  - split; [|intros _]; by intros e He%elem_of_nil.
  - exact demo_managed_with.
  - exact HP.
  - reflexivity.
  - intros x. change (book_keys demo_book) with [demo_addr 7]. apply demo_pair_seven.
  - apply Run_nil.
  - by intros e He%elem_of_nil.
  - assert (length (omap grants (flight demo_net1)) = 1%nat) as H by by vm_compute. intros E.
    apply (f_equal (@length _)) in E. discriminate (eq_trans (eq_sym H) E).
  - pose proof demo_received_step as H. by rewrite demo_granted_payload in H.
  - match goal with |- _ = ?r => vm_cast_no_check (eq_refl r) end.
Qed.

Lemma demo_pair_ok :
  (forall x, x ∈ demo_pair -> exists h, x = mkAddr 10 0 0 h /\ 0 < h < 255) /\
  (forall x y, x ∈ demo_pair -> y ∈ demo_pair_books x <-> y ∈ demo_pair /\ y <> x) /\
  (exists c d, c ∈ demo_pair /\ d ∈ demo_pair /\ c <> d).
Proof.
  split; [|split].
  - intros x Hx. unfold demo_pair in Hx. rewrite !elem_of_cons in Hx. destruct Hx as [->|[->|Hx]]; [by exists 5|by exists 7|by apply elem_of_nil in Hx].
  - intros x y _. unfold demo_pair_books. rewrite list_elem_of_filter. tauto.
  - exists (demo_addr 5), (demo_addr 7). split; [by left|]. split; [by right; left|]. by apply (bool_decide_unpack _).
Qed.

Lemma ledger_circulates_witness :
  exists l', refines demo_net2 (At (succ demo_pair_books (demo_addr 5)) l').
Proof.
  destruct demo_pair_ok as (H1 & H2 & H3).
  apply (ledger_circulates (L := ref_vendor_laws) demo_pair demo_pair_books 10 0 0 demo_net [demo_addr 5] [gcode demo_passing] demo_net2
    (demo_addr 5) (ledger (demo_ledger (demo_addr 5) [4])) H1); [by_eval|done|done| |exact demo_refines|by left].
  eapply Rounds_cons; [by apply demo_round|apply Rounds_nil].
Defined.

Lemma ledger_drains_witness :
  exists gs rest l', gs ++ rest ≡ₚ jobs_iter (jobs (ledger (demo_ledger (demo_addr 5) [4]))) /\
    length gs = (1 `min` length (jobs_iter (jobs (ledger (demo_ledger (demo_addr 5) [4%Z])))))%nat /\
    [gcode demo_passing] = (print_accepted <$> gs) ++ replicate (1 - length gs) [] /\
    refines demo_net2 (At (succ demo_pair_books (demo_addr 5)) l') /\ jobs_iter (jobs l') ≡ₚ rest /\
    ((length (jobs_iter (jobs (ledger (demo_ledger (demo_addr 5) [4%Z])))) <= 1)%nat -> rest = []).
Proof.
  destruct demo_pair_ok as (H1 & H2 & H3).
  apply (ledger_drains (L := ref_vendor_laws) demo_pair demo_pair_books 10 0 0 demo_net [demo_addr 5] [gcode demo_passing] demo_net2
    (demo_addr 5) (ledger (demo_ledger (demo_addr 5) [4])) H1); [by_eval|done|done| |exact demo_refines|by left].
  eapply Rounds_cons; [|apply Rounds_nil]. apply demo_round. vm_compute. repeat split; discriminate.
Defined.
