(* ===== verification/Provenance.v ===== *)
(** * Where jobs come from

    Over any run of the network, now with the turns in which a machine creates a ledger or takes a stuck
    one over: every job on a ledger, in a datagram or printed was uploaded to some machine before. *)

From stdpp Require Import functions.
From S2P Require Import Prelude Prog Text Net Vendor VendorRef Data Ffi Env Lwip Pbuf Tcp Udp Fs Rng Messages.
From S2P Require Import Observe Wire Upload Owns Marlin Receiver Ledger Ring Network.

Section provenance.
Context `{V : Vendor} {L : VendorLaws V} `{SM : Serialize Message, DM : Deserialize Message} {W : WireLaws}.

(** A step of the network, or any turn of the ledger task. *)
Inductive wide_step (N : Network) : net_event -> Network -> Prop :=
  | Wide_net e N' : net_step N e N' -> wide_step N e N'
  | Wide_managed a b l' tr o' sent :
      addr_wf a -> address_is a tr -> exec (manage_ledger_step (m_observed (machines N a))) tr (Done o') ->
      mutex_log tr b (m_jobs (machines N a)) l' -> delivered a (datagrams tr) sent ->
      wide_step N (Managed a (gcode tr)) (mkNetwork (<[a := mkMachine l' o']> (machines N)) (sent ++ flight N)).

Inductive wide_run (N : Network) : list net_event -> Network -> Prop :=
  | Wide_nil : wide_run N [] N
  | Wide_cons e es N' N'' : wide_step N e N' -> wide_run N' es N'' -> wide_run N (e :: es) N''.

(** The jobs a payload, a machine and a network mention. *)
Definition payload_jobs (p : Payload) : list Uuid :=
  match p with
  | Payload_NewJob j => [guid j]
  | Payload_Ledger l => jobs_iter (jobs l)
  | _ => []
  end.

Definition listed (l : option LedgerState) : list Uuid := match l with Some st => jobs_iter (jobs (ledger st)) | None => [] end.

Definition carried (x : Ipv4Addr * bytes) : list Uuid := match payload_of x.2 with Some p => payload_jobs p | None => [] end.

Definition known (N : Network) (g : Uuid) : Prop :=
  (exists a, g ∈ listed (m_jobs (machines N a))) \/ Exists (fun x => g ∈ carried x) (flight N).

Lemma same_payload_jobs p q g : same_payload p q -> g ∈ payload_jobs q <-> g ∈ payload_jobs p.
Proof. intros H. destruct p, q; cbn in *; simplify_eq; try done. by destruct H as [_ ->]. Qed.

(** What a broadcast of [m] carries. *)
Lemma copy_carries n m ds q b g :
  text_length (msg_payload m) <= 16000 -> copies n m ds -> q ∈ ds -> g ∈ carried (b, q.2) -> g ∈ payload_jobs (msg_payload m).
Proof.
  intros Ht Hc Hq Hg. destruct (copies_payload n m ds q Ht Hc Hq) as (_ & p & Hp & Hsp).
  unfold carried in Hg. cbn [snd] in Hg. rewrite Hp in Hg. by apply (same_payload_jobs _ _ g) in Hsp as <-.
Qed.

Lemma sent_carries a n m ds sent g :
  text_length (msg_payload m) <= 16000 -> copies n m ds -> delivered a ds sent ->
  Exists (fun x => g ∈ carried x) sent -> g ∈ payload_jobs (msg_payload m).
Proof.
  intros Ht Hc [_ Hs] ([b d] & Hin & Hg)%Exists_exists. apply Hs in Hin as (_ & q & Hq & <-). by eapply copy_carries.
Qed.

(** A step of one machine: what it lists and sends afterwards was known, or is [P]. *)
Lemma known_update N a m sent (P : Uuid -> Prop) g :
  (g ∈ listed (m_jobs m) -> g ∈ listed (m_jobs (machines N a)) \/ P g) ->
  (Exists (fun x => g ∈ carried x) sent -> g ∈ listed (m_jobs (machines N a)) \/ P g) ->
  known (mkNetwork (<[a := m]> (machines N)) (sent ++ flight N)) g -> known N g \/ P g.
Proof.
  intros Hm Hs [[b Hb]|[Hx|Hx]%Exists_app]; cbn in *.
  - destruct (decide (b = a)) as [->|Hne]; [rewrite fn_lookup_insert in Hb|rewrite fn_lookup_insert_ne in Hb by auto].
    + destruct (Hm Hb); [|by right]. left. left. eauto.
    + left. left. eauto.
  - destruct (Hs Hx); [|by right]. left. left. eauto.
  - left. by right.
Qed.

Lemma known_fewer N a m x fl (P : Uuid -> Prop) g :
  flight N ≡ₚ x :: fl -> (g ∈ listed (m_jobs m) -> g ∈ listed (m_jobs (machines N a)) \/ g ∈ carried x \/ P g) ->
  known (mkNetwork (<[a := m]> (machines N)) fl) g -> known N g \/ P g.
Proof.
  intros Hf Hm Hk. assert (Exists (fun x => g ∈ carried x) (x :: fl) -> known N g) as Hx.
  { intros H. right. by rewrite Hf. }
  destruct Hk as [[b Hb]|Hfl]; cbn in *; [|left; apply Hx; by constructor].
  destruct (decide (b = a)) as [->|Hne]; [rewrite fn_lookup_insert in Hb|rewrite fn_lookup_insert_ne in Hb by auto].
  - destruct (Hm Hb) as [?|[?|?]]; [left; left; eauto|left; apply Hx; by constructor|by right].
  - left. left. eauto.
Qed.

Lemma accepted_length id u : text_length (msg_payload (mkMessage id (Payload_Log (accepted_text u)))) <= 16000.
Proof. cbn. unfold accepted_text. rewrite len_app, uuid_display_length. by apply (bool_decide_unpack _). Qed.

(** A turn that found [l] and left [l']. *)
Lemma turn_jobs a b l l' o tr o' sent g :
  addr_wf a -> address_is a tr -> exec (manage_ledger_step o) tr (Done o') -> mutex_log tr b l l' ->
  delivered a (datagrams tr) sent ->
  (g ∈ listed l' \/ Exists (fun x => g ∈ carried x) sent -> g ∈ listed l) /\
  (forall ok, (select g, ok) ∈ gcode tr -> g ∈ listed l).
Proof.
  intros Ha Hi H Hm Hd. apply (manage_turn_run a) in H as (b1 & l1 & l1' & Hm1 & Hl); [|done|done].
  destruct Hm as (Hb & _ & Hf & Hw), Hm1 as (Hb1 & _ & Hf1 & Hw1).
  rewrite Hb1 in Hb. rewrite Hf1 in Hf. rewrite Hw1 in Hw. simplify_eq.
  destruct l as [st|].
  2: { destruct Hl as (t & -> & _ & -> & [id Hann]). cbn. rewrite jobs_new_iter. split; [|by intros ok ?%elem_of_nil].
    intros [Hg|Hg]; [done|]. eapply (sent_carries a) in Hg; [| |exact Hann|exact Hd]; [|cbn; lia]. cbn in Hg. by rewrite jobs_new_iter in Hg. }
  destruct Hl as (st1 & e & -> & _ & Hl). unfold turn_log in Hl.
  set (st2 := set_owner st (owner_after a (book_keys b) e st)) in *.
  assert (listed (Some st2) = listed (Some st)) as Hst by done.
  case_decide.
  { destruct Hl as (Hc & Hds & -> & _). rewrite Hds in Hd. apply delivered_nil in Hd as ->. rewrite Hc, Hst.
    split; [by intros [?|?%Exists_nil]|by intros ok ?%elem_of_nil]. }
  destruct o.
  2: { destruct Hl as (Hc & Hds & -> & _). rewrite Hds in Hd. apply delivered_nil in Hd as ->. rewrite Hc, Hst.
    split; [by intros [?|?%Exists_nil]|by intros ok ?%elem_of_nil]. }
  destruct Hl as (js & ds1 & ds2 & Hds & Hj & Hp). rewrite Hds in Hd.
  pose proof (jobs_log_works _ _ _ _ Hj) as Hwk. pose proof (fun u => works_jobs _ _ _ Hwk u) as Hjs.
  assert (listed (Some st1) = jobs_iter js /\ announced (ledger st1) ds2) as [Hl' [id Hann]].
  { destruct Hp as [Hann Hp]. split; [|done]. destruct (book_is_empty b); [by destruct Hp as [-> _]|].
    by destruct Hp as (next & _ & -> & _). }
  split; [|intros ok Hin; by apply (works_select _ _ _ _ _ Hwk) in Hin as [? _]].
  intros [Hg|([c d] & Hin & Hg)%Exists_exists]; [apply Hjs; by rewrite <- Hl'|].
  destruct Hd as [_ Hd]. apply Hd in Hin as (_ & q & Hq & <-). apply elem_of_app in Hq as [Hq|Hq].
  - exfalso. destruct Hj as [(_ & -> & _)|(u & r & _ & _ & Hr)]; [by apply elem_of_nil in Hq|].
    destruct (is_ok r); [|destruct Hr as [-> _]; by apply elem_of_nil in Hq]. destruct Hr as [[id' Hc] _].
    eapply copy_carries in Hc; [|apply accepted_length|exact Hq|exact Hg]. by apply elem_of_nil in Hc.
  - eapply copy_carries in Hann; [|cbn; lia|exact Hq|exact Hg]. cbn in Hann. apply Hjs. by rewrite <- Hl'.
Qed.

(** A job that a step makes known is the one it uploads; a job it prints was known. *)
Lemma net_step_known N e N' g :
  net_step N e N' -> (known N' g -> known N g \/ exists a, e = Uploaded a g) /\ (prints g e -> known N g).
Proof.
  intros H. destruct H as [a b st st' tr o' sent Ha Hi _ Hst _ H Hm Hd|a u tr l' sent Ha Hi H Hf Hw Hd|a p tr sent Hp H Hd|
    a d fl m h src tr h' Hfl Hm H Hj|x fl Hfl].
  - destruct (turn_jobs _ _ _ _ _ _ _ sent g Ha Hi H Hm Hd) as [Hk Hp].
    split; [|intros [ok Hok]; left; exists a; rewrite Hst; by eapply Hp].
    intros HN. apply (known_update _ _ _ _ (fun _ => False)) in HN as [?|[]]; [by left|rewrite Hst; auto..].
  - split; [|by intros []]. apply (append_run a) in H as (b & found & _ & Hf' & Hw' & Hds); [|done|done].
    rewrite Hf in Hf'. rewrite Hw in Hw'. simplify_eq. intros HN.
    apply (known_update _ _ _ _ (fun g => g = u)) in HN as [?| ->]; [by left|right; by eexists| |].
    + cbn. unfold append_result. destruct (owned_by _ _); [|by left].
      destruct (m_jobs (machines N a)) as [st|]; cbn; [|by left]. intros Hg. apply jobs_insert_in in Hg as [->|Hg]; auto.
    + intros Hg. destruct (owned_by _ _ || _).
      * rewrite Hds in Hd. apply delivered_nil in Hd as ->. by apply Exists_nil in Hg.
      * destruct Hds as [id Hc]. eapply (sent_carries a) in Hg; [| |exact Hc|exact Hd]; [|cbn; lia].
        cbn in Hg. apply list_elem_of_singleton in Hg. by right.
  - split; [|by intros []]. intros [Hk|[Hx|Hx]%Exists_app]; [by left; left| |by left; right].
    exfalso. destruct Hp as [->|(s & Hs & ->)].
    + apply send_heartbeat_run in H as [id Hc]. eapply (sent_carries a) in Hx; [| |exact Hc|exact Hd]; [|cbn; lia].
      by apply elem_of_nil in Hx.
    + apply send_log_run in H as [id Hc]. eapply (sent_carries a) in Hx; [| |exact Hc|exact Hd]; [|done].
      by apply elem_of_nil in Hx.
  - split; [|intros Hp; by destruct Hp]. intros HN.
    apply (known_fewer _ _ _ (a, d) _ (fun _ => False)) in HN as [?|[]]; [by left|done|].
    assert (carried (a, d) = payload_jobs (msg_payload m)) as Hcar by (unfold carried, payload_of; cbn; by rewrite Hm).
    rewrite Hcar. cbn. apply handle_message_run in H as [(_ & _ & _ & ->)|(_ & _ & book & t0 & found & now & _ & _ & Hjf & _ & ->)];
      [by left|].
    destruct (msg_payload m) as [hb|[u]|l|s] eqn:Em; cbn [payload_effect last default]; [by left| | |by left].
    + rewrite Hjf in Hj. apply Forall_inv in Hj as <-. cbn. destruct (m_jobs (machines N a)) as [st|]; cbn; [|by left].
      intros Hg. apply jobs_insert_in in Hg as [->|Hg]; [right; left; by left|by left].
    + intros Hg. right. by left.
  - split; [|by intros []]. intros [Hk|Hx]; left; [by left|]. right. rewrite Hfl. by constructor.
Qed.

Lemma wide_step_known N e N' g :
  wide_step N e N' -> (known N' g -> known N g \/ exists a, e = Uploaded a g) /\ (prints g e -> known N g).
Proof.
  intros [e' N1 H|a b l' tr o' sent Ha Hi H Hm Hd]; [by apply net_step_known|].
  destruct (turn_jobs _ _ _ _ _ _ _ sent g Ha Hi H Hm Hd) as [Hk Hp].
  split; [|intros [ok Hok]; left; exists a; by eapply Hp].
  intros HN. apply (known_update _ _ _ _ (fun _ => False)) in HN as [?|[]]; [by left|auto..].
Qed.

Lemma wide_run_known N es N' g :
  wide_run N es N' -> known N' g -> known N g \/ exists a, Uploaded a g ∈ es.
Proof.
  induction 1 as [N|N e es N1 N2 Hs _ IH]; [by left|]. intros Hk. destruct (IH Hk) as [Hk1|[a Ha]].
  - destruct (wide_step_known _ _ _ g Hs) as [H _]. destruct (H Hk1) as [?|[a ->]]; [by left|]. right. exists a. by left.
  - right. exists a. by right.
Qed.

Lemma wide_run_split N es1 es2 N' : wide_run N (es1 ++ es2) N' -> exists N1, wide_run N es1 N1 /\ wide_run N1 es2 N'.
Proof.
  revert N. induction es1 as [|e es1 IH]; intros N H; [by exists N; split; [constructor|]|].
  inversion H as [|? ? N1 ? Hs Hr]; subst. destruct (IH _ Hr) as (N2 & H1 & H2). exists N2. split; [by econstructor|done].
Qed.

(** C10. No job appears from nowhere.  From a network without jobs, whatever turns are taken, ledgers created, lost,
    taken over or duplicated, and messages lost or reordered: every job on a ledger or in a datagram was
    uploaded to some machine, and every print command is for a job uploaded before it. *)
Theorem jobs_come_from_uploads N es N' g :
  wide_run N es N' -> ~ known N g ->
  (known N' g -> exists a, Uploaded a g ∈ es) /\
  (forall es1 e es2, es = es1 ++ e :: es2 -> prints g e -> exists a, Uploaded a g ∈ es1).
Proof.
  intros H Hn. split.
  - intros Hk. by destruct (wide_run_known _ _ _ _ H Hk).
  - intros es1 e es2 -> Hp. apply wide_run_split in H as (N1 & H1 & H2).
    inversion H2 as [|? ? N2 ? Hs _]; subst. destruct (wide_step_known _ _ _ g Hs) as [_ Hk].
    by destruct (wide_run_known _ _ _ _ H1 (Hk Hp)).
Qed.
End provenance.

(** ** An upload that is printed *)

(** Machine 5 owns a ledger without jobs. *)
Definition demo_idle : @Network ref_vendor :=
  mkNetwork (fun a => if decide (a = demo_addr 5) then mkMachine (Some (demo_ledger (demo_addr 5) [])) true
                      else mkMachine None false) [].

Definition demo_uploading : list (event (call (V := ref_vendor))) :=
  run_trace demo_h (append_to_ledger (V := ref_vendor) (demo_id 4))
    (mkDemo [] [] [] 5 7 (to_be (to_bits (demo_addr 5))) demo_book (Some (demo_ledger (demo_addr 5) [])) 1000).

Definition demo_uploaded : option (@LedgerState ref_vendor) := default None (last (jobs_written demo_uploading)).

(** Its next turn, against what the upload left. *)
Definition demo_printing : list (event (call (V := ref_vendor))) :=
  run_trace demo_h demo_manage
    (mkDemo [] [] [] 5 7 (to_be (to_bits (demo_addr 5))) demo_book demo_uploaded 1000).

Definition demo_printed : option (@LedgerState ref_vendor) := default None (last (jobs_written demo_printing)).

Definition demo_idle1 : @Network ref_vendor :=
  mkNetwork (<[demo_addr 5 := mkMachine demo_uploaded true]> (machines demo_idle)) [].

Definition demo_passed_on : bytes := default [] (last (snd <$> datagrams demo_printing)).

Definition demo_idle2 : @Network ref_vendor :=
  mkNetwork (<[demo_addr 5 := mkMachine demo_printed false]> (machines demo_idle1)) [(demo_addr 7, demo_passed_on)].

Lemma demo_uploaded_step : net_step demo_idle (Uploaded (demo_addr 5) (demo_id 4)) demo_idle1.
Proof.
  apply (Step_uploaded demo_idle (demo_addr 5) (demo_id 4) demo_uploading demo_uploaded []).
  - apply addr_wf_bounds. by_eval.
  - by_eval.
  - by_run.
  - match goal with |- _ = ?r => vm_cast_no_check (eq_refl r) end.
  - match goal with |- _ = ?r => vm_cast_no_check (eq_refl r) end.
  - split; [constructor|]. intros b d Hin. by apply elem_of_nil in Hin.
Qed.

Lemma demo_printed_step : wide_step demo_idle1 (Managed (demo_addr 5) (gcode demo_printing)) demo_idle2.
Proof.
  apply (Wide_managed demo_idle1 (demo_addr 5) demo_book demo_printed demo_printing false [(demo_addr 7, demo_passed_on)]).
  - apply addr_wf_bounds. by_eval.
  - by_eval.
  - by_run.
  - split_and!; match goal with |- _ = ?r => vm_cast_no_check (eq_refl r) end.
  - split; [apply NoDup_singleton|]. intros b d Hin. apply list_elem_of_singleton in Hin. apply pair_equal_spec in Hin as [-> ->].
    split; [by apply (bool_decide_unpack _)|]. exists (u32_max, UDP_PORT, demo_passed_on).
    split; [|done]. apply (bool_decide_unpack _). vm_compute. exact I.
Qed.

Lemma jobs_come_from_uploads_witness :
  exists a : Ipv4Addr, Uploaded a (demo_id 4) ∈ [Uploaded (demo_addr 5) (demo_id 4)].
Proof.
  refine (proj2 (jobs_come_from_uploads (L := ref_vendor_laws) demo_idle
    [Uploaded (demo_addr 5) (demo_id 4); Managed (demo_addr 5) (gcode demo_printing)] demo_idle2 (demo_id 4) _ _)
    [Uploaded (demo_addr 5) (demo_id 4)] (Managed (demo_addr 5) (gcode demo_printing)) [] eq_refl _).
  - eapply Wide_cons; [apply Wide_net, demo_uploaded_step|]. eapply Wide_cons; [apply demo_printed_step|apply Wide_nil].
  - intros [[a Ha]|H]; [|by apply Exists_nil in H]. unfold demo_idle in Ha. cbn [machines] in Ha.
    destruct (decide (a = demo_addr 5)); vm_compute in Ha; inversion Ha.
  - exists true. apply (bool_decide_unpack _). vm_compute. exact I.
Defined.
