(* ===== verification/Mutex.v ===== *)
(** * The two mutexes

    The address book and the ledger are shared by the tasks through two asynchronous
    mutexes.  Every task takes the address book's before the ledger's, never takes
    one that it holds, gives both back and holds neither when it waits for anything else, so tasks cannot wait for each
    other in a circle. *)

From S2P Require Import Prelude Prog Net Vendor VendorRef Data Ffi Env Lwip Pbuf Tcp Udp Fs Http Request Rng.
From S2P Require Import Messages Observe Wire Upload Put Transfer Marlin Receiver Ledger.

(** What can make a task wait: the mutexes, and waiting for an item or an outcome. *)
Inductive mutex_op : Type := LockBook | UnlockBook | LockJobs | UnlockJobs | Await.

(** Whether this task holds the address book and the ledger. *)
Record held : Type := mkHeld { holds_book : bool; holds_jobs : bool }.

Definition free : held := mkHeld false false.

Definition mutex_step (h : held) (o : mutex_op) : option held :=
  match o with
  | LockBook => if holds_book h || holds_jobs h then None else Some (mkHeld true (holds_jobs h))
  | UnlockBook => if holds_book h then Some (mkHeld false (holds_jobs h)) else None
  | LockJobs => if holds_jobs h then None else Some (mkHeld (holds_book h) true)
  | UnlockJobs => if holds_jobs h then Some (mkHeld (holds_book h) false) else None
  | Await => if holds_book h || holds_jobs h then None else Some h
  end.

Fixpoint mutex_run (h : held) (os : list mutex_op) : option held :=
  match os with
  | [] => Some h
  | o :: os => match mutex_step h o with Some h => mutex_run h os | None => None end
  end.

Lemma mutex_run_app h os1 os2 :
  mutex_run h (os1 ++ os2) = match mutex_run h os1 with Some h' => mutex_run h' os2 | None => None end.
Proof.
  revert h. induction os1 as [|o os1 IH]; intros h; [done|]. cbn. destruct (mutex_step h o); [apply IH|done].
Qed.

Section ordered.
Context `{V : Vendor}.

Definition op_of {X} (c : call X) : list mutex_op :=
  match c with
  | CRt c =>
      match c with
      | addresses_lock => [LockBook]
      | addresses_unlock _ => [UnlockBook]
      | jobs_lock => [LockJobs]
      | jobs_unlock _ => [UnlockJobs]
      | c => if awaits (CRt c) then [Await] else []
      end
  | _ => []
  end.

Definition mutex_seen (X : Type) (c : call X) (_ : X) : list mutex_op := op_of c.

#[export] Instance mutex_seen_locking : Locking mutex_seen.
Proof. intros X c x. destruct c as [X c|X c|X c|X c|X c|X c]; try done; by destruct c. Qed.

(** The operations on the mutexes alone. *)
Definition lock_seen (X : Type) (c : call X) (_ : X) : list mutex_op := if awaits c then [] else op_of c.

#[export] Instance lock_seen_only : MutexOnly lock_seen.
Proof. intros X c x. destruct c as [X c|X c|X c|X c|X c|X c]; try done; by destruct c. Qed.

(** Who holds nothing may wait. *)
Lemma await_free tr : collect lock_seen tr = [] -> mutex_run free (collect mutex_seen tr) = Some free.
Proof.
  induction tr as [|[X c x] tr IH]; [done|]. cbn. intros [Hc H]%app_eq_nil. rewrite mutex_run_app.
  assert (mutex_run free (mutex_seen X c x) = Some free) as ->; [|by apply IH].
  unfold lock_seen in Hc. unfold mutex_seen. destruct (awaits c) eqn:E; [|by rewrite Hc].
  destruct c as [X c|X c|X c|X c|X c|X c]; try done; by destruct c.
Qed.

(** Every run of [p] started with [h] respects the order and ends with [h']; where a run is cut short, nothing is held. *)
Definition ordered {A} (h : held) (p : io A) (h' : held) : Prop :=
  forall tr o, exec p tr o -> mutex_run h (collect mutex_seen tr) = Some match o with Done _ => h' | _ => free end.

Lemma ordered_quiet {A} (p : io A) : no_emit lock_seen p -> ordered free p free.
Proof. intros Hp tr o H. rewrite await_free by exact (Hp _ _ H). by destruct o. Qed.

Lemma ordered_total {A} h (p : io A) : no_emit mutex_seen p -> total p -> ordered h p h.
Proof. intros Hp Ht tr o H. rewrite (Hp _ _ H). by destruct (Ht _ _ H) as [a ->]. Qed.

Lemma ordered_bind {A B} h (p : io A) h1 (f : A -> io B) h2 :
  ordered h p h1 -> (forall a, ordered h1 (f a) h2) -> ordered h (p ≫= f) h2.
Proof.
  intros Hp Hf tr o H%exec_bind. inversion H as [a tr1 tr2 o' -> H1 H2|H1|H1]; subst; [|exact (Hp _ _ H1)..].
  rewrite collect_app, mutex_run_app, (Hp _ _ H1). by eapply Hf.
Qed.

Lemma ordered_quiet_bind {A B} (p : io A) (f : A -> io B) h2 :
  no_emit lock_seen p -> (forall a, ordered free (f a) h2) -> ordered free (p ≫= f) h2.
Proof. intros Hp Hf. eapply ordered_bind; [by apply ordered_quiet|done]. Qed.

Lemma ordered_total_bind {A B} h (p : io A) (f : A -> io B) h2 :
  no_emit mutex_seen p -> total p -> (forall a, ordered h (f a) h2) -> ordered h (p ≫= f) h2.
Proof. intros Hp Ht Hf. eapply ordered_bind; [by apply ordered_total|done]. Qed.

Lemma ordered_ret {A} h (a : A) : ordered h (Ret a) h.
Proof. by intros tr b [-> ->]. Qed.

Lemma ordered_rt {X} h (c : rt_call X) h' : mutex_run h (op_of (CRt c)) = Some h' -> ordered h (rt c) h'.
Proof. intros Hc tr o (x & tr' & -> & -> & ->). cbn [collect mutex_seen]. by rewrite app_nil_r. Qed.
End ordered.

(** One mutex operation, or a program without any. *)
Ltac ordered_step :=
  lazymatch goal with
  | |- ordered _ (Ret _) _ => apply ordered_ret
  | |- ordered _ (rt addresses_lock ≫= _) _ => eapply ordered_bind; [apply ordered_rt; reflexivity|intros ?]
  | |- ordered _ (rt (addresses_unlock _) ≫= _) _ => eapply ordered_bind; [apply ordered_rt; reflexivity|intros ?]
  | |- ordered _ (rt jobs_lock ≫= _) _ => eapply ordered_bind; [apply ordered_rt; reflexivity|intros ?]
  | |- ordered _ (rt (jobs_unlock _) ≫= _) _ => eapply ordered_bind; [apply ordered_rt; reflexivity|intros ?]
  | |- ordered _ (rt _) _ => apply ordered_rt; reflexivity
  | |- ordered free (_ ≫= _) _ => apply ordered_quiet_bind; [solve [no_emit_tac]|intros ?]
  | |- ordered _ (_ ≫= _) _ => apply ordered_total_bind; [solve [no_emit_tac]|solve [total_tac]|intros ?]
  | |- ordered _ (if ?b then _ else _) _ => destruct b
  | |- ordered _ (match ?x with _ => _ end) _ => destruct x
  end.

Ltac ordered_tac := repeat (ordered_step || (progress intros)).

Section tasks.
Context `{V : Vendor} {L : VendorLaws V} `{SM : Serialize Message} `{DM : Deserialize Message}.

(** What touches nothing that the tasks share. *)
Section apart.
Context {B} (f : forall X, call X -> X -> list B) `{!Apart f}.

Lemma aloof_drop p : no_emit f (drop_packet p).
Proof. unfold drop_packet. no_emit_tac. Qed.

Lemma aloof_response b : no_emit f (response b).
Proof. unfold response. no_emit_tac. Qed.

Lemma aloof_write_chunks h n cs : no_emit f (write_chunks h n cs).
Proof.
  revert n. induction cs as [|c cs IH]; intros n; cbn [write_chunks]; [no_emit_tac|].
  unfold upload_chunk, write. cbv zeta. no_emit_tac.
Qed.
End apart.

Section handing.
Context {B} (f : forall X, call X -> X -> list B) `{!Handing f}.

Lemma aloof_receive : no_emit f receive.
Proof. unfold receive. no_emit_tac. Qed.

Lemma aloof_receive_rest fuel h path n : no_emit f (receive_rest fuel h path n).
Proof.
  pose proof aloof_receive. pose proof (aloof_write_chunks f). pose proof (aloof_drop f).
  revert n. induction fuel as [|fuel IH]; intros n; cbn [receive_rest];
    (destruct (n >? 0); [|apply no_emit_ret]); [apply no_emit_fuel|].
  unfold close, drop_file, delete, drop_iter. no_emit_tac.
Qed.

Lemma aloof_drop_connection : no_emit f drop_connection.
Proof.
  pose proof (aloof_drop f). assert (forall n p, no_emit f (drain_channel n p)) as Hd.
  { intros n p. induction n as [|n IH]; cbn [drain_channel]; [apply no_emit_fuel|]. no_emit_tac. }
  unfold drop_connection. apply no_emit_bind; [no_emit_tac|intros _]. apply no_emit_bind; [no_emit_tac|intros l].
  apply no_emit_for_each. no_emit_tac.
Qed.

Lemma aloof_put_file g addr port : no_emit f (put_file g addr port).
Proof.
  unfold put_file, put_new, stat, open, put_send, drop_put, drop_file. rewrite make_path_eq. cbv zeta. no_emit_tac.
Qed.
End handing.

Lemma quiet_log s : no_emit lock_seen (log_to_udp s).
Proof. apply no_mutex_send_log, _. Qed.

Lemma quiet_new_job g : no_emit lock_seen (send_new_job_alert g).
Proof. apply no_mutex_new_job, _. Qed.

Lemma quiet_heartbeat : no_emit lock_seen send_heartbeat.
Proof. apply no_mutex_heartbeat, _. Qed.

Lemma quiet_drop p : no_emit lock_seen (drop_packet p).
Proof. apply aloof_drop, _. Qed.

Lemma quiet_receive : no_emit lock_seen receive.
Proof. apply aloof_receive, _. Qed.

Lemma quiet_response b : no_emit lock_seen (response b).
Proof. apply aloof_response, _. Qed.

Lemma quiet_write_chunks f n cs : no_emit lock_seen (write_chunks f n cs).
Proof. apply aloof_write_chunks, _. Qed.

Lemma quiet_receive_rest fuel f path n : no_emit lock_seen (receive_rest fuel f path n).
Proof. apply aloof_receive_rest, _. Qed.

Lemma ordered_append g : ordered free (append_to_ledger g) free.
Proof.
  pose proof (quiet_new_job g). unfold append_to_ledger. cbv zeta. do 3 ordered_step.
  apply ordered_total_bind; [unfold my_ipaddr; no_emit_tac|unfold my_ipaddr; total_tac|]. intros [gd o]. ordered_step.
  apply ordered_quiet. no_emit_tac.
Qed.

Lemma ordered_finish info g path f : ordered free (finish_upload info g path f) free.
Proof.
  pose proof quiet_log. pose proof quiet_response. unfold finish_upload, close, drop_file, rname.
  rewrite make_path_eq. do 5 (apply ordered_quiet_bind; [no_emit_tac|intros ?]).
  destruct (info_guid info); [apply ordered_ret|].
  eapply ordered_bind; [apply ordered_append|intros ?]. apply ordered_quiet. no_emit_tac.
Qed.

Lemma ordered_handle_put fuel it headers body : ordered free (handle_put fuel it headers body) free.
Proof.
  pose proof quiet_log. pose proof quiet_response. pose proof quiet_drop. pose proof quiet_write_chunks.
  pose proof quiet_receive_rest. unfold handle_put. cbv zeta. apply ordered_quiet_bind; [done|intros ?].
  destruct (put_rejected _); [apply ordered_quiet; unfold drop_iter; no_emit_tac|].
  apply ordered_quiet_bind; [unfold generate_uuid_v7; no_emit_tac|intros g]. rewrite make_path_eq.
  apply ordered_quiet_bind; [no_emit_tac|intros path].
  apply ordered_quiet_bind; [unfold open; no_emit_tac|intros [f|e]].
  2: { apply ordered_quiet. unfold drop_iter. no_emit_tac. }
  apply ordered_quiet_bind; [no_emit_tac|intros n].
  apply ordered_quiet_bind; [unfold upload_chunk, write; cbv zeta; no_emit_tac|intros m].
  apply ordered_quiet_bind; [done|intros [k b]]. apply ordered_quiet_bind; [unfold drop_iter; done|intros _].
  apply ordered_quiet_bind; [no_emit_tac|intros []]; [apply ordered_finish|apply ordered_ret].
Qed.

Lemma ordered_handle_conn fuel : ordered free (handle_conn fuel) free.
Proof.
  pose proof quiet_log. pose proof quiet_response. pose proof quiet_drop. pose proof quiet_receive.
  unfold handle_conn. do 2 (apply ordered_quiet_bind; [done|intros ?]).
  destruct a0 as [p|]; [|apply ordered_ret]. cbv zeta. rewrite iter_next_chunks. unfold drop_iter.
  destruct (chunks _) as [|c cs]; [apply ordered_quiet; no_emit_tac|].
  destruct (split_request c) as [[[sl hd] body]|]; [|apply ordered_quiet; no_emit_tac].
  destruct (check_start_line sl) as [[]|e]; [apply ordered_quiet; no_emit_tac| |apply ordered_quiet; no_emit_tac].
  apply ordered_handle_put.
Qed.

Lemma quiet_drop_connection : no_emit lock_seen drop_connection.
Proof. apply aloof_drop_connection, _. Qed.

Lemma ordered_worker fuel : ordered free (tcp_worker_step fuel) free.
Proof.
  unfold tcp_worker_step, with_connection. do 2 (apply ordered_quiet_bind; [no_emit_tac|intros ?]).
  apply ordered_quiet_bind; [unfold attach_callbacks; no_emit_tac|intros ?].
  eapply ordered_bind; [apply ordered_handle_conn|intros ?]. apply ordered_quiet, quiet_drop_connection.
Qed.

Lemma ordered_receiver h : ordered free (udp_receiver_step h) free.
Proof.
  pose proof quiet_drop. unfold udp_receiver_step, udp_socket_receive, drop_iter.
  apply ordered_quiet_bind; [no_emit_tac|intros [a p]]. rewrite iter_next_chunks.
  destruct (chunks _) as [|c cs]; (apply ordered_quiet_bind; [done|intros _]); [apply ordered_ret|].
  apply ordered_quiet_bind; [no_emit_tac|intros s]. destruct (from_bytes s) as [m|]; [|apply ordered_ret].
  unfold handle_message, handle_payload, ledger_state_new. cbv zeta. destruct (history_contains _ _); [apply ordered_ret|].
  ordered_step. apply ordered_total_bind; [no_emit_tac|total_tac|intros t]. ordered_step.
  eapply ordered_bind; [|intros _; apply ordered_ret]. destruct (msg_payload m) as [?|d|l|?]; [apply ordered_ret| |
    |apply ordered_ret]; ordered_step; [ordered_step|].
  apply ordered_total_bind; [no_emit_tac|total_tac|intros st]. ordered_step.
Qed.

Lemma ordered_lifetime : ordered free lifetime_check_step free.
Proof.
  assert (forall es, no_emit mutex_seen (fresh_entries es)) as Hf.
  { induction es as [|[k t] es IH]; cbn [fresh_entries]; no_emit_tac. }
  assert (forall es, total (fresh_entries es)) as Ht.
  { induction es as [|[k t] es IH]; cbn [fresh_entries]; total_tac. }
  unfold lifetime_check_step. apply ordered_quiet_bind; [no_emit_tac|intros _]. ordered_step.
  apply ordered_total_bind; [apply Hf|apply Ht|intros ks]. ordered_step.
Qed.

Lemma ordered_manage observed : ordered free (manage_ledger_step observed) free.
Proof.
  pose proof (no_mutex_manage mutex_seen) as Hm. pose proof (no_mutex_send_ledger mutex_seen) as Hs.
  unfold manage_ledger_step. apply ordered_quiet_bind; [no_emit_tac|intros _].
  apply ordered_quiet_bind; [unfold my_ipaddr; no_emit_tac|intros [my|]]; [|apply ordered_ret].
  do 2 ordered_step. destruct a0 as [st|].
  - apply ordered_total_bind; [apply Hm|apply total_manage_state|intros [st' ob]]. do 3 ordered_step.
  - unfold ledger_state_new. apply ordered_total_bind; [no_emit_tac|total_tac|intros st].
    apply ordered_total_bind; [apply Hs|total_tac|intros _]. do 3 ordered_step.
Qed.

Lemma quiet_put_file g addr port : no_emit lock_seen (put_file g addr port).
Proof. apply aloof_put_file, _. Qed.

Lemma ordered_distribute : ordered free distribute_step free.
Proof.
  pose proof quiet_put_file. pose proof quiet_log. unfold distribute_step, distribute_all.
  apply ordered_quiet_bind; [no_emit_tac|intros g]. do 2 ordered_step. apply ordered_quiet, no_emit_for_each.
  intros [k t]. unfold distribute_to. no_emit_tac.
Qed.

(** The tasks cannot deadlock on the shared state: each takes the address book's mutex
    before the ledger's, never takes one it already holds, never gives back one it
    does not hold, and holds neither between its turns nor while it waits for a connection, a packet, a datagram, an
    upload or the outcome of a request. *)
Theorem mutexes_ordered fuel h observed :
  ordered free (tcp_worker_step fuel) free /\ ordered free (udp_receiver_step h) free /\
  ordered free lifetime_check_step free /\ ordered free (manage_ledger_step observed) free /\
  ordered free distribute_step free.
Proof.
  split; [apply ordered_worker|]. split; [apply ordered_receiver|]. split; [apply ordered_lifetime|].
  split; [apply ordered_manage|apply ordered_distribute].
Qed.
End tasks.

Lemma mutexes_ordered_witness :
  ordered free (tcp_worker_step (V := ref_vendor) 5) free /\
  ordered free (udp_receiver_step (V := ref_vendor) history_new) free /\
  ordered free (lifetime_check_step (V := ref_vendor)) free /\
  ordered free (manage_ledger_step (V := ref_vendor) true) free /\
  ordered free (distribute_step (V := ref_vendor)) free.
Proof. exact (mutexes_ordered 5 history_new true). Defined.
