(* ===== verification/Main.v ===== *)
(** * Start-up ([lib.rs])

    The FreeRTOS task [embassy] prepares the stick and the printer and runs the
    executor, whose first task [embassy_main] brings the network up and spawns
    the others. *)

From S2P Require Import Prelude Prog Net Vendor VendorRef Data Ffi Lwip Pbuf Tcp Udp Env Fs UsbStick Rng.
From S2P Require Import Messages Observe Marlin.

Definition UDP_CHANNEL_SIZE : Z := 12.
Definition MAX_TCP_CONNECTIONS : nat := 1.

Section main.
Context `{V : Vendor}.

(** The part of [embassy] before the executor runs. *)
Definition embassy (fuel : nat) : io unit :=
  rt (vTaskDelay (5 * 1000));;
  rt xTaskGetCurrentTaskHandle;;
  stat (lit "/usb/firmware.bbf");;
  clean_usb fuel;;
  is_ready;;
  set_offline.

(** [loop { if my_ipaddr().is_some() { break; }; .. }] *)
Fixpoint wait_address (fuel : nat) : io unit :=
  match fuel with
  | O => Fuel
  | S fuel =>
      a ← my_ipaddr;
      match a with
      | Some _ => Ret tt
      | None =>
          rt (timer_after_secs 1);;
          wait_address fuel
      end
  end.

(** [match task(state) { Ok(t) => spawner.spawn(t), Err(e) => .. }] *)
Definition spawn_task (t : task_name) : io unit :=
  ok ← rt (task_token t);
  if ok : bool then rt (spawn t) else Ret tt.

Definition embassy_main (fuel : nat) : io unit :=
  r ← bind UDP_PORT;
  match r with
  | Err _ => Ret tt
  | Ok _ =>
      r ← listen TCP_PORT;
      match r with
      | Err _ => Ret tt
      | Ok _ =>
          wait_address fuel;;
          spawn_task Task_heartbeat;;
          spawn_task Task_address_book_lifetime_check;;
          spawn_task Task_manage_ledger;;
          spawn_task Task_udp_receiver;;
          repeat_prog MAX_TCP_CONNECTIONS (spawn_task Task_tcp_worker);;
          spawn_task Task_distribute_file
      end
  end.

(** ** Observations *)

(** The tasks asked for, in order, and whether they could be spawned. *)
Definition token_seen (X : Type) (c : call X) : X -> list (task_name * bool) :=
  match c in call X return X -> list (task_name * bool) with
  | CRt c =>
      match c in rt_call X return X -> list (task_name * bool) with
      | task_token t => fun b => [(t, b)]
      | _ => fun _ => []
      end
  | _ => fun _ => []
  end.

Definition spawn_seen (X : Type) (c : call X) : X -> list task_name :=
  match c in call X return X -> list task_name with
  | CRt c =>
      match c in rt_call X return X -> list task_name with
      | spawn t => fun _ => [t]
      | _ => fun _ => []
      end
  | _ => fun _ => []
  end.

Definition asked : trace -> list (task_name * bool) := collect token_seen.
Definition spawned : trace -> list task_name := collect spawn_seen.

Definition all_tasks : list task_name :=
  [Task_heartbeat; Task_address_book_lifetime_check; Task_manage_ledger; Task_udp_receiver; Task_tcp_worker;
   Task_distribute_file].

Lemma spawn_task_run t tr :
  exec (spawn_task t) tr (Done tt) ->
  exists b, asked tr = [(t, b)] /\ spawned tr = if b then [t] else [].
Proof. intros H. exec_step H as []; exec_steps H; by eexists. Qed.

Definition silent_start (tr : trace) : Prop := asked tr = [] /\ spawned tr = [].

Lemma silent_start_intro {A} (p : io A) tr o :
  no_emit token_seen p -> no_emit spawn_seen p -> exec p tr o -> silent_start tr.
Proof. intros H1 H2 H. split; [exact (H1 _ _ H)|exact (H2 _ _ H)]. Qed.

Lemma wait_address_silent fuel : no_emit token_seen (wait_address fuel) /\ no_emit spawn_seen (wait_address fuel).
Proof. induction fuel as [|fuel [IH1 IH2]]; cbn [wait_address]; unfold my_ipaddr; split; no_emit_tac; apply no_emit_fuel. Qed.

(** The network came up in this run: [bind] and [listen] both succeeded. *)
Lemma embassy_main_run fuel tr :
  exec (embassy_main fuel) tr (Done tt) ->
  silent_start tr \/ exists bs, asked tr = zip all_tasks bs /\ length bs = length all_tasks /\
                                spawned tr = (filter (fun e => e.2 = true) (zip all_tasks bs)).*1.
Proof.
  intros H. unfold embassy_main in H. bind_step H as r H1.
  apply silent_start_intro in H1 as [Ha1 Hs1]; [|unfold bind; no_emit_tac|unfold bind; no_emit_tac].
  unfold silent_start, asked, spawned in *.
  destruct r as [u|e]; [|exec_steps H; left; by rewrite app_nil_r].
  bind_step H as r H2. apply silent_start_intro in H2 as [Ha2 Hs2]; [|unfold listen; no_emit_tac|unfold listen; no_emit_tac].
  unfold asked, spawned in *. rewrite !collect_app, Ha1, Hs1, Ha2, Hs2. cbn [app].
  destruct r as [u'|e]; [|exec_steps H; by left]. right.
  bind_step H as u2 H3. destruct (wait_address_silent fuel) as [W1 W2].
  apply silent_start_intro in H3 as [Ha3 Hs3]; [|done|done]. unfold asked, spawned in *.
  rewrite !collect_app, Ha3, Hs3. cbn [app].
  bind_step H as [] H4. apply spawn_task_run in H4 as (b1 & A1 & S1).
  bind_step H as [] H4. apply spawn_task_run in H4 as (b2 & A2 & S2).
  bind_step H as [] H4. apply spawn_task_run in H4 as (b3 & A3 & S3).
  bind_step H as [] H4. apply spawn_task_run in H4 as (b4 & A4 & S4).
  bind_step H as [] H4. cbn [repeat_prog MAX_TCP_CONNECTIONS] in H4. bind_step H4 as [] H5. exec_steps H4.
  apply spawn_task_run in H5 as (b5 & A5 & S5). apply spawn_task_run in H as (b6 & A6 & S6).
  unfold asked, spawned in *. exists [b1; b2; b3; b4; b5; b6].
  rewrite !collect_app, A1, A2, A3, A4, A5, A6, S1, S2, S3, S4, S5, S6. cbn [collect app].
  split; [done|]. split; [done|]. by destruct b1, b2, b3, b4, b5, b6.
Qed.

(** The firmware starts all of its tasks or none: when the UDP socket cannot be bound or
    the TCP port not listened on, nothing is spawned; otherwise each of the six tasks is
    asked for once, in a fixed order, and every one whose pool has room is spawned. *)
Theorem embassy_main_spawns fuel tr :
  exec (embassy_main fuel) tr (Done tt) ->
  (asked tr = [] /\ spawned tr = []) \/
  exists bs, asked tr = zip all_tasks bs /\ length bs = length all_tasks /\
             spawned tr = (filter (fun e => e.2 = true) (zip all_tasks bs)).*1.
Proof. apply embassy_main_run. Qed.

(** An interface without an address counts as having one: while the interface is
    up with address zero, as before DHCP has answered, [my_ipaddr] returns 0.0.0.0 and the wait
    for an address is over at once. *)
Theorem unassigned_address_accepted fuel :
  let tr : trace := [Ev (CLwip netif_default_is_null) false; Ev (CLwip netif_default_ip_addr) 0] in
  exec my_ipaddr tr (Done (Some (mkAddr 0 0 0 0))) /\ exec (wait_address (S fuel)) tr (Done tt).
Proof.
  split.
  - eexists _, _. split; [reflexivity|]. eexists _, _. split; [reflexivity|]. done.
  - eexists _, _. split; [reflexivity|]. eexists _, _. split; [reflexivity|]. done.
Qed.
End main.

(** ** The stick at start-up *)

Section stick.
Context `{V : Vendor} {L : VendorLaws V} {S : Type} {h : handler call S} {names : bytes -> S -> list bytes}
        {U : UsbStick h names}.


(** A name of 60 or more characters stops the firmware: the clean-up finds it
    first again and again and never returns, although it only means to skip it. *)
Theorem clean_usb_stuck fuel s n rest :
  finds (h := h) (lit "*.gcode") -> names (lit "*.gcode") s = n :: rest -> Forall is_ascii n -> 60 <= len n ->
  (run h (clean_usb fuel) s).1 = OutOfFuel.
Proof.
  intros Hok Hn Ha Hl. unfold clean_usb. rewrite run_bind.
  pose proof (find_and_delete_long fuel _ s n rest Hok Hn Ha Hl) as H.
  destruct (run h (find_and_delete fuel _) s) as [o s']. cbn in H. by subst.
Qed.

(** A name of exactly 59 characters makes the start-up panic. *)
Theorem clean_usb_panics fuel s n rest :
  finds (h := h) (lit "*.gcode") -> names (lit "*.gcode") s = n :: rest -> Forall is_ascii n -> len n = 59 ->
  (run h (clean_usb (Datatypes.S fuel)) s).1 = Panicked.
Proof.
  intros Hok Hn Ha Hl. unfold clean_usb. rewrite run_bind.
  pose proof (find_and_delete_59 fuel _ s n rest Hok Hn Ha Hl) as H.
  destruct (run h (find_and_delete _ _) s) as [o s']. cbn in H. by subst.
Qed.
End stick.

(** ** Concrete starts *)

Definition demo_main : io unit := embassy_main (V := ref_vendor) 5.

Lemma embassy_main_spawns_witness :
  let tr := run_trace demo_h demo_main (mkDemo [] [] [] 0 7 0 book_new None 0) in
  exec demo_main tr (Done tt) /\
  ((asked tr = [] /\ spawned tr = []) \/
   exists bs, asked tr = zip all_tasks bs /\ length bs = length all_tasks /\
              spawned tr = (filter (fun e => e.2 = true) (zip all_tasks bs)).*1).
Proof.
  assert (E : exec demo_main (run_trace demo_h demo_main (mkDemo [] [] [] 0 7 0 book_new None 0)) (Done tt)) by by_run.
  split; [exact E|]. exact (embassy_main_spawns 5 _ E).
Defined.

Definition demo_stick : list bytes := [lit "a.gcode"; lit "readme.txt"; lit "b.partial"; lit "c.gcode"].

Lemma short_names_intro (l : list bytes) :
  bool_decide (Forall (fun n => Forall is_ascii n /\ len n <= 58) l) = true -> Forall short_name l.
Proof. intros H. by apply bool_decide_eq_true in H. Qed.


(** What the two sticks are left with, and the calls that failed. *)
Lemma clean_usb_runs :
  (run list_stick (clean_usb 4) demo_stick).2 = [lit "readme.txt"] /\
  usb_failures (run_trace list_stick (clean_usb 4) demo_stick) = 0%nat /\
  (run broken_stick (clean_usb 4) demo_stick).2 = demo_stick /\
  usb_failures (run_trace broken_stick (clean_usb 4) demo_stick) = 2%nat.
Proof. vm_compute. done. Qed.

Definition long_name (n : nat) : bytes := repeat 97 (n - 6) ++ lit ".gcode".

Lemma clean_usb_stuck_witness : (run list_stick (clean_usb 50) [long_name 60]).1 = OutOfFuel.
Proof.
  apply (clean_usb_stuck (names := list_names) 50 [long_name 60] (long_name 60) []).
  - done.
  - vm_compute. reflexivity.
  - by apply (bool_decide_unpack _).
  - vm_compute. discriminate.
Defined.

Lemma clean_usb_panics_witness : (run list_stick (clean_usb 50) [long_name 59]).1 = Panicked.
Proof.
  apply (clean_usb_panics (names := list_names) 49 [long_name 59] (long_name 59) []).
  - done.
  - vm_compute. reflexivity.
  - by apply (bool_decide_unpack _).
  - vm_compute. reflexivity.
Defined.
