(* ===== verification/Tasks.v ===== *)
(** * The tasks together ([tasks/tcp.rs], [tasks/udp.rs])

    Each task as the loop it is, and the system of all six on the executor, which may switch between
    them at every call.  Two mutexes are shared, in the order of [Mutex.v]. *)

From S2P Require Import Prelude Prog Net Vendor VendorRef Data Ffi Env Lwip Pbuf Tcp Udp Fs Http Request Rng.
From S2P Require Import Messages Observe Wire Upload Put Transfer Marlin Receiver Ledger Mutex Main.

(** A task that never returns: what is left of the present turn of its loop, and the next one, given what this
    one leaves in the local variables. *)
Record fiber `{V : Vendor} : Type := mkFiber { locals : Type; now : io locals; turn : locals -> io locals }.

Arguments mkFiber {V} _ _ _.

Section tasks.
Context `{V : Vendor} `{SM : Serialize Message} `{DM : Deserialize Message}.

Definition heartbeat : fiber := mkFiber unit heartbeat_step (fun _ => heartbeat_step).

Definition udp_receiver : fiber := mkFiber History (udp_receiver_step history_new) udp_receiver_step.

Definition address_book_lifetime_check : fiber := mkFiber unit lifetime_check_step (fun _ => lifetime_check_step).

(** The services get time to populate the address book before the first turn. *)
Definition manage_ledger : fiber :=
  mkFiber bool (rt (timer_after_secs 20);; manage_ledger_step false) manage_ledger_step.

Definition tcp_worker (fuel : nat) : fiber := mkFiber unit (tcp_worker_step fuel) (fun _ => tcp_worker_step fuel).

Definition distribute_file : fiber := mkFiber unit distribute_step (fun _ => distribute_step).

Definition task_body (fuel : nat) (t : task_name) : fiber :=
  match t with
  | Task_heartbeat => heartbeat
  | Task_address_book_lifetime_check => address_book_lifetime_check
  | Task_manage_ledger => manage_ledger
  | Task_udp_receiver => udp_receiver
  | Task_tcp_worker => tcp_worker fuel
  | Task_distribute_file => distribute_file
  end.

(** ** The system *)

(** Who holds the address book's mutex, and who the ledger's. *)
Definition holders : Type := option task_name * option task_name.

Definition hold_step (i : task_name) (hs : holders) (o : mutex_op) : option holders :=
  match o with
  | LockBook => match hs.1 with None => Some (Some i, hs.2) | Some _ => None end
  | UnlockBook => Some (None, hs.2)
  | LockJobs => match hs.2 with None => Some (hs.1, Some i) | Some _ => None end
  | UnlockJobs => Some (hs.1, None)
  | Await => Some hs
  end.

Fixpoint hold_run (i : task_name) (hs : holders) (os : list mutex_op) : option holders :=
  match os with
  | [] => Some hs
  | o :: os => match hold_step i hs o with Some hs => hold_run i hs os | None => None end
  end.

Record system : Type := mkSystem { fibers : task_name -> fiber; holding : holders }.

Definition boot (fuel : nat) : system := mkSystem (task_body fuel) (None, None).

(** A task makes a call, which may be answered in any way, or ends a turn. *)
Definition fiber_step (f : fiber) (os : list mutex_op) (f' : fiber) : Prop :=
  match now f with
  | Ret a => os = [] /\ f' = mkFiber (locals f) (turn f a) (turn f)
  | Call c k => os = op_of c /\ exists x, f' = mkFiber (locals f) (k x) (turn f)
  | Panic | Fuel => False
  end.

Definition with_fiber (i : task_name) (f : fiber) (fs : task_name -> fiber) : task_name -> fiber :=
  fun j => if decide (j = i) then f else fs j.

(** A task that asks for a mutex that is held has to wait. *)
Inductive sys_step (s : system) (i : task_name) : system -> Prop :=
  | Sys_step os f' hs :
      fiber_step (fibers s i) os f' -> hold_run i (holding s) os = Some hs ->
      sys_step s i (mkSystem (with_fiber i f' (fibers s)) hs).

Inductive sys_run (s : system) : list task_name -> system -> Prop :=
  | Sys_nil : sys_run s [] s
  | Sys_cons i ts s1 s2 : sys_step s i s1 -> sys_run s1 ts s2 -> sys_run s (i :: ts) s2.

Lemma sys_run_app s ts1 s1 ts2 s2 : sys_run s ts1 s1 -> sys_run s1 ts2 s2 -> sys_run s (ts1 ++ ts2) s2.
Proof. induction 1; [done|]. intros. econstructor; eauto. Qed.
End tasks.

(** ** Every task keeps the order *)

Section order.
Context `{V : Vendor} {L : VendorLaws V} `{SM : Serialize Message} `{DM : Deserialize Message}.

(** Some id, to answer with. *)
Variable u : Uuid.

(** Every call has an answer, so every program has a run. *)
Lemma runs {A} (p : io A) : exists tr o, exec p tr o.
Proof.
  induction p as [a| | |X c k IH]; [by exists [], (Done a)|by exists [], Panicked|by exists [], OutOfFuel|].
  destruct (IH (quiet u c)) as (tr & o & H). by exists (Ev c (quiet u c) :: tr), o, (quiet u c), tr.
Qed.

(** A call of a program that shows nothing. *)
Lemma no_emit_after {B A X} (f : forall X, call X -> X -> list B) (c : call X) (k : X -> io A) x :
  no_emit f (Call c k) -> f X c x = [] /\ no_emit f (k x).
Proof.
  intros H. assert (forall tr o, exec (k x) tr o -> f X c x ++ collect f tr = []) as Hk.
  { intros tr o Hx. apply (H (Ev c x :: tr) o). by exists x, tr. }
  split.
  - destruct (runs (k x)) as (tr & o & Hx). by apply Hk, app_eq_nil in Hx as [? _].
  - intros tr o Hx. by apply Hk, app_eq_nil in Hx as [_ ?].
Qed.

Lemma ordered_call {A X} h (c : call X) (k : X -> io A) h' :
  ordered h (Call c k) h' -> exists h1, mutex_run h (op_of c) = Some h1 /\ forall x, ordered h1 (k x) h'.
Proof.
  intros H. assert (forall x tr o, exec (k x) tr o -> mutex_run h (op_of c ++ collect mutex_seen tr) =
    Some match o with Done _ => h' | _ => free end) as Hk.
  { intros x tr o Hx. apply (H (Ev c x :: tr) o). by exists x, tr. }
  destruct (mutex_run h (op_of c)) as [h1|] eqn:E.
  - exists h1. split; [done|]. intros x tr o Hx. specialize (Hk x tr o Hx). by rewrite mutex_run_app, E in Hk.
  - destruct (runs (k (quiet u c))) as (tr & o & Hx). specialize (Hk _ _ _ Hx). by rewrite mutex_run_app, E in Hk.
Qed.

Definition held_by (hs : holders) (i : task_name) : held :=
  mkHeld (bool_decide (hs.1 = Some i)) (bool_decide (hs.2 = Some i)).

Definition fiber_ok (h : held) (f : fiber) : Prop := ordered h (now f) free /\ forall a, ordered free (turn f a) free.

Definition sys_ok (s : system) : Prop := forall i, fiber_ok (held_by (holding s) i) (fibers s i).

Lemma ordered_heartbeat : ordered free heartbeat_step free.
Proof. apply ordered_quiet. pose proof quiet_heartbeat. unfold heartbeat_step, my_ipaddr. no_emit_tac. Qed.

Lemma boot_ok fuel : sys_ok (boot fuel).
Proof.
  intros i. pose proof ordered_heartbeat. pose proof ordered_lifetime. pose proof ordered_manage.
  pose proof ordered_receiver. pose proof (ordered_worker fuel). pose proof ordered_distribute.
  change (held_by _ i) with free.
  destruct i; (split; [|intros]); cbn [now turn fibers boot task_body heartbeat udp_receiver address_book_lifetime_check
    manage_ledger tcp_worker distribute_file]; auto.
  apply ordered_quiet_bind; [no_emit_tac|auto].
Qed.

(** What an operation does to the holders is what it does to the task's own view, and to no other's. *)
Lemma hold_step_own i hs o hs' h :
  hold_step i hs o = Some hs' -> mutex_step (held_by hs i) o = Some h ->
  held_by hs' i = h /\ forall j, j <> i -> held_by hs' j = held_by hs j.
Proof.
  destruct hs as [b l]. unfold held_by. intros H Hm.
  destruct o, b, l; cbn in *; simplify_eq/=; repeat case_bool_decide; simplify_eq/=; split; intros; f_equal;
    repeat case_bool_decide; congruence.
Qed.

Lemma hold_run_own i hs os hs' h :
  hold_run i hs os = Some hs' -> mutex_run (held_by hs i) os = Some h ->
  held_by hs' i = h /\ forall j, j <> i -> held_by hs' j = held_by hs j.
Proof.
  revert hs. induction os as [|o os IH]; intros hs H Hm; cbn in *; [by simplify_eq|].
  destruct (hold_step i hs o) as [hs1|] eqn:E; [|done]. destruct (mutex_step _ o) as [h1|] eqn:Em; [|done].
  destruct (hold_step_own _ _ _ _ _ E Em) as [<- Ho]. destruct (IH _ H Hm) as [Hi Hj]. split; [done|].
  intros j Hne. by rewrite Hj, Ho.
Qed.

Lemma fiber_step_ok f os f' h :
  fiber_step f os f' -> fiber_ok h f -> exists h', mutex_run h os = Some h' /\ fiber_ok h' f'.
Proof.
  intros Hs [Hn Ht]. destruct f as [T p tu]. unfold fiber_step in Hs. cbn in *. destruct p as [a| | |X c k]; try done.
  - destruct Hs as [-> ->]. specialize (Hn [] (Done a) (conj eq_refl eq_refl)). cbn in Hn. injection Hn as ->.
    exists free. split; [done|]. split; [apply Ht|done].
  - destruct Hs as [-> [x ->]]. apply ordered_call in Hn as (h1 & E & Hk). exists h1. split; [done|]. split; [apply Hk|done].
Qed.

Lemma sys_step_ok s i s' : sys_step s i s' -> sys_ok s -> sys_ok s'.
Proof.
  intros [os f' hs Hf Hh] Hok j. destruct (fiber_step_ok _ _ _ _ Hf (Hok i)) as (h & Hm & Hf').
  destruct (hold_run_own _ _ _ _ _ Hh Hm) as [Hi Hj]. unfold with_fiber. cbn. destruct (decide (j = i)) as [->|Hne].
  - by rewrite Hi.
  - rewrite Hj by done. apply Hok.
Qed.

Lemma sys_run_ok s ts s' : sys_run s ts s' -> sys_ok s -> sys_ok s'.
Proof. induction 1; eauto using sys_step_ok. Qed.
(** ** What a task may do next *)

Lemma with_fiber_same i f fs : with_fiber i f fs i = f.
Proof. unfold with_fiber. by rewrite decide_True. Qed.

Lemma with_fiber_other i j f fs : j <> i -> with_fiber i f fs j = fs j.
Proof. intros. unfold with_fiber. by rewrite decide_False. Qed.

Lemma op_of_cases {X} (c : call X) : op_of c = [] \/ exists o, op_of c = [o].
Proof. destruct c as [X c|X c|X c|X c|X c|X c]; cbn; auto. destruct c; eauto. Qed.

(** What a task may do with the mutexes, by what it holds. *)
Definition allowed (hs : holders) (i : task_name) (os : list mutex_op) : Prop :=
  match os with
  | [] => True
  | [LockBook] => hs.1 <> Some i /\ hs.2 <> Some i
  | [UnlockBook] => hs.1 = Some i
  | [LockJobs] => hs.2 <> Some i
  | [UnlockJobs] => hs.2 = Some i
  | [Await] => hs.1 <> Some i /\ hs.2 <> Some i
  | _ => False
  end.

(** A task that holds a mutex is about to make a call, and every call keeps the order. *)
Lemma next_call s i T p tu :
  sys_ok s -> fibers s i = mkFiber T p tu ->
  match p with
  | Call c _ => allowed (holding s) i (op_of c)
  | _ => (holding s).1 <> Some i /\ (holding s).2 <> Some i
  end.
Proof.
  intros Hok E. destruct (Hok i) as [Hn _]. rewrite E in Hn. cbn in Hn.
  assert (held_by (holding s) i = free -> (holding s).1 <> Some i /\ (holding s).2 <> Some i) as Hf.
  { unfold held_by, free. by intros [= H1%bool_decide_eq_false H2%bool_decide_eq_false]. }
  destruct p as [a| | |X c k].
  - specialize (Hn [] (Done a) (conj eq_refl eq_refl)). apply Hf, (inj Some), Hn.
  - specialize (Hn [] Panicked (conj eq_refl eq_refl)). apply Hf, (inj Some), Hn.
  - specialize (Hn [] OutOfFuel (conj eq_refl eq_refl)). apply Hf, (inj Some), Hn.
  - apply ordered_call in Hn as (h & H & _). destruct (op_of_cases c) as [->|[o Eo]]; [done|].
    rewrite Eo in *. cbn in H. destruct o; cbn in *; repeat case_bool_decide; simplify_eq/=; auto.
Qed.

End order.

(** ** Locks and panics *)

Section safe.
Context `{V : Vendor} {L : VendorLaws V} `{SM : Serialize Message} `{DM : Deserialize Message}.

(** The first turn of a task and every later one. *)
Definition each (P : forall A, io A -> Prop) (f : fiber) : Prop := P _ (now f) /\ forall a, P _ (turn f a).

Lemma locked_heartbeat_step : locked Unlocked heartbeat_step Unlocked.
Proof. pose proof locked_send_heartbeat. unfold heartbeat_step. locked_tac. Qed.

Lemma locked_lifetime : locked Unlocked lifetime_check_step Unlocked.
Proof.
  assert (forall es, locked Unlocked (fresh_entries es) Unlocked) as Hf.
  { induction es as [|[k t] es IH]; cbn [fresh_entries]; locked_tac. }
  unfold lifetime_check_step. locked_tac.
Qed.

Lemma locked_distribute : locked Unlocked distribute_step Unlocked.
Proof.
  pose proof locked_put_file. unfold distribute_step, distribute_all, distribute_to, log_to_udp.
  eapply locked_bind; [locked_tac|intros g]. do 2 (eapply locked_bind; [locked_tac|intros ?]).
  apply locked_for_each. intros [k t]. locked_tac.
Qed.

Lemma locked_worker fuel : locked Unlocked (tcp_worker_step fuel) Unlocked.
Proof. apply locked_with_connection, locked_handle_conn. Qed.

Lemma total_heartbeat_step : total heartbeat_step.
Proof. pose proof total_heartbeat. unfold heartbeat_step, my_ipaddr. total_tac. Qed.

Lemma total_lifetime : total lifetime_check_step.
Proof.
  assert (forall es, total (fresh_entries es)) as Hf.
  { induction es as [|[k t] es IH]; cbn [fresh_entries]; total_tac. }
  unfold lifetime_check_step. total_tac.
Qed.

Lemma total_distribute : total distribute_step.
Proof.
  pose proof total_distribute_to. unfold distribute_step, distribute_all.
  apply total_bind; [total_tac|intros g]. do 2 (apply total_bind; [total_tac|intros ?]). apply total_for_each. auto.
Qed.

Ltac no_panic_tac :=
  repeat first
    [ apply no_panic_ret | apply no_panic_fuel | solve [auto] | apply no_panic_total; solve [total_tac]
    | apply no_panic_bind; [|intros ?] | apply no_panic_call; intros ?
    | match goal with
      | |- no_panic (if ?b then _ else _) => destruct b
      | |- no_panic (match ?x with _ => _ end) => destruct x
      end ].

Lemma drain_no_panic n p : no_panic (drain_channel n p).
Proof. induction n as [|n IH]; cbn [drain_channel]; no_panic_tac. Qed.

Lemma drop_connection_no_panic : no_panic drop_connection.
Proof.
  pose proof drain_no_panic. unfold drop_connection, blocking_lwip. apply no_panic_bind; [no_panic_tac|intros _].
  apply no_panic_bind; [no_panic_tac|intros l]. apply no_panic_for_each. intros x. no_panic_tac.
Qed.

Lemma worker_no_panic fuel : 1000000 <= Z.of_nat fuel -> no_panic (tcp_worker_step fuel).
Proof.
  intros Hf. unfold tcp_worker_step, with_connection. do 2 (apply no_panic_bind; [apply no_panic_total; total_tac|intros ?]).
  apply no_panic_bind; [apply no_panic_total, total_attach|intros ?].
  apply no_panic_bind; [|intros _; apply drop_connection_no_panic].
  intros tr o H ->. exact (handle_conn_live fuel Hf _ _ H).
Qed.

Lemma tasks_total fuel t : t <> Task_tcp_worker -> each (fun _ p => total p) (task_body fuel t).
Proof.
  pose proof total_heartbeat_step. pose proof total_lifetime. pose proof total_manage_step.
  pose proof total_receiver. pose proof total_distribute.
  intros Ht. destruct t; (split; [|intros]); cbn [now turn task_body heartbeat udp_receiver address_book_lifetime_check
    manage_ledger tcp_worker distribute_file]; auto; [|done..].
  apply total_bind; [total_tac|auto].
Qed.

Lemma tasks_no_panic fuel t : 1000000 <= Z.of_nat fuel -> each (fun _ p => no_panic p) (task_body fuel t).
Proof.
  intros Hf. pose proof (worker_no_panic fuel Hf). destruct (decide (t = Task_tcp_worker)) as [->|Hne]; [by split|].
  destruct (tasks_total fuel t Hne) as [Hn Hl]. split; [by apply no_panic_total|intros; by apply no_panic_total].
Qed.

(** C24. The tasks are well behaved for as long as they run: every turn of every task makes its lwIP calls with the core lock held
    or on lwIP's own thread and leaves the lock free, and no turn panics; all but those of the TCP worker, which may wait
    for a packet without data, end. *)
Theorem tasks_safe fuel t :
  1000000 <= Z.of_nat fuel ->
  each (fun _ p => locked Unlocked p Unlocked) (task_body fuel t) /\ each (fun _ p => no_panic p) (task_body fuel t) /\
  (t <> Task_tcp_worker -> each (fun _ p => total p) (task_body fuel t)).
Proof.
  intros Hf. pose proof locked_heartbeat_step. pose proof locked_lifetime. pose proof locked_manage_step.
  pose proof locked_receiver. pose proof locked_distribute. pose proof (locked_worker fuel).
  split_and!; [|by apply tasks_no_panic|by apply tasks_total].
  destruct t; (split; [|intros]); cbn [now turn task_body heartbeat udp_receiver address_book_lifetime_check
    manage_ledger tcp_worker distribute_file]; auto.
  eapply locked_bind; [locked_tac|auto].
Qed.
End safe.

Lemma tasks_safe_witness : total (manage_ledger_step (V := ref_vendor) true).
Proof.
  destruct (tasks_safe (L := ref_vendor_laws) (Z.to_nat 1000000) Task_manage_ledger) as (_ & _ & Ht).
  - rewrite Z2Nat.id by lia. reflexivity.
  - assert (Task_manage_ledger <> Task_tcp_worker) as Hne by discriminate. exact (proj2 (Ht Hne) true).
Defined.
