(* ===== verification/State.v ===== *)
(** * The shared state ([lib.rs], [kinds.rs])

    [DerustingState] as the code declares it, with its mutexes as the values they guard and its
    channels as the items that wait in them, and what the runtime's calls do to it.  [evolves s tr s']
    says that the answers of a trace follow from the state. *)

From S2P Require Import Prelude Prog Net Vendor VendorRef Data Ffi Env Lwip Pbuf Tcp Udp Fs Rng Messages Observe Marlin Main.

Section state.
Context `{V : Vendor}.

(** [kinds.rs]: what the two async mutexes guard. *)
Definition AddressBook : Type := Book.
Definition JobLedger : Type := option LedgerState.

Record UdpSocket : Type := mkUdpSocket { udp_pcb : ptr; udp_channel : list (Ipv4Addr * PacketBuffer) }.
Record TcpListener : Type := mkTcpListener { tcp_pcb : ptr; tcp_channel : list ptr }.

Definition udp_socket_new : UdpSocket := mkUdpSocket null [].
Definition tcp_listener_new : TcpListener := mkTcpListener null [].

Record DerustingState : Type := mkState {
  addresses : AddressBook;
  job_ledger : JobLedger;
  udp : UdpSocket;
  tcp : TcpListener;
  files_to_distribute : list Uuid
}.

Definition derusting_state_new : DerustingState := mkState book_new None udp_socket_new tcp_listener_new [].

(** The capacity of [files_to_distribute]. *)
Definition FILES_TO_DISTRIBUTE : nat := 4.

Definition set_udp (u : UdpSocket) (s : DerustingState) : DerustingState :=
  mkState (addresses s) (job_ledger s) u (tcp s) (files_to_distribute s).

Definition set_tcp (t : TcpListener) (s : DerustingState) : DerustingState :=
  mkState (addresses s) (job_ledger s) (udp s) t (files_to_distribute s).

Definition set_files (l : list Uuid) (s : DerustingState) : DerustingState :=
  mkState (addresses s) (job_ledger s) (udp s) (tcp s) l.

(** A bounded channel: the answer of [try_send] and the items afterwards. *)
Definition try_send {T} (cap : nat) (l : list T) (x : T) : bool * list T :=
  if bool_decide (length l < cap)%nat then (true, l ++ [x]) else (false, l).

Definition set_udp_pcb (p : ptr) (s : DerustingState) : DerustingState := set_udp (mkUdpSocket p (udp_channel (udp s))) s.
Definition set_tcp_pcb (p : ptr) (s : DerustingState) : DerustingState := set_tcp (mkTcpListener p (tcp_channel (tcp s))) s.

(** What a call answers and does.  The objects of a single connection or request are not part of this state. *)
Definition state_step {X} (c : rt_call X) (s : DerustingState) : X -> DerustingState -> Prop :=
  match c in rt_call X return X -> DerustingState -> Prop with
  | pcb_load Obj_UdpSocket => fun p s' => p = udp_pcb (udp s) /\ s' = s
  | pcb_load Obj_TcpListener => fun p s' => p = tcp_pcb (tcp s) /\ s' = s
  | pcb_store Obj_UdpSocket p => fun _ s' => s' = set_udp_pcb p s
  | pcb_store Obj_TcpListener p => fun _ s' => s' = set_tcp_pcb p s
  | pcb_swap Obj_UdpSocket p => fun q s' => q = udp_pcb (udp s) /\ s' = set_udp_pcb p s
  | pcb_swap Obj_TcpListener p => fun q s' => q = tcp_pcb (tcp s) /\ s' = set_tcp_pcb p s
  | listener_try_send p => fun b s' =>
      let r := try_send MAX_TCP_CONNECTIONS (tcp_channel (tcp s)) p in
      b = r.1 /\ s' = set_tcp (mkTcpListener (tcp_pcb (tcp s)) r.2) s
  | listener_receive => fun p s' =>
      exists l, tcp_channel (tcp s) = p :: l /\ s' = set_tcp (mkTcpListener (tcp_pcb (tcp s)) l) s
  | listener_try_receive => fun o s' =>
      o = head (tcp_channel (tcp s)) /\ s' = set_tcp (mkTcpListener (tcp_pcb (tcp s)) (tail (tcp_channel (tcp s)))) s
  | udp_try_send a p => fun b s' =>
      let r := try_send (Z.to_nat UDP_CHANNEL_SIZE) (udp_channel (udp s)) (a, p) in
      b = r.1 /\ s' = set_udp (mkUdpSocket (udp_pcb (udp s)) r.2) s
  | udp_receive => fun m s' =>
      exists l, udp_channel (udp s) = m :: l /\ s' = set_udp (mkUdpSocket (udp_pcb (udp s)) l) s
  | files_try_send g => fun b s' =>
      let r := try_send FILES_TO_DISTRIBUTE (files_to_distribute s) g in b = r.1 /\ s' = set_files r.2 s
  | files_receive => fun g s' => exists l, files_to_distribute s = g :: l /\ s' = set_files l s
  | addresses_lock => fun b s' => b = addresses s /\ s' = s
  | addresses_unlock b => fun _ s' => s' = mkState b (job_ledger s) (udp s) (tcp s) (files_to_distribute s)
  | jobs_lock => fun j s' => j = job_ledger s /\ s' = s
  | jobs_unlock j => fun _ s' => s' = mkState (addresses s) j (udp s) (tcp s) (files_to_distribute s)
  | _ => fun _ s' => s' = s
  end.

Definition event_step (s : DerustingState) (e : event call) (s' : DerustingState) : Prop :=
  match e with
  | @Ev _ X c x =>
      match c in call X return X -> Prop with
      | CRt c => fun x => state_step c s x s'
      | _ => fun _ => s' = s
      end x
  end.

Fixpoint evolves (s : DerustingState) (tr : trace) (s' : DerustingState) : Prop :=
  match tr with
  | [] => s' = s
  | e :: tr => exists s1, event_step s e s1 /\ evolves s1 tr s'
  end.

Lemma evolves_app s tr1 tr2 s' : evolves s (tr1 ++ tr2) s' <-> exists s1, evolves s tr1 s1 /\ evolves s1 tr2 s'.
Proof.
  revert s. induction tr1 as [|e tr1 IH]; intros s; cbn.
  - split; [by eauto|by intros (s1 & -> & ?)].
  - setoid_rewrite IH. split; [intros (s1 & H1 & s2 & H2 & H3)|intros (s2 & (s1 & H1 & H2) & H3)]; eauto 10.
Qed.

(** ** Start-up *)

(** What is done with lwIP about sockets, with lwIP's answers. *)
Inductive socket_op : Type :=
  | Made_udp (p : ptr)
  | Bound_udp (p : ptr) (addr port : Z) (e : err_t)
  | Registered_udp (p : ptr) (f : option callback) (arg : option obj)
  | Removed_udp (p : ptr)
  | Made_tcp (p : ptr)
  | Bound_tcp (p : ptr) (addr port : Z) (e : err_t)
  | Listens (p : ptr) (backlog : Z) (q : ptr)
  | Argument (p : ptr) (arg : option obj)
  | Accepts (p : ptr) (f : option callback)
  | Closed (p : ptr).

Definition socket_seen (X : Type) (c : call X) : X -> list socket_op :=
  match c in call X return X -> list socket_op with
  | CLwip c =>
      match c in lwip_call X return X -> list socket_op with
      | udp_new => fun p => [Made_udp p]
      | udp_bind p addr port => fun e => [Bound_udp p addr port e]
      | udp_recv p f arg => fun _ => [Registered_udp p f arg]
      | udp_remove p => fun _ => [Removed_udp p]
      | tcp_new => fun p => [Made_tcp p]
      | tcp_bind p addr port => fun e => [Bound_tcp p addr port e]
      | tcp_listen_with_backlog p n => fun q => [Listens p n q]
      | tcp_arg p arg => fun _ => [Argument p arg]
      | tcp_accept p f => fun _ => [Accepts p f]
      | tcp_close p => fun _ => [Closed p]
      | _ => fun _ => []
      end
  | _ => fun _ => []
  end.

Definition socket_ops : trace -> list socket_op := collect socket_seen.

(** The socket and the listener, each made, bound to its port on every address and registered. *)
Definition udp_set_up (port : Z) (p : ptr) : list socket_op :=
  [Made_udp p; Bound_udp p ip_addr_any port err_t.Ok; Registered_udp p (Some Udp_recv) (Some Obj_UdpSocket)].

Definition tcp_set_up (port : Z) (l q : ptr) : list socket_op :=
  [Made_tcp l; Bound_tcp l ip_addr_any port err_t.Ok; Listens l 2 q; Argument q (Some Obj_TcpListener);
   Accepts q (Some Listener_accept)].

(** Follows the state along a concrete trace. *)
Ltac evolve H :=
  cbn in H; repeat match type of H with exists s1, _ /\ _ => let E := fresh "E" in destruct H as (? & E & H) end; subst.

Lemma bind_state port tr u s s' :
  exec (bind port) tr (Done (Ok u)) -> evolves s tr s' ->
  exists p, p <> null /\ s' = set_udp_pcb p s /\ socket_ops tr = udp_set_up port p.
Proof.
  intros H He. exec_step H as e. case_decide; [by exec_steps H|]. exec_step H as p. case_decide as Hp; [by exec_steps H|].
  exec_step H as e2. case_decide; [subst e2|by exec_steps H]. exec_steps H. evolve He. by exists p.
Qed.

Lemma listen_state port tr u s s' :
  exec (listen port) tr (Done (Ok u)) -> evolves s tr s' ->
  tcp_pcb (tcp s) = null /\
  exists l q, l <> null /\ q <> null /\ s' = set_tcp_pcb q s /\ socket_ops tr = tcp_set_up port l q.
Proof.
  intros H He. exec_step H as e. case_decide; [by exec_steps H|]. exec_step H as q. case_decide as Hq; [by exec_steps H|].
  exec_step H as p. case_decide; [by exec_steps H|]. exec_step H as e2. case_decide as Hb; [by exec_steps H|]. subst e2.
  exec_step H as p2. case_decide as Hp; [by exec_steps H|]. exec_steps H. evolve He. destruct_and?. subst.
  split; [done|]. exists p, p2. by split_and!.
Qed.

(** Programs that leave the state alone, whatever they are answered. *)
Definition keeps {A} (p : io A) : Prop := forall tr o s s', exec p tr o -> evolves s tr s' -> s' = s /\ socket_ops tr = [].

Lemma keeps_ret {A} (a : A) : keeps (Ret a).
Proof. intros tr o s s' [-> _] ->. done. Qed.

Lemma keeps_fuel {A} : keeps (@Fuel call A).
Proof. intros tr o s s' [-> _] ->. done. Qed.

Lemma keeps_call {A X} (c : call X) (k : X -> io A) :
  (forall x s s', event_step s (Ev c x) s' -> s' = s) -> (forall x, socket_seen X c x = []) ->
  (forall x, keeps (k x)) -> keeps (Call c k).
Proof.
  intros Hc Hr Hk tr o s s' (x & tr' & -> & H) (s1 & H1 & H2). apply Hc in H1 as ->.
  destruct (Hk x _ _ _ _ H H2) as [-> E]. split; [done|]. cbn. by rewrite Hr.
Qed.

Lemma keeps_bind {A B} (p : io A) (f : A -> io B) : keeps p -> (forall a, keeps (f a)) -> keeps (p ≫= f).
Proof.
  intros Hp Hf tr o s s' H%exec_bind He. inversion H as [a tr1 tr2 o' -> H1 H2|H1|H1]; subst; [|by eapply Hp..].
  apply evolves_app in He as (s1 & He1 & He2). destruct (Hp _ _ _ _ H1 He1) as [-> E1].
  destruct (Hf _ _ _ _ _ H2 He2) as [-> E2]. split; [done|]. unfold socket_ops in *. by rewrite collect_app, E1, E2.
Qed.

Lemma keeps_wait fuel : keeps (wait_address fuel).
Proof.
  induction fuel as [|fuel IH]; cbn [wait_address]; [apply keeps_fuel|]. unfold my_ipaddr.
  apply keeps_bind; [|intros [a|]; [apply keeps_ret|]].
  - apply keeps_call; [done|done|]. intros []; [apply keeps_ret|]. apply keeps_call; [done|done|]. intros. apply keeps_ret.
  - apply keeps_call; [done|done|]. intros. exact IH.
Qed.

Lemma keeps_spawn t : keeps (spawn_task t).
Proof. apply keeps_call; [done|done|]. intros []; [apply keeps_call; [done|done|]; intros|]; apply keeps_ret. Qed.


(** ** The receive queue *)

Lemma keeps_drop p : keeps (drop_packet p).
Proof.
  unfold drop_packet, blocking_lwip. apply keeps_bind; [|intros; apply keeps_ret].
  repeat (apply keeps_call; [done|done|intros x; try destruct x]); apply keeps_ret.
Qed.

(** A datagram is queued at the end, or freed when twelve are waiting; the queue never holds more. *)
Lemma udp_recv_queue buf addr tr s s' :
  buf <> [] -> exec (udp_socket_recv true buf addr) tr (Done tt) -> evolves s tr s' ->
  s' = (let r := try_send (Z.to_nat UDP_CHANNEL_SIZE) (udp_channel (udp s)) (from_bits (from_be addr), mkPacketBuffer buf buf) in
        set_udp (mkUdpSocket (udp_pcb (udp s)) r.2) s).
Proof.
  intros Hb H He. destruct buf as [|b buf]; [done|]. unfold udp_socket_recv in H. cbn [negb try_from pbuf_is_null] in H.
  bind_step H as sent H1. exec_steps H1. apply evolves_app in He as (s1 & He1 & He). evolve He1. destruct E as [-> ->].
  destruct (try_send _ _ _) as [[] l] eqn:E; cbn in *.
  - destruct H as [-> _]. cbn in He. by subst.
  - destruct (keeps_drop (mkPacketBuffer (b :: buf) (b :: buf)) _ _ _ _ H He) as [-> _]. unfold try_send in E. case_bool_decide; [done|]. injection E as <-.
    by destruct s as [? ? [] ? ?].
Qed.
End state.

(** ** Running on the state *)

Section run_state.
Context `{V : Vendor} {T : Type} (h : handler call T).

(** The answer and the effect of a call, [d] where the state does not decide; and whether the call may proceed. *)
Definition state_do {X} (c : rt_call X) (s : DerustingState) : X -> X * DerustingState :=
  match c in rt_call X return X -> X * DerustingState with
  | pcb_load Obj_UdpSocket => fun _ => (udp_pcb (udp s), s)
  | pcb_load Obj_TcpListener => fun _ => (tcp_pcb (tcp s), s)
  | pcb_store Obj_UdpSocket p => fun d => (d, set_udp_pcb p s)
  | pcb_store Obj_TcpListener p => fun d => (d, set_tcp_pcb p s)
  | pcb_swap Obj_UdpSocket p => fun _ => (udp_pcb (udp s), set_udp_pcb p s)
  | pcb_swap Obj_TcpListener p => fun _ => (tcp_pcb (tcp s), set_tcp_pcb p s)
  | listener_try_send p => fun _ =>
      let r := try_send MAX_TCP_CONNECTIONS (tcp_channel (tcp s)) p in
      (r.1, set_tcp (mkTcpListener (tcp_pcb (tcp s)) r.2) s)
  | listener_receive => fun d =>
      match tcp_channel (tcp s) with p :: l => (p, set_tcp (mkTcpListener (tcp_pcb (tcp s)) l) s) | [] => (d, s) end
  | listener_try_receive => fun _ =>
      (head (tcp_channel (tcp s)), set_tcp (mkTcpListener (tcp_pcb (tcp s)) (tail (tcp_channel (tcp s)))) s)
  | udp_try_send a p => fun _ =>
      let r := try_send (Z.to_nat UDP_CHANNEL_SIZE) (udp_channel (udp s)) (a, p) in
      (r.1, set_udp (mkUdpSocket (udp_pcb (udp s)) r.2) s)
  | udp_receive => fun d =>
      match udp_channel (udp s) with m :: l => (m, set_udp (mkUdpSocket (udp_pcb (udp s)) l) s) | [] => (d, s) end
  | files_try_send g => fun _ => let r := try_send FILES_TO_DISTRIBUTE (files_to_distribute s) g in (r.1, set_files r.2 s)
  | files_receive => fun d => match files_to_distribute s with g :: l => (g, set_files l s) | [] => (d, s) end
  | addresses_lock => fun _ => (addresses s, s)
  | addresses_unlock b => fun d => (d, mkState b (job_ledger s) (udp s) (tcp s) (files_to_distribute s))
  | jobs_lock => fun _ => (job_ledger s, s)
  | jobs_unlock j => fun d => (d, mkState (addresses s) j (udp s) (tcp s) (files_to_distribute s))
  | _ => fun d => (d, s)
  end.

Definition state_ready {X} (c : rt_call X) (s : DerustingState) : bool :=
  match c with
  | listener_receive => match tcp_channel (tcp s) with [] => false | _ => true end
  | udp_receive => match udp_channel (udp s) with [] => false | _ => true end
  | files_receive => match files_to_distribute s with [] => false | _ => true end
  | _ => true
  end.

Lemma state_do_step {X} (c : rt_call X) s d :
  state_ready c s = true -> state_step c s (state_do c s d).1 (state_do c s d).2.
Proof.
  intros Hr. destruct c as [o|o p|o p| | | | | | | | | | | | | | | | | | | | | | | | | | | |]; try (destruct o); try done; cbn in *.
  - destruct (tcp_channel (tcp s)); [done|]. by eexists.
  - destruct (udp_channel (udp s)); [done|]. by eexists.
  - destruct (files_to_distribute s); [done|]. by eexists.
Qed.

(** An environment whose answers follow the state; the flag falls when a call had to wait. *)
Definition state_h : handler call (T * DerustingState * bool) := fun X c ts =>
  let '(t, s, ok) := ts in
  let '(d, t) := h X c t in
  match c in call X return X -> X * (T * DerustingState * bool) with
  | CRt c => fun d => let r := state_do c s d in (r.1, (t, r.2, ok && state_ready c s))
  | _ => fun d => (d, (t, s, ok))
  end d.

Lemma state_h_flag {A} (p : io A) t s : (run state_h p (t, s, false)).2.2 = false.
Proof.
  revert t s. induction p as [a| | |X c k IH]; intros t s; try done. cbn.
  destruct (h X c t) as [d t']. destruct c; apply IH.
Qed.

Lemma state_h_evolves {A} (p : io A) t s :
  (run state_h p (t, s, true)).2.2 = true -> evolves s (run_trace state_h p (t, s, true)) (run state_h p (t, s, true)).2.1.2.
Proof.
  revert t s. induction p as [a| | |X c k IH]; intros t s; try done. cbn.
  destruct (h X c t) as [d t']. destruct c as [X c|X c|X c|X c|X c|X c]; cbn; try (intros H; exists s; split; [done|by apply IH]).
  destruct (state_ready c s) eqn:Er; [|by rewrite state_h_flag].
  intros H. exists (state_do c s d).2. split; [by apply state_do_step|by apply IH].
Qed.
End run_state.

(** ** A concrete start *)

(** lwIP has a pcb for each socket, and the interface an address. *)
Definition boot_h : handler call (@demo ref_vendor) := fun X c s =>
  match c in call X return X * demo with
  | CLwip c =>
      match c in lwip_call X return X * demo with
      | udp_new => (4, s)
      | tcp_new => (5, s)
      | tcp_listen_with_backlog _ _ => (6, s)
      | c => demo_h _ (CLwip c) s
      end
  | c => demo_h _ c s
  end.

Definition demo_boot : trace := run_trace (state_h boot_h) (embassy_main 5) (demo_start [], derusting_state_new, true).

Definition demo_booted : DerustingState := (run (state_h boot_h) (embassy_main 5) (demo_start [], derusting_state_new, true)).2.1.2.

