(* ===== verification/Rtos.v ===== *)
(** * FreeRTOS under the executor ([free_rtos/])

    The clock and the wait of the time driver, the pender that wakes the executor,
    and task creation. *)

From S2P Require Import Prelude Prog Text Data.

Module FreeRtosError.
Inductive t : Type := InsufficientHeapMemory | GenericFailure | Unknown | Ok.
Definition code (e : t) : Z :=
  match e with InsufficientHeapMemory => -1 | GenericFailure => 0 | Unknown => -99 | Ok => 1 end.
End FreeRtosError.

#[export] Instance rtos_error_eq_dec : EqDecision FreeRtosError.t.
Proof. solve_decision. Defined.

(** [free_rtos/bindings.rs], the two registers the pender touches, and the timer queue and the
    raw executor of Embassy. *)
Inductive rtos_call : Type -> Type :=
  | xTaskGetTickCount : rtos_call Z
  | ulTaskGenericNotifyTake (index clear ticks : Z) : rtos_call Z
  | xTaskGenericNotify (task : ptr) (index value action : Z) : rtos_call Z
  | xTaskGenericNotifyFromISR (task : ptr) (index value action : Z) : rtos_call Z
  | xTaskCreate (name : bytes) (depth priority : Z) : rtos_call (FreeRtosError.t * ptr)
  | xTaskCreateStatic (name : bytes) (depth priority stack_len tcb_len : Z) : rtos_call ptr
  | read_ipsr : rtos_call Z
  | set_pendsv : rtos_call unit
  | queue_next_expiration (now : Z) : rtos_call Z
  | queue_schedule_wake (at_ waker : Z) : rtos_call unit
  | executor_poll : rtos_call unit
  | uxTaskGetStackHighWaterMark (task : ptr) : rtos_call Z
  | xPortGetFreeHeapSize : rtos_call Z
  | pvPortMalloc (size : Z) : rtos_call ptr
  | vPortFree (p : ptr) : rtos_call unit.

Abbreviation rtos := (prog rtos_call).

(** ** The time driver *)

(** The two cells of [FreeRtosTimeDriver]. *)
Record Clock : Type := mkClock { timekeeper : Z; free_rtos_now : Z }.

Definition clock_init : Clock := mkClock 0 0.

(** One reading of the 32-bit tick counter; the sum is a [u64], which wraps in the release profile. *)
Definition advance (c : Clock) (ticks : Z) : Clock :=
  let tick_diff := wrapping_sub 32 ticks (free_rtos_now c) in
  if tick_diff >? 0 then mkClock (wrap 64 (timekeeper c + tick_diff)) ticks else c.

Definition now (c : Clock) : rtos (Z * Clock) :=
  ticks ← trigger xTaskGetTickCount;
  let c := advance c ticks in
  Ret (timekeeper c, c).

Definition schedule_wake (at_ waker : Z) : rtos unit := trigger (queue_schedule_wake at_ waker).

Definition next_expiration (c : Clock) : rtos (Z * Clock) :=
  r ← now c;
  e ← trigger (queue_next_expiration r.1);
  Ret (e, r.2).

Definition wait_for_interrupt_or_timeout (c : Clock) : rtos Clock :=
  r ← now c;
  let '(now_ticks, c) := (r : Z * Clock) in
  r ← next_expiration c;
  let '(exp_ticks, c) := (r : Z * Clock) in
  let diff_ticks := saturating_sub exp_ticks now_ticks in
  let diff_ticks := Z.min diff_ticks u32_max in
  trigger (ulTaskGenericNotifyTake 0 1 (wrap 32 diff_ticks));;
  r ← next_expiration c;
  Ret r.2.

(** [FreeRtosTaskExecutor::new] and the raw executor it wraps, whose context is the task to wake. *)
Record Executor : Type := mkExecutor { executor_context : ptr }.

Definition executor_new (task : ptr) : Executor := mkExecutor task.

(** One turn of [FreeRtosTaskExecutor::run]. *)
Definition executor_turn (c : Clock) : rtos Clock :=
  trigger executor_poll;;
  wait_for_interrupt_or_timeout c.

(** [run]: [init] spawns the first task; the loop has no end. *)
Fixpoint executor_loop (fuel : nat) (c : Clock) : rtos Clock :=
  match fuel with
  | O => Fuel
  | S fuel =>
      c ← executor_turn c;
      executor_loop fuel c
  end.

Definition executor_run (fuel : nat) (init : rtos unit) (c : Clock) : rtos Clock :=
  init;;
  executor_loop fuel c.

(** ** Waking the executor *)

Definition pender (context : ptr) : rtos unit :=
  if decide (context = null) then Ret tt
  else
    ipsr ← trigger read_ipsr;
    if decide (ipsr <> 0) then
      woken ← trigger (xTaskGenericNotifyFromISR context 0 0 2);
      if decide (woken <> 0) then trigger set_pendsv else Ret tt
    else
      trigger (xTaskGenericNotify context 0 0 2);;
      Ret tt.

(** ** Tasks *)

Record Task : Type := mkTask { task_inner : ptr }.

Definition task_new (name : bytes) (stack_depth priority : Z) : rtos (result Task FreeRtosError.t) :=
  r ← trigger (xTaskCreate name stack_depth priority);
  let '(res, p) := (r : FreeRtosError.t * ptr) in
  if decide (res = FreeRtosError.Ok) then Ret (Ok (mkTask p)) else Ret (Err res).

Definition task_new_static (name : bytes) (priority stack_len tcb_len : Z) : rtos Task :=
  task ← trigger (xTaskCreateStatic name (wrap 16 (stack_len / 4)) priority stack_len tcb_len);
  Ret (mkTask task).

Definition task_as_mut_ptr (t : Task) : ptr := task_inner t.

(** From a pointer, and from an atomic one, which is loaded first. *)
Definition task_try_from (value : ptr) : result Task unit :=
  if decide (value = null) then Err tt else Ok (mkTask value).

Definition task_try_from_atomic (load : rtos ptr) : rtos (result Task unit) :=
  value ← load;
  Ret (task_try_from value).

(** [STACK_BYTES] and the size of [RTOS_TCB]; [derusting_main]. *)
Definition STACK_BYTES : Z := 1024 * 4.
Definition TCB_BYTES : Z := 128.

Definition derusting_main : rtos unit :=
  task_new_static (lit "Embassy") 1 STACK_BYTES TCB_BYTES;;
  Ret tt.

(** ** The allocator *)

(** [core::alloc::Layout]. *)
Record Layout : Type := mkLayout { layout_size : Z; layout_align : Z }.

(** FreeRTOS aligns to eight bytes; anything stricter is refused. *)
Definition allocator_alloc (layout : Layout) : rtos ptr :=
  if layout_align layout >? 8 then Ret null else trigger (pvPortMalloc (layout_size layout)).

Definition allocator_dealloc (p : ptr) (layout : Layout) : rtos unit := trigger (vPortFree p).

(** [log_stack_and_heap_size] of [lib.rs], up to the text it logs; a word of the stack has the size
    of a [usize]. *)
Definition log_stack_and_heap_size : rtos str :=
  free_stack_words ← trigger (uxTaskGetStackHighWaterMark null);
  let free_stack_bytes := free_stack_words * 4 in
  heap ← trigger xPortGetFreeHeapSize;
  Ret (lit "Stack: " ++ display_u32 free_stack_bytes ++ lit " bytes, Heap: " ++ display_u32 heap).

(** ** The clock is the time since boot *)

(** The values [now] returns at the given readings of the counter. *)
Fixpoint clock_values (c : Clock) (ticks : list Z) : list Z :=
  match ticks with
  | [] => []
  | t :: ticks => let c := advance c t in timekeeper c :: clock_values c ticks
  end.

(** True times, each less than a full turn of the counter after the one before. *)
Fixpoint sampled (prev : Z) (times : list Z) : Prop :=
  match times with
  | [] => True
  | t :: times => 0 <= t - prev < 2 ^ 32 /\ sampled t times
  end.

(** The state of the clock that last saw time [t]. *)
Definition clock_at (t : Z) (c : Clock) : Prop := timekeeper c = wrap 64 t /\ free_rtos_now c = wrap 32 t.

Lemma advance_at p c t : 0 <= t - p < 2 ^ 32 -> clock_at p c -> clock_at t (advance c (wrap 32 t)).
Proof.
  intros Ht [Hk Hn]. unfold advance. rewrite Hn.
  assert (wrapping_sub 32 (wrap 32 t) (wrap 32 p) = t - p) as ->.
  { unfold wrapping_sub, wrap. rewrite <- Zminus_mod. by apply Z.mod_small. }
  destruct (t - p >? 0) eqn:E; rewrite Z.gtb_ltb in E.
  - apply Z.ltb_lt in E. split; cbn; [|done]. unfold wrap. rewrite Hk. unfold wrap. rewrite Zplus_mod_idemp_l. f_equal. lia.
  - apply Z.ltb_ge in E. assert (t = p) as -> by lia. done.
Qed.

(** C38. The clock never drifts: as long as it is read at least once per turn of
    FreeRTOS's 32-bit counter, every reading is the time since boot modulo the width of the driver's
    64-bit sum, however often the counter wrapped; so until that sum wraps (584 million years at 1 kHz)
    every reading is the time since boot itself. *)
Theorem now_is_time times :
  sampled 0 times ->
  clock_values clock_init (wrap 32 <$> times) = wrap 64 <$> times /\
  (Forall (fun t => t < 2 ^ 64) times -> clock_values clock_init (wrap 32 <$> times) = times).
Proof.
  assert (forall p c, clock_at p c -> sampled p times -> clock_values c (wrap 32 <$> times) = wrap 64 <$> times) as G.
  { induction times as [|t times IH]; intros p c Hc Hs; [done|]. destruct Hs as [Ht Hs].
    cbn [fmap list_fmap clock_values]. pose proof (advance_at p c t Ht Hc) as Hc'.
    rewrite (IH t) by done. f_equal. apply Hc'. }
  intros Hs. rewrite (G 0 clock_init) by done. split; [done|]. clear G.
  assert (forall p, 0 <= p -> sampled p times -> Forall (fun t => t < 2 ^ 64) times -> wrap 64 <$> times = times) as G.
  { clear Hs. induction times as [|t times IH]; intros p Hp Hs Hf; [done|]. destruct Hs as [Ht Hs].
    apply Forall_cons in Hf as [H1 H2]. cbn [fmap list_fmap]. rewrite wrap_small by (split; lia). f_equal. apply (IH t); [lia|done..]. }
  by apply (G 0).
Qed.

(** The clock never goes back, whatever the counter reads, before the 64-bit sum wraps. *)
Theorem clock_monotone c t :
  0 <= timekeeper c < 2 ^ 64 - 2 ^ 32 -> timekeeper c <= timekeeper (advance c t).
Proof.
  intros H. unfold advance. destruct (_ >? 0) eqn:E; [|lia]. rewrite Z.gtb_ltb in E. apply Z.ltb_lt in E. cbn.
  pose proof (wrap_fits 32 (t - free_rtos_now c) ltac:(lia)) as Hd. unfold wrapping_sub, fits in *.
  change (2 ^ 32) with 4294967296 in *. change (2 ^ 64) with 18446744073709551616 in *.
  rewrite wrap_small; [lia|]. unfold fits. change (2 ^ 64) with 18446744073709551616. lia.
Qed.

(** The ticks a trace waits for. *)
Definition wait_seen (X : Type) (c : rtos_call X) : X -> list Z :=
  match c in rtos_call X return X -> list Z with
  | ulTaskGenericNotifyTake _ _ n => fun _ => [n]
  | _ => fun _ => []
  end.

Definition expiry_seen (X : Type) (c : rtos_call X) : X -> list Z :=
  match c in rtos_call X return X -> list Z with
  | queue_next_expiration _ => fun e => [e]
  | _ => fun _ => []
  end.

Definition tick_seen (X : Type) (c : rtos_call X) : X -> list Z :=
  match c in rtos_call X return X -> list Z with
  | xTaskGetTickCount => fun e => [e]
  | _ => fun _ => []
  end.

(** C40. The executor sleeps once, until the next timer is due or for the longest wait
    FreeRTOS knows: the narrowing of the remaining ticks to 32 bits never loses any, so
    it does not sleep past a timer and, when none is set, sleeps the whole time. *)
Theorem wait_is_exact c tr c' :
  exec (wait_for_interrupt_or_timeout c) tr (Done c') ->
  exists t1 ts e1 e2, collect tick_seen tr = t1 :: ts /\ collect expiry_seen tr = [e1; e2] /\
    collect wait_seen tr = [Z.min (saturating_sub e1 (timekeeper (advance c t1))) u32_max].
Proof.
  intros H. unfold wait_for_interrupt_or_timeout, next_expiration, now in H.
  exec_step H as t1. exec_step H as t2. exec_step H as e1. exec_step H as n. exec_step H as t3. exec_step H as e2.
  exec_steps H. exists t1, [t2; t3], e1, e2. split; [done|]. split; [done|]. cbn. f_equal.
  apply wrap_small. unfold fits, saturating_sub, u32_max. change (2 ^ 32) with 4294967296. lia.
Qed.

(** ** Waking *)

Definition notify_seen (X : Type) (c : rtos_call X) : X -> list (ptr * bool) :=
  match c in rtos_call X return X -> list (ptr * bool) with
  | xTaskGenericNotify t _ _ _ => fun _ => [(t, false)]
  | xTaskGenericNotifyFromISR t _ _ _ => fun _ => [(t, true)]
  | _ => fun _ => []
  end.

Definition ipsr_seen (X : Type) (c : rtos_call X) : X -> list Z :=
  match c in rtos_call X return X -> list Z with
  | read_ipsr => fun i => [i]
  | _ => fun _ => []
  end.

(** The pender notifies the executor's task exactly once, through the variant of
    the call that is allowed in the current context: the interrupt-safe one
    exactly when the processor is in an interrupt. *)
Theorem pender_notifies task tr :
  task <> null -> exec (pender task) tr (Done tt) ->
  exists ipsr, collect ipsr_seen tr = [ipsr] /\ collect notify_seen tr = [(task, bool_decide (ipsr <> 0))].
Proof.
  intros Ht H. unfold pender in H. rewrite decide_False in H by done.
  exec_step H as ipsr. exists ipsr. case_decide as Hi.
  - exec_step H as woken. rewrite bool_decide_eq_true_2 by done. case_decide; exec_steps H; done.
  - rewrite bool_decide_eq_false_2 by lia. exec_step H as r. by exec_steps H.
Qed.

(** The stack depth and length that [xTaskCreateStatic] gets. *)
Definition stack_seen (X : Type) (c : rtos_call X) : X -> list (Z * Z) :=
  match c in rtos_call X return X -> list (Z * Z) with
  | xTaskCreateStatic _ depth _ n _ => fun _ => [(depth, n)]
  | _ => fun _ => []
  end.

(** The stack depth FreeRTOS is told for a static task, in words, never exceeds the
    buffer and wastes less than one word of it, for every buffer whose size in words fits
    16 bits; a larger one would be cut short. *)
Theorem static_stack_fits name priority stack_len tcb_len tr t :
  0 <= stack_len < 4 * 2 ^ 16 -> exec (task_new_static name priority stack_len tcb_len) tr (Done t) ->
  exists depth, collect stack_seen tr = [(depth, stack_len)] /\ stack_len - 4 < 4 * depth <= stack_len.
Proof.
  change (4 * 2 ^ 16) with 262144. intros Hl H. exec_step H as p. exec_steps H.
  exists (wrap 16 (stack_len / 4)). split; [done|].
  rewrite wrap_small; [pose proof (Z.div_mod stack_len 4); pose proof (Z.mod_pos_bound stack_len 4); lia|].
  unfold fits. change (2 ^ 16) with 65536. split; [apply Z.div_pos; lia|apply Z.div_lt_upper_bound; lia].
Qed.

(** Polls ([true]) and waits ([false]). *)
Definition turn_seen (X : Type) (c : rtos_call X) : X -> list bool :=
  match c in rtos_call X return X -> list bool with
  | executor_poll => fun _ => [true]
  | ulTaskGenericNotifyTake _ _ _ => fun _ => [false]
  | _ => fun _ => []
  end.

Lemma executor_turn_run c tr o :
  exec (executor_turn c) tr o -> collect turn_seen tr = [true; false] /\ exists c', o = Done c'.
Proof.
  intros H. unfold executor_turn, wait_for_interrupt_or_timeout, next_expiration, now in H.
  exec_step H as []. exec_step H as t1. exec_step H as t2. exec_step H as e1. exec_step H as n. exec_step H as t3.
  exec_step H as e2. exec_steps H. split; [done|by eexists].
Qed.

Lemma executor_loop_run fuel c tr o :
  exec (executor_loop fuel c) tr o -> o = OutOfFuel /\ collect turn_seen tr = concat (replicate fuel [true; false]).
Proof.
  revert c tr. induction fuel as [|fuel IH]; intros c tr H; cbn [executor_loop] in H; [by destruct H as [-> ->]|].
  apply exec_bind in H. inversion H as [c' tr1 tr2 o' -> H1 H2|H1|H1]; subst.
  - apply executor_turn_run in H1 as [E1 _]. apply IH in H2 as [-> E2]. by rewrite collect_app, E1, E2.
  - by apply executor_turn_run in H1 as [_ [? ?]].
  - by apply executor_turn_run in H1 as [_ [? ?]].
Qed.

(** The executor never returns and never sleeps twice without polling in between: for as long as it
    is watched, after [init] it polls its tasks, waits once for a notification or the next timer,
    and polls again. *)
Theorem executor_polls fuel init c tr o :
  total init -> no_emit turn_seen init -> exec (executor_run fuel init c) tr o ->
  o = OutOfFuel /\ collect turn_seen tr = concat (replicate fuel [true; false]).
Proof.
  intros Ht Hn H. apply exec_bind in H. inversion H as [u tr1 tr2 o' -> H1 H2|H1|H1]; subst.
  - apply executor_loop_run in H2 as [-> E]. by rewrite collect_app, (Hn _ _ H1), E.
  - by destruct (Ht _ _ H1).
  - by destruct (Ht _ _ H1).
Qed.

(** ** Concrete runs *)

(** The counter stands at five, timers are due at 12 and the processor is in an interrupt. *)
Definition demo_rtos : handler rtos_call unit := fun X c s =>
  (match c in rtos_call X return X with
   | xTaskGetTickCount => 5
   | ulTaskGenericNotifyTake _ _ _ => 0
   | xTaskGenericNotify _ _ _ _ => 1
   | xTaskGenericNotifyFromISR _ _ _ _ => 1
   | xTaskCreate _ _ _ => (FreeRtosError.Ok, 3)
   | xTaskCreateStatic _ _ _ _ _ => 3
   | read_ipsr => 15
   | set_pendsv => tt
   | queue_next_expiration _ => 12
   | queue_schedule_wake _ _ => tt
   | executor_poll => tt
   | uxTaskGetStackHighWaterMark _ => 100
   | xPortGetFreeHeapSize => 5000
   | pvPortMalloc _ => 8
   | vPortFree _ => tt
   end, s).

(** Four readings, of which the third comes after the counter has wrapped. *)
Lemma now_is_time_witness :
  clock_values clock_init (wrap 32 <$> [7; 4294967290; 4294967300; 8589934590]) = [7; 4294967290; 4294967300; 8589934590].
Proof.
  apply (now_is_time [7; 4294967290; 4294967300; 8589934590]); [by_eval|].
  repeat apply Forall_cons_2; [lia..|apply Forall_nil_2].
Defined.

Lemma wait_is_exact_witness :
  let tr := run_trace demo_rtos (wait_for_interrupt_or_timeout clock_init) tt in
  exists t1 ts e1 e2, collect tick_seen tr = t1 :: ts /\ collect expiry_seen tr = [e1; e2] /\
    collect wait_seen tr = [Z.min (saturating_sub e1 (timekeeper (advance clock_init t1))) u32_max].
Proof. apply (wait_is_exact clock_init _ (mkClock 5 5)). by_run. Defined.

Lemma pender_notifies_witness :
  let tr := run_trace demo_rtos (pender 3) tt in
  exists ipsr, collect ipsr_seen tr = [ipsr] /\ collect notify_seen tr = [(3, bool_decide (ipsr <> 0))].
Proof. apply (pender_notifies 3); [done|by_run]. Defined.

Lemma static_stack_fits_witness :
  let tr := run_trace demo_rtos (task_new_static (lit "Embassy") 1 STACK_BYTES TCB_BYTES) tt in
  exists depth, collect stack_seen tr = [(depth, STACK_BYTES)] /\ STACK_BYTES - 4 < 4 * depth <= STACK_BYTES.
Proof. apply (static_stack_fits (lit "Embassy") 1 STACK_BYTES TCB_BYTES _ (mkTask 3)); [by_eval|by_run]. Defined.

Lemma executor_polls_witness :
  let tr := run_trace demo_rtos (executor_run 3 (Ret tt) clock_init) tt in
  (run demo_rtos (executor_run 3 (Ret tt) clock_init) tt).1 = OutOfFuel /\
  collect turn_seen tr = concat (replicate 3 [true; false]).
Proof.
  apply (executor_polls 3 (Ret tt) clock_init); [apply total_ret|apply no_emit_ret|apply run_exec].
Defined.
