(* ===== verification/Device.v ===== *)
(** * The running machine ([lib.rs], [tasks/], [lwip/])

    The six tasks of [Tasks.v] and lwIP's thread on the shared state of [State.v]: at any call another
    task may go on or lwIP may make a callback, and what a call answers follows from the
    state.  The two mutexes turn the address book and the ledger into atomic registers, so the turns that
    [Network.v] takes as single steps may be taken so; the channels hand on their
    items in order. *)

From S2P Require Import Prelude Prog Net Vendor VendorRef Data Ffi Env Lwip Pbuf Tcp Udp Fs Http Request Rng.
From S2P Require Import Messages Observe Wire Upload Owns Put Transfer Marlin Receiver Ledger Mutex Main Tasks State.

Section device.
Context `{V : Vendor} `{SM : Serialize Message} `{DM : Deserialize Message}.

(** What lwIP's thread calls: a new connection, a packet for one that waits, a packet, an error or an acknowledgement for
    one that is served, a datagram, and whatever concerns an outgoing request. *)
Inductive net_callback : Type :=
  | New_pcb (arg : bool) (pcb : ptr) (err : err_t)
  | Hold (arg : bool) (pcb : ptr) (buf : pbuf_ptr) (err : err_t)
  | Packet (arg : bool) (pcb : ptr) (buf : pbuf_ptr) (err : err_t)
  | Failure (arg : bool) (err : err_t)
  | Acked (arg : bool) (pcb : ptr) (len : Z)
  | Datagram (arg : bool) (buf : pbuf_ptr) (addr : Z)
  | Put_callback (this : PutRequest) (e : put_event).

Definition callback_io (cb : net_callback) : io unit :=
  match cb with
  | New_pcb arg pcb err => listener_accept arg pcb err;; Ret tt
  | Hold arg pcb buf err => listener_hold_recv arg pcb buf err;; Ret tt
  | Packet arg pcb buf err => connection_recv arg pcb buf err;; Ret tt
  | Failure arg err => connection_err arg err
  | Acked arg pcb n => connection_sent arg pcb n;; Ret tt
  | Datagram arg buf addr => udp_socket_recv arg buf addr
  | Put_callback this e => put_step this e;; Ret tt
  end.

(** The tasks with the holders of the mutexes, what is left of the present callback, and the state. *)
Record device : Type := mkDevice { tasks : system; callback_left : io unit; shared : DerustingState }.

Inductive actor : Type := Task (i : task_name) | Lwip_thread.

(** One step of a task: it ends a turn or makes a call, which it can only when the mutex it asks for is free.  The calls are
    what is seen of a step. *)
Inductive task_step (d : device) (i : task_name) : list (actor * event call) -> device -> Prop :=
  | Turn_end T a tu :
      fibers (tasks d) i = mkFiber T (Ret a) tu ->
      task_step d i [] (mkDevice (mkSystem (with_fiber i (mkFiber T (tu a) tu) (fibers (tasks d))) (holding (tasks d)))
                                 (callback_left d) (shared d))
  | Task_call T X (c : call X) k tu x hs s' :
      fibers (tasks d) i = mkFiber T (Call c k) tu -> hold_run i (holding (tasks d)) (op_of c) = Some hs ->
      event_step (shared d) (Ev c x) s' ->
      task_step d i [(Task i, Ev c x)]
        (mkDevice (mkSystem (with_fiber i (mkFiber T (k x) tu) (fibers (tasks d))) hs) (callback_left d) s').

(** One step: a task goes on, or lwIP starts a callback when none is running, or goes on with it. *)
Inductive device_step (d : device) : list (actor * event call) -> device -> Prop :=
  | Task_goes i es d' : task_step d i es d' -> device_step d es d'
  | Callback_start cb :
      callback_left d = Ret tt -> device_step d [] (mkDevice (tasks d) (callback_io cb) (shared d))
  | Callback_call X (c : call X) k x s' :
      callback_left d = Call c k -> event_step (shared d) (Ev c x) s' ->
      device_step d [(Lwip_thread, Ev c x)] (mkDevice (tasks d) (k x) s').

Inductive device_run (d : device) : list (actor * event call) -> device -> Prop :=
  | Device_nil : device_run d [] d
  | Device_snoc es e d1 d2 : device_run d es d1 -> device_step d1 e d2 -> device_run d (es ++ e) d2.

Lemma device_run_app d es1 d1 es2 d2 : device_run d es1 d1 -> device_run d1 es2 d2 -> device_run d (es1 ++ es2) d2.
Proof.
  intros H1. induction 1 as [|es e d2 d3 _ IH Hs]; [by rewrite app_nil_r|]. rewrite app_assoc. by eapply Device_snoc.
Qed.

Lemma device_run_one d e d' : device_step d e d' -> device_run d e d'.
Proof. intros Hs. exact (Device_snoc d [] e d d' (Device_nil d) Hs). Qed.

(** The tasks are spawned with both sockets open ([boot_state] of [State.v]). *)
Definition device_boot (fuel : nat) (udp_pcb tcp_pcb : ptr) : device :=
  mkDevice (boot fuel) (Ret tt) (mkState book_new None (mkUdpSocket udp_pcb []) (mkTcpListener tcp_pcb []) []).

#[export] Instance actor_eq_dec : EqDecision actor.
Proof. solve_decision. Defined.

(** What one actor did, in order. *)
Fixpoint acts (i : actor) (es : list (actor * event call)) : trace :=
  match es with
  | [] => []
  | (j, e) :: es => if decide (j = i) then e :: acts i es else acts i es
  end.

Lemma acts_app i es1 es2 : acts i (es1 ++ es2) = acts i es1 ++ acts i es2.
Proof. induction es1 as [|[j e] es1 IH]; cbn; [done|]. case_decide; cbn; by rewrite IH. Qed.

(** What all of them did. *)
Fixpoint events (es : list (actor * event call)) : trace :=
  match es with
  | [] => []
  | (_, e) :: es => e :: events es
  end.

Lemma events_app es1 es2 : events (es1 ++ es2) = events es1 ++ events es2.
Proof. induction es1 as [|[i e] es1 IH]; cbn; [done|]. by rewrite IH. Qed.

(** ** The tasks of the machine are the system of [Tasks.v] *)

Lemma device_step_sys d es d' :
  device_step d es d' -> tasks d' = tasks d \/ exists i, sys_step (tasks d) i (tasks d').
Proof.
  destruct 1 as [i es' d' [T a tu E|T X c k tu x hs s' E Hh _]|cb _|X c k x s' _ _]; [right; exists i|right; exists i|by left..].
  - apply (Sys_step _ _ []); [|done]. unfold fiber_step. by rewrite E.
  - apply (Sys_step _ _ (op_of c)); [|done]. unfold fiber_step. rewrite E. cbn. by eauto.
Qed.

Lemma device_run_sys d es d' : device_run d es d' -> exists ts, sys_run (tasks d) ts (tasks d').
Proof.
  induction 1 as [|es e d1 d2 _ [ts IH] Hs]; [exists []; apply Sys_nil|].
  apply device_step_sys in Hs as [->|[i Hs]]; [by exists ts|]. exists (ts ++ [i]).
  eapply sys_run_app; [done|]. by eapply Sys_cons, Sys_nil.
Qed.
End device.

(** ** Values behind a mutex *)

Section register.
Context `{V : Vendor} {L : VendorLaws V} `{SM : Serialize Message} `{DM : Deserialize Message}.

(** Some id, to answer with. *)
Variable u : Uuid.

(** What a mutex guards: the value, who holds it, and the values that are found at a lock and left at an unlock. *)
Class Guard (T : Type) : Type := {
  guarded : DerustingState -> T;
  holder : holders -> option task_name;
  lock_op : mutex_op;
  unlock_op : mutex_op;
  found_seen : forall X, call X -> X -> list T;
  left_seen : forall X, call X -> X -> list T
}.

(** A lock finds the value as it is, an unlock leaves the new one, and nothing else touches it. *)
Class GuardLaws {T} (G : Guard T) : Prop := {
  guard_event : forall s X (c : call X) x s', event_step s (Ev c x) s' ->
    (op_of c = [lock_op] /\ found_seen X c x = [guarded s] /\ left_seen X c x = [] /\ guarded s' = guarded s) \/
    (op_of c = [unlock_op] /\ found_seen X c x = [] /\ left_seen X c x = [guarded s']) \/
    (op_of c <> [lock_op] /\ op_of c <> [unlock_op] /\ found_seen X c x = [] /\ left_seen X c x = [] /\ guarded s' = guarded s);
  guard_lock : forall i hs hs', hold_step i hs lock_op = Some hs' -> holder hs = None /\ holder hs' = Some i;
  guard_unlock : forall i hs hs', hold_step i hs unlock_op = Some hs' -> holder hs' = None;
  guard_other : forall i hs o hs', o <> lock_op -> o <> unlock_op -> hold_step i hs o = Some hs' -> holder hs' = holder hs;
  guard_owned : forall i hs, allowed hs i [unlock_op] -> holder hs = Some i
}.

#[export] Instance book_guard : Guard AddressBook := {|
  guarded := addresses; holder := fst; lock_op := LockBook; unlock_op := UnlockBook;
  found_seen := book_found_seen; left_seen := book_seen |}.

#[export] Instance jobs_guard : Guard JobLedger := {|
  guarded := job_ledger; holder := snd; lock_op := LockJobs; unlock_op := UnlockJobs;
  found_seen := jobs_found_seen; left_seen := jobs_seen |}.

Ltac guard_event_tac :=
  let c := fresh in let Hs := fresh in
  intros s X c x s' Hs; destruct c as [X c|X c|X c|X c|X c|X c];
  try (cbn in Hs; subst; right; right; split_and!; (done || discriminate));
  destruct c as [o|o p|o p| | | | | | | | | | | | | | | | | | | | | | | | | | | |]; try (destruct o);
  cbn in Hs |- *; destruct_and? Hs; subst; eauto;
  try (destruct Hs as (? & ? & ->)); right; right; split_and!; (done || discriminate).

#[export] Instance book_guard_laws : GuardLaws book_guard.
Proof.
  split; cbn; [guard_event_tac|..].
  - by intros i [[] []] hs' [= <-].
  - by intros i [[] []] hs' [= <-].
  - by intros i [[] []] [] hs' ? ? [= <-].
  - done.
Qed.

#[export] Instance jobs_guard_laws : GuardLaws jobs_guard.
Proof.
  split; cbn; [guard_event_tac|..].
  - by intros i [[] []] hs' [= <-].
  - by intros i [[] []] hs' [= <-].
  - by intros i [[] []] [] hs' ? ? [= <-].
  - done.
Qed.

(** An atomic register: each section finds what the one before it left. *)
Fixpoint chain {T} (v : T) (l : list (T * T)) (v' : T) : Prop :=
  match l with
  | [] => v' = v
  | (f, w) :: l => f = v /\ chain w l v'
  end.

Lemma chain_snoc {T} (v : T) l f w : chain v l f -> chain v (l ++ [(f, w)]) w.
Proof. revert v. induction l as [|[f' w'] l IH]; intros v; cbn; [by intros ->|]. intros [-> H]. auto. Qed.

Fixpoint of_task {T} (i : task_name) (secs : list (task_name * T)) : list T :=
  match secs with
  | [] => []
  | (j, x) :: secs => if decide (j = i) then x :: of_task i secs else of_task i secs
  end.

Lemma of_task_app {T} i (l1 l2 : list (task_name * T)) : of_task i (l1 ++ l2) = of_task i l1 ++ of_task i l2.
Proof. induction l1 as [|[j x] l1 IH]; cbn; [done|]. case_decide; cbn; by rewrite IH. Qed.

(** The sections of a mutex in the order they ended: a chain from [v0] to the present value, each with what its task
    found and left; who holds the mutex has found the present value. *)
Definition register {T} (G : Guard T) (v0 : T) (es : list (actor * event call)) (d : device)
    (secs : list (task_name * (T * T))) : Prop :=
  chain v0 secs.*2 (guarded (shared d)) /\
  forall i,
    collect found_seen (acts (Task i) es) =
      (of_task i secs).*1 ++ (if decide (holder (holding (tasks d)) = Some i) then [guarded (shared d)] else []) /\
    collect left_seen (acts (Task i) es) = (of_task i secs).*2.

Lemma register_same {T} (G : Guard T) v0 es es' d d' secs :
  (forall i, collect found_seen (acts (Task i) es') = collect found_seen (acts (Task i) es)) ->
  (forall i, collect left_seen (acts (Task i) es') = collect left_seen (acts (Task i) es)) ->
  guarded (shared d') = guarded (shared d) -> holder (holding (tasks d')) = holder (holding (tasks d)) ->
  register G v0 es d secs -> register G v0 es' d' secs.
Proof. intros Hf Hl Hg Hh [Hc Hi]. split; [by rewrite Hg|]. intros i. rewrite Hf, Hl, Hg, Hh. apply Hi. Qed.

Lemma collect_snoc {B} (f : forall X, call X -> X -> list B) j es i X (c : call X) x :
  collect f (acts (Task j) (es ++ [(Task i, Ev c x)])) =
  collect f (acts (Task j) es) ++ if decide (i = j) then f X c x else [].
Proof.
  rewrite acts_app, collect_app. cbn. f_equal. repeat case_decide; simplify_eq; cbn; by rewrite ?app_nil_r.
Qed.

(** A call of task [i]. *)
Lemma register_call {T} (G : Guard T) `{!GuardLaws G} v0 es d d' secs i X (c : call X) x hs :
  register G v0 es d secs -> allowed (holding (tasks d)) i (op_of c) ->
  hold_run i (holding (tasks d)) (op_of c) = Some hs -> event_step (shared d) (Ev c x) (shared d') ->
  holding (tasks d') = hs -> exists new, register G v0 (es ++ [(Task i, Ev c x)]) d' (secs ++ new).
Proof.
  intros Hr Ha Hh He <-. pose proof Hr as [Hc Hi]. apply guard_event in He as [(Eo & Ef & El & Eg)|[(Eo & Ef & El)|(N1 & N2 & Ef & El & Eg)]].
  - rewrite Eo in Hh. cbn in Hh. destruct (hold_step _ _ _) as [hs|] eqn:E; [|done]. apply guard_lock in E as [E1 E2].
    injection Hh as ->. exists []. rewrite app_nil_r. split; [by rewrite Eg|]. intros j. rewrite !collect_snoc. destruct (Hi j) as [-> ->].
    rewrite E1, E2, Ef, El, Eg. rewrite (decide_False (P := None = _)) by done. split; [|case_decide; by rewrite app_nil_r].
    rewrite app_nil_r. repeat case_decide; simplify_eq; done.
  - rewrite Eo in Hh, Ha. cbn in Hh. destruct (hold_step _ _ _) as [hs|] eqn:E; [|done]. apply guard_unlock in E.
    injection Hh as ->. apply guard_owned in Ha. exists [(i, (guarded (shared d), guarded (shared d')))].
    split; [rewrite fmap_app; by apply chain_snoc|]. intros j. rewrite !collect_snoc, of_task_app, !fmap_app. destruct (Hi j) as [-> ->].
    rewrite Ha, E, Ef, El. rewrite (decide_False (P := None = _)) by done. cbn. split; repeat case_decide; simplify_eq; cbn; by rewrite ?app_nil_r.
  - exists []. rewrite (app_nil_r secs). eapply register_same; [| |exact Eg| |exact Hr].
    + intros j. rewrite collect_snoc, Ef. case_decide; by rewrite app_nil_r.
    + intros j. rewrite collect_snoc, El. case_decide; by rewrite app_nil_r.
    + destruct (op_of_cases c) as [Eo|[o Eo]]; rewrite Eo in *; cbn in Hh; [congruence|].
      destruct (hold_step _ _ _) as [hs|] eqn:E; [|done]. injection Hh as ->. eapply guard_other; [| |done]; congruence.
Qed.

(** Callbacks leave the mutexes alone. *)
Lemma quiet_callback cb : no_emit mutex_seen (callback_io cb).
Proof.
  pose proof (aloof_drop mutex_seen). destruct cb as [| | | | |arg buf addr|this e]; cbn [callback_io];
    unfold listener_accept, listener_hold_recv, connection_recv, connection_err, connection_sent, udp_socket_recv; try no_emit_tac.
  destruct e; cbn [put_step]; unfold put_connected, put_sent, put_recv, put_err, pump, read; cbv zeta; no_emit_tac.
Qed.

Lemma quiet_call {A X} (c : call X) (k : X -> io A) :
  no_emit mutex_seen (Call c k) -> op_of c = [] /\ forall x, no_emit mutex_seen (k x).
Proof.
  intros H. pose proof (fun x => no_emit_after u _ _ _ x H) as Hk. split; [exact (proj1 (Hk (quiet u c)))|intros x; apply Hk].
Qed.

Definition device_ok (d : device) : Prop := sys_ok (tasks d) /\ no_emit mutex_seen (callback_left d).

Lemma device_step_ok d e d' : device_step d e d' -> device_ok d -> device_ok d'.
Proof.
  intros Hs [Ho Hq]. split.
  - destruct (device_step_sys _ _ _ Hs) as [->|[i ?]]; [done|]. by eapply (sys_step_ok u).
  - destruct Hs as [i e d' []|cb|X c k x s' E]; [done|done|apply quiet_callback|]. rewrite E in Hq. apply quiet_call in Hq as [_ Hq]. apply Hq.
Qed.

Lemma device_run_ok d es d' : device_run d es d' -> device_ok d -> device_ok d'.
Proof. induction 1; eauto using device_step_ok. Qed.

Lemma device_boot_ok fuel p q : device_ok (device_boot fuel p q).
Proof. split; [exact (boot_ok fuel)|apply no_emit_ret]. Qed.

Lemma register_step {T} (G : Guard T) `{!GuardLaws G} v0 es d e d' secs :
  device_step d e d' -> device_ok d -> register G v0 es d secs -> exists new, register G v0 (es ++ e) d' (secs ++ new).
Proof.
  intros Hs [Ho Hq] Hr. destruct Hs as [i e d' [T' a tu E|T' X c k tu x hs s' E Hh He]|cb E|X c k x s' E He].
  - exists []. by rewrite !app_nil_r.
  - pose proof (next_call u _ _ _ _ _ Ho E) as Ha. cbn in Ha. by eapply register_call.
  - exists []. by rewrite !app_nil_r.
  - rewrite E in Hq. apply quiet_call in Hq as [Eo _]. exists []. rewrite (app_nil_r secs). eapply register_same; [| | | |exact Hr].
    + intros j. by rewrite acts_app, collect_app, app_nil_r.
    + intros j. by rewrite acts_app, collect_app, app_nil_r.
    + by apply guard_event in He as [(? & _)|[(? & _)|(_ & _ & _ & _ & ?)]]; [congruence|congruence|].
    + done.
Qed.

Lemma register_later {T} (G : Guard T) `{!GuardLaws G} v0 es d es' d' secs :
  device_run d es' d' -> device_ok d -> register G v0 es d secs -> exists new, register G v0 (es ++ es') d' (secs ++ new).
Proof.
  intros Hr Hok H. induction Hr as [|es' e d1 d2 Hr [new IH] Hs]; [exists []; by rewrite !app_nil_r|].
  destruct (register_step G v0 _ d1 e d2 _ Hs (device_run_ok _ _ _ Hr Hok) IH) as [new' Hn].
  exists (new ++ new'). by rewrite !app_assoc.
Qed.

Lemma register_run {T} (G : Guard T) `{!GuardLaws G} d es d' :
  device_run d es d' -> device_ok d -> holder (holding (tasks d)) = None ->
  exists secs, register G (guarded (shared d)) es d' secs.
Proof.
  intros Hr Hok Hh. destruct (register_later G (guarded (shared d)) [] d es d' [] Hr Hok) as [new Hn]; [|by exists new].
  split; [done|]. intros i. rewrite decide_False by congruence. done.
Qed.

(** The mutexes make atomic registers of the address book and the ledger. However the six tasks and lwIP's
    callbacks are interleaved, the sections of a mutex follow each other: what one finds is what the one before it
    left, from the empty book and no ledger up to the present values. Each task's own
    sections are those its calls show, in order, and only the holder of a mutex has found a value it has
    not given back, which is then still the present one. *)
Theorem mutexes_atomic fuel p q es d :
  device_run (device_boot fuel p q) es d ->
  (exists books, register book_guard book_new es d books) /\ (exists ledgers, register jobs_guard None es d ledgers).
Proof.
  intros Hr. pose proof (device_boot_ok fuel p q) as Hok.
  split; [exact (register_run book_guard _ _ _ Hr Hok eq_refl)|exact (register_run jobs_guard _ _ _ Hr Hok eq_refl)].
Qed.
End register.

(** ** Driving the machine *)

Section drive.
Context `{V : Vendor} `{SM : Serialize Message} `{DM : Deserialize Message}.

(** What the state does not decide is answered by [ans]. *)
Context (ans : forall X, call X -> X).

Definition answer {X} (c : call X) (s : DerustingState) : option (X * DerustingState) :=
  match c in call X return X -> option (X * DerustingState) with
  | CRt c => fun d => if state_ready c s then Some (state_do c s d) else None
  | _ => fun d => Some (d, s)
  end (ans X c).

Lemma ready_step {X} (c : call X) s x s' : answer c s = Some (x, s') -> event_step s (Ev c x) s'.
Proof.
  unfold answer. destruct c as [X c|X c|X c|X c|X c|X c]; try by intros [= _ ->].
  destruct (state_ready c s) eqn:E; [|done]. intros [= H]. pose proof (state_do_step c s (ans X (CRt c)) E) as Hs. by rewrite H in Hs.
Qed.

(** One call of a task, the end of its turn, the start of a callback, or a callback as a whole or in part. *)
Inductive move : Type := Go (i : task_name) | Interrupt (cb : net_callback) | Resume.

Definition device_move (m : move) (d : device) : option (list (actor * event call) * device) :=
  match m with
  | Go i =>
      let f := fibers (tasks d) i in
      match now f with
      | Ret a =>
          Some ([], mkDevice (mkSystem (with_fiber i (mkFiber _ (turn f a) (turn f)) (fibers (tasks d))) (holding (tasks d)))
                             (callback_left d) (shared d))
      | Call c k =>
          match hold_run i (holding (tasks d)) (op_of c), answer c (shared d) with
          | Some hs, Some (x, s') =>
              Some ([(Task i, Ev c x)],
                    mkDevice (mkSystem (with_fiber i (mkFiber _ (k x) (turn f)) (fibers (tasks d))) hs) (callback_left d) s')
          | _, _ => None
          end
      | _ => None
      end
  | Interrupt cb => match callback_left d with Ret _ => Some ([], mkDevice (tasks d) (callback_io cb) (shared d)) | _ => None end
  | Resume =>
      match callback_left d with
      | Call c k =>
          match answer c (shared d) with
          | Some (x, s') => Some ([(Lwip_thread, Ev c x)], mkDevice (tasks d) (k x) s')
          | None => None
          end
      | _ => None
      end
  end.

(** Where a move leads. *)
Definition device_after (m : move) (d : device) : device :=
  match device_move m d with Some (_, d') => d' | None => d end.

Fixpoint drive (ms : list move) (es : list (actor * event call)) (d : device) : option (list (actor * event call) * device) :=
  match ms with
  | [] => Some (es, d)
  | m :: ms => match device_move m d with Some (e, d) => drive ms (es ++ e) d | None => None end
  end.

Lemma fiber_eta f p : now f = p -> f = mkFiber (locals f) p (turn f).
Proof. by intros <-; destruct f. Qed.

Lemma device_move_step m d e d' : device_move m d = Some (e, d') -> device_step d e d'.
Proof.
  destruct m as [i|cb|]; cbn.
  - destruct (now (fibers (tasks d) i)) as [a| | |X c k] eqn:E; try done; apply fiber_eta in E.
    + intros [= <- <-]. eapply Task_goes. by apply Turn_end.
    + destruct (hold_run _ _ _) as [hs|] eqn:Eh; [|done]. destruct (answer _ _) as [[x s']|] eqn:Ea; [|done].
      intros [= <- <-]. apply ready_step in Ea. eapply Task_goes. by eapply Task_call.
  - destruct (callback_left d) as [[]| | |] eqn:E; try done. intros [= <- <-]. by apply Callback_start.
  - destruct (callback_left d) as [| | |X c k] eqn:E; try done. destruct (answer _ _) as [[x s']|] eqn:Ea; [|done].
    intros [= <- <-]. apply ready_step in Ea. by eapply Callback_call.
Qed.

Lemma device_after_step m d e :
  match device_move m d with Some (e', _) => e' = e | None => False end -> device_step d e (device_after m d).
Proof. unfold device_after. destruct (device_move m d) as [[e' d']|] eqn:E; [|done]. intros <-. by eapply device_move_step. Qed.

Lemma drive_run d0 ms es d es' d' : device_run d0 es d -> drive ms es d = Some (es', d') -> device_run d0 es' d'.
Proof.
  revert es d. induction ms as [|m ms IH]; intros es d Hr; cbn; [by intros [= <- <-]|].
  destruct (device_move m d) as [[e d1]|] eqn:E; [|done]. apply IH. by eapply Device_snoc, device_move_step.
Qed.

(** The run of a script, and where it leads. *)
Definition driven (ms : list move) (d : device) : list (actor * event call) * device := default ([], d) (drive ms [] d).

Lemma driven_run ms d : device_run d (driven ms d).1 (driven ms d).2.
Proof.
  unfold driven. destruct (drive ms [] d) as [[es d']|] eqn:E; [|apply Device_nil]. by eapply drive_run; [apply Device_nil|].
Qed.
End drive.

(** *** A machine at work *)

(** The answers of [demo_h]: the machine has the address 10.0.0.5, every file can be opened, and the printer takes every
    command. *)
Definition demo_ans {X} (c : @call ref_vendor X) : X := (demo_h X c (demo_start [])).1.

Definition demo_device : @device ref_vendor := device_boot 5 4 6.

(** The ledger task makes a ledger and goes to sleep again; a datagram with a new job arrives, and the receiver puts it on the
    ledger; two more turns of the ledger task, in the second of which it prints the job and hands the ledger on. *)
Definition demo_create : list move := replicate 51 (Go Task_manage_ledger).
Definition demo_arrive : list move :=
  [Interrupt (Datagram true (demo_chain 1 [demo_encode (demo_message 1)]) (to_be (to_bits (demo_addr 7)))); Resume] ++
  replicate 12 (Go Task_udp_receiver).
Definition demo_act : list move := replicate 104 (Go Task_manage_ledger).

Definition demo_listed : list (actor * event (@call ref_vendor)) * device := driven (@demo_ans) (demo_create ++ demo_arrive) demo_device.
Definition demo_done : list (actor * event (@call ref_vendor)) * device := driven (@demo_ans) demo_act demo_listed.2.

Lemma mutexes_atomic_witness :
  (if job_ledger (shared demo_listed.2) is Some _ then true else false) = true /\
  (exists books, register book_guard book_new demo_listed.1 demo_listed.2 books) /\
  (exists ledgers, register jobs_guard None demo_listed.1 demo_listed.2 ledgers).
Proof.
  split; [vm_compute; reflexivity|]. apply (mutexes_atomic (L := ref_vendor_laws) (demo_id 3) 5 4 6). apply driven_run.
Defined.
