(* ===== verification/Monitor.v ===== *)
(** * Monitors

    A property of what a task shows, followed by a monitor: an automaton that reads the observations of a trace.
    A program is [monitored] when the monitor can follow each of its runs; a task whose turns are monitored is followed on the
    running machine of [Device.v] for as long as it runs. *)

From S2P Require Import Prelude Prog Net Vendor VendorRef Data Ffi Env Lwip Pbuf Tcp Udp Fs Http Request Rng.
From S2P Require Import Messages Observe Wire Upload Owns Put Transfer Marlin Receiver Ledger Mutex Main Tasks State Device.

(** What is seen of a call, and the steps of the automaton. *)
Class Monitor `{V : Vendor} (B O : Type) : Type := {
  watch : forall X, call X -> X -> list B;
  next : O -> B -> O -> Prop
}.

Class Deterministic `{V : Vendor} {B O} (M : Monitor B O) : Prop :=
  deterministic : forall o b o1 o2, next o b o1 -> next o b o2 -> o1 = o2.

Section monitor.
Context `{V : Vendor} {B O : Type} (M : Monitor B O).

Fixpoint follows (o : O) (bs : list B) (o' : O) : Prop :=
  match bs with
  | [] => o' = o
  | b :: bs => exists o1, next o b o1 /\ follows o1 bs o'
  end.

Lemma follows_app o bs1 bs2 o' : follows o (bs1 ++ bs2) o' <-> exists o1, follows o bs1 o1 /\ follows o1 bs2 o'.
Proof.
  revert o. induction bs1 as [|b bs1 IH]; intros o; cbn; [split; [by eauto|by intros (? & -> & ?)]|].
  setoid_rewrite IH. split; [by intros (o1 & ? & o2 & ? & ?); eauto|by intros (o2 & (o1 & ? & ?) & ?); eauto].
Qed.

Lemma follows_det `{!Deterministic M} o bs o1 o2 : follows o bs o1 -> follows o bs o2 -> o1 = o2.
Proof.
  revert o. induction bs as [|b bs IH]; intros o; cbn; [congruence|]. intros (x & Hx & ?) (y & Hy & ?).
  pose proof (deterministic _ _ _ _ Hx Hy) as ->. eauto.
Qed.

(** The monitor follows every run of [p] from [o], and at its end [Q] holds of the result. *)
Definition monitored {A} (o : O) (p : io A) (Q : A -> O -> Prop) : Prop :=
  forall tr out, exec p tr out -> exists o', follows o (collect watch tr) o' /\ match out with Done a => Q a o' | _ => True end.

Lemma monitored_ret {A} o (a : A) (Q : A -> O -> Prop) : Q a o -> monitored o (Ret a) Q.
Proof. intros HQ tr out [-> ->]. by exists o. Qed.

Lemma monitored_fuel {A} o (Q : A -> O -> Prop) : monitored o Fuel Q.
Proof. intros tr out [-> ->]. by exists o. Qed.

Lemma monitored_bind {A C} o (p : io A) (f : A -> io C) Q1 Q :
  monitored o p Q1 -> (forall a o1, Q1 a o1 -> monitored o1 (f a) Q) -> monitored o (p ≫= f) Q.
Proof.
  intros Hp Hf tr out H%exec_bind. inversion H as [a tr1 tr2 out' -> H1 H2|H1|H1]; subst; [|by eapply Hp in H1..].
  apply Hp in H1 as (o1 & F1 & HQ). destruct (Hf _ _ HQ _ _ H2) as (o2 & F2 & HQ2).
  exists o2. split; [|done]. rewrite collect_app. apply follows_app. eauto.
Qed.

Lemma monitored_skip_ret {A C} o (a : A) (f : A -> io C) Q : monitored o (f a) Q -> monitored o (Ret a ≫= f) Q.
Proof. done. Qed.

Lemma monitored_silent {A} o (p : io A) (Q : A -> O -> Prop) : no_emit watch p -> (forall a, Q a o) -> monitored o p Q.
Proof. intros Hp HQ tr out H. exists o. rewrite (Hp _ _ H). split; [done|]. by destruct out. Qed.

Lemma monitored_silent_post {A} o (p : io A) (Q : A -> O -> Prop) :
  no_emit watch p -> (forall tr a, exec p tr (Done a) -> Q a o) -> monitored o p Q.
Proof. intros Hp HQ tr out H. exists o. rewrite (Hp _ _ H). split; [done|]. destruct out; eauto. Qed.

Lemma monitored_skip {A C} o (p : io A) (f : A -> io C) Q :
  no_emit watch p -> (forall a, monitored o (f a) Q) -> monitored o (p ≫= f) Q.
Proof.
  intros Hp Hf. eapply (monitored_bind _ _ _ (fun _ o1 => o1 = o)); [by apply monitored_silent|]. intros a o1 ->. apply Hf.
Qed.

(** A call that is seen, and what follows. *)
Lemma monitored_seen {A X} o (c : call X) (f : X -> io A) Q :
  (forall x, exists o1, follows o (watch X c x) o1 /\ monitored o1 (f x) Q) -> monitored o (Call c f) Q.
Proof.
  intros Hf tr out (x & tr' & -> & H). destruct (Hf x) as (o1 & F1 & Hm). destruct (Hm _ _ H) as (o2 & F2 & HQ).
  exists o2. split; [|done]. cbn. apply follows_app. eauto.
Qed.

(** One call of a program. *)
Lemma monitored_call `{!Deterministic M} (u : Uuid) {A X} o (c : call X) (k : X -> io A) Q x :
  monitored o (Call c k) Q -> exists o1, follows o (watch X c x) o1 /\ monitored o1 (k x) Q.
Proof.
  intros H. assert (forall tr out, exec (k x) tr out -> exists o1 o', follows o (watch X c x) o1 /\
    follows o1 (collect watch tr) o' /\ match out with Done a => Q a o' | _ => True end) as Hk.
  { intros tr out Hx. destruct (H (Ev c x :: tr) out) as (o' & F & HQ); [by exists x, tr|].
    cbn in F. apply follows_app in F as (o1 & ? & ?). eauto. }
  destruct (runs u (k x)) as (tr & out & Hx). destruct (Hk _ _ Hx) as (o1 & _ & F1 & _). exists o1. split; [done|].
  intros tr' out' Hx'. destruct (Hk _ _ Hx') as (o1' & o' & F1' & F' & HQ). rewrite (follows_det _ _ _ _ F1 F1'). eauto.
Qed.
End monitor.

Arguments follows {_ _ _} M _ _ _.
Arguments monitored {_ _ _} M {_} _ _ _.

(** ** A task of the machine *)

Section device.
Context `{V : Vendor} `{SM : Serialize Message} `{DM : Deserialize Message}.
Context {B O : Type} (M : Monitor B O) `{!Deterministic M} (u : Uuid) (i : task_name) (R : O -> Prop).

Definition rests {A} (_ : A) (o : O) : Prop := R o.

(** What is left of the present turn, and every later one, can be followed to a resting state. *)
Definition monitored_task (o : O) (f : fiber) : Prop :=
  monitored M o (now f) rests /\ forall a o1, R o1 -> monitored M o1 (turn f a) rests.

Lemma monitored_step o d e d' :
  device_step d e d' -> monitored_task o (fibers (tasks d) i) ->
  exists o', follows M o (collect watch (acts (Task i) e)) o' /\ monitored_task o' (fibers (tasks d') i).
Proof.
  intros Hs [Hn Ht]. destruct Hs as [j e d' [T a tu E|T X c k tu x hs s' E Hh He]|cb E|X c k x s' E He]; cbn [tasks fibers].
  - unfold with_fiber. case_decide as Hj; [subst j|by exists o]. rewrite E in Hn, Ht. cbn in *.
    destruct (Hn [] (Done a)) as (o' & -> & Ho); [done|]. exists o. split; [done|]. split; [by apply Ht|exact Ht].
  - unfold with_fiber. case_decide as Hj; [subst j|].
    + rewrite E in Hn, Ht. cbn in Hn, Ht |- *. rewrite decide_True by done. cbn. rewrite app_nil_r.
      destruct (monitored_call _ u _ _ _ _ x Hn) as (o1 & F1 & Hk). by exists o1.
    + cbn. rewrite decide_False by congruence. by exists o.
  - by exists o.
  - by exists o.
Qed.

Lemma device_monitored d es d' o :
  device_run d es d' -> monitored_task o (fibers (tasks d) i) ->
  exists o', follows M o (collect watch (acts (Task i) es)) o' /\ monitored_task o' (fibers (tasks d') i).
Proof.
  intros Hr Hm. induction Hr as [|es e d1 d2 _ (o1 & F1 & Hm1) Hs]; [by exists o|].
  destruct (monitored_step _ _ _ _ Hs Hm1) as (o2 & F2 & Hm2). exists o2. split; [|done].
  rewrite acts_app, collect_app. apply follows_app. eauto.
Qed.
End device.
