(* ===== verification/Sections.v ===== *)
(** * Critical sections

    What the tasks do between locking a mutex and giving it back, on the running machine of [Device.v]: each
    section shows what it found, some observations of a kind, and what it left.  If every task's sections are links of a
    given relation, the guarded value goes from its first to its present value along such links.  [Critical.v]
    applies this to the ledger, [Peers.v] to the address book. *)

From S2P Require Import Prelude Prog Net Vendor VendorRef Data Ffi Env Lwip Pbuf Tcp Udp Fs Http Request Rng.
From S2P Require Import Messages Observe Wire Upload Owns Put Transfer Marlin Receiver Ledger Mutex Main Tasks State Device Monitor.

Inductive section_obs (T I : Type) : Type :=
  | Found (v : T)
  | Seen (c : I)
  | Left (v : T).
Arguments Found {T I} v.
Arguments Seen {T I} c.
Arguments Left {T I} v.

(** A task outside of its sections with what was seen since the last one, or in one, with what was seen before it,
    what it found and what was seen since. *)
Inductive opened (T I : Type) : Type :=
  | Outside (bs : list I)
  | Within (bs : list I) (v : T) (cs : list I).
Arguments Outside {T I} bs.
Arguments Within {T I} bs v cs.

(** Sections follow each other, what is seen outside of them is of a kind, and each is in [R]. *)
Inductive section_next {T I} (out : I -> Prop) (R : list I -> T -> list I -> T -> Prop) :
    opened T I -> section_obs T I -> opened T I -> Prop :=
  | Next_outside bs c : out c -> section_next out R (Outside bs) (Seen c) (Outside (bs ++ [c]))
  | Next_found bs v : section_next out R (Outside bs) (Found v) (Within bs v [])
  | Next_inside bs v cs c : section_next out R (Within bs v cs) (Seen c) (Within bs v (cs ++ [c]))
  | Next_left bs v cs w : R bs v cs w -> section_next out R (Within bs v cs) (Left w) (Outside []).

(** Observations of the mutexes and the printer only. *)
Class Reserved `{V : Vendor} {B} (f : forall X, call X -> X -> list B) : Prop :=
  reserved : forall X (c : call X) x, on_mutex c = false -> (if c is CMarlin _ then false else true) = true -> f X c x = [].

#[export] Instance reserved_aloof `{V : Vendor} {B} (f : forall X, call X -> X -> list B) : Reserved f -> Aloof f.
Proof. intros Hf X c x Hc. apply Hf; destruct c as [X c|X c|X c|X c|X c|X c]; try done; by destruct c. Qed.

Ltac unseen ::= intros; first [reflexivity | apply foreground; reflexivity | apply mutex_only; reflexivity
  | apply reserved; reflexivity | apply aloof; reflexivity].

Section sections.
Context `{V : Vendor} {T I : Type} (G : Guard T).

Section one.
Context (inner : forall X, call X -> X -> list I) (out : I -> Prop) (R : list I -> T -> list I -> T -> Prop).

Definition section_seen (X : Type) (c : call X) (x : X) : list (section_obs T I) :=
  (Found <$> found_seen X c x) ++ (Seen <$> inner X c x) ++ (Left <$> left_seen X c x).

#[export] Instance sections : Monitor (section_obs T I) (opened T I) := {| watch := section_seen; next := section_next out R |}.

#[export] Instance sections_deterministic : Deterministic sections.
Proof. intros o b o1 o2 H1 H2. destruct H1; inversion H2; by subst. Qed.

Lemma section_reserved : Reserved found_seen -> Reserved inner -> Reserved left_seen -> Reserved section_seen.
Proof. intros H1 H2 H3 X c x Hm Hc. unfold section_seen. by rewrite H1, H2, H3. Qed.

Lemma follows_inside bs v cs cs' : follows sections (Within bs v cs) (Seen <$> cs') (Within bs v (cs ++ cs')).
Proof.
  revert cs. induction cs' as [|c cs' IH]; intros cs; cbn; [by rewrite app_nil_r|].
  exists (Within bs v (cs ++ [c])). split; [constructor|]. specialize (IH (cs ++ [c])). by rewrite <- app_assoc in IH.
Qed.

Lemma sectioned_lock {A X} bs (c : call X) (val : X -> T) (f : X -> io A) Q :
  (forall x, section_seen X c x = [Found (val x)]) -> (forall x, monitored sections (Within bs (val x) []) (f x) Q) ->
  monitored sections (Outside bs) (Call c f) Q.
Proof.
  intros Hc Hf. apply monitored_seen. intros x. exists (Within bs (val x) []). split; [|apply Hf].
  cbn [watch sections]. rewrite Hc. exists (Within bs (val x) []). split; [constructor|done].
Qed.

Lemma sectioned_unlock {A X} bs v cs w (c : call X) (f : X -> io A) Q :
  (forall x, section_seen X c x = [Left w]) -> R bs v cs w -> (forall x, monitored sections (Outside []) (f x) Q) ->
  monitored sections (Within bs v cs) (Call c f) Q.
Proof.
  intros Hc HR Hf. apply monitored_seen. intros x. exists (Outside []). split; [|apply Hf].
  cbn [watch sections]. rewrite Hc. exists (Outside []). split; [by constructor|done].
Qed.

(** A call that is seen outside. *)
Lemma sectioned_outside {A X} bs (c : call X) (seen : X -> I) (f : X -> io A) Q :
  (forall x, section_seen X c x = [Seen (seen x)]) -> (forall x, out (seen x)) ->
  (forall x, monitored sections (Outside (bs ++ [seen x])) (f x) Q) -> monitored sections (Outside bs) (Call c f) Q.
Proof.
  intros Hc Ho Hf. apply monitored_seen. intros x. exists (Outside (bs ++ [seen x])). split; [|apply Hf].
  cbn [watch sections]. rewrite Hc. exists (Outside (bs ++ [seen x])). split; [by constructor|done].
Qed.

(** Inside a section: a call, and a program. *)
Lemma sectioned_call {A X} bs v cs (c : call X) (seen : X -> I) (f : X -> io A) Q :
  (forall x, section_seen X c x = [Seen (seen x)]) ->
  (forall x, monitored sections (Within bs v (cs ++ [seen x])) (f x) Q) -> monitored sections (Within bs v cs) (Call c f) Q.
Proof.
  intros Hc Hf. apply monitored_seen. intros x. exists (Within bs v (cs ++ [seen x])). split; [|apply Hf].
  cbn [watch sections]. rewrite Hc. exists (Within bs v (cs ++ [seen x])). split; [by constructor|done].
Qed.

Lemma sectioned_inside {A B} bs v cs (p : io A) (f : A -> io B) Q :
  no_emit found_seen p -> no_emit left_seen p ->
  (forall tr a, exec p tr (Done a) -> monitored sections (Within bs v (cs ++ collect inner tr)) (f a) Q) ->
  monitored sections (Within bs v cs) (p ≫= f) Q.
Proof.
  intros Hf Hl Hk.
  apply (monitored_bind _ _ _ _ (fun a o1 => exists tr, exec p tr (Done a) /\ o1 = Within bs v (cs ++ collect inner tr)));
    [|by intros a o1 (tr & H & ->); eauto].
  intros tr r H. exists (Within bs v (cs ++ collect inner tr)). split; [|destruct r; eauto].
  specialize (Hf _ _ H). specialize (Hl _ _ H). clear H. cbn [watch sections]. assert (collect section_seen tr = Seen <$> collect inner tr) as ->.
  { induction tr as [|[X c x] tr IH]; [done|]. cbn in *.
    apply app_eq_nil in Hf as [E1 Hf]. apply app_eq_nil in Hl as [E2 Hl]. unfold section_seen at 1.
    rewrite IH by done. by rewrite E1, E2, fmap_app, app_nil_r. }
  apply follows_inside.
Qed.
End one.

(** ** The sections of a run *)

(** What was seen before, the value found, what was seen inside, the value left. *)
Record section : Type := mkSection { before : list I; found : T; inside : list I; given : T }.

Definition ends (s : section) : T * T := (found s, given s).

Definition show_open (o : opened T I) : list (section_obs T I) :=
  match o with
  | Outside bs => Seen <$> bs
  | Within bs v cs => (Seen <$> bs) ++ Found v :: (Seen <$> cs)
  end.

Definition show_section (s : section) : list (section_obs T I) :=
  show_open (Within (before s) (found s) (inside s)) ++ [Left (given s)].

Definition outside (o : opened T I) : list I := match o with Outside bs | Within bs _ _ => bs end.

Lemma follows_sections inner out R bs o :
  follows (sections inner out R) (Outside []) bs o ->
  exists ss, bs = concat (show_section <$> ss) ++ show_open o /\
    Forall (fun s => Forall out (before s) /\ R (before s) (found s) (inside s) (given s)) ss /\ Forall out (outside o).
Proof.
  revert o. induction bs as [|b bs IH] using rev_ind; intros o H.
  - exists []. by rewrite H.
  - apply follows_app in H as (o1 & H & o2 & Hb & ->). destruct (IH _ H) as (ss & -> & Hs & Ho).
    destruct Hb as [cs c Hc|cs l|cs l cs' c|cs l cs' w HR]; cbn in *.
    + exists ss. rewrite fmap_app, <- app_assoc. split_and!; [done..|]. by apply Forall_app_2; [|constructor].
    + exists ss. by rewrite <- app_assoc.
    + exists ss. by rewrite fmap_app, <- !app_assoc.
    + exists (ss ++ [mkSection cs l cs' w]). split_and!; [|by apply Forall_app_2; [|constructor]|done].
      rewrite fmap_app, concat_app. cbn. unfold show_section. cbn. by rewrite !app_nil_r, <- !app_assoc.
Qed.

(** What of a section the mutex shows. *)
Definition obs_found (b : section_obs T I) : option T := match b with Found l => Some l | _ => None end.
Definition obs_left (b : section_obs T I) : option T := match b with Left l => Some l | _ => None end.

Lemma omap_all {A B} (f : A -> section_obs T I) (g : section_obs T I -> option B) (h : A -> B) (l : list A) :
  (forall a, g (f a) = Some (h a)) -> omap g (f <$> l) = h <$> l.
Proof. intros Hg. induction l as [|a l IH]; [done|]. cbn. by rewrite Hg, IH. Qed.

Lemma omap_none {A B} (f : A -> section_obs T I) (g : section_obs T I -> option B) (l : list A) :
  (forall a, g (f a) = None) -> omap g (f <$> l) = [].
Proof. intros Hg. induction l as [|a l IH]; [done|]. cbn. by rewrite Hg. Qed.

Lemma obs_one inner X (c : call X) x :
  omap obs_found (section_seen inner X c x) = found_seen X c x /\ omap obs_left (section_seen inner X c x) = left_seen X c x.
Proof.
  unfold section_seen. rewrite !omap_app, (omap_all Found obs_found id), (omap_all Left obs_left id) by done.
  rewrite (omap_none Seen obs_found), (omap_none Left obs_found), (omap_none Seen obs_left), (omap_none Found obs_left) by done.
  by rewrite !list_fmap_id, !app_nil_r.
Qed.

Lemma obs_seen inner tr :
  collect found_seen tr = omap obs_found (collect (section_seen inner) tr) /\
  collect left_seen tr = omap obs_left (collect (section_seen inner) tr).
Proof.
  induction tr as [|[X c x] tr [IH1 IH2]]; [done|]. cbn [collect]. destruct (obs_one inner X c x) as [E1 E2].
  by rewrite IH1, IH2, !omap_app, E1, E2.
Qed.

Lemma show_parts o :
  omap obs_found (show_open o) = match o with Within _ v _ => [v] | Outside _ => [] end /\ omap obs_left (show_open o) = [].
Proof. destruct o as [bs|bs v cs]; cbn; [by rewrite !omap_none|]. rewrite !omap_app. cbn. by rewrite !omap_none. Qed.

Lemma show_sections ss o :
  omap obs_found (concat (show_section <$> ss) ++ show_open o) =
    (ends <$> ss).*1 ++ match o with Within _ v _ => [v] | Outside _ => [] end /\
  omap obs_left (concat (show_section <$> ss) ++ show_open o) = (ends <$> ss).*2.
Proof.
  induction ss as [|s ss [IH1 IH2]]; [apply show_parts|].
  change (concat (show_section <$> s :: ss)) with (show_section s ++ concat (show_section <$> ss)).
  rewrite <- app_assoc, !(omap_app _ (show_section _)), IH1, IH2. unfold show_section.
  rewrite !omap_app. destruct (show_parts (Within (before s) (found s) (inside s))) as [-> ->]. done.
Qed.
End sections.

(** ** What the tasks that use both mutexes do around their sections *)

Section shapes.
Context `{V : Vendor} {L : VendorLaws V} `{SM : Serialize Message} `{DM : Deserialize Message}.
Context {B O : Type} (M : Monitor B O) `{!Reserved (watch (Monitor := M))} (o : O).

Definition stays {A} (_ : A) (o1 : O) : Prop := o1 = o.

Lemma stays_quiet {A} (p : io A) : no_emit watch p -> monitored M o p stays.
Proof. intros Hp. by apply monitored_silent. Qed.

(** The worker's only sections are those of [append_to_ledger]. *)
Hypothesis Happend : forall g, monitored M o (append_to_ledger g) stays.

Lemma stays_finish info g path f : monitored M o (finish_upload info g path f) stays.
Proof.
  pose proof (no_mutex_send_log watch). pose proof (aloof_response watch).
  unfold finish_upload, close, drop_file, rname, log_to_udp. rewrite make_path_eq.
  do 5 (apply monitored_skip; [no_emit_tac|intros ?]). destruct (info_guid info); [by apply monitored_ret|].
  eapply monitored_bind; [by apply Happend|]. intros ? o1 ->. apply stays_quiet. no_emit_tac.
Qed.

Lemma stays_handle_put fuel it headers body : monitored M o (handle_put fuel it headers body) stays.
Proof.
  pose proof (no_mutex_send_log watch). pose proof (aloof_response watch).
  pose proof (aloof_drop watch). pose proof (aloof_write_chunks watch).
  pose proof (aloof_receive_rest watch). unfold handle_put, log_to_udp. cbv zeta. apply monitored_skip; [done|intros ?].
  destruct (put_rejected _); [apply stays_quiet; unfold drop_iter; no_emit_tac|].
  apply monitored_skip; [unfold generate_uuid_v7; no_emit_tac|intros g]. rewrite make_path_eq.
  apply monitored_skip; [no_emit_tac|intros path].
  apply monitored_skip; [unfold open; no_emit_tac|intros [f|e]].
  2: { apply stays_quiet. unfold drop_iter. no_emit_tac. }
  apply monitored_skip; [no_emit_tac|intros n].
  apply monitored_skip; [unfold upload_chunk, write; cbv zeta; no_emit_tac|intros m].
  apply monitored_skip; [done|intros [k b]]. apply monitored_skip; [unfold drop_iter; done|intros _].
  apply monitored_skip; [no_emit_tac|intros []]; [apply stays_finish|by apply monitored_ret].
Qed.

Lemma stays_worker fuel : monitored M o (tcp_worker_step fuel) stays.
Proof.
  pose proof (no_mutex_send_log watch). pose proof (aloof_response watch).
  pose proof (aloof_drop watch). pose proof (aloof_receive watch).
  unfold tcp_worker_step, with_connection. do 2 (apply monitored_skip; [no_emit_tac|intros ?]).
  apply monitored_skip; [unfold attach_callbacks; no_emit_tac|intros ?].
  eapply (monitored_bind _ _ _ _ stays).
  2: { intros ? o1 ->. apply stays_quiet, aloof_drop_connection, _. }
  unfold handle_conn, log_to_udp. apply monitored_skip; [done|intros _]. apply monitored_skip; [done|intros m].
  destruct m as [p|]; [|by apply monitored_ret]. cbv zeta. rewrite iter_next_chunks. unfold drop_iter.
  destruct (chunks _) as [|c cs]; [apply stays_quiet; no_emit_tac|].
  destruct (split_request c) as [[[sl hd] body]|]; [|apply stays_quiet; no_emit_tac].
  destruct (check_start_line sl) as [[]|e]; [apply stays_quiet; no_emit_tac| |apply stays_quiet; no_emit_tac].
  apply stays_handle_put.
Qed.

(** The receiver's are those of [handle_message]. *)
Lemma stays_receiver h :
  (forall h a m, monitored M o (handle_message h a m) stays) -> monitored M o (udp_receiver_step h) stays.
Proof.
  intros Hh. pose proof (aloof_drop watch). unfold udp_receiver_step, udp_socket_receive, drop_iter.
  apply monitored_skip; [no_emit_tac|intros [a p]]. rewrite iter_next_chunks.
  destruct (chunks _) as [|c cs]; (apply monitored_skip; [done|intros _]); [by apply monitored_ret|].
  apply monitored_skip; [no_emit_tac|intros s]. destruct (from_bytes s) as [m|]; [|by apply monitored_ret]. apply Hh.
Qed.

Lemma stays_heartbeat : monitored M o heartbeat_step stays.
Proof. apply stays_quiet. pose proof (no_mutex_heartbeat watch). unfold heartbeat_step, my_ipaddr. no_emit_tac. Qed.
End shapes.

(** ** The sections of the machine *)

Section machine.
Context `{V : Vendor} {L : VendorLaws V} `{SM : Serialize Message} `{DM : Deserialize Message}.
Context {T I : Type} (G : Guard T) `{!GuardLaws G} (inner : task_name -> forall X, call X -> X -> list I).
Context (out : task_name -> I -> Prop) (link : task_name -> list I -> T -> list I -> T -> Prop) (u : Uuid).

Definition watched (i : task_name) : Monitor (section_obs T I) (opened T I) := sections G (inner i) (out i) (link i).

(** Between two turns a task is outside of its sections. *)
Definition idle (i : task_name) (o : opened T I) : Prop := exists bs, o = Outside bs /\ Forall (out i) bs.

Lemma idle_nil i o : (forall c, ~ out i c) -> idle i o -> o = Outside [].
Proof. intros Ho (bs & -> & Hb). destruct Hb as [|c bs Hc _]; [done|]. by destruct (Ho c). Qed.

(** The sections of the tasks, so far and in what is left of them. *)
Definition sections_ok (es : list (actor * event call)) (d : device) : Prop :=
  forall i, exists o, follows (watched i) (Outside []) (collect (section_seen G (inner i)) (acts (Task i) es)) o /\
    monitored_task (watched i) (idle i) o (fibers (tasks d) i).

Lemma sections_run d es d' es0 : device_run d es d' -> sections_ok es0 d -> sections_ok (es0 ++ es) d'.
Proof.
  intros Hr H i. destruct (H i) as (o & F & Hm). destruct (device_monitored _ u _ _ _ _ _ _ Hr Hm) as (o' & F' & Hm').
  exists o'. split; [|done]. rewrite acts_app, collect_app. apply follows_app. eauto.
Qed.

(** The sections [secs] of the mutex with what the tasks did: each task shows its sections, in order, and then what it
    does since, and each section is one it may make. *)
Definition explained (es : list (actor * event call)) (secs : list (task_name * (T * T))) : Prop :=
  forall i, exists ss o,
    collect (section_seen G (inner i)) (acts (Task i) es) = concat (show_section <$> ss) ++ show_open o /\
    ends <$> ss = of_task i secs /\
    Forall (fun s => Forall (out i) (before s) /\ link i (before s) (found s) (inside s) (given s)) ss /\
    Forall (out i) (outside o).

(** Two lists of pairs are the same when their halves are. *)
Lemma pairs_eq {A B} (l1 l2 : list (A * B)) xs ys : l1.*1 ++ xs = l2.*1 ++ ys -> l1.*2 = l2.*2 -> l1 = l2.
Proof.
  revert l2. induction l1 as [|[a b] l1 IH]; intros [|[a' b'] l2]; cbn; try done. intros [= -> H1] [= -> H2]. f_equal. eauto.
Qed.

Lemma explain v0 es d secs : register G v0 es d secs -> sections_ok es d -> explained es secs.
Proof.
  intros [_ Hr] Hok i. destruct (Hok i) as (o & F & _). apply follows_sections in F as (ss & E & Hs & Ho).
  exists ss, o. split; [done|]. split; [|done]. destruct (Hr i) as [Hf Hl].
  destruct (obs_seen G (inner i) (acts (Task i) es)) as [E1 E2]. destruct (show_sections ss o) as [S1 S2].
  rewrite E, S1 in E1. rewrite E, S2 in E2. eapply pairs_eq; [exact (eq_trans (eq_sym E1) Hf)|exact (eq_trans (eq_sym E2) Hl)].
Qed.

Context (fuel : nat) (p q : ptr) (Hboot : sections_ok [] (device_boot fuel p q))
  (Hfree : holder (holding (tasks (device_boot fuel p q))) = None).

Lemma history_run es d :
  device_run (device_boot fuel p q) es d ->
  exists secs, register G (guarded (shared (device_boot fuel p q))) es d secs /\ explained es secs.
Proof.
  intros Hr. destruct (register_run u G _ _ _ Hr (device_boot_ok fuel p q) Hfree) as [secs Hs].
  exists secs. split; [done|]. eapply explain; [done|]. exact (sections_run _ _ _ [] Hr Hboot).
Qed.

(** ** The moment at which the value is changed *)

(** A step that changes the guarded value is an unlock of a task. *)
Lemma guarded_step d e d' :
  device_step d e d' -> device_ok d ->
  guarded (shared d') = guarded (shared d) \/
  exists i X (c : call X) x, e = [(Task i, Ev c x)] /\ op_of c = [unlock_op] /\ found_seen X c x = [] /\
    left_seen X c x = [guarded (shared d')] /\ holder (holding (tasks d)) = Some i.
Proof.
  intros Hs [Ho Hq]. destruct Hs as [i e d' [T' a tu E|T' X c k tu x hs s' E Hh He]|cb E|X c k x s' E He]; cbn; [by left| |by left|].
  - pose proof (next_call u _ _ _ _ _ Ho E) as Ha. cbn in Ha. apply guard_event in He as [(_ & _ & _ & ->)|[(Eo & Ef & El)|(_ & _ & _ & _ & ->)]]; [by left| |by left].
    right. exists i, X, c, x. rewrite Eo in Ha. split_and!; try done. by apply guard_owned in Ha.
  - rewrite E in Hq. apply (quiet_call u) in Hq as [Eo _].
    apply guard_event in He as [(? & _)|[(? & _)|(_ & _ & _ & _ & ->)]]; [congruence|congruence|by left].
Qed.

(** What ends with a value being left ends with a section. *)
Lemma show_last (ss : list (section (T := T) (I := I))) o l w :
  concat (show_section <$> ss) ++ show_open o = l ++ [Left w] ->
  exists ss' s, ss = ss' ++ [s] /\ given s = w /\ o = Outside [].
Proof.
  intros E. assert (show_open o = [] \/ exists l' b, show_open o = l' ++ [b] /\ forall v, b <> Left v) as [Eo|(l' & b & Eo & Hb)].
  - destruct o as [bs|bs v cs]; cbn; [destruct bs as [|c bs _] using rev_ind; [by left|]|destruct cs as [|c cs _] using rev_ind]; right.
    + exists (Seen <$> bs), (Seen c). by rewrite fmap_app.
    + by exists (Seen <$> bs), (Found v).
    + exists ((Seen <$> bs) ++ Found v :: (Seen <$> cs)), (Seen c). by rewrite fmap_app, <- app_assoc.
  - assert (o = Outside []) as ->.
    { destruct o as [bs|bs v cs]; cbn in Eo; [by apply fmap_nil_inv in Eo as ->|by apply app_eq_nil in Eo as [_ ?]]. }
    destruct ss as [|s ss _] using rev_ind; [by destruct l|]. exists ss, s. split_and!; try done.
    rewrite fmap_app, concat_app in E. cbn in E. rewrite !app_nil_r in E. unfold show_section in E. rewrite app_assoc in E.
    apply app_inj_2 in E as [_ E]; [congruence|done].
  - rewrite Eo, app_assoc in E. apply app_inj_2 in E as [_ E]; [|done]. destruct (Hb w). congruence.
Qed.

(** Of the task that unlocks, at that moment: it is in a section in which it found the present value. *)
Lemma unlock_section v0 es d secs i X (c : call X) x w d' :
  register G v0 es d secs -> sections_ok (es ++ [(Task i, Ev c x)]) d' ->
  holder (holding (tasks d)) = Some i -> found_seen X c x = [] -> left_seen X c x = [w] ->
  exists o1 bs cs, collect (section_seen G (inner i)) (acts (Task i) (es ++ [(Task i, Ev c x)])) =
      o1 ++ show_section (mkSection bs (guarded (shared d)) cs w) /\ link i bs (guarded (shared d)) cs w.
Proof.
  intros [_ Hr] Hok' Hh Hf Hl. destruct (Hok' i) as (o & F & _). apply follows_sections in F as (ss & E & Hs & _).
  destruct (obs_seen G (inner i) (acts (Task i) (es ++ [(Task i, Ev c x)]))) as [E1 _]. rewrite E in E1.
  destruct (Hr i) as [Hf' _]. rewrite collect_snoc, decide_True, Hf, app_nil_r, Hf', decide_True in E1 by done.
  destruct (show_sections ss o) as [S1 _]. rewrite S1 in E1. clear S1. rewrite collect_snoc, decide_True in E by done. unfold section_seen at 2 in E.
  rewrite Hl in E. cbn in E. rewrite !app_assoc in E. destruct (show_last _ _ _ _ (eq_sym E)) as (ss' & s & -> & <- & ->).
  rewrite app_nil_r, !fmap_app in E1. cbn in E1. apply app_inj_2 in E1 as [_ E1]; [injection E1 as E1|done].
  exists (concat (show_section <$> ss')), (before s), (inside s). apply Forall_app in Hs as [_ [[_ Hs] _]%Forall_cons].
  rewrite E1. split; [|by destruct s]. rewrite collect_snoc, decide_True by done. unfold section_seen at 2. rewrite Hl.
  change (Left <$> [given s]) with [@Left T I (given s)]. rewrite !app_assoc, E. cbn. rewrite fmap_app, concat_app. cbn. by rewrite !app_nil_r; destruct s.
Qed.

(** What the guarded value loses between two states of the machine it loses at one moment in between, when a task leaves a
    value without it, having found the value that was there till then. *)
Lemma section_leaves (P : T -> Prop) `{!forall v, Decision (P v)} es d es' d' :
  device_run (device_boot fuel p q) es d -> device_run d es' d' -> P (guarded (shared d)) -> ~ P (guarded (shared d')) ->
  exists es1 d1 i X (c : call X) x es2 o1 bs cs w,
    es' = es1 ++ (Task i, Ev c x) :: es2 /\ device_run d es1 d1 /\ P (guarded (shared d1)) /\ ~ P w /\
    op_of c = [unlock_op] /\ left_seen X c x = [w] /\
    collect (section_seen G (inner i)) (acts (Task i) (es ++ es1 ++ [(Task i, Ev c x)])) =
      o1 ++ show_section (mkSection bs (guarded (shared d1)) cs w) /\ link i bs (guarded (shared d1)) cs w.
Proof.
  intros Hr Hr' Hd. induction Hr' as [|es' e d1 d2 Hr' IH Hs]; [done|]. intros Hd'.
  destruct (decide (P (guarded (shared d1)))) as [Hd1|Hd1].
  2: { destruct (IH Hd1) as (es1 & d0 & i & X & c & x & es2 & o1 & bs & cs & w & -> & ?).
       exists es1, d0, i, X, c, x, (es2 ++ e), o1, bs, cs, w. by rewrite <- app_assoc. }
  assert (device_run (device_boot fuel p q) (es ++ es') d1) as H1 by by eapply device_run_app.
  pose proof (device_run_ok u _ _ _ H1 (device_boot_ok fuel p q)) as Hok.
  destruct (guarded_step _ _ _ Hs Hok) as [E|(i & X & c & x & -> & Eo & Ef & El & Hh)]; [by rewrite E in Hd'|].
  destruct (register_run u G _ _ _ H1 (device_boot_ok fuel p q) Hfree) as [secs Hreg].
  assert (device_run (device_boot fuel p q) ((es ++ es') ++ [(Task i, Ev c x)]) d2) as H2 by by eapply Device_snoc.
  destruct (unlock_section _ _ _ _ i X c x _ d2 Hreg (sections_run _ _ _ [] H2 Hboot) Hh Ef El) as (o1 & bs & cs & E & Hl).
  exists es', d1, i, X, c, x, [], o1, bs, cs, (guarded (shared d2)). rewrite <- app_assoc in E. by split_and!.
Qed.
End machine.
