(* ===== verification/Critical.v ===== *)
(** * Critical sections of the ledger

    What the tasks do with the ledger while they hold its mutex, and with the printer: the history of the
    ledger on the running machine of [Device.v], section by section. *)

From S2P Require Import Prelude Prog Net Vendor VendorRef Data Ffi Env Lwip Pbuf Tcp Udp Fs Http Request Rng.
From S2P Require Import Messages Observe Wire Upload Owns Put Transfer Marlin Receiver Ledger Network Mutex Main Tasks State Device Monitor Sections.

(** ** What each task does in a section *)

Section critical.
Context `{V : Vendor} {L : VendorLaws V} `{SM : Serialize Message} `{DM : Deserialize Message}.
Variable u : Uuid.

(** A G-code command and whether it was accepted. *)
Definition command : Type := bytes * bool.

(** What is seen of a task besides the ledger that it finds and leaves: what the printer was told and, of the
    receiver, the bytes of the messages and the times it reads. *)
Inductive ledger_obs : Type :=
  | Told (cmd : command)
  | Heard (s : bytes)
  | Clock (now : Z).

Definition heard_seen (X : Type) (c : call X) : X -> list ledger_obs :=
  match c in call X return X -> list ledger_obs with
  | CRt c =>
      match c in rt_call X return X -> list ledger_obs with
      | slice_read _ => fun s => [Heard s]
      | instant_now => fun now => [Clock now]
      | _ => fun _ => []
      end
  | _ => fun _ => []
  end.

Definition ledger_inner (i : task_name) (X : Type) (c : call X) (x : X) : list ledger_obs :=
  (Told <$> gcode_seen X c x) ++ match i with Task_udp_receiver => heard_seen X c x | _ => [] end.

(** Outside of its sections a task tells the printer nothing. *)
Definition aside (i : task_name) (o : ledger_obs) : Prop :=
  match i, o with
  | Task_udp_receiver, Heard _ | Task_udp_receiver, Clock _ => True
  | _, _ => False
  end.

(** What a message does to the ledger: one of a new job puts that job on it, one of a ledger replaces it. *)
Inductive received_link : Payload -> JobLedger -> list ledger_obs -> JobLedger -> Prop :=
  | Received_none data : received_link (Payload_NewJob data) None [] None
  | Received_job data st :
      received_link (Payload_NewJob data) (Some st) [] (Some (set_jobs st (jobs_insert (guid data) (jobs (ledger st))).1))
  | Received_ledger l f now : received_link (Payload_Ledger l) f [Clock now] (Some (mkLedgerState l now)).

(** The worker, which looks, or adds a job to the ledger that is there; the receiver, which has just read the bytes of a
    message, and the time, and does what the message asks for; the ledger task, which makes an empty one when there is
    none, and otherwise works on what it finds: it may send one job of it to the printer, and takes off what was
    accepted. *)
Inductive ledger_link : task_name -> list ledger_obs -> JobLedger -> list ledger_obs -> JobLedger -> Prop :=
  | Link_kept l : ledger_link Task_tcp_worker [] l [] l
  | Link_job g st : ledger_link Task_tcp_worker [] (Some st) [] (Some (set_jobs st (jobs_insert g (jobs (ledger st))).1))
  | Link_message bs s t m f cs w :
      from_bytes s = Some m -> received_link (msg_payload m) f cs w ->
      ledger_link Task_udp_receiver (bs ++ [Heard s; Clock t]) f cs w
  | Link_created a now : ledger_link Task_manage_ledger [] None [] (Some (mkLedgerState (mkLedger a jobs_new) now))
  | Link_turn st cmds st' :
      works (jobs (ledger st)) cmds (jobs (ledger st')) ->
      ledger_link Task_manage_ledger [] (Some st) (Told <$> cmds) (Some st').

Definition ledger_seen (i : task_name) : forall X, call X -> X -> list (section_obs JobLedger ledger_obs) :=
  section_seen jobs_guard (ledger_inner i).

Definition ledger_sections (i : task_name) : Monitor (section_obs JobLedger ledger_obs) (opened JobLedger ledger_obs) :=
  watched jobs_guard ledger_inner aside ledger_link i.

#[export] Instance gcode_reserved : Reserved gcode_seen.
Proof. intros X c x _. by destruct c. Qed.

Lemma ledger_reserved i : i <> Task_udp_receiver -> Reserved (watch (Monitor := ledger_sections i)).
Proof.
  intros Hi. apply section_reserved; intros X c x Hc Hm; cbn; [by apply mutex_only| |by apply mutex_only].
  unfold ledger_inner. rewrite (gcode_reserved X c x Hc Hm). by destruct i.
Qed.

Lemma ledger_quiet i X (c : call X) x :
  jobs_found_seen X c x = [] -> ledger_inner i X c x = [] -> jobs_seen X c x = [] -> watch (Monitor := ledger_sections i) X c x = [].
Proof. intros H1 H2 H3. cbn. unfold section_seen. cbn. by rewrite H1, H2, H3. Qed.

Lemma ledger_lock {A} i bs (f : JobLedger -> io A) Q :
  (forall l, monitored (ledger_sections i) (Within bs l []) (f l) Q) -> monitored (ledger_sections i) (Outside bs) (rt jobs_lock ≫= f) Q.
Proof. apply sectioned_lock. by destruct i. Qed.

Lemma ledger_unlock {A} i bs l cs w (f : unit -> io A) Q :
  ledger_link i bs l cs w -> (forall x, monitored (ledger_sections i) (Outside []) (f x) Q) ->
  monitored (ledger_sections i) (Within bs l cs) (rt (jobs_unlock w) ≫= f) Q.
Proof. apply sectioned_unlock. by destruct i. Qed.

Lemma sectioned_append g : monitored (ledger_sections Task_tcp_worker) (Outside []) (append_to_ledger g) (stays (Outside [])).
Proof.
  pose proof (ledger_reserved Task_tcp_worker ltac:(done)). unfold append_to_ledger. cbv zeta. apply monitored_skip; [no_emit_tac|intros b].
  apply monitored_skip; [no_emit_tac|intros _]. apply ledger_lock. intros l.
  eapply (monitored_bind _ _ _ _ (fun (r : JobLedger * bool) o1 => o1 = Within [] l [] /\ ledger_link Task_tcp_worker [] l [] r.1)).
  - destruct l as [st|]; [|apply monitored_ret; split; [done|apply Link_kept]].
    apply monitored_skip; [unfold my_ipaddr; no_emit_tac|intros [a|]].
    2: { apply monitored_ret. split; [done|apply Link_kept]. }
    case_decide; [destruct (jobs_insert g _) as [js b'] eqn:E|]; apply monitored_ret; (split; [done|]).
    + cbn. pose proof (Link_job g st) as Hl. rewrite E in Hl. exact Hl.
    + apply Link_kept.
  - intros [r own] o1 [-> Hr]. apply ledger_unlock; [done|intros _]. apply stays_quiet.
    pose proof (no_mutex_new_job (watch (Monitor := ledger_sections Task_tcp_worker))). no_emit_tac.
Qed.

(** The receiver keeps what it reads outside of its sections. *)
Definition idles {A} (i : task_name) (_ : A) (o : opened JobLedger ledger_obs) : Prop := idle aside i o.

Lemma idles_ret {A} (a : A) bs :
  Forall (aside Task_udp_receiver) bs -> monitored (ledger_sections Task_udp_receiver) (Outside bs) (Ret a) (idles Task_udp_receiver).
Proof. intros Hb. apply monitored_ret. by exists bs. Qed.

Lemma idles_left {A} (a : A) : monitored (ledger_sections Task_udp_receiver) (Outside []) (Ret a) (idles Task_udp_receiver).
Proof. by apply idles_ret. Qed.

Lemma sectioned_payload {A} (a : A) bs s t m :
  Forall (aside Task_udp_receiver) bs -> from_bytes s = Some m ->
  monitored (ledger_sections Task_udp_receiver) (Outside (bs ++ [Heard s; Clock t])) (handle_payload (msg_payload m);; Ret a)
    (idles Task_udp_receiver).
Proof.
  intros Hb Hm. unfold handle_payload. destruct (msg_payload m) as [?|d|l|?] eqn:E;
    [by apply idles_ret, Forall_app_2; [|repeat constructor]| | |by apply idles_ret, Forall_app_2; [|repeat constructor]].
  - apply ledger_lock. intros l. cbv zeta. eapply ledger_unlock; [|intros _; apply idles_left]. apply (Link_message _ _ _ m); [done|].
    rewrite E. destruct l as [st|]; constructor.
  - apply ledger_lock. intros f. apply (sectioned_call _ _ _ _ _ _ _ _ Clock); [done|intros now].
    eapply ledger_unlock; [|intros _; apply idles_left]. apply (Link_message _ _ _ m); [done|]. rewrite E. constructor.
Qed.

Lemma sectioned_receiver h bs :
  Forall (aside Task_udp_receiver) bs ->
  monitored (ledger_sections Task_udp_receiver) (Outside bs) (udp_receiver_step h) (idles Task_udp_receiver).
Proof.
  intros Hb. assert (forall p, no_emit (watch (Monitor := ledger_sections Task_udp_receiver)) (drop_packet p)) by (intros p; unfold drop_packet; no_emit_tac).
  unfold udp_receiver_step, udp_socket_receive, drop_iter.
  apply monitored_skip; [no_emit_tac|intros [a p]]. rewrite iter_next_chunks.
  destruct (chunks _) as [|c cs]; (apply monitored_skip; [done|intros _]); [by apply idles_ret|].
  apply (sectioned_outside _ _ _ _ _ _ Heard); [done|done|intros s]. assert (Forall (aside Task_udp_receiver) (bs ++ [Heard s])) as Hs.
  { by apply Forall_app_2; [|repeat constructor]. }
  destruct (from_bytes s) as [m|] eqn:Em; [|by apply idles_ret]. unfold handle_message. cbv zeta.
  destruct (history_contains _ _); [by apply idles_ret|].
  apply monitored_skip; [no_emit_tac|intros b]. apply (sectioned_outside _ _ _ _ _ _ Clock); [done|done|intros t]. rewrite <- app_assoc. cbn [app].
  apply monitored_skip; [no_emit_tac|intros _]. by apply sectioned_payload.
Qed.

(** Whatever address the machine has, a turn works on the jobs it found. *)
Lemma pass_on_jobs my b st ob tr st' ob' :
  exec (pass_on my b st ob) tr (Done (st', ob')) -> gcode tr = [] /\ jobs (ledger st') = jobs (ledger st).
Proof.
  intros H. split.
  - pose proof (no_mutex_send_ledger gcode_seen). assert (no_emit gcode_seen (pass_on my b st ob)) as Hn; [|exact (Hn _ _ H)].
    unfold pass_on, is_owner, my_ipaddr. no_emit_tac.
  - unfold pass_on in H. bind_step H as own H1. destruct (own && ob); [|by destruct H as [_ [= -> _]]].
    destruct (book_is_empty b).
    + bind_step H as v H2. by destruct H as [_ [= -> _]].
    + destruct (next_owner _ _) as [n|]; cbn [unwrap] in H; bind_step H as n' H2; [|by destruct H2].
      cbv zeta in H. bind_step H as v H3. by destruct H as [_ [= -> _]].
Qed.

Lemma manage_works my b st ob tr st' ob' :
  exec (manage_state my b st ob) tr (Done (st', ob')) -> works (jobs (ledger st)) (gcode tr) (jobs (ledger st')).
Proof.
  intros H. unfold manage_state in H. bind_step H as st1 H1. apply takeover_run in H1 as (e & (G1 & _) & ->).
  set (st1 := set_owner st _) in *. unfold gcode in *.
  assert (no_emit gcode_seen (is_owner st1)) as Hn by (unfold is_owner, my_ipaddr; no_emit_tac).
  bind_step H as own H2. apply Hn in H2. destruct (own && negb ob).
  { destruct H as [-> [= -> _]]. rewrite !collect_app, G1, H2. by left. }
  bind_step H as own' H3. apply Hn in H3. bind_step H as av H4. apply available_run in H4 as [(G4 & _) _].
  bind_step H as st2 H5. apply pass_on_jobs in H as [G6 ->]. unfold gcode in *.
  rewrite !collect_app, G1, H2, H3, G4, G6. cbn [app]. rewrite app_nil_r.
  destruct av; [|destruct H5 as [-> [= ->]]; by left].
  apply print_job_run in H5 as (cmds & ds & js & (<- & _) & -> & Hj). by apply jobs_log_works in Hj.
Qed.

Lemma sectioned_manage observed :
  monitored (ledger_sections Task_manage_ledger) (Outside []) (manage_ledger_step observed) (stays (Outside [])).
Proof.
  pose proof (ledger_reserved Task_manage_ledger ltac:(done)).
  unfold manage_ledger_step. apply monitored_skip; [no_emit_tac|intros _].
  apply monitored_skip; [unfold my_ipaddr; no_emit_tac|intros [my|]]; [|by apply monitored_ret].
  apply monitored_skip; [no_emit_tac|intros b]. apply ledger_lock. intros [st|].
  - apply sectioned_inside; [apply no_mutex_manage, _..|]. intros tr [st' ob] Hx. apply manage_works in Hx.
    assert (collect (ledger_inner Task_manage_ledger) tr = Told <$> gcode tr) as ->.
    { clear. unfold gcode. induction tr as [|[X c x] tr IH]; [done|]. cbn [collect]. rewrite IH, fmap_app. unfold ledger_inner. by rewrite app_nil_r. }
    apply ledger_unlock; [by apply Link_turn|intros _]. apply stays_quiet. no_emit_tac.
  - eapply (monitored_bind _ _ _ _ (fun st o1 => o1 = Within [] None [] /\ exists now, st = mkLedgerState (mkLedger my jobs_new) now)).
    { apply monitored_skip; [no_emit_tac|intros now]. apply monitored_ret. eauto. }
    intros st o1 [-> [now ->]]. apply monitored_skip; [apply no_mutex_send_ledger, _|intros _].
    apply ledger_unlock; [by apply Link_created|intros _]. apply stays_quiet. no_emit_tac.
Qed.

(** ** The history of the ledger *)

Lemma stays_idle {A} i o (p : io A) :
  i <> Task_udp_receiver -> monitored (ledger_sections i) (Outside []) p (stays (Outside [])) -> idle aside i o ->
  monitored (ledger_sections i) o p (idles i).
Proof.
  intros Hi Hp ->%idle_nil; [|intros c; destruct i; first [done|by intros []]]. intros tr r H. destruct (Hp _ _ H) as (o' & F & Ho). exists o'. split; [done|].
  destruct r; [|done..]. unfold stays in Ho. by exists [].
Qed.

Lemma ledger_boot fuel p q : sections_ok jobs_guard ledger_inner aside ledger_link [] (device_boot fuel p q).
Proof.
  assert (monitored (ledger_sections Task_address_book_lifetime_check) (Outside []) lifetime_check_step (stays (Outside []))) as Hl.
  { pose proof (ledger_reserved Task_address_book_lifetime_check ltac:(done)).
    apply stays_quiet. assert (forall es, no_emit (watch (Monitor := ledger_sections Task_address_book_lifetime_check)) (fresh_entries es)) as Hf.
    { induction es as [|[k t] es IH]; cbn [fresh_entries]; no_emit_tac. }
    unfold lifetime_check_step. no_emit_tac. }
  assert (monitored (ledger_sections Task_distribute_file) (Outside []) distribute_step (stays (Outside []))) as Hd.
  { pose proof (ledger_reserved Task_distribute_file ltac:(done)).
    apply stays_quiet. pose proof (aloof_put_file (watch (Monitor := ledger_sections Task_distribute_file))).
    pose proof (no_mutex_send_log (watch (Monitor := ledger_sections Task_distribute_file))).
    unfold distribute_step, distribute_all. do 3 (apply no_emit_bind; [no_emit_tac|intros ?]). apply no_emit_for_each.
    intros [k t]. unfold distribute_to, log_to_udp. no_emit_tac. }
  pose proof (ledger_reserved Task_tcp_worker ltac:(done)). pose proof (ledger_reserved Task_heartbeat ltac:(done)).
  pose proof sectioned_manage as Hm. pose proof sectioned_receiver as Hr.
  pose proof (stays_worker (ledger_sections Task_tcp_worker) _ sectioned_append fuel) as Hw.
  pose proof (stays_heartbeat (ledger_sections Task_heartbeat) (Outside [])) as Hh.
  assert (forall i, idle aside i (Outside [] : opened JobLedger ledger_obs)) as Hi by by exists [].
  intros i. exists (Outside []). split; [done|]. destruct i; (split; [|intros ? ? Ho]); cbn [now turn fibers tasks device_boot boot task_body heartbeat udp_receiver
    address_book_lifetime_check manage_ledger tcp_worker distribute_file];
    try first [by apply Hr|destruct Ho as (bs & -> & Hb); by apply Hr|apply stays_idle; auto].
  pose proof (ledger_reserved Task_manage_ledger ltac:(done)). apply monitored_skip; [no_emit_tac|]. intros ?. apply Hm.
Qed.

(** C14. The history of a machine's ledger. However the tasks and lwIP's callbacks are interleaved, the ledger goes
    from none to its present value by sections that follow each other, and each of them is one of these. The TCP worker
    leaves the ledger as it is or puts one job on it. The receiver has just read the bytes of a message, and does
    what that message says: it inserts the new job the message names into the ledger there is, or puts in its place
    exactly the ledger the message holds, stamped with the time it then reads; no other message brings it to the
    ledger. The ledger task makes an empty ledger where there was none, or works on the one that is there: then it may send the printer one
    job of it, which it takes off when Marlin accepts it. No task tells the printer anything outside of its
    sections, and none but the ledger task in them; the other three tasks never hold this mutex. *)
Theorem ledger_history fuel p q es d :
  device_run (device_boot fuel p q) es d ->
  exists secs, register jobs_guard None es d secs /\ explained jobs_guard ledger_inner aside ledger_link es secs.
Proof. intros Hr. exact (history_run jobs_guard _ _ _ u fuel p q (ledger_boot fuel p q) eq_refl es d Hr). Qed.

(** ** Jobs *)

Definition on (g : Uuid) (l : JobLedger) : Prop :=
  match l with Some st => g ∈ jobs_iter (jobs (ledger st)) | None => False end.

#[export] Instance on_dec g l : Decision (on g l).
Proof. destruct l; cbn; apply _. Defined.

Lemma jobs_insert_keeps g w js : w ∈ jobs_iter js -> w ∈ jobs_iter (jobs_insert g js).1.
Proof.
  intros Hw. destruct (decide (g ∈ jobs_iter js)) as [Hg|Hg].
  - destruct (jobs_insert_present g js Hg) as (js' & -> & H). by apply H.
  - pose proof (jobs_bound js). destruct (decide (len (jobs_iter js) = LEDGER_JOBS)) as [Hf|Hf].
    + destruct (jobs_insert_full g js Hg Hf) as (js' & -> & H'). by apply H'.
    + destruct (jobs_insert_new g js Hg) as (js' & -> & H'); [lia|]. apply H'. by right.
Qed.

(** What Marlin is told when it accepts a job. *)
Definition marlin_took (g : Uuid) : list command := [(lit "M111 S8", true); (lit "M32 " ++ path_of g false, true)].

(** A section of the receiver that puts the ledger of the message it has just read in the place of the one there is. *)
Definition replaced (bs cs : list ledger_obs) (w : JobLedger) : Prop :=
  exists bs' s t m l now, bs = bs' ++ [Heard s; Clock t] /\ from_bytes s = Some m /\ msg_payload m = Payload_Ledger l /\
    cs = [Clock now] /\ w = Some (mkLedgerState l now).

Lemma link_leaves g i bs f cs w :
  ledger_link i bs f cs w -> on g f -> ~ on g w ->
  (i = Task_udp_receiver /\ replaced bs cs w) \/ (i = Task_manage_ledger /\ cs = Told <$> marlin_took g).
Proof.
  destruct 1 as [l|g' st|bs s t m f cs w Hm Hr|a now|st cmds st' Hw]; cbn; intros Hf Hn; [done| | |done|right].
  - by destruct Hn; apply jobs_insert_keeps.
  - left. split; [done|]. destruct (msg_payload m) as [|d|l|] eqn:E; inversion Hr; subst; cbn in *; [done| |].
    + by destruct Hn; apply jobs_insert_keeps.
    + by exists bs, s, t, m, l, now.
  - split; [done|]. destruct Hw as [[_ E]|(g' & r & _ & Hp & E)]; [by rewrite E in Hn|].
    destruct (is_ok r) eqn:Er; [|by rewrite E in Hn]. rewrite E in Hn.
    destruct (jobs_remove_spec g' (jobs (ledger st))) as (js & Ejs & Hjs). rewrite Ejs in Hn. cbn in Hn.
    assert (g = g') as <- by (apply dec_stable; intros Hne; by apply Hn, Hjs).
    by destruct Hp as [[-> _]|[[-> _]|[[-> _]|[_ ->]]]].
Qed.

Lemma jobs_unlocked X (c : call X) x w : jobs_seen X c x = [w] -> Ev c x = Ev (CRt (jobs_unlock w)) tt.
Proof. destruct c as [X c|X c|X c|X c|X c|X c]; try done. destruct c; try done. destruct x. by intros [= ->]. Qed.

(** C15. A job stays on a machine's ledger, whatever the tasks and lwIP do, until Marlin accepts it or another
    ledger arrives: between two states of the machine of which the earlier one has the job on its ledger and the later
    one has not, there is a moment at which the ledger still has the job and a task gives the mutex back with one that
    has not. That task has found the ledger as it was till then, and either it is the receiver, which had just read
    a message with another ledger and leaves exactly that one, or it is the ledger task, and in this very section
    Marlin accepted this job. *)
Theorem job_stays fuel p q es d es' d' g :
  device_run (device_boot fuel p q) es d -> device_run d es' d' ->
  on g (job_ledger (shared d)) -> ~ on g (job_ledger (shared d')) ->
  exists es1 d1 i w es2 o1 bs cs,
    es' = es1 ++ (Task i, Ev (CRt (jobs_unlock w)) tt) :: es2 /\ device_run d es1 d1 /\
    on g (job_ledger (shared d1)) /\ ~ on g w /\
    collect (ledger_seen i) (acts (Task i) (es ++ es1 ++ [(Task i, Ev (CRt (jobs_unlock w)) tt)])) =
      o1 ++ show_section (mkSection bs (job_ledger (shared d1)) cs w) /\
    ((i = Task_udp_receiver /\ replaced bs cs w) \/ (i = Task_manage_ledger /\ cs = Told <$> marlin_took g)).
Proof.
  intros Hr Hr' Hd Hd'.
  destruct (section_leaves jobs_guard _ _ _ u fuel p q (ledger_boot fuel p q) eq_refl (on g) es d es' d' Hr Hr' Hd Hd')
    as (es1 & d1 & i & X & c & x & es2 & o1 & bs & cs & w & -> & H1 & Hg & Hw & _ & El & E & Hl).
  apply jobs_unlocked in El. rewrite El in E |- *.
  exists es1, d1, i, w, es2, o1, bs, cs. split_and!; try done. by eapply link_leaves.
Qed.
End critical.

(** ** The machine at work *)

Lemma ledger_history_witness :
  exists secs, register jobs_guard None demo_listed.1 demo_listed.2 secs /\
    explained jobs_guard ledger_inner aside ledger_link demo_listed.1 secs.
Proof. apply (ledger_history (L := ref_vendor_laws) (demo_id 3) 5 4 6). apply driven_run. Defined.

Lemma job_stays_witness :
  exists es1 d1 i w es2 o1 bs cs,
    demo_done.1 = es1 ++ (Task i, Ev (CRt (jobs_unlock w)) tt) :: es2 /\ device_run demo_listed.2 es1 d1 /\
    on (demo_id 101) (job_ledger (shared d1)) /\ ~ on (demo_id 101) w /\
    collect (ledger_seen i) (acts (Task i) (demo_listed.1 ++ es1 ++ [(Task i, Ev (CRt (jobs_unlock w)) tt)])) =
      o1 ++ show_section (mkSection bs (job_ledger (shared d1)) cs w) /\
    ((i = Task_udp_receiver /\ replaced bs cs w) \/ (i = Task_manage_ledger /\ cs = Told <$> marlin_took (demo_id 101))).
Proof.
  apply (job_stays (L := ref_vendor_laws) (demo_id 3) 5 4 6 demo_listed.1 demo_listed.2 demo_done.1 demo_done.2);
    [apply driven_run|exact (driven_run (@demo_ans) demo_act demo_listed.2)|..].
  - apply (bool_decide_unpack _). vm_compute. exact I.
  - apply (bool_decide_unpack _). vm_compute. exact I.
Defined.
