(* ===== verification/Peers.v ===== *)
(** * Critical sections of the address book

    The sections of the address book's mutex on the running machine of [Device.v]: the receiver enters who it hears of, the
    lifetime check takes out who has been silent for twenty seconds, and nobody else changes it. *)

From S2P Require Import Prelude Prog Net Vendor VendorRef Data Ffi Env Lwip Pbuf Tcp Udp Fs Http Request Rng.
From S2P Require Import Messages Observe Wire Upload Owns Put Transfer Marlin Receiver Ledger Mutex Main Tasks State Device Monitor Sections.

Section peers.
Context `{V : Vendor} {L : VendorLaws V} `{SM : Serialize Message} `{DM : Deserialize Message}.
Variable u : Uuid.

(** The ages the lifetime check reads: of which time stamp, and the milliseconds since. *)
Definition age_seen (X : Type) (c : call X) : X -> list (Z * Z) :=
  match c in call X return X -> list (Z * Z) with
  | CRt c =>
      match c in rt_call X return X -> list (Z * Z) with
      | instant_elapsed t => fun e => [(t, e)]
      | _ => fun _ => []
      end
  | _ => fun _ => []
  end.

Definition ages (i : task_name) : forall X, call X -> X -> list (Z * Z) :=
  match i with Task_address_book_lifetime_check => age_seen | _ => fun _ _ _ => [] end.

(** What a task may do with the book that it finds. *)
Inductive book_link : task_name -> list (Z * Z) -> AddressBook -> list (Z * Z) -> AddressBook -> Prop :=
  | Book_kept i b : i <> Task_udp_receiver -> i <> Task_address_book_lifetime_check -> book_link i [] b [] b
  | Book_heard b a now : book_link Task_udp_receiver [] b [] (book_insert a now b).1
  | Book_pruned b w es :
      length es = length (book_iter b) ->
      (forall k t, (k, t) ∈ book_iter w <-> exists e, ((k, t), e) ∈ zip (book_iter b) es /\ e < 20000) ->
      book_link Task_address_book_lifetime_check [] b (zip (book_iter b).*2 es) w.

(** No age is read outside of the sections. *)
Definition never (i : task_name) (_ : Z * Z) : Prop := False.

Definition book_sections (i : task_name) : Monitor (section_obs AddressBook (Z * Z)) (opened AddressBook (Z * Z)) :=
  watched book_guard ages never book_link i.

Lemma book_mutex_only i : i <> Task_address_book_lifetime_check -> MutexOnly (watch (Monitor := book_sections i)).
Proof.
  intros Hi X c x Hc. change (section_seen book_guard (ages i) X c x = []). unfold section_seen.
  assert (ages i X c x = []) as -> by by destruct i. cbn [found_seen left_seen book_guard].
  rewrite (mutex_only (f := book_found_seen) X c x Hc), (mutex_only (f := book_seen) X c x Hc). done.
Qed.

Lemma book_reserved i : i <> Task_address_book_lifetime_check -> Reserved (watch (Monitor := book_sections i)).
Proof. intros Hi X c x Hc _. pose proof (book_mutex_only i Hi). by apply mutex_only. Qed.

Lemma book_lock {A} i (f : AddressBook -> io A) Q :
  (forall b, monitored (book_sections i) (Within [] b []) (f b) Q) -> monitored (book_sections i) (Outside []) (rt addresses_lock ≫= f) Q.
Proof. apply sectioned_lock. by destruct i. Qed.

Lemma book_unlock {A} i b es w (f : unit -> io A) Q :
  book_link i [] b es w -> (forall x, monitored (book_sections i) (Outside []) (f x) Q) ->
  monitored (book_sections i) (Within [] b es) (rt (addresses_unlock w) ≫= f) Q.
Proof. apply sectioned_unlock. by destruct i. Qed.

(** ** The tasks *)

Lemma book_append g : monitored (book_sections Task_tcp_worker) (Outside []) (append_to_ledger g) (stays (Outside [])).
Proof.
  pose proof (book_mutex_only Task_tcp_worker ltac:(done)). unfold append_to_ledger. cbv zeta. apply book_lock. intros b.
  apply book_unlock; [by constructor|intros _]. apply stays_quiet.
  pose proof (no_mutex_new_job (watch (Monitor := book_sections Task_tcp_worker))). unfold my_ipaddr. no_emit_tac.
Qed.

Lemma book_message h a m : monitored (book_sections Task_udp_receiver) (Outside []) (handle_message h a m) (stays (Outside [])).
Proof.
  unfold handle_message. cbv zeta. destruct (history_contains _ _); [by apply monitored_ret|].
  apply book_lock. intros b. apply monitored_skip; [no_emit_tac|intros now]. apply book_unlock; [constructor|intros _].
  apply stays_quiet. unfold handle_payload, ledger_state_new. cbv zeta. no_emit_tac.
Qed.

Lemma book_manage observed : monitored (book_sections Task_manage_ledger) (Outside []) (manage_ledger_step observed) (stays (Outside [])).
Proof.
  pose proof (book_mutex_only Task_manage_ledger ltac:(done)).
  pose proof (no_mutex_send_ledger (watch (Monitor := book_sections Task_manage_ledger))).
  pose proof (no_mutex_manage (watch (Monitor := book_sections Task_manage_ledger))).
  unfold manage_ledger_step. apply monitored_skip; [no_emit_tac|intros _].
  apply monitored_skip; [unfold my_ipaddr; no_emit_tac|intros [my|]]; [|by apply monitored_ret].
  apply book_lock. intros b. apply monitored_skip; [no_emit_tac|intros [st|]].
  - apply monitored_skip; [done|intros [st' ob]]. apply monitored_skip; [no_emit_tac|intros _].
    apply book_unlock; [by constructor|intros _]. by apply monitored_ret.
  - apply monitored_skip; [unfold ledger_state_new; no_emit_tac|intros st]. apply monitored_skip; [done|intros _].
    apply monitored_skip; [no_emit_tac|intros _]. apply book_unlock; [by constructor|intros _]. by apply monitored_ret.
Qed.

Lemma book_distribute : monitored (book_sections Task_distribute_file) (Outside []) distribute_step (stays (Outside [])).
Proof.
  pose proof (book_mutex_only Task_distribute_file ltac:(done)).
  pose proof (aloof_put_file (watch (Monitor := book_sections Task_distribute_file))).
  pose proof (no_mutex_send_log (watch (Monitor := book_sections Task_distribute_file))).
  unfold distribute_step, distribute_all. apply monitored_skip; [no_emit_tac|intros g]. apply book_lock. intros b.
  apply book_unlock; [by constructor|intros _]. apply stays_quiet. apply no_emit_for_each.
  intros [k t]. unfold distribute_to, log_to_udp. no_emit_tac.
Qed.

(** The check reads the age of every entry, and keeps those that are young enough. *)
Lemma fresh_ages es tr ks :
  exec (fresh_entries es) tr (Done ks) ->
  exists rs, length rs = length es /\ collect age_seen tr = zip es.*2 rs /\ ks = (filter (fun x => x.2 < 20000) (zip es rs)).*1.*1.
Proof.
  revert tr ks. induction es as [|[k t] es IH]; intros tr ks H; cbn [fresh_entries] in H.
  - destruct H as [-> [= ->]]. by exists [].
  - bind_step H as e H1. destruct H1 as (e' & ? & -> & -> & [= ->]).
    bind_step H as ks' H2. destruct H as [-> [= ->]]. rewrite app_nil_r. apply IH in H2 as (rs & Hl & Hc & ->).
    exists (e' :: rs). split; [by cbn; rewrite Hl|]. split; [cbn; by rewrite Hc|]. cbn [zip_with]. rewrite filter_cons. cbn [snd].
    assert (e' / 1000 < 20 <-> e' < 20000) as Hlt.
    { pose proof (Z.div_lt_upper_bound e' 1000 20). pose proof (Z.mod_pos_bound e' 1000). pose proof (Z.div_mod e' 1000). lia. }
    case_decide; destruct (Z.ltb_spec (e' / 1000) 20); first [done|lia].
Qed.

Lemma no_book_fresh es : no_emit book_found_seen (fresh_entries es) /\ no_emit book_seen (fresh_entries es).
Proof. induction es as [|[k t] es [IH1 IH2]]; cbn [fresh_entries]; split; no_emit_tac. Qed.

Lemma book_lifetime : monitored (book_sections Task_address_book_lifetime_check) (Outside []) lifetime_check_step (stays (Outside [])).
Proof.
  unfold lifetime_check_step. apply monitored_skip; [no_emit_tac|intros _]. apply book_lock. intros b.
  apply sectioned_inside; [apply no_book_fresh..|]. intros tr ks H. apply fresh_ages in H as (rs & Hl & Hc & ->).
  cbn [ages app]. rewrite Hc. apply (sectioned_unlock _ _ _ _ _ _ _ (book_retain (fun k _ => bool_decide (k ∈ (filter (fun x => x.2 < 20000) (zip (book_iter b) rs)).*1.*1)) b));
    [done| |intros x; by apply monitored_ret].
  apply Book_pruned; [done|]. intros k t. rewrite book_retain_spec, bool_decide_eq_true. split.
  - intros [Hin Hk]. apply list_elem_of_fmap in Hk as ([k' t'] & -> & Hk). apply list_elem_of_fmap in Hk as ([x e] & [= <-] & Hk).
    apply list_elem_of_filter in Hk as [He Hz]. cbn in He, Hin. pose proof (elem_of_zip_l _ _ _ _ Hz) as Hb.
    rewrite (book_stamp b k' t t' Hin Hb). eauto.
  - intros (e & Hz & He). split; [by eapply elem_of_zip_l|]. apply list_elem_of_fmap. exists (k, t). split; [done|].
    apply list_elem_of_fmap. exists ((k, t), e). split; [done|]. by apply list_elem_of_filter.
Qed.

(** ** The history of the book *)

Lemma stays_alone {A} i o (p : io A) :
  monitored (book_sections i) (Outside []) p (stays (Outside [])) -> idle never i o ->
  monitored (book_sections i) o p (fun _ => idle never i).
Proof.
  intros Hp ->%idle_nil; [|by intros c []]. intros tr r H. destruct (Hp _ _ H) as (o' & F & Ho). exists o'. split; [done|].
  destruct r; [|done..]. unfold stays in Ho. by exists [].
Qed.

Lemma book_boot fuel p q : sections_ok book_guard ages never book_link [] (device_boot fuel p q).
Proof.
  pose proof (book_reserved Task_udp_receiver ltac:(done)). pose proof (book_reserved Task_tcp_worker ltac:(done)).
  pose proof (book_reserved Task_heartbeat ltac:(done)).
  pose proof book_manage as Hm. pose proof (fun h => stays_receiver (book_sections Task_udp_receiver) _ h book_message) as Hr.
  pose proof (stays_worker (book_sections Task_tcp_worker) _ book_append fuel) as Hw.
  pose proof (stays_heartbeat (book_sections Task_heartbeat) (Outside [])) as Hh.
  assert (forall i, idle never i (Outside [] : opened AddressBook (Z * Z))) as Hi by by exists [].
  intros i. exists (Outside []). split; [done|]. destruct i; (split; [|intros ? ? Ho]); apply stays_alone; try done; cbn [now turn fibers tasks device_boot boot task_body heartbeat udp_receiver
    address_book_lifetime_check manage_ledger tcp_worker distribute_file];
    try first [exact Hh|exact book_lifetime|apply Hm|apply Hr|exact Hw|exact book_distribute].
  apply monitored_skip; [no_emit_tac|]. intros ?. apply Hm.
Qed.

Definition knows (a : Ipv4Addr) (b : AddressBook) : Prop := a ∈ book_keys b.

#[export] Instance knows_dec a b : Decision (knows a b).
Proof. unfold knows. apply _. Defined.

Lemma book_insert_keeps a t b k : knows k b -> knows k (book_insert a t b).1.
Proof.
  unfold knows, book_keys. rewrite !list_elem_of_fmap. intros ([k' v] & -> & Hk). cbn.
  destruct (decide (a ∈ (book_iter b).*1)) as [Ha|Ha]; [|destruct (decide (len (book_iter b) < ADDRESS_BOOK_ENTRIES))].
  3: { destruct (book_insert_full a t b) as (b' & -> & H); [done|pose proof (book_bound b); lia|]. exists (k', v). split; [done|]. by apply H. }
  all: destruct (book_insert_room a t b) as (b' & old & -> & H); [by (left + right)|].
  all: destruct (decide (k' = a)) as [->|Hne]; [exists (a, t)|exists (k', v)]; (split; [done|]); apply H; auto.
Qed.

(** Only the lifetime check takes out a machine, when its last message is twenty seconds old. *)
Lemma link_forgets a i f es w :
  book_link i [] f es w -> knows a f -> ~ knows a w ->
  i = Task_address_book_lifetime_check /\ exists t e, (a, t) ∈ book_iter f /\ (t, e) ∈ es /\ 20000 <= e.
Proof.
  destruct 1 as [i b Hi Hl|b a' now|b w es Hl Hw]; intros Hf Hn; [done|by destruct Hn; apply book_insert_keeps|]. split; [done|].
  unfold knows, book_keys in *. rewrite list_elem_of_fmap in Hf. destruct Hf as ([k t] & -> & Hk). cbn in *. exists t.
  apply list_elem_of_lookup in Hk as Hk'. destruct Hk' as [j Hj].
  destruct (lookup_lt_is_Some_2 es j) as [e He]; [rewrite Hl; by eapply lookup_lt_Some|]. exists e. split; [done|].
  assert (zip (book_iter b).*2 es !! j = Some (t, e)) as Hz by by rewrite lookup_zip_with, list_lookup_fmap, Hj, He.
  assert (zip (book_iter b) es !! j = Some ((k, t), e)) as Hz' by by rewrite lookup_zip_with, Hj, He.
  split; [by eapply list_elem_of_lookup_2|]. apply Z.nlt_ge. intros Hlt. apply Hn, list_elem_of_fmap. exists (k, t). split; [done|].
  apply Hw. exists e. split; [by eapply list_elem_of_lookup_2|done].
Qed.

Lemma book_unlocked X (c : call X) x w : book_seen X c x = [w] -> Ev c x = Ev (CRt (addresses_unlock w)) tt.
Proof. destruct c as [X c|X c|X c|X c|X c|X c]; try done. destruct c; try done. destruct x. by intros [= ->]. Qed.

(** C16. A machine stays known for as long as it is heard. However the tasks and lwIP's callbacks are interleaved,
    between two states of a machine of which the earlier one has another machine in its address book and the later one
    has not, there is a moment at which the book still has it and the lifetime check gives the mutex back with a book
    that has not: in this section it found the book as it was till then with the entry, and read that the entry's time
    stamp was at least twenty seconds old. No message, upload, hand-over or distribution ever takes a machine out. *)
Theorem peer_stays fuel p q es d es' d' a :
  device_run (device_boot fuel p q) es d -> device_run d es' d' ->
  a ∈ book_keys (addresses (shared d)) -> a ∉ book_keys (addresses (shared d')) ->
  exists es1 d1 w es2 o1 read t e,
    es' = es1 ++ (Task Task_address_book_lifetime_check, Ev (CRt (addresses_unlock w)) tt) :: es2 /\ device_run d es1 d1 /\
    a ∈ book_keys (addresses (shared d1)) /\ (a ∉ book_keys w) /\
    collect (section_seen book_guard age_seen)
        (acts (Task Task_address_book_lifetime_check)
          (es ++ es1 ++ [(Task Task_address_book_lifetime_check, Ev (CRt (addresses_unlock w)) tt)])) =
      o1 ++ Found (addresses (shared d1)) :: (Seen <$> read) ++ [Left w] /\
    (a, t) ∈ book_iter (addresses (shared d1)) /\ (t, e) ∈ read /\ 20000 <= e.
Proof.
  intros Hr Hr' Hd Hd'.
  destruct (section_leaves book_guard _ _ _ u fuel p q (book_boot fuel p q) eq_refl (knows a) es d es' d' Hr Hr' Hd Hd')
    as (es1 & d1 & i & X & c & x & es2 & o1 & bs & cs & w & -> & H1 & Ha & Hw & _ & El & E & Hl).
  apply book_unlocked in El. rewrite El in E |- *.
  assert (bs = []) as -> by by destruct Hl.
  destruct (link_forgets _ _ _ _ _ Hl Ha Hw) as (-> & t & e & Ht & He & Hle).
  by exists es1, d1, w, es2, o1, cs, t, e.
Qed.

(** C17. The history of a machine's address book. However the tasks and lwIP's callbacks are interleaved, the book goes from empty to its present value by
    sections that follow each other: in the receiver's somebody was heard of, in the lifetime check's exactly the entries younger than
    twenty seconds were kept, with their time stamps, and in all other tasks' it was left as it was. *)
Theorem book_history fuel p q es d :
  device_run (device_boot fuel p q) es d ->
  exists secs, register book_guard book_new es d secs /\ explained book_guard ages never book_link es secs.
Proof. intros Hr. exact (history_run book_guard _ _ _ u fuel p q (book_boot fuel p q) eq_refl es d Hr). Qed.
End peers.

(** ** A machine that falls silent *)

(** Half a minute after the message of [demo_listed], the lifetime check takes a turn. *)
Definition demo_late_ans {X} (c : @call ref_vendor X) : X :=
  match c in call X return X with
  | CRt c => match c in rt_call X return X with instant_elapsed _ => 30000 | c => demo_ans (CRt c) end
  | c => demo_ans c
  end.

Definition demo_check : list move := replicate 4 (Go Task_address_book_lifetime_check).

Definition demo_silent : list (actor * event (@call ref_vendor)) * device := driven (@demo_late_ans) demo_check demo_listed.2.

Lemma peer_stays_witness :
  exists es1 d1 w es2 o1 read t e,
    demo_silent.1 = es1 ++ (Task Task_address_book_lifetime_check, Ev (CRt (addresses_unlock w)) tt) :: es2 /\
    device_run demo_listed.2 es1 d1 /\
    demo_addr 7 ∈ book_keys (addresses (shared d1)) /\ (demo_addr 7 ∉ book_keys w) /\
    collect (section_seen book_guard age_seen)
        (acts (Task Task_address_book_lifetime_check)
          (demo_listed.1 ++ es1 ++ [(Task Task_address_book_lifetime_check, Ev (CRt (addresses_unlock w)) tt)])) =
      o1 ++ Found (addresses (shared d1)) :: (Seen <$> read) ++ [Left w] /\
    (demo_addr 7, t) ∈ book_iter (addresses (shared d1)) /\ (t, e) ∈ read /\ 20000 <= e.
Proof.
  apply (peer_stays (L := ref_vendor_laws) (demo_id 3) 5 4 6 demo_listed.1 demo_listed.2 demo_silent.1 demo_silent.2 (demo_addr 7));
    [apply driven_run|exact (driven_run (@demo_late_ans) demo_check demo_listed.2)|..].
  - apply (bool_decide_unpack _). vm_compute. exact I.
  - apply (bool_decide_unpack _). vm_compute. exact I.
Defined.

Lemma book_history_witness :
  exists secs, register book_guard book_new demo_listed.1 demo_listed.2 secs /\ explained book_guard ages never book_link demo_listed.1 secs.
Proof. apply (book_history (L := ref_vendor_laws) (demo_id 3) 5 4 6). apply driven_run. Defined.
