(* ===== verification/Queues.v ===== *)
(** * The channels between the tasks

    Who uses which channel of the shared state on the running machine of [Device.v], and that
    each hands on its items once, in order and within its bounds: from what lwIP delivers and the worker stores to
    what the tasks do with it. *)

From S2P Require Import Prelude Prog Net Vendor VendorRef Data Ffi Env Lwip Pbuf Tcp Udp Fs Http Request Rng.
From S2P Require Import Messages Observe Wire Upload Owns Put Transfer Marlin Receiver Ledger Mutex Main Tasks State Device Monitor.

Section queues.
Context `{V : Vendor} {L : VendorLaws V} `{SM : Serialize Message} `{DM : Deserialize Message}.
Variable u : Uuid.

(** ** Uses of a channel *)

Inductive queue_use : Type := Udp_in | Udp_out | Tcp_in | Tcp_out | File_in | File_out.

Definition uses {X} (c : call X) : option queue_use :=
  match c with
  | CRt c =>
      match c with
      | listener_try_send _ => Some Tcp_in
      | listener_receive | listener_try_receive => Some Tcp_out
      | udp_try_send _ _ => Some Udp_in
      | udp_receive => Some Udp_out
      | files_try_send _ => Some File_in
      | files_receive => Some File_out
      | _ => None
      end
  | _ => None
  end.

(** The listener and the socket hand lwIP's connections and datagrams to the worker and the receiver; the worker
    hands finished uploads to the distributor. *)
Definition role (a : actor) (q : queue_use) : bool :=
  match a, q with
  | Lwip_thread, (Udp_in | Tcp_in) => true
  | Task Task_udp_receiver, Udp_out => true
  | Task Task_tcp_worker, (Tcp_out | File_in) => true
  | Task Task_distribute_file, File_out => true
  | _, _ => false
  end.

(** The uses an actor has no business with. *)
Definition stray (a : actor) (X : Type) (c : call X) (_ : X) : list queue_use :=
  match uses c with Some q => if role a q then [] else [q] | None => [] end.

#[export] Instance stray_aloof a : Aloof (stray a).
Proof. intros X c x Hc. destruct c as [X c|X c|X c|X c|X c|X c]; try done; by destruct c. Qed.

Definition in_role {A} (a : actor) (p : io A) : Prop := no_emit (stray a) p.

Lemma in_role_callback cb : in_role Lwip_thread (callback_io cb).
Proof.
  pose proof (aloof_drop (stray Lwip_thread)). destruct cb as [| | | | |arg buf addr|this e]; cbn [callback_io];
    unfold in_role, listener_accept, listener_hold_recv, connection_recv, connection_err, connection_sent, udp_socket_recv; try no_emit_tac.
  destruct e; cbn [put_step]; unfold put_connected, put_sent, put_recv, put_err, pump, read; cbv zeta; no_emit_tac.
Qed.

Lemma in_role_heartbeat : in_role (Task Task_heartbeat) heartbeat_step.
Proof. pose proof (no_mutex_heartbeat (stray (Task Task_heartbeat))). unfold in_role, heartbeat_step, my_ipaddr. no_emit_tac. Qed.

Lemma in_role_lifetime : in_role (Task Task_address_book_lifetime_check) lifetime_check_step.
Proof.
  assert (forall es, no_emit (stray (Task Task_address_book_lifetime_check)) (fresh_entries es)) as Hf.
  { induction es as [|[k t] es IH]; cbn [fresh_entries]; no_emit_tac. }
  unfold in_role, lifetime_check_step. no_emit_tac.
Qed.

Lemma in_role_manage observed : in_role (Task Task_manage_ledger) (manage_ledger_step observed).
Proof.
  pose proof (no_mutex_send_ledger (stray (Task Task_manage_ledger))). pose proof (no_mutex_send_log (stray (Task Task_manage_ledger))). pose proof (no_mutex_find (stray (Task Task_manage_ledger))).
  unfold in_role, manage_ledger_step, ledger_state_new, manage_state, takeover, pass_on, print_job, print, is_owner, my_ipaddr,
    is_ready, is_idle, set_offline. no_emit_tac.
Qed.

Lemma in_role_receiver h : in_role (Task Task_udp_receiver) (udp_receiver_step h).
Proof.
  pose proof (aloof_drop (stray (Task Task_udp_receiver))).
  unfold in_role, udp_receiver_step, udp_socket_receive, drop_iter, handle_message, handle_payload, ledger_state_new. cbv zeta.
  no_emit_tac.
Qed.

Lemma in_role_append g : in_role (Task Task_tcp_worker) (append_to_ledger g).
Proof.
  pose proof (no_mutex_new_job (stray (Task Task_tcp_worker))). unfold in_role, append_to_ledger, my_ipaddr. cbv zeta. no_emit_tac.
Qed.

Lemma in_role_worker fuel : in_role (Task Task_tcp_worker) (tcp_worker_step fuel).
Proof.
  pose proof (no_mutex_send_log (stray (Task Task_tcp_worker))). pose proof (aloof_response (stray (Task Task_tcp_worker))).
  pose proof (aloof_drop (stray (Task Task_tcp_worker))). pose proof (aloof_write_chunks (stray (Task Task_tcp_worker))). pose proof (aloof_receive_rest (stray (Task Task_tcp_worker))). pose proof (aloof_receive (stray (Task Task_tcp_worker))).
  pose proof (aloof_drop_connection (stray (Task Task_tcp_worker))). pose proof in_role_append. unfold in_role in *.
  unfold tcp_worker_step, with_connection, attach_callbacks, handle_conn, handle_put, finish_upload, generate_uuid_v7, log_to_udp,
    open, close, rname, upload_chunk, write, drop_file, drop_iter. cbv zeta.
  assert (forall g b, no_emit (stray (Task Task_tcp_worker)) (make_path g b)) by (intros; rewrite make_path_eq; apply no_emit_ret).
  no_emit_tac.
Qed.

Lemma in_role_distribute : in_role (Task Task_distribute_file) distribute_step.
Proof.
  pose proof (aloof_put_file (stray (Task Task_distribute_file))). pose proof (no_mutex_send_log (stray (Task Task_distribute_file))).
  unfold in_role, distribute_step, distribute_all. do 3 (apply no_emit_bind; [no_emit_tac|intros ?]). apply no_emit_for_each.
  intros [k t]. unfold distribute_to, log_to_udp. no_emit_tac.
Qed.

Definition roles_ok (d : device) : Prop :=
  (forall i, in_role (Task i) (now (fibers (tasks d) i)) /\ forall a, in_role (Task i) (turn (fibers (tasks d) i) a)) /\
  in_role Lwip_thread (callback_left d).

Lemma roles_boot fuel p q : roles_ok (device_boot fuel p q).
Proof.
  pose proof in_role_heartbeat. pose proof in_role_lifetime. pose proof in_role_manage. pose proof in_role_receiver.
  pose proof in_role_worker. pose proof in_role_distribute. split; [|apply no_emit_ret].
  intros i. destruct i; (split; [|intros]); cbn [now turn fibers tasks device_boot boot task_body heartbeat udp_receiver
    address_book_lifetime_check manage_ledger tcp_worker distribute_file]; auto.
  unfold in_role. apply no_emit_bind; [no_emit_tac|]. intros. apply in_role_manage.
Qed.

(** Every call is one that its actor may make. *)
Definition event_in_role (ae : actor * event call) : Prop :=
  match ae.2 with @Ev _ X c x => stray ae.1 X c x = [] end.

Lemma roles_step d e d' : device_step d e d' -> roles_ok d -> roles_ok d' /\ Forall event_in_role e.
Proof.
  intros Hs [Hi Hl]. destruct Hs as [i e d' [T a tu E|T X c k tu x hs s' E Hh He]|cb E|X c k x s' E He].
  - split; [|done]. split; [|done]. intros j. cbn. unfold with_fiber. case_decide as Hj; [subst j|apply Hi].
    destruct (Hi i) as [Hn Ht]. rewrite E in Hn, Ht. cbn in *. split; [apply Ht|exact Ht].
  - destruct (Hi i) as [Hn Ht]. rewrite E in Hn, Ht. cbn in Hn, Ht. apply (no_emit_after u _ _ _ x) in Hn as [Hc Hk]. split.
    + split; [|done]. intros j. cbn. unfold with_fiber. case_decide as Hj; [subst j; done|apply Hi].
    + by constructor.
  - split; [|done]. split; [done|]. apply in_role_callback.
  - rewrite E in Hl. apply (no_emit_after u _ _ _ x) in Hl as [Hc Hk]. split; [done|by constructor].
Qed.

Lemma roles_run d es d' : device_run d es d' -> roles_ok d -> roles_ok d' /\ Forall event_in_role es.
Proof.
  intros Hr Hok. induction Hr as [|es e d1 d2 _ [IH1 IH2] Hs]; [done|].
  destruct (roles_step _ _ _ Hs IH1) as [? ?]. split; [done|]. by apply List.Forall_app.
Qed.

(** ** A channel *)

Class Channel (T : Type) : Type := {
  queue : DerustingState -> list T;
  capacity : nat;
  put_seen : forall X, call X -> X -> list T;
  taken_seen : forall X, call X -> X -> list T;
  producer : actor;
  consumer : actor
}.

(** What is put in goes to the end, what is taken comes from the front, and nobody else puts in or takes. *)
Class ChannelLaws {T} (C : Channel T) : Prop := {
  channel_event : forall s X (c : call X) x s', event_step s (Ev c x) s' ->
    queue s ++ put_seen X c x = taken_seen X c x ++ queue s' /\ (length (queue s) <= capacity -> length (queue s') <= capacity)%nat;
  channel_producer : forall a X (c : call X) x, stray a X c x = [] -> a = producer \/ put_seen X c x = [];
  channel_consumer : forall a X (c : call X) x, stray a X c x = [] -> a = consumer \/ taken_seen X c x = []
}.

Lemma put_order {T} (C : Channel T) `{!ChannelLaws C} es :
  Forall event_in_role es ->
  collect put_seen (events es) = collect put_seen (acts producer es) /\ collect taken_seen (events es) = collect taken_seen (acts consumer es).
Proof.
  induction 1 as [|[a [X c x]] es Hx _ [IH1 IH2]]; [done|]. unfold event_in_role in Hx. cbn in Hx |- *. rewrite IH1, IH2. split.
  - case_decide as Ha; [done|]. destruct (channel_producer _ _ _ _ Hx) as [?|E]; [done|by rewrite E].
  - case_decide as Ha; [done|]. destruct (channel_consumer _ _ _ _ Hx) as [?|E]; [done|by rewrite E].
Qed.

Lemma device_step_state d e d' : device_step d e d' -> evolves (shared d) (events e) (shared d').
Proof. destruct 1 as [? ? ? []| |]; cbn; eauto. Qed.

Lemma device_run_state d es d' : device_run d es d' -> evolves (shared d) (events es) (shared d').
Proof.
  induction 1 as [|es e d1 d2 _ IH Hs]; [done|]. rewrite events_app. apply evolves_app. eauto using device_step_state.
Qed.

Lemma evolves_queue {T} (C : Channel T) `{!ChannelLaws C} s tr s' :
  evolves s tr s' -> (length (queue s) <= capacity)%nat ->
  queue s ++ collect put_seen tr = collect taken_seen tr ++ queue s' /\ (length (queue s') <= capacity)%nat.
Proof.
  revert s. induction tr as [|[X c x] tr IH]; intros s; cbn; [intros -> ?; by rewrite app_nil_r|].
  intros (s1 & Hx & H) Hc. apply channel_event in Hx as [E Hb]. destruct (IH _ H (Hb Hc)) as [IH1 ?]. split; [|done].
  by rewrite app_assoc, E, <- app_assoc, IH1, app_assoc.
Qed.

Lemma channel_run {T} (C : Channel T) `{!ChannelLaws C} fuel p q es d :
  device_run (device_boot fuel p q) es d -> queue (shared (device_boot fuel p q)) = [] ->
  collect taken_seen (acts consumer es) ++ queue (shared d) = collect put_seen (acts producer es) /\
  (length (queue (shared d)) <= capacity)%nat.
Proof.
  intros Hr Hq. destruct (roles_run _ _ _ Hr (roles_boot fuel p q)) as [_ Hes].
  destruct (put_order C es Hes) as [<- <-]. apply device_run_state in Hr. apply (evolves_queue C) in Hr as [E ?]; [|rewrite Hq; cbn; lia].
  by rewrite Hq in E.
Qed.

(** *** The three channels *)

Definition udp_put (X : Type) (c : call X) : X -> list (Ipv4Addr * PacketBuffer) :=
  match c in call X return X -> list (Ipv4Addr * PacketBuffer) with
  | CRt c =>
      match c in rt_call X return X -> list (Ipv4Addr * PacketBuffer) with
      | udp_try_send a p => fun b => if b then [(a, p)] else []
      | _ => fun _ => []
      end
  | _ => fun _ => []
  end.

Definition udp_taken (X : Type) (c : call X) : X -> list (Ipv4Addr * PacketBuffer) :=
  match c in call X return X -> list (Ipv4Addr * PacketBuffer) with
  | CRt c => match c in rt_call X return X -> list (Ipv4Addr * PacketBuffer) with udp_receive => fun m => [m] | _ => fun _ => [] end
  | _ => fun _ => []
  end.

Definition tcp_put (X : Type) (c : call X) : X -> list ptr :=
  match c in call X return X -> list ptr with
  | CRt c => match c in rt_call X return X -> list ptr with listener_try_send p => fun b => if b then [p] else [] | _ => fun _ => [] end
  | _ => fun _ => []
  end.

Definition tcp_taken (X : Type) (c : call X) : X -> list ptr :=
  match c in call X return X -> list ptr with
  | CRt c =>
      match c in rt_call X return X -> list ptr with
      | listener_receive => fun p => [p]
      | listener_try_receive => fun o => match o with Some p => [p] | None => [] end
      | _ => fun _ => []
      end
  | _ => fun _ => []
  end.

Definition file_put (X : Type) (c : call X) : X -> list Uuid :=
  match c in call X return X -> list Uuid with
  | CRt c => match c in rt_call X return X -> list Uuid with files_try_send g => fun b => if b then [g] else [] | _ => fun _ => [] end
  | _ => fun _ => []
  end.

Definition file_taken (X : Type) (c : call X) : X -> list Uuid :=
  match c in call X return X -> list Uuid with
  | CRt c => match c in rt_call X return X -> list Uuid with files_receive => fun g => [g] | _ => fun _ => [] end
  | _ => fun _ => []
  end.

#[export] Instance udp_queue : Channel (Ipv4Addr * PacketBuffer) := {|
  queue s := udp_channel (udp s); capacity := Z.to_nat UDP_CHANNEL_SIZE; put_seen := udp_put; taken_seen := udp_taken;
  producer := Lwip_thread; consumer := Task Task_udp_receiver |}.

#[export] Instance tcp_queue : Channel ptr := {|
  queue s := tcp_channel (tcp s); capacity := MAX_TCP_CONNECTIONS; put_seen := tcp_put; taken_seen := tcp_taken;
  producer := Lwip_thread; consumer := Task Task_tcp_worker |}.

#[export] Instance file_queue : Channel Uuid := {|
  queue := files_to_distribute; capacity := FILES_TO_DISTRIBUTE; put_seen := file_put; taken_seen := file_taken;
  producer := Task Task_tcp_worker; consumer := Task Task_distribute_file |}.

Lemma try_send_put {T} cap (l : list T) x b l' :
  try_send cap l x = (b, l') -> l ++ (if b then [x] else []) = l' /\ (length l <= cap -> length l' <= cap)%nat.
Proof.
  unfold try_send. case_bool_decide; intros [= <- <-]; [|by rewrite app_nil_r]. split; [done|]. rewrite length_app. cbn. lia.
Qed.

Ltac channel_tac :=
  split;
  [ let c := fresh in let Hs := fresh in
    intros s X c x s' Hs; destruct c as [X c|X c|X c|X c|X c|X c];
    try (cbn in Hs; subst; cbn; by rewrite app_nil_r);
    destruct c as [o|o p|o p| | | | | | | | | | | | | | | | | | | | | | | | | | | |]; try (destruct o); cbn in Hs |- *;
    rewrite ?app_nil_r;
    try (subst; done); try (destruct Hs as [-> ->]; done);
    try (destruct Hs as (l & E & ->); cbn; rewrite ?E, ?app_nil_r; split; [done|cbn; lia]);
    try (destruct (try_send _ _ _) as [b l] eqn:E; destruct Hs as [-> ->]; apply try_send_put in E as [? ?]; cbn; rewrite ?app_nil_r; done)
  | intros a X c x H; destruct c as [X c|X c|X c|X c|X c|X c]; try (by right);
    destruct c; try (by right); destruct a as [[]|]; cbn in H; first [discriminate | by left]
  | intros a X c x H; destruct c as [X c|X c|X c|X c|X c|X c]; try (by right);
    destruct c; try (by right); destruct a as [[]|]; cbn in H; first [discriminate | by left] ].

#[export] Instance udp_queue_laws : ChannelLaws udp_queue.
Proof. channel_tac. Qed.

#[export] Instance file_queue_laws : ChannelLaws file_queue.
Proof. channel_tac. Qed.

#[export] Instance tcp_queue_laws : ChannelLaws tcp_queue.
Proof.
  channel_tac. destruct H0 as [-> ->]. cbn. destruct (tcp_channel (tcp s)) as [|p l]; cbn; [done|]. split; [done|lia].
Qed.

(** ** What lwIP's thread has called *)

(** A part of a run of a program, and what is left then. *)
Fixpoint leads {A} (p : io A) (tr : trace) (q : io A) {struct tr} : Prop :=
  match tr with
  | [] => q = p
  | e :: tr => match p with Call c k => exists x, e = Ev c x /\ leads (k x) tr q | _ => False end
  end.

Lemma leads_snoc {A} (p : io A) tr X (c : call X) k x : leads p tr (Call c k) -> leads p (tr ++ [Ev c x]) (k x).
Proof.
  revert p. induction tr as [|e tr IH]; intros p; cbn; [intros <-; by exists x|].
  destruct p as [| | |Y c' k']; [done..|]. intros (y & -> & H). exists y. auto.
Qed.

Lemma leads_exec {A} (p : io A) tr q tr' o : leads p tr q -> exec q tr' o -> exec p (tr ++ tr') o.
Proof.
  revert p. induction tr as [|e tr IH]; intros p; cbn; [by intros ->|].
  destruct p as [| | |Y c' k']; [done..|]. intros (y & -> & H) Ho. exists y, (tr ++ tr'). auto.
Qed.

(** The callbacks that lwIP made, the last one last, each with what it has done. *)
Inductive callbacks : Type :=
  | No_callback
  | Called (before : callbacks) (cb : net_callback) (tr : trace).

Fixpoint thread_trace (hs : callbacks) : trace :=
  match hs with No_callback => [] | Called hs _ tr => thread_trace hs ++ tr end.

(** A run of the machine with the callbacks that lwIP made. *)
Inductive thread_run (d : device) : callbacks -> list (actor * event call) -> device -> Prop :=
  | Thread_nil : thread_run d No_callback [] d
  | Thread_task hs es i e d1 d2 : thread_run d hs es d1 -> task_step d1 i e d2 -> thread_run d hs (es ++ e) d2
  | Thread_start hs es d1 cb :
      thread_run d hs es d1 -> callback_left d1 = Ret tt ->
      thread_run d (Called hs cb []) es (mkDevice (tasks d1) (callback_io cb) (shared d1))
  | Thread_call hs cb tr es d1 X (c : call X) k x s' :
      thread_run d (Called hs cb tr) es d1 -> callback_left d1 = Call c k -> event_step (shared d1) (Ev c x) s' ->
      thread_run d (Called hs cb (tr ++ [Ev c x])) (es ++ [(Lwip_thread, Ev c x)]) (mkDevice (tasks d1) (k x) s').

(** The last callback is where the machine is in it, those before are over. *)
Fixpoint called (hs : callbacks) (left : io unit) : Prop :=
  match hs with
  | No_callback => left = Ret tt
  | Called hs cb tr => leads (callback_io cb) tr left /\ called hs (Ret tt)
  end.

Lemma thread_called d hs es d' : callback_left d = Ret tt -> thread_run d hs es d' -> called hs (callback_left d').
Proof.
  intros Hd. induction 1 as [|hs es i e d1 d2 _ IH Hs|hs es d1 cb _ IH E|hs cb tr es d1 X c k x s' _ [IH1 IH2] E He].
  - done.
  - by destruct Hs.
  - split; [done|]. by rewrite E in IH.
  - rewrite E in IH1. cbn [callback_left called]. split; [by eapply leads_snoc|done].
Qed.

Lemma thread_acts d hs es d' : thread_run d hs es d' -> acts Lwip_thread es = thread_trace hs.
Proof.
  induction 1 as [|hs es i e d1 d2 _ IH Hs|hs es d1 cb _ IH _|hs cb tr es d1 X c k x s' _ IH _ _]; [done|..]; cbn [thread_trace].
  - rewrite acts_app, IH. destruct Hs; cbn; by rewrite app_nil_r.
  - by rewrite app_nil_r.
  - rewrite acts_app, IH. cbn. by rewrite app_assoc.
Qed.

(** Every run is such a run. *)
Lemma device_run_thread d es d' : callback_left d = Ret tt -> device_run d es d' -> exists hs, thread_run d hs es d'.
Proof.
  intros Hd. induction 1 as [|es e d1 d2 Hr [hs IH] Hs]; [exists No_callback; constructor|].
  destruct Hs as [i e d2 Hs|cb E|X c k x s' E He].
  - exists hs. by eapply Thread_task.
  - rewrite app_nil_r. exists (Called hs cb []). by constructor.
  - pose proof (thread_called _ _ _ _ Hd IH) as Hc. destruct hs as [|hs cb tr]; cbn in Hc; [by rewrite E in Hc|].
    exists (Called hs cb (tr ++ [Ev c x])). by eapply Thread_call.
Qed.

(** *** What a callback shows *)

Section shows.
Context {B : Type} (f : forall X, call X -> X -> list B).

(** What is seen of [p] so far can be completed to something in [W], and is complete when [p] is over. *)
Definition shows {A} (p : io A) (W : list B -> Prop) : Prop :=
  forall tr q, leads p tr q -> exists rest, W (collect f tr ++ rest) /\ ((exists a, q = Ret a) -> rest = []).

Lemma shows_ret {A} (a : A) (W : list B -> Prop) : W [] -> shows (Ret a) W.
Proof. intros HW [|e tr] q H; [|done]. by exists []. Qed.

Lemma shows_call {A X} (c : call X) (k : X -> io A) W :
  (forall x, shows (k x) (fun l => W (f X c x ++ l))) -> shows (Call c k) W.
Proof.
  intros Hk [|e tr] q; cbn.
  - intros ->. destruct (Hk (quiet u c) [] (k (quiet u c))) as (rest & HW & _); [done|]. exists (f X c (quiet u c) ++ rest).
    split; [done|]. by intros [].
  - intros (x & -> & H). destruct (Hk x tr q H) as (rest & HW & Hr). exists rest. cbn. by rewrite <- app_assoc.
Qed.

Lemma shows_silent {A} (p : io A) (W : list B -> Prop) : no_emit f p -> W [] -> shows p W.
Proof.
  intros Hp HW tr q H. exists []. destruct (runs u q) as (tr' & o & Ho). pose proof (Hp _ _ (leads_exec _ _ _ _ _ H Ho)) as E.
  rewrite collect_app in E. apply app_eq_nil in E as [-> _]. done.
Qed.
End shows.

(** *** What a callback hands on *)

(** An item is offered to a queue and accepted or not; a buffer is freed or a connection aborted. *)
Inductive handed (T : Type) : Type :=
  | Offered (x : T) (accepted : bool)
  | Dropped (a : ptr).
Arguments Offered {T} x accepted.
Arguments Dropped {T} a.

Definition aborted_seen (X : Type) (c : call X) : X -> list ptr :=
  match c in call X return X -> list ptr with
  | CLwip c => match c in lwip_call X return X -> list ptr with tcp_abort p => fun _ => [p] | _ => fun _ => [] end
  | _ => fun _ => []
  end.

Definition udp_offered (X : Type) (c : call X) : X -> list (Ipv4Addr * PacketBuffer * bool) :=
  match c in call X return X -> list (Ipv4Addr * PacketBuffer * bool) with
  | CRt c => match c in rt_call X return X -> list (Ipv4Addr * PacketBuffer * bool) with udp_try_send a p => fun b => [(a, p, b)] | _ => fun _ => [] end
  | _ => fun _ => []
  end.

Definition tcp_offered (X : Type) (c : call X) : X -> list (ptr * bool) :=
  match c in call X return X -> list (ptr * bool) with
  | CRt c => match c in rt_call X return X -> list (ptr * bool) with listener_try_send p => fun b => [(p, b)] | _ => fun _ => [] end
  | _ => fun _ => []
  end.

Definition udp_handed (X : Type) (c : call X) (x : X) : list (handed (Ipv4Addr * PacketBuffer)) :=
  ((fun o => Offered o.1 o.2) <$> udp_offered X c x) ++ (Dropped <$> freed_seen X c x).

Definition tcp_handed (X : Type) (c : call X) (x : X) : list (handed ptr) :=
  ((fun o => Offered o.1 o.2) <$> tcp_offered X c x) ++ (Dropped <$> aborted_seen X c x).

(** The datagram and the connection a callback brings. *)
Definition datagram_of (cb : net_callback) : option (Ipv4Addr * PacketBuffer) :=
  match cb with
  | Datagram true buf addr => match try_from buf with Ok pb => Some (from_bits (from_be addr), pb) | Err _ => None end
  | _ => None
  end.

Definition pcb_of (cb : net_callback) : option ptr :=
  match cb with
  | New_pcb true pcb err => if decide (err = err_t.Ok /\ pcb <> null) then Some pcb else None
  | _ => None
  end.

Definition buffer_of (m : Ipv4Addr * PacketBuffer) : ptr := pbuf_addr (inner m.2).

(** A callback that brings something offers it to the queue, once, and drops it when, and only when, the queue has no room; any
    other callback offers nothing. *)
Definition dealt {T} (key : T -> ptr) (item : option T) (l : list (handed T)) : Prop :=
  match item with
  | Some x => l = [Offered x true] \/ l = [Offered x false; Dropped (key x)]
  | None => Forall (fun o => exists a, o = Dropped a) l
  end.

Lemma shows_drops {A T} (off : forall X, call X -> X -> list (T * bool)) (drops : forall X, call X -> X -> list ptr) (key : T -> ptr) (p : io A) :
  no_emit off p ->
  shows (fun X c x => ((fun o => Offered o.1 o.2) <$> off X c x) ++ (Dropped <$> drops X c x)) p (dealt key None).
Proof.
  intros Hp tr q H. exists []. split; [|done]. rewrite app_nil_r. destruct (runs u q) as (tr' & o & Ho).
  pose proof (Hp _ _ (leads_exec _ _ _ _ _ H Ho)) as E. rewrite collect_app in E. apply app_eq_nil in E as [E _]. clear Ho H.
  cbn. induction tr as [|[X c x] tr IH]; [constructor|]. cbn in E |- *. apply app_eq_nil in E as [E1 E2]. rewrite E1.
  apply Forall_app_2; [|by apply IH]. apply Forall_fmap, Forall_forall. intros a _. by exists a.
Qed.

Lemma shows_udp cb : shows udp_handed (callback_io cb) (dealt buffer_of (datagram_of cb)).
Proof.
  assert (no_emit udp_offered (callback_io cb) -> datagram_of cb = None -> shows udp_handed (callback_io cb) (dealt buffer_of (datagram_of cb))) as Hq.
  { intros Hn ->. by apply (shows_drops udp_offered freed_seen). }
  destruct cb as [| | | | |arg buf addr|this e]; try (apply Hq; [|done]; cbn [callback_io]).
  1-5: unfold listener_accept, listener_hold_recv, connection_recv, connection_err, connection_sent, drop_packet; no_emit_tac.
  2: { destruct e; cbn [put_step]; unfold put_connected, put_sent, put_recv, put_err, pump, read, drop_packet; cbv zeta; no_emit_tac. }
  clear Hq. cbn [callback_io datagram_of]. unfold udp_socket_recv. destruct arg; cbn [negb]; [|apply shows_ret; constructor].
  destruct (try_from buf) as [pb|]; [|apply shows_ret; constructor]. apply shows_call. intros [|]; [apply shows_ret; by left|].
  apply shows_call. intros [|]; [apply shows_call; intros n; apply shows_ret; by right|].
  do 3 (apply shows_call; intros ?). apply shows_ret; by right.
Qed.

Lemma shows_tcp cb : shows tcp_handed (callback_io cb) (dealt id (pcb_of cb)).
Proof.
  assert (no_emit tcp_offered (callback_io cb) -> pcb_of cb = None -> shows tcp_handed (callback_io cb) (dealt id (pcb_of cb))) as Hq.
  { intros Hn ->. by apply (shows_drops tcp_offered aborted_seen). }
  destruct cb as [arg pcb err| | | | | |this e]; try (apply Hq; [|done]; cbn [callback_io]).
  2-6: unfold listener_accept, listener_hold_recv, connection_recv, connection_err, connection_sent, udp_socket_recv, drop_packet; no_emit_tac.
  2: { destruct e; cbn [put_step]; unfold put_connected, put_sent, put_recv, put_err, pump, read, drop_packet; cbv zeta; no_emit_tac. }
  clear Hq. cbn [callback_io pcb_of]. unfold listener_accept.
  case_decide as He; [destruct arg; [rewrite decide_False by tauto|]; (apply shows_ret; constructor)|].
  case_decide as Hp; [destruct arg; [rewrite decide_False by tauto|]; (apply shows_ret; constructor)|].
  destruct arg; cbn [negb]; [|apply shows_ret; constructor]. rewrite decide_True by done.
  do 2 (apply shows_call; intros ?). apply shows_call. intros [|]; cbn [negb]; [apply shows_ret; by left|].
  apply shows_call. intros ?. apply shows_ret; by right.
Qed.

(** What the callbacks so far have shown: all but the last, and the last if it is over, all that they have to. *)
Fixpoint shown {B} (f : forall X, call X -> X -> list B) (W : net_callback -> list B -> Prop) (hs : callbacks) (over : Prop) : Prop :=
  match hs with
  | No_callback => True
  | Called hs cb tr => (exists rest, W cb (collect f tr ++ rest) /\ (over -> rest = [])) /\ shown f W hs True
  end.

Lemma called_shown {B} (f : forall X, call X -> X -> list B) W hs (over : Prop) left :
  (forall cb, shows f (callback_io cb) (W cb)) -> called hs left -> (over -> left = Ret tt) -> shown f W hs over.
Proof.
  intros Hf. revert left over. induction hs as [|hs IH cb tr]; intros left over; [done|]. intros [Hl Hc] Ho. split; [|by apply (IH (Ret tt))].
  destruct (Hf cb _ _ Hl) as (rest & HW & Hr). exists rest. split; [done|]. intros Hov. apply Hr. exists tt. auto.
Qed.

(** *** The buffers of the datagrams *)

Fixpoint datagrams (hs : callbacks) : list (Ipv4Addr * PacketBuffer) :=
  match hs with No_callback => [] | Called hs cb _ => datagrams hs ++ option_list (datagram_of cb) end.

(** What the callbacks that bring a datagram free. *)
Fixpoint datagram_frees (hs : callbacks) : list ptr :=
  match hs with
  | No_callback => []
  | Called hs cb tr => datagram_frees hs ++ match datagram_of cb with Some _ => freed tr | None => [] end
  end.

Definition accepted {T} (o : handed T) : option T := match o with Offered x true => Some x | _ => None end.
Definition dropped {T} (o : handed T) : option ptr := match o with Dropped a => Some a | _ => None end.

Lemma udp_handed_parts tr :
  omap accepted (collect udp_handed tr) = collect udp_put tr /\ omap dropped (collect udp_handed tr) = freed tr.
Proof.
  unfold freed. induction tr as [|[X c x] tr [IH1 IH2]]; [done|]. cbn [collect]. rewrite !omap_app, IH1, IH2. split; f_equal.
  - destruct c as [X c|X c|X c|X c|X c|X c]; try done; destruct c; try done. by destruct x.
  - destruct c as [X c|X c|X c|X c|X c|X c]; try done; by destruct c.
Qed.

Lemma dealt_buffer m l rest :
  dealt buffer_of (Some m) (l ++ rest) ->
  exists pend, [buffer_of m] = (buffer_of <$> omap accepted l) ++ omap dropped l ++ pend /\ (length pend <= 1)%nat /\ (rest = [] -> pend = []).
Proof.
  intros [E|E]; destruct l as [|o1 [|o2 [|o3 l]]]; cbn in E; try discriminate; simplify_eq; cbn.
  all: try (exists [buffer_of m]; by split_and!).
  all: exists []; split_and!; [done|cbn; lia|done].
Qed.

Lemma dealt_nothing l rest : dealt buffer_of None (l ++ rest) -> omap accepted l = [].
Proof.
  cbn. intros [H _]%Forall_app. induction H as [|o l [a ->] _ IH]; [done|]. exact IH.
Qed.

Lemma buffers_handed hs (over : Prop) :
  shown udp_handed (fun cb => dealt buffer_of (datagram_of cb)) hs over ->
  exists pend, buffer_of <$> datagrams hs ≡ₚ (buffer_of <$> collect udp_put (thread_trace hs)) ++ datagram_frees hs ++ pend /\
    (length pend <= 1)%nat /\ (over -> pend = []).
Proof.
  revert over. induction hs as [|hs IH cb tr]; intros over; [exists []; split_and!; [done|cbn; lia|done]|]. intros [(rest & Hd & Hr) Hs].
  destruct (IH True Hs) as (pend0 & E & _ & Hp0). rewrite (Hp0 I), app_nil_r in E. cbn [datagrams datagram_frees thread_trace].
  destruct (udp_handed_parts tr) as [E1 E2].
  rewrite <- E2. destruct (datagram_of cb) as [m|].
  - apply dealt_buffer in Hd as (pend & Em & Hl & Hp). exists pend. split; [|auto]. rewrite collect_app, <- E1, !fmap_app, E.
    change (buffer_of <$> option_list (Some m)) with [buffer_of m]. rewrite Em. solve_Permutation.
  - apply dealt_nothing in Hd as Ea. exists []. split; [|split; [cbn; lia|done]].
    rewrite collect_app, <- E1, Ea, !fmap_app, E. cbn. by rewrite !app_nil_r.
Qed.

(** ** What the tasks do with what they take *)

(** An item is taken, with some debt; the debt is paid. *)
Inductive debt_obs (T Y : Type) : Type :=
  | Took (x : T)
  | Paid (y : Y).
Arguments Took {T Y} x.
Arguments Paid {T Y} y.

Inductive debt_next {T Y} (owed : T -> list Y) : list Y -> debt_obs T Y -> list Y -> Prop :=
  | Next_took x : debt_next owed [] (Took x) (owed x)
  | Next_paid y l : debt_next owed (y :: l) (Paid y) l.

Section debts.
Context {T Y : Type} (owed : T -> list Y) (took_seen : forall X, call X -> X -> list T) (paid_seen : forall X, call X -> X -> list Y).

Definition debt_seen (X : Type) (c : call X) (x : X) : list (debt_obs T Y) := (Took <$> took_seen X c x) ++ (Paid <$> paid_seen X c x).

#[export] Instance debts : Monitor (debt_obs T Y) (list Y) := {| watch := debt_seen; next := debt_next owed |}.

#[export] Instance debts_deterministic : Deterministic debts.
Proof. intros o b o1 o2 H1 H2. destruct H1; by inversion H2. Qed.

Lemma follows_debts o bs o' :
  follows debts o bs o' -> (length o <= 1)%nat -> (forall x, length (owed x) <= 1)%nat ->
  o ++ concat (owed <$> omap (fun b => match b with Took x => Some x | Paid _ => None end) bs) =
    omap (fun b => match b with Paid y => Some y | Took _ => None end) bs ++ o' /\ (length o' <= 1)%nat.
Proof.
  intros H Ho Hw. revert o Ho H. induction bs as [|b bs IH]; intros o Ho; [cbn; intros ->; by rewrite app_nil_r|].
  intros (o1 & Hb & H). destruct Hb as [x|y l]; cbn in *.
  - exact (IH _ (Hw x) H).
  - destruct (IH l) as [E ?]; [lia|done|]. by rewrite <- E.
Qed.

Lemma debts_parts tr :
  omap (fun b => match b with Took x => Some x | Paid _ => None end) (collect debt_seen tr) = collect took_seen tr /\
  omap (fun b => match b with Paid y => Some y | Took _ => None end) (collect debt_seen tr) = collect paid_seen tr.
Proof.
  induction tr as [|[X c x] tr [IH1 IH2]]; [done|]. cbn [collect]. rewrite !omap_app, IH1, IH2. unfold debt_seen. rewrite !omap_app.
  split; f_equal.
  - generalize (took_seen X c x) (paid_seen X c x). intros l1 l2. rewrite <- (app_nil_r l1) at 2. f_equal; [|by induction l2].
    induction l1 as [|y l1 IH]; [done|]. cbn. by rewrite IH.
  - generalize (took_seen X c x) (paid_seen X c x). intros l1 l2. rewrite <- (app_nil_l l2) at 2. f_equal; [by induction l1|].
    induction l2 as [|y l2 IH]; [done|]. cbn. by rewrite IH.
Qed.

(** A task whose turns leave no debt has paid for what it took, but for the item it has in hand. *)
Lemma debts_paid d es d' i :
  device_run d es d' -> (forall x, length (owed x) <= 1)%nat -> monitored_task debts (.= []) [] (fibers (tasks d) i) ->
  exists hand, collect paid_seen (acts (Task i) es) ++ hand = concat (owed <$> collect took_seen (acts (Task i) es)) /\ (length hand <= 1)%nat.
Proof.
  intros Hr Hw Hm. destruct (device_monitored debts u i (.= []) _ _ _ [] Hr Hm) as (o & F & _).
  apply follows_debts in F as [E Hl]; [|cbn; lia|done]. exists o. split; [|done]. destruct (debts_parts (acts (Task i) es)) as [E1 E2].
  cbn [watch debts] in E. by rewrite E1, E2 in E.
Qed.

Lemma debt_took {A X} (c : call X) (k : X -> io A) x0 Q :
  (forall x, debt_seen X c x = [Took (x0 x)]) -> (forall x, monitored debts (owed (x0 x)) (k x) Q) -> monitored debts [] (Call c k) Q.
Proof.
  intros Hc Hk. apply monitored_seen. intros x. exists (owed (x0 x)). split; [|apply Hk].
  cbn [watch debts]. rewrite Hc. exists (owed (x0 x)). split; [constructor|done].
Qed.

Lemma debt_paid {A X} (c : call X) (k : X -> io A) y l Q :
  (forall x, debt_seen X c x = [Paid y]) -> (forall x, monitored debts l (k x) Q) -> monitored debts (y :: l) (Call c k) Q.
Proof.
  intros Hc Hk. apply monitored_seen. intros x. exists l. split; [|apply Hk].
  cbn [watch debts]. rewrite Hc. exists l. split; [constructor|done].
Qed.
End debts.

(** *** The receiver *)

(** The receiver frees every datagram, and reads the first chunk of each. *)
Definition first_chunk (m : Ipv4Addr * PacketBuffer) : list bytes := take 1 (chunks (into_iter m.2)).

Definition slice_seen (X : Type) (c : call X) : X -> list bytes :=
  match c in call X return X -> list bytes with
  | CRt c => match c in rt_call X return X -> list bytes with slice_read s => fun _ => [s] | _ => fun _ => [] end
  | _ => fun _ => []
  end.

Definition frees : Monitor _ (list ptr) := debts (fun m => [buffer_of m]) udp_taken freed_seen.
Definition reads : Monitor _ (list bytes) := debts first_chunk udp_taken slice_seen.

Lemma frees_drop {A} p (f : unit -> io A) Q :
  (forall x, monitored frees [] (f x) Q) -> monitored frees [pbuf_addr (inner p)] (drop_packet p ≫= f) Q.
Proof.
  intros Hf. unfold drop_packet. apply (monitored_bind _ _ _ _ (fun _ o => o = [])); [|by intros x o ->].
  apply (monitored_bind _ _ _ _ (fun _ o => o = [])); [|intros r o ->; by apply monitored_ret].
  assert (monitored frees [pbuf_addr (inner p)] (n ← lwip (pbuf_free (pbuf_addr (inner p))); Ret (Ok n : result Z err_t)) (fun _ o => o = [])) as Hm.
  { apply debt_paid; [done|]. intros n. by apply monitored_ret. }
  unfold blocking_lwip. apply monitored_skip; [no_emit_tac|intros []]; [done|]. apply monitored_skip; [no_emit_tac|intros _].
  eapply monitored_bind; [done|]. intros r o ->. apply monitored_skip; [no_emit_tac|intros _]. by apply monitored_ret.
Qed.

Lemma frees_receiver h : monitored frees [] (udp_receiver_step h) (rests (.= [])).
Proof.
  unfold udp_receiver_step, udp_socket_receive, drop_iter. apply (debt_took _ _ _ _ _ id); [done|]. intros [a p].
  cbn [mbind prog_bind]. rewrite iter_next_chunks.
  destruct (chunks _) as [|c cs]; apply frees_drop; intros _; [by apply monitored_ret|].
  apply monitored_silent; [|done]. unfold handle_message, handle_payload, ledger_state_new. cbv zeta. no_emit_tac.
Qed.

Lemma reads_receiver h : monitored reads [] (udp_receiver_step h) (rests (.= [])).
Proof.
  unfold udp_receiver_step, udp_socket_receive, drop_iter. apply (debt_took _ _ _ _ _ id); [done|]. intros [a p].
  cbn [mbind prog_bind]. rewrite iter_next_chunks. unfold first_chunk, drop_packet. cbn [snd id].
  destruct (chunks _) as [|c cs]; cbn [take]; (apply monitored_skip; [no_emit_tac|intros _]); [by apply monitored_ret|].
  apply debt_paid; [done|]. intros s. apply monitored_silent; [|done]. unfold handle_message, handle_payload, ledger_state_new. cbv zeta. no_emit_tac.
Qed.

(** *** The worker *)

(** The worker makes each connection it takes the one it serves. *)
Definition stored_seen (X : Type) (c : call X) : X -> list ptr :=
  match c in call X return X -> list ptr with
  | CRt c => match c in rt_call X return X -> list ptr with pcb_store Obj_TcpConnection p => fun _ => [p] | _ => fun _ => [] end
  | _ => fun _ => []
  end.

Definition serves : Monitor _ (list ptr) := debts (fun p => [p]) tcp_taken stored_seen.

#[export] Instance serves_handing : Handing (watch (Monitor := serves)).
Proof.
  intros X c x H1 H2. destruct c as [X c|X c|X c|X c|X c|X c]; try done. destruct c as [o|o p|o p| | | | | | | | | | | | | | | | | | | | | | | | | | | |]; try done; by destruct o.
Qed.

Lemma serves_worker fuel : monitored serves [] (tcp_worker_step fuel) (rests (.= [])).
Proof.
  set (f := watch (Monitor := serves)). pose proof (no_mutex_send_log f). pose proof (aloof_response f).
  pose proof (aloof_drop f). pose proof (aloof_write_chunks f). pose proof (aloof_receive_rest f). pose proof (aloof_receive f).
  pose proof (aloof_drop_connection f). pose proof (no_mutex_new_job f).
  assert (forall g b, no_emit f (make_path g b)) by (intros; rewrite make_path_eq; apply no_emit_ret). subst f.
  unfold tcp_worker_step, with_connection. apply (debt_took _ _ _ _ _ id); [done|]. intros p.
  apply debt_paid; [done|]. intros _. apply monitored_silent; [|done].
  unfold attach_callbacks, handle_conn, handle_put, finish_upload, append_to_ledger, my_ipaddr, generate_uuid_v7, log_to_udp,
    open, close, rname, upload_chunk, write, drop_file, drop_iter. cbv zeta. no_emit_tac.
Qed.

(** What the worker announces: an upload is given its name, the ledger is locked to enter it, it is offered to the distributor. *)
Inductive upload_obs : Type :=
  | Named (path : bytes)
  | Locked_ledger
  | Announced (g : Uuid).

Definition upload_seen (X : Type) (c : call X) : X -> list upload_obs :=
  match c in call X return X -> list upload_obs with
  | CFs c => match c in fs_call X return X -> list upload_obs with rename _ new => fun _ => [Named new] | _ => fun _ => [] end
  | CRt c =>
      match c in rt_call X return X -> list upload_obs with
      | jobs_lock => fun _ => [Locked_ledger]
      | files_try_send g => fun _ => [Announced g]
      | _ => fun _ => []
      end
  | _ => fun _ => []
  end.

(** The file that was given its name last, and whether the ledger was locked since. *)
Inductive upload_next : option (bytes * bool) -> upload_obs -> option (bytes * bool) -> Prop :=
  | Next_named o path : (if o is Some (_, true) then false else true) -> upload_next o (Named path) (Some (path, false))
  | Next_locked path : upload_next (Some (path, false)) Locked_ledger (Some (path, true))
  | Next_announced g : upload_next (Some (path_of g false, true)) (Announced g) None.

#[export] Instance announces : Monitor upload_obs (option (bytes * bool)) := {| watch := upload_seen; next := upload_next |}.

#[export] Instance announces_deterministic : Deterministic announces.
Proof. intros o b o1 o2 H1 H2. destruct H1; by inversion H2. Qed.

#[export] Instance upload_handing : Handing upload_seen.
Proof. intros X c x H1 H2. destruct c as [X c|X c|X c|X c|X c|X c]; try done; by destruct c. Qed.

Definition settled (o : option (bytes * bool)) : Prop := if o is Some (_, true) then False else True.

Lemma announces_call {A X} o o1 b (c : call X) (k : X -> io A) Q :
  (forall x, upload_seen X c x = [b]) -> upload_next o b o1 -> (forall x, monitored announces o1 (k x) Q) -> monitored announces o (Call c k) Q.
Proof.
  intros Hc Hb Hk. apply monitored_seen. intros x. exists o1. split; [|apply Hk]. cbn [watch announces]. rewrite Hc. by exists o1.
Qed.

Lemma announces_append {A} path g (f : unit -> io A) Q :
  monitored announces (Some (path, true)) (f tt) Q -> monitored announces (Some (path, false)) (append_to_ledger g ≫= f) Q.
Proof.
  intros Hf. apply (monitored_bind _ _ _ _ (fun _ o => o = Some (path, true))); [|by intros [] o ->].
  unfold append_to_ledger. cbv zeta. do 2 (apply monitored_skip; [no_emit_tac|intros ?]).
  apply (announces_call _ (Some (path, true)) Locked_ledger); [done|constructor|]. intros l. apply monitored_silent; [|done].
  pose proof (no_mutex_new_job upload_seen). unfold my_ipaddr. cbn [watch announces]. no_emit_tac.
Qed.

Lemma announces_finish info g path f o :
  settled o -> monitored announces o (finish_upload info g path f) (rests settled).
Proof.
  intros Ho. pose proof (no_mutex_send_log upload_seen). pose proof (aloof_response upload_seen).
  unfold finish_upload, close, drop_file, rname, log_to_udp. rewrite make_path_eq.
  apply monitored_skip; [cbn [watch announces]; no_emit_tac|intros ?]. apply monitored_skip_ret.
  apply (announces_call _ (Some (path_of g false, false)) (Named (path_of g false))); [done|constructor; by destruct o as [[? []]|]|]. intros r.
  do 2 (apply monitored_skip; [done|intros ?]). destruct (info_guid info); [by apply monitored_ret|].
  apply announces_append. apply (announces_call _ None (Announced g)); [done|constructor|]. intros b.
  apply monitored_silent; [|done]. cbn [watch announces]. no_emit_tac.
Qed.

Lemma announces_worker fuel o : settled o -> monitored announces o (tcp_worker_step fuel) (rests settled).
Proof.
  intros Ho. pose proof (no_mutex_send_log upload_seen). pose proof (aloof_response upload_seen).
  pose proof (aloof_drop upload_seen). pose proof (aloof_write_chunks upload_seen). pose proof (aloof_receive_rest upload_seen).
  pose proof (aloof_receive upload_seen). pose proof (aloof_drop_connection upload_seen).
  assert (forall A (p : io A), no_emit upload_seen p -> monitored announces o p (rests settled)) as Hq by (intros; by apply monitored_silent).
  unfold tcp_worker_step, with_connection. do 2 (apply monitored_skip; [no_emit_tac|intros ?]).
  apply monitored_skip; [cbn [watch announces]; unfold attach_callbacks; no_emit_tac|intros ?].
  eapply (monitored_bind _ _ _ _ (rests settled)); [|intros ? o1 ?; by apply monitored_silent].
  unfold handle_conn, log_to_udp. apply monitored_skip; [done|intros _]. apply monitored_skip; [done|intros [p|]]; [|by apply monitored_ret].
  cbv zeta. rewrite iter_next_chunks. unfold drop_iter.
  destruct (chunks _) as [|c cs]; [apply Hq; no_emit_tac|]. destruct (split_request c) as [[[sl hd] body]|]; [|apply Hq; no_emit_tac].
  destruct (check_start_line sl) as [[]|e]; [apply Hq; no_emit_tac| |apply Hq; no_emit_tac].
  unfold handle_put, log_to_udp. cbv zeta. apply monitored_skip; [done|intros ?].
  destruct (put_rejected _); [apply Hq; unfold drop_iter; no_emit_tac|].
  apply monitored_skip; [cbn [watch announces]; unfold generate_uuid_v7; no_emit_tac|intros g]. rewrite make_path_eq. apply monitored_skip_ret.
  apply monitored_skip; [cbn [watch announces]; unfold open; no_emit_tac|intros [f|e]]; [|apply Hq; unfold drop_iter; no_emit_tac].
  apply monitored_skip; [cbn [watch announces]; no_emit_tac|intros n].
  apply monitored_skip; [cbn [watch announces]; unfold upload_chunk, write; cbv zeta; no_emit_tac|intros m].
  apply monitored_skip; [done|intros [k b]]. apply monitored_skip; [unfold drop_iter; done|intros _].
  apply monitored_skip; [cbn [watch announces]; no_emit_tac|intros []]; [by apply announces_finish|by apply monitored_ret].
Qed.

(** ** The queues from end to end *)

Lemma concat_singletons {T Y} (f : T -> Y) l : concat ((fun x => [f x]) <$> l) = f <$> l.
Proof. induction l as [|x l IH]; [done|]. cbn. by rewrite IH. Qed.

(** C20. The queues of the running machine hand on what lwIP brings once and in order, however the tasks and lwIP's
    callbacks are interleaved. Each datagram for the socket, and each connection that is accepted without an error, is
    offered by its callback to its queue exactly once, and dropped (the buffer freed, the connection aborted) exactly when
    the queue has no room; no other callback offers anything. What was offered and had room is, in order, what the
    receiver and the worker have taken and what still waits, at most twelve datagrams and one connection. The receiver reads
    the first chunk of each datagram that it takes, once and in order, and the worker serves each connection it takes, but
    for the one they have in hand. The worker offers a new upload to the distributor, under the id of the file it has
    just stored, once for each time it has had the ledger to enter it, and what it could offer is, in order, what the distributor has
    taken (what it does with them is [uploads_offered]) and at most four that wait. *)
Theorem queues_in_order fuel p q es d :
  device_run (device_boot fuel p q) es d ->
  (exists hs, thread_run (device_boot fuel p q) hs es d) /\
  forall hs, thread_run (device_boot fuel p q) hs es d ->
  acts Lwip_thread es = thread_trace hs /\
  (shown udp_handed (fun cb => dealt buffer_of (datagram_of cb)) hs (callback_left d = Ret tt) /\
   collect udp_taken (acts (Task Task_udp_receiver) es) ++ udp_channel (udp (shared d)) = collect udp_put (acts Lwip_thread es) /\
   (length (udp_channel (udp (shared d))) <= 12)%nat /\
   exists hand, collect slice_seen (acts (Task Task_udp_receiver) es) ++ hand =
     concat (first_chunk <$> collect udp_taken (acts (Task Task_udp_receiver) es)) /\ (length hand <= 1)%nat) /\
  (shown tcp_handed (fun cb => dealt id (pcb_of cb)) hs (callback_left d = Ret tt) /\
   collect tcp_taken (acts (Task Task_tcp_worker) es) ++ tcp_channel (tcp (shared d)) = collect tcp_put (acts Lwip_thread es) /\
   (length (tcp_channel (tcp (shared d))) <= 1)%nat /\
   exists hand, collect stored_seen (acts (Task Task_tcp_worker) es) ++ hand =
     collect tcp_taken (acts (Task Task_tcp_worker) es) /\ (length hand <= 1)%nat) /\
  (collect file_taken (acts (Task Task_distribute_file) es) ++ files_to_distribute (shared d) =
     collect file_put (acts (Task Task_tcp_worker) es) /\ (length (files_to_distribute (shared d)) <= 4)%nat /\
   exists o, follows announces None (collect upload_seen (acts (Task Task_tcp_worker) es)) o).
Proof.
  intros Hr. split; [by apply device_run_thread|]. intros hs Hh. pose proof (thread_called (device_boot fuel p q) _ _ _ eq_refl Hh) as Hc.
  split; [by eapply thread_acts|]. split; [|split].
  - destruct (channel_run udp_queue _ _ _ _ _ Hr eq_refl) as [E Hl].
    split; [apply (called_shown _ _ _ _ _ shows_udp Hc); auto|]. split; [exact E|]. split; [exact Hl|].
    apply (debts_paid first_chunk udp_taken slice_seen _ _ _ _ Hr); [intros m; unfold first_chunk; rewrite length_take; lia|].
    split; [apply reads_receiver|intros h o ->; apply reads_receiver].
  - destruct (channel_run tcp_queue _ _ _ _ _ Hr eq_refl) as [E Hl].
    split; [apply (called_shown _ _ _ _ _ shows_tcp Hc); auto|]. split; [exact E|]. split; [exact Hl|].
    destruct (debts_paid (fun p => [p]) tcp_taken stored_seen _ _ _ Task_tcp_worker Hr) as (hand & H & ?); [done| |].
    { split; [apply serves_worker|intros [] o ->; apply serves_worker]. }
    exists hand. split; [|done]. rewrite H. rewrite (concat_singletons id). apply list_fmap_id.
  - destruct (channel_run file_queue _ _ _ _ _ Hr eq_refl) as [E Hl]. split; [exact E|]. split; [exact Hl|].
    destruct (device_monitored announces u Task_tcp_worker settled _ _ _ None Hr) as (o & F & _); [|by exists o].
    split; [by apply announces_worker|intros [] o Ho; by apply announces_worker].
Qed.

(** C22. No buffer of a received datagram is leaked or freed twice, by the receiver or by the socket's callback. However the tasks and
    lwIP's callbacks are interleaved, the buffers of the datagrams that lwIP has brought to the socket are, each exactly once: those the
    receiver has freed, the one it has in hand, if any, those that still wait in the queue, those the callbacks of
    datagrams have freed, and the one that the present callback has in hand, if any. The receiver frees nothing else of theirs, and in
    the order in which they were queued. *)
Theorem datagrams_freed fuel p q es d :
  device_run (device_boot fuel p q) es d ->
  (exists hs, thread_run (device_boot fuel p q) hs es d) /\
  forall hs, thread_run (device_boot fuel p q) hs es d ->
  exists hand pending, (length hand <= 1)%nat /\ (length pending <= 1)%nat /\ (callback_left d = Ret tt -> pending = []) /\
    buffer_of <$> datagrams hs ≡ₚ
      freed (acts (Task Task_udp_receiver) es) ++ hand ++ (buffer_of <$> udp_channel (udp (shared d))) ++ datagram_frees hs ++ pending /\
    freed (acts (Task Task_udp_receiver) es) ++ hand ++ (buffer_of <$> udp_channel (udp (shared d))) =
      buffer_of <$> collect udp_put (acts Lwip_thread es).
Proof.
  intros Hr. split; [by apply device_run_thread|]. intros hs Hh. pose proof (thread_called (device_boot fuel p q) _ _ _ eq_refl Hh) as Hc.
  destruct (channel_run udp_queue _ _ _ _ _ Hr eq_refl) as [E _]. cbn [producer consumer put_seen taken_seen queue udp_queue] in E.
  destruct (buffers_handed hs (callback_left d = Ret tt)) as (pend & Hp & Hl & Ho); [apply (called_shown _ _ _ _ _ shows_udp Hc); auto|].
  destruct (debts_paid (fun m => [buffer_of m]) udp_taken freed_seen _ _ _ Task_udp_receiver Hr) as (hand & Ef & Hh'); [done| |].
  { split; [apply frees_receiver|intros h o ->; apply frees_receiver]. }
  rewrite (concat_singletons buffer_of) in Ef.
  assert (freed (acts (Task Task_udp_receiver) es) ++ hand ++ (buffer_of <$> udp_channel (udp (shared d))) =
    buffer_of <$> collect udp_put (acts Lwip_thread es)) as Eo.
  { rewrite <- E, fmap_app, <- Ef. by rewrite app_assoc. }
  exists hand, pend. split_and!; try done. rewrite Hp, <- (thread_acts _ _ _ _ Hh), <- Eo, <- !app_assoc. done.
Qed.
End queues.

(** ** Three datagrams *)

(** The datagram of [demo_listed] again, a second one that the receiver has not taken yet, and a third one in the middle of its callback. *)
Definition demo_more : list move :=
  demo_create ++ demo_arrive ++
  [Interrupt (Datagram true (demo_chain 1 [demo_encode (demo_message 1)]) (to_be (to_bits (demo_addr 9)))); Resume;
   Interrupt (Datagram true (demo_chain 1 [demo_encode (demo_message 1)]) (to_be (to_bits (demo_addr 9))))].

Definition demo_datagrams : list (actor * event (@call ref_vendor)) * device := driven (@demo_ans) demo_more demo_device.

Lemma queues_in_order_witness :
  length (collect udp_taken (acts (Task Task_udp_receiver) demo_datagrams.1)) = 1%nat /\
  exists hs, thread_run demo_device hs demo_datagrams.1 demo_datagrams.2 /\
    shown udp_handed (fun cb => dealt buffer_of (datagram_of cb)) hs (callback_left demo_datagrams.2 = Ret tt) /\
    exists hand, collect slice_seen (acts (Task Task_udp_receiver) demo_datagrams.1) ++ hand =
      concat (first_chunk <$> collect udp_taken (acts (Task Task_udp_receiver) demo_datagrams.1)) /\ (length hand <= 1)%nat.
Proof.
  split; [vm_compute; reflexivity|].
  destruct (queues_in_order (L := ref_vendor_laws) (demo_id 3) 5 4 6 demo_datagrams.1 demo_datagrams.2) as [[hs Hh] H]; [apply driven_run|].
  exists hs. split; [exact Hh|]. destruct (H hs Hh) as (_ & (Hs & _ & _ & Hr) & _). split; [exact Hs|exact Hr].
Defined.

Lemma datagrams_freed_witness :
  exists hs hand pending, thread_run demo_device hs demo_datagrams.1 demo_datagrams.2 /\ (length pending <= 1)%nat /\
    buffer_of <$> datagrams hs ≡ₚ
      freed (acts (Task Task_udp_receiver) demo_datagrams.1) ++ hand ++
        (buffer_of <$> udp_channel (udp (shared demo_datagrams.2))) ++ datagram_frees hs ++ pending.
Proof.
  destruct (datagrams_freed (L := ref_vendor_laws) (demo_id 3) 5 4 6 demo_datagrams.1 demo_datagrams.2) as [[hs Hh] H]; [apply driven_run|].
  destruct (H hs Hh) as (hand & pending & _ & Hl & _ & Hp & _). exists hs, hand, pending. split; [exact Hh|]. split; [exact Hl|exact Hp].
Defined.
