(* ===== verification/Progress.v ===== *)
(** * Progress of the running machine ([tasks/])

    On the machine of [Device.v] no task is ever stuck: a task that cannot go on waits for an item that has not
    come, holding nothing, or for a mutex whose holder waits for nobody and gives it back.  The order of [Mutex.v] is what
    makes this so. *)

From S2P Require Import Prelude Prog Net Vendor VendorRef Data Ffi Env Lwip Pbuf Tcp Udp Fs Http Request Rng.
From S2P Require Import Messages Observe Wire Upload Owns Put Transfer Marlin Receiver Ledger Mutex Main Tasks State Device Monitor Queues.

Section progress.
Context `{V : Vendor} {L : VendorLaws V} `{SM : Serialize Message} `{DM : Deserialize Message}.

(** Some id, to answer with. *)
Variable u : Uuid.

(** ** What a task is doing *)

Definition can_go (d : device) (i : task_name) : Prop := exists es d', task_step d i es d'.

Definition holds (d : device) (i : task_name) : Prop :=
  (holding (tasks d)).1 = Some i \/ (holding (tasks d)).2 = Some i.

(** A task is about to make a call that does not wait for another party. *)
Definition at_work (d : device) (i : task_name) : Prop :=
  match now (fibers (tasks d) i) with Call c _ => awaits c = false | _ => False end.

(** Whether something has come for a task: only these three ever wait for an item of the shared state. *)
Definition delivered (i : task_name) (s : DerustingState) : bool :=
  match i with
  | Task_tcp_worker => state_ready listener_receive s
  | Task_udp_receiver => state_ready udp_receive s
  | Task_distribute_file => state_ready files_receive s
  | _ => true
  end.

(** Steps of other tasks that hold a mutex. *)
Definition by_other_holders (d : device) (i : task_name) (es : list (actor * event call)) : Prop :=
  Forall (fun ae : actor * event call => exists j, ae.1 = Task j /\ j <> i /\ holds d j) es.

(** A task can go on; or it holds nothing and goes on as soon as something comes for it; or others that hold a mutex can
    go on, all by themselves, until it can; or the fuel of the model ran out in it. *)
Inductive standing (d : device) (i : task_name) : Prop :=
  | Going : can_go d i -> standing d i
  | Idle :
      delivered i (shared d) = false -> ~ holds d i ->
      (forall d', tasks d' = tasks d -> delivered i (shared d') = true -> can_go d' i) -> standing d i
  | Locked_out es d' : device_run d es d' -> by_other_holders d i es -> can_go d' i -> standing d i
  | Out_of_fuel : i = Task_tcp_worker -> now (fibers (tasks d) i) = Fuel -> standing d i.

(** ** Calls that can be answered *)

Definition ready {X} (c : call X) (s : DerustingState) : bool :=
  match c with CRt c => state_ready c s | _ => true end.

Lemma ready_answer {X} (c : call X) s : ready c s = true -> exists x s', event_step s (Ev c x) s'.
Proof.
  intros Hr. destruct c as [X c|X c|X c|X c|X c|X c];
    [by exists (quiet u (CLwip c)), s|by exists (quiet u (CFs c)), s|by exists (quiet u (CMarlin c)), s
    |by exists (quiet u (CHal c)), s|by exists (quiet u (CLog c)), s|].
  exists (state_do c s (quiet u (CRt c))).1, (state_do c s (quiet u (CRt c))).2. by apply state_do_step.
Qed.

Lemma not_awaiting_ready {X} (c : call X) s : awaits c = false -> ready c s = true.
Proof. destruct c as [X c|X c|X c|X c|X c|X c]; try done. by destruct c. Qed.

Lemma op_of_awaits {X} (c : call X) : awaits c = true -> op_of c = [Await].
Proof. destruct c as [X c|X c|X c|X c|X c|X c]; try done. by destruct c. Qed.

Lemma ready_goes d i T X (c : call X) k tu hs :
  fibers (tasks d) i = mkFiber T (Call c k) tu -> hold_run i (holding (tasks d)) (op_of c) = Some hs ->
  ready c (shared d) = true ->
  exists x s', task_step d i [(Task i, Ev c x)]
    (mkDevice (mkSystem (with_fiber i (mkFiber T (k x) tu) (fibers (tasks d))) hs) (callback_left d) s').
Proof. intros E Hh Hr. destruct (ready_answer c (shared d) Hr) as (x & s' & He). exists x, s'. by eapply Task_call. Qed.

(** A holder does not wait for items. *)
Lemma holder_ready d i T X (c : call X) k tu :
  device_ok d -> fibers (tasks d) i = mkFiber T (Call c k) tu -> holds d i -> awaits c = false.
Proof.
  intros [Hok _] E Hh. pose proof (next_call u _ _ _ _ _ Hok E) as Ha. cbn in Ha.
  destruct (awaits c) eqn:Ew; [|done]. rewrite (op_of_awaits c Ew) in Ha. cbn in Ha. by destruct Hh, Ha.
Qed.

(** ** Mutexes are given back *)

Definition only (i : task_name) (es : list (actor * event call)) : Prop :=
  Forall (fun ae : actor * event call => ae.1 = Task i) es.

(** The holder of the ledger's mutex never waits, and gives it back. *)
Lemma jobs_released T (p : io T) tu d i :
  device_ok d -> fibers (tasks d) i = mkFiber T p tu -> (holding (tasks d)).2 = Some i ->
  exists es d', device_run d es d' /\ (holding (tasks d')).2 = None /\
    ((holding (tasks d)).1 <> Some i -> (holding (tasks d')).1 = (holding (tasks d)).1) /\
    (forall j, j <> i -> fibers (tasks d') j = fibers (tasks d) j) /\ only i es.
Proof.
  revert d. induction p as [a| | |X c k IH]; intros d Hok E Hj; pose proof (next_call u _ _ _ _ _ (proj1 Hok) E) as Ha; cbn in Ha;
    [by destruct Ha..|].
  pose proof (holder_ready _ _ _ _ _ _ _ Hok E (or_intror Hj)) as Hw. pose proof (not_awaiting_ready c (shared d) Hw) as Hr.
  assert (forall hs, hold_run i (holding (tasks d)) (op_of c) = Some hs -> hs.2 = Some i ->
    ((holding (tasks d)).1 <> Some i -> hs.1 = (holding (tasks d)).1) ->
    exists es d', device_run d es d' /\ (holding (tasks d')).2 = None /\
      ((holding (tasks d)).1 <> Some i -> (holding (tasks d')).1 = (holding (tasks d)).1) /\
      (forall j, j <> i -> fibers (tasks d') j = fibers (tasks d) j) /\ only i es) as Hgo.
  { intros hs Hh H2 H1. destruct (ready_goes _ _ _ _ _ _ _ _ E Hh Hr) as (x & s' & Hs%Task_goes).
    edestruct (IH x) as (es & d' & Hrun & Hn & Hb & Ho & Hes); [by eapply (device_step_ok u)|apply with_fiber_same|done|].
    exists ((Task i, Ev c x) :: es), d'. split; [by eapply (device_run_app _ [_]); [apply device_run_one|]|].
    split; [done|]. split; [|split; [|by constructor]].
    - intros Hne. rewrite Hb; cbn; [by apply H1|by rewrite H1].
    - intros j Hne. rewrite Ho by done. by apply with_fiber_other. }
  destruct (op_of_cases c) as [Eo|[o Eo]]; rewrite Eo in *; [by eapply Hgo|].
  destruct o; cbn in Ha; [tauto|by eapply Hgo|done| |tauto].
  assert (hold_run i (holding (tasks d)) (op_of c) = Some ((holding (tasks d)).1, None)) as Hh by (by rewrite Eo).
  destruct (ready_goes _ _ _ _ _ _ _ _ E Hh Hr) as (x & s' & Hs%Task_goes%device_run_one).
  eexists _, _. split; [exact Hs|]. cbn. split; [done|]. split; [done|]. split; [|by repeat constructor].
  intros j Hne. by apply with_fiber_other.
Qed.

(** Tasks that hold nothing take no part in what follows and stay as they are. *)
Definition bystanders (d : device) (es : list (actor * event call)) (d' : device) : Prop :=
  Forall (fun ae : actor * event call => exists j, ae.1 = Task j /\ holds d j) es /\
  forall j, ~ holds d j -> fibers (tasks d') j = fibers (tasks d) j.

Lemma bystanders_jobs d i es d' :
  (holding (tasks d)).2 = Some i -> (forall j, j <> i -> fibers (tasks d') j = fibers (tasks d) j) -> only i es ->
  bystanders d es d'.
Proof.
  intros Hi Ho Hes. split.
  - eapply List.Forall_impl; [|exact Hes]. intros ae ->. exists i. split; [done|by right].
  - intros j Hj. apply Ho. intros ->. apply Hj. by right.
Qed.

Lemma bystanders_app d es1 d1 es2 d2 :
  bystanders d es1 d1 -> bystanders d1 es2 d2 -> (forall j, holds d1 j -> holds d j) -> bystanders d (es1 ++ es2) d2.
Proof.
  intros [H1 F1] [H2 F2] Hh. split.
  - apply List.Forall_app. split; [done|]. eapply List.Forall_impl; [|exact H2]. intros ae (j & -> & Hj). eauto.
  - intros j Hj. rewrite F2, F1; auto.
Qed.
Lemma bystanders_one d i e d' :
  holds d i -> (forall j, j <> i -> fibers (tasks d') j = fibers (tasks d) j) -> bystanders d [(Task i, e)] d'.
Proof. intros Hi Ho. split; [repeat constructor; by exists i|]. intros j Hj. apply Ho. by intros ->. Qed.

(** The holder of the address book's mutex waits at most for the ledger's, and gives its own back. *)
Lemma book_released T (p : io T) tu d i :
  device_ok d -> fibers (tasks d) i = mkFiber T p tu -> (holding (tasks d)).1 = Some i ->
  exists es d', device_run d es d' /\ (holding (tasks d')).1 = None /\ bystanders d es d'.
Proof.
  revert d. induction p as [a| | |X c k IH]; intros d Hok E Hb; pose proof (next_call u _ _ _ _ _ (proj1 Hok) E) as Ha; cbn in Ha;
    [by destruct Ha..|].
  pose proof (holder_ready _ _ _ _ _ _ _ Hok E (or_introl Hb)) as Hw.
  assert (forall d hs, device_ok d -> fibers (tasks d) i = mkFiber T (Call c k) tu -> (holding (tasks d)).1 = Some i ->
    hold_run i (holding (tasks d)) (op_of c) = Some hs -> hs.1 = Some i ->
    (forall j, j <> i -> hs.2 = Some j -> (holding (tasks d)).2 = Some j) ->
    exists es d', device_run d es d' /\ (holding (tasks d')).1 = None /\ bystanders d es d') as Hgo.
  { clear d Hok E Hb Ha. intros d hs Hok E Hb Hh H1 H2.
    destruct (ready_goes _ _ _ _ _ _ _ _ E Hh (not_awaiting_ready c (shared d) Hw)) as (x & s' & Hs%Task_goes).
    edestruct (IH x) as (es & d' & Hrun & Hn & Hby); [by eapply (device_step_ok u)|apply with_fiber_same|done|].
    exists ([(Task i, Ev c x)] ++ es), d'. split; [by eapply device_run_app; [apply device_run_one|]|]. split; [done|].
    eapply bystanders_app; [|exact Hby|].
    - apply bystanders_one; [by left|]. intros j Hne. by apply with_fiber_other.
    - intros j [Hj|Hj]; cbn in Hj; [left; congruence|]. destruct (decide (j = i)) as [->|]; [by left|]. right. by apply H2. }
  destruct (op_of_cases c) as [Eo|[o Eo]]; rewrite Eo in *; [by eapply Hgo|].
  destruct o; cbn in Ha; [tauto| | | |tauto].
  - assert (hold_run i (holding (tasks d)) (op_of c) = Some (None, (holding (tasks d)).2)) as Hh by (by rewrite Eo).
    destruct (ready_goes _ _ _ _ _ _ _ _ E Hh (not_awaiting_ready c (shared d) Hw)) as (x & s' & Hs%Task_goes%device_run_one).
    eexists _, _. split; [exact Hs|]. split; [done|]. apply bystanders_one; [by left|]. intros j Hne. by apply with_fiber_other.
  - destruct ((holding (tasks d)).2) as [k'|] eqn:Ek; [|eapply (Hgo d (Some i, Some i)); [done|done|done|cbn; by rewrite Ek, Hb|done|by intros j ? [= ->]]].
    destruct (fibers (tasks d) k') as [T' p' tu'] eqn:E'.
    destruct (jobs_released _ _ _ _ _ Hok E' Ek) as (es1 & d1 & Hr1 & Hn1 & Hb1 & Ho1 & Hes1).
    assert (k' <> i) as Hk by (by intros ->).
    assert ((holding (tasks d1)).1 = Some i) as Hb1' by (rewrite Hb1; [done|rewrite Hb; congruence]).
    destruct (Hgo d1 (Some i, Some i)) as (es & d' & Hr & Hn & Hby);
      [by eapply (device_run_ok u)|by rewrite Ho1|done|by cbn; rewrite Hn1, Hb1'|done|by intros j ? [= ->]|].
    exists (es1 ++ es), d'. split; [by eapply device_run_app|]. split; [done|].
    eapply bystanders_app; [by eapply bystanders_jobs|done|].
    intros j [Hj|Hj]; [left; congruence|by rewrite Hn1 in Hj].
  - eapply (Hgo d ((holding (tasks d)).1, None)); done.
Qed.
(** ** What every turn keeps *)

(** The turns of every task, as far as they have got. *)
Definition tasks_all (P : task_name -> forall A, io A -> Prop) (d : device) : Prop := forall i, each (P i) (fibers (tasks d) i).

Lemma tasks_all_run (P : task_name -> forall A, io A -> Prop) d es d' :
  (forall i A X (c : call X) (k : X -> io A) x, P i A (Call c k) -> P i A (k x)) ->
  device_run d es d' -> tasks_all P d -> tasks_all P d'.
Proof.
  intros HP. induction 1 as [|es e d1 d2 _ IH Hs]; [done|]. intros H%IH.
  destruct Hs as [j e d2 [T a tu E|T X c k tu x hs s' E Hh He]|cb E|X c k x s' E He]; [..|exact H|exact H];
    intros i; cbn; unfold with_fiber; (case_decide as Hi; [subst i|apply H]); destruct (H j) as [Hn Ht]; rewrite E in Hn, Ht;
    (split; [|exact Ht]); [apply Ht|exact (HP _ _ _ _ _ x Hn)].
Qed.

Lemma no_panic_after {A X} (c : call X) (k : X -> io A) x : no_panic (Call c k) -> no_panic (k x).
Proof. intros H tr o Hx. apply (H (Ev c x :: tr) o). by exists x, tr. Qed.

Lemma total_after {A X} (c : call X) (k : X -> io A) x : total (Call c k) -> total (k x).
Proof. intros H tr o Hx. apply (H (Ev c x :: tr) o). by exists x, tr. Qed.

Lemma boot_panic fuel p q es d i :
  1000000 <= Z.of_nat fuel -> device_run (device_boot fuel p q) es d ->
  now (fibers (tasks d) i) <> Panic /\ (i <> Task_tcp_worker -> now (fibers (tasks d) i) <> Fuel).
Proof.
  intros Hf Hr. split.
  - assert (tasks_all (fun _ _ p => no_panic p) d) as H.
    { eapply tasks_all_run; [|exact Hr|intros j; by apply tasks_no_panic]. intros; by eapply no_panic_after. }
    intros E. destruct (H i) as [Hn _]. rewrite E in Hn. by apply (Hn [] Panicked).
  - intros Hi. assert (tasks_all (fun j _ p => j <> Task_tcp_worker -> total p) d) as H.
    { eapply tasks_all_run; [|exact Hr|intros j].
      - intros j A X c k x Ht Hj. eapply total_after, Ht, Hj.
      - split; [|intros a]; intros Hj; by apply (tasks_total fuel j Hj). }
    intros E. destruct (H i) as [Hn _]. rewrite E in Hn. by destruct (Hn Hi [] OutOfFuel).
Qed.

(** The only items a task waits for are its own. *)
Lemma own_inbox i X (c : call X) x :
  awaits c = true -> stray (Task i) X c x = [] ->
  (forall s, ready c s = true) \/ forall s, ready c s = delivered i s.
Proof.
  intros Hw Hs. destruct c as [X c|X c|X c|X c|X c|X c]; try done.
  destruct c; try done; (by left) || (right; by destruct i).
Qed.
(** ** No task is stuck *)

Lemma asks_book d i T X (c : call X) k tu j :
  device_ok d -> fibers (tasks d) i = mkFiber T (Call c k) tu -> op_of c = [LockBook] -> ~ holds d i ->
  (holding (tasks d)).1 = Some j -> standing d i.
Proof.
  intros Hok E Eo Hi Hj. destruct (fibers (tasks d) j) as [T' p' tu'] eqn:E'.
  destruct (book_released _ _ _ _ _ Hok E' Hj) as (es & d' & Hr & Hn & Hes & Hf). apply (Locked_out d i es d' Hr).
  - eapply List.Forall_impl; [|exact Hes]. intros ae (j' & -> & Hj'). exists j'. split; [done|]. split; [|done]. by intros ->.
  - destruct (ready_goes d' i T X c k tu (Some i, (holding (tasks d')).2)) as (x & s' & Hs).
    + by rewrite Hf.
    + rewrite Eo. cbn. by rewrite Hn.
    + apply not_awaiting_ready. destruct (awaits c) eqn:Ew; [|done]. by rewrite (op_of_awaits c Ew) in Eo.
    + by eexists _, _.
Qed.

Lemma asks_jobs d i T X (c : call X) k tu j :
  device_ok d -> fibers (tasks d) i = mkFiber T (Call c k) tu -> op_of c = [LockJobs] -> (holding (tasks d)).2 <> Some i ->
  (holding (tasks d)).2 = Some j -> standing d i.
Proof.
  intros Hok E Eo Hi Hj. destruct (fibers (tasks d) j) as [T' p' tu'] eqn:E'. assert (i <> j) as Hne by (intros ->; done).
  destruct (jobs_released _ _ _ _ _ Hok E' Hj) as (es & d' & Hr & Hn & _ & Hf & Hes). apply (Locked_out d i es d' Hr).
  - eapply List.Forall_impl; [|exact Hes]. intros ae ->. exists j. split; [done|]. split; [done|by right].
  - destruct (ready_goes d' i T X c k tu ((holding (tasks d')).1, Some i)) as (x & s' & Hs).
    + by rewrite Hf.
    + rewrite Eo. cbn. by rewrite Hn.
    + apply not_awaiting_ready. destruct (awaits c) eqn:Ew; [|done]. by rewrite (op_of_awaits c Ew) in Eo.
    + by eexists _, _.
Qed.

(** A task that waits for an item. *)
Lemma waits_item d i T X (c : call X) k tu :
  device_ok d -> roles_ok d -> fibers (tasks d) i = mkFiber T (Call c k) tu -> awaits c = true -> standing d i.
Proof.
  intros [Hok _] [Hro _] E Hw. pose proof (next_call u _ _ _ _ _ Hok E) as Ha. cbn in Ha.
  rewrite (op_of_awaits c Hw) in Ha. cbn in Ha. destruct (Hro i) as [Hn _]. rewrite E in Hn. cbn in Hn.
  apply (no_emit_after u _ _ _ (quiet u c)) in Hn as [Hs _].
  assert (forall d', tasks d' = tasks d -> ready c (shared d') = true -> can_go d' i) as Hgo.
  { intros d' Et Hr. rewrite <- Et in E. destruct (ready_goes _ _ _ _ _ _ _ (holding (tasks d')) E) as (x & s' & H); [|done|by eexists _, _].
    by rewrite (op_of_awaits c Hw). }
  destruct (own_inbox _ _ _ _ Hw Hs) as [Hr|Hr]; [by apply Going, Hgo|].
  destruct (delivered i (shared d)) eqn:Ed; [by apply Going, Hgo; rewrite ?Hr|].
  apply Idle; [done|unfold holds; tauto|]. intros d' Et Hd. apply Hgo; [done|]. by rewrite Hr.
Qed.

Lemma makes_call d i T X (c : call X) k tu :
  device_ok d -> roles_ok d -> fibers (tasks d) i = mkFiber T (Call c k) tu -> standing d i.
Proof.
  intros Hok Hro E. destruct (awaits c) eqn:Hw; [by eapply waits_item|].
  pose proof (not_awaiting_ready c (shared d) Hw) as Hr. pose proof (next_call u _ _ _ _ _ (proj1 Hok) E) as Ha. cbn in Ha.
  assert (forall hs, hold_run i (holding (tasks d)) (op_of c) = Some hs -> standing d i) as Hgo.
  { intros hs Hh. apply Going. destruct (ready_goes _ _ _ _ _ _ _ _ E Hh Hr) as (x & s' & Hs). by eexists _, _. }
  destruct (op_of_cases c) as [Eo|[o Eo]]; rewrite Eo in Hgo, Ha; [by eapply Hgo|].
  destruct o; cbn in Hgo, Ha; try by eapply Hgo.
  - destruct (holding (tasks d)).1 as [j|] eqn:Ej; [|by eapply Hgo]. eapply asks_book; [done|done|done| |done]. unfold holds.
    rewrite Ej. tauto.
  - destruct (holding (tasks d)).2 as [j|] eqn:Ej; [|by eapply Hgo]. eapply asks_jobs; [done|done|done| |done]. congruence.
Qed.

(** C23. No task is ever stuck on the running machine, however the six tasks and lwIP's callbacks are interleaved. Each can
    go on; or it waits for a connection, a datagram or a finished upload of its own, holds no mutex and goes on as soon as one
    is there; or it waits for a mutex and those that hold one can go on by themselves, without the other tasks or lwIP, until it gets it.  Only
    of the worker there is one more case: it may have used up its fuel, a million turns of the receive loop for one connection, which is
    possible only when lwIP delivers packets without data ([handle_conn_total]). No
    task has panicked, and who holds a mutex waits for nothing that another party may never do. (The packets of the connection being served and the
    outcome of the request being sent are not part of this state: those waits count as answered, but never happen under a mutex.) *)
Theorem never_stuck fuel p q es d i :
  1000000 <= Z.of_nat fuel -> device_run (device_boot fuel p q) es d ->
  standing d i /\ (holds d i -> at_work d i).
Proof.
  intros Hf Hr. pose proof (device_run_ok u _ _ _ Hr (device_boot_ok fuel p q)) as Hok.
  destruct (roles_run u _ _ _ Hr (roles_boot fuel p q)) as [Hro _]. destruct (boot_panic _ _ _ _ _ i Hf Hr) as [Hp Hu].
  destruct (fibers (tasks d) i) as [T p' tu] eqn:E. pose proof (next_call u _ _ _ _ _ (proj1 Hok) E) as Ha.
  cbn in Hp, Hu. unfold holds, at_work. rewrite E. cbn. destruct p' as [a| | |X c k]; [split; [|tauto]..|].
  - apply Going. eexists _, _. by apply Turn_end.
  - done.
  - apply Out_of_fuel; [|by rewrite E]. destruct (decide (i = Task_tcp_worker)); [done|]. by destruct Hu.
  - split; [by eapply makes_call|]. by eapply holder_ready.
Qed.
End progress.

(** ** A task that waits *)

(** The lifetime check has the address book when the receiver, with a datagram to handle, asks for it. *)
Definition demo_fuel : nat := Z.to_nat 1000000.

Definition demo_checking : list move :=
  [Go Task_address_book_lifetime_check; Go Task_address_book_lifetime_check;
   Interrupt (Datagram true (demo_chain 1 [demo_encode (demo_message 1)]) (to_be (to_bits (demo_addr 7)))); Resume] ++
  replicate 6 (Go Task_udp_receiver).

Definition demo_waiting : list (actor * event (@call ref_vendor)) * device :=
  driven (@demo_ans) demo_checking (device_boot demo_fuel 4 6).

(** Whether a task asks for a mutex that it cannot get. *)
Definition kept_out `{V : Vendor} (d : device) (i : task_name) : bool :=
  match now (fibers (tasks d) i) with
  | Call c _ => match hold_run i (holding (tasks d)) (op_of c) with None => true | Some _ => false end
  | _ => false
  end.

Lemma never_stuck_witness :
  kept_out demo_waiting.2 Task_udp_receiver = true /\ standing demo_waiting.2 Task_udp_receiver /\
  at_work demo_waiting.2 Task_address_book_lifetime_check.
Proof.
  assert (1000000 <= Z.of_nat demo_fuel) as Hf by (unfold demo_fuel; rewrite Z2Nat.id by lia; reflexivity).
  assert (device_run (device_boot demo_fuel 4 6) demo_waiting.1 demo_waiting.2) as Hr by exact (driven_run (@demo_ans) demo_checking _).
  split; [vm_compute; reflexivity|]. split.
  - exact (proj1 (never_stuck (L := ref_vendor_laws) (demo_id 3) demo_fuel 4 6 _ _ Task_udp_receiver Hf Hr)).
  - apply (never_stuck (L := ref_vendor_laws) (demo_id 3) demo_fuel 4 6 _ _ Task_address_book_lifetime_check Hf Hr).
    left. vm_compute. reflexivity.
Defined.
