(* ===== verification/Files.v ===== *)
(** * The files on the stick of the running machine

    The running machine of [Device.v] with the USB stick as FatFs keeps it: open handles and the files under their
    names.  Three of the tasks use it: the worker stores uploads, the distributor and the ledger task read.
    However they are interleaved, a file under its final name is a complete
    upload and is never changed again, and Marlin is told to print no other. *)

From stdpp Require Import gmap functions.
From S2P Require Import Prelude Prog Net Vendor VendorRef Data Ffi Env Lwip Pbuf Tcp Udp Fs Http Request Rng.
From S2P Require Import Messages Observe Wire Upload Owns Put Transfer Stick Marlin Receiver Ledger Mutex Main Tasks State Device Monitor.

(** ** The stick *)

(** The files, and the open handles with their path and whether they are open for writing. *)
Record disk : Type := mkDisk { files : gmap bytes bytes; handles : gmap ptr (bytes * bool) }.

(** What a call does with its answer [a], if FatFs can answer so: a new handle is not in use; only a file that exists can be
    opened for reading, and opening for writing empties it; [fwrite] appends what it says it took;
    [unlink] and [rename] take place when they answer 0, and [rename] does not when the new name is taken. *)
Definition disk_do (e : fs_event) (a : Z) (s : disk) : option disk :=
  match e with
  | FOpen path mode p =>
      if decide (p = null) then Some s
      else if decide (handles s !! p <> None) then None
      else if decide (mode = lit "wb") then Some (mkDisk (<[path := []]> (files s)) (<[p := (path, true)]> (handles s)))
      else if decide (mode = lit "rb" /\ files s !! path <> None) then Some (mkDisk (files s) (<[p := (path, false)]> (handles s)))
      else None
  | FWrite d p =>
      if decide (0 <= a <= len d) then
        match handles s !! p with
        | Some (path, true) => Some (mkDisk (alter (fun old => old ++ ztake a d) path (files s)) (handles s))
        | _ => Some s
        end
      else None
  | FClose p => Some (mkDisk (files s) (base.delete p (handles s)))
  | FUnlink path => if decide (a = 0) then Some (mkDisk (base.delete path (files s)) (handles s)) else Some s
  | FRename path path' =>
      if decide (a <> 0) then Some s
      else match files s !! path, files s !! path' with
           | Some d, None => Some (mkDisk (<[path' := d]> (base.delete path (files s))) (handles s))
           | _, _ => None
           end
  end.

(** The stick after the calls of all tasks and callbacks, in their order. *)
Fixpoint disk_run (evs : list (fs_event * Z)) (s : disk) : option disk :=
  match evs with
  | [] => Some s
  | (e, a) :: evs => match disk_do e a s with Some s => disk_run evs s | None => None end
  end.

Lemma disk_run_app evs1 evs2 s :
  disk_run (evs1 ++ evs2) s = match disk_run evs1 s with Some s1 => disk_run evs2 s1 | None => None end.
Proof. revert s. induction evs1 as [|[e a] evs1 IH]; intros s; cbn; [done|]. by destruct (disk_do e a s). Qed.

(** ** How a task uses the stick *)

Section users.
Context `{V : Vendor} {L : VendorLaws V} `{SM : Serialize Message} `{DM : Deserialize Message}.

(** Some id, to answer with. *)
Variable u : Uuid.

(** A connection is accepted, a packet of it taken; a call changes the files or handles, with its answer;
    the printer is told something. *)
Inductive use_obs : Type :=
  | Accepted (pcb : ptr)
  | Got (p : PacketBuffer)
  | Did (e : fs_event) (a : Z)
  | Told (cmd : bytes).

Definition use_seen (X : Type) (c : call X) : X -> list use_obs :=
  match c in call X return X -> list use_obs with
  | CRt c =>
      match c in rt_call X return X -> list use_obs with
      | listener_receive => fun pcb => [Accepted pcb]
      | conn_receive => fun m => match m with Some p => [Got p] | None => [] end
      | _ => fun _ => []
      end
  | CFs c => fun x => (fun e => Did e.1 e.2) <$> fs_done_seen _ (CFs c) x
  | CMarlin c => match c in marlin_call X return X -> list use_obs with derusting_gcode_cmd cmd => fun _ => [Told cmd] | _ => fun _ => [] end
  | _ => fun _ => []
  end.

#[export] Instance use_foreground : Foreground use_seen.
Proof. intros X c x. destruct c as [X c|X c|X c|X c|X c|X c]; try done; by destruct c. Qed.

(** The first packet [p] and the ones after it carry a whole upload for [g], of which [w] is the content. *)
Definition whole (p : PacketBuffer) (qs : list PacketBuffer) (g : Uuid) (w : bytes) : Prop :=
  exists headers d n, judge p = Store headers d /\ put_rejected (check_put_header headers) = false /\
    size (check_put_header headers) = Some n /\ (forall g', info_guid (check_put_header headers) = Some g' -> g = g') /\
    n <= len (d ++ concat (packet_data <$> qs)) /\ w = ztake n (d ++ concat (packet_data <$> qs)).

(** A reader has at most one file open, and knows which it could open.  The worker is between two uploads, with the first packet
    of the connection if it has taken it, or storing one: the packets so far, the id, the handle until it is closed, and what
    it asked to be written. *)
Inductive user : Type :=
  | Reader (own : option ptr) (opened : list bytes)
  | Serving (first : option PacketBuffer)
  | Resting
  | Storing (p : PacketBuffer) (qs : list PacketBuffer) (g : Uuid) (own : option ptr) (w : bytes).

Definition rested (o : user) : Prop := match o with Serving _ | Resting => True | _ => False end.

(** A reader tells the printer to print only what it could open; the worker writes only partial files, one at a time, and
    renames only a whole upload. *)
Inductive user_next : user -> use_obs -> user -> Prop :=
  | Use_accept o pcb : rested o -> user_next o (Accepted pcb) (Serving None)
  | Use_first p : user_next (Serving None) (Got p) (Serving (Some p))
  | Use_refused p g a : user_next (Serving (Some p)) (Did (FOpen (path_of g true) (lit "wb") null) a) Resting
  | Use_create p g f a : f <> null ->
      user_next (Serving (Some p)) (Did (FOpen (path_of g true) (lit "wb") f) a) (Storing p [] g (Some f) [])
  | Use_more p qs g f w q : user_next (Storing p qs g (Some f) w) (Got q) (Storing p (qs ++ [q]) g (Some f) w)
  | Use_write p qs g f w d a : user_next (Storing p qs g (Some f) w) (Did (FWrite d f) a) (Storing p qs g (Some f) (w ++ d))
  | Use_close p qs g f w a : user_next (Storing p qs g (Some f) w) (Did (FClose f) a) (Storing p qs g None w)
  | Use_delete p qs g w a : user_next (Storing p qs g None w) (Did (FUnlink (path_of g true)) a) Resting
  | Use_finish p qs g w a : whole p qs g w ->
      user_next (Storing p qs g None w) (Did (FRename (path_of g true) (path_of g false)) a) Resting
  | Use_missing l path a : user_next (Reader None l) (Did (FOpen path (lit "rb") null) a) (Reader None l)
  | Use_look l path f a : f <> null ->
      user_next (Reader None l) (Did (FOpen path (lit "rb") f) a) (Reader (Some f) (path :: l))
  | Use_done l f a : user_next (Reader (Some f) l) (Did (FClose f) a) (Reader None l)
  | Use_tell l cmd : (forall g, cmd = lit "M32 " ++ path_of g false -> path_of g false ∈ l) ->
      user_next (Reader None l) (Told cmd) (Reader None l).

#[export] Instance users : Monitor use_obs user := {| watch := use_seen; next := user_next |}.

#[export] Instance users_deterministic : Deterministic users.
Proof.
  intros o b o1 o2 H1 H2. destruct H1; inversion H2; subst; try done;
    try by match goal with H : _ ++ lit ".partial" = _ ++ lit ".partial" |- _ => apply app_inv_tail, uuid_display_inj in H; subst end.
  all: by match goal with H : rested _ |- _ => destruct H end.
Qed.

(** ** The worker *)

Lemma seen_use {A X} o b o1 (c : call X) (k : X -> io A) Q :
  (forall x, use_seen X c x = [b x] /\ user_next o (b x) (o1 x) /\ monitored users (o1 x) (k x) Q) -> monitored users o (Call c k) Q.
Proof.
  intros H. apply monitored_seen. intros x. destruct (H x) as (E & Hn & Hm). exists (o1 x). split; [|done].
  cbn. rewrite E. by exists (o1 x).
Qed.

Lemma storing_chunk p qs g f w n c :
  0 <= n ->
  monitored users (Storing p qs g (Some (fp f)) w) (upload_chunk f n c)
    (fun m o => m = saturating_sub n (len c) /\ o = Storing p qs g (Some (fp f)) (w ++ ztake n c)).
Proof.
  intros Hn. pose proof (len_nonneg c). unfold upload_chunk, write. cbv zeta.
  assert (ztake (Z.min n (len c)) c = ztake n c) as ->.
  { destruct (Z.min_spec n (len c)) as [[? ->]|[? ->]]; [done|]. by rewrite !ztake_ge by lia. }
  assert (saturating_sub n (Z.min n (len c)) = saturating_sub n (len c)) as -> by (unfold saturating_sub; lia).
  case_decide as Hc.
  - apply monitored_ret. by rewrite Hc, app_nil_r.
  - apply (seen_use _ (fun a => Did (FWrite (ztake n c) (fp f)) a) (fun _ => Storing p qs g (Some (fp f)) (w ++ ztake n c))).
    intros a. split; [done|]. split; [constructor|]. by apply monitored_ret.
Qed.

Lemma storing_chunks p qs g f w n cs :
  0 <= n ->
  monitored users (Storing p qs g (Some (fp f)) w) (write_chunks f n cs)
    (fun r o => r.1 = saturating_sub n (len (concat cs)) /\ (r.2 = true -> r.1 = 0) /\
                o = Storing p qs g (Some (fp f)) (w ++ ztake n (concat cs))).
Proof.
  revert n w. induction cs as [|c cs IH]; intros n w Hn; cbn [write_chunks].
  - apply monitored_ret. cbn [fst snd concat]. rewrite ztake_nil, app_nil_r. by split; [apply eq_sym, saturating_sub_0|].
  - eapply monitored_bind; [by apply storing_chunk|]. intros m o [-> ->].
    pose proof (len_nonneg c). pose proof (len_nonneg (concat cs)). cbn [concat]. rewrite ztake_rest, app_assoc by done.
    assert (0 <= saturating_sub n (len c)) by (unfold saturating_sub; lia).
    assert (saturating_sub n (len (c ++ concat cs)) = saturating_sub (saturating_sub n (len c)) (len (concat cs))) as ->
      by (unfold saturating_sub; rewrite len_app; lia).
    destruct (Z.eqb_spec (saturating_sub n (len c)) 0) as [E|E]; [|by apply IH].
    apply monitored_ret. cbn [fst snd]. rewrite E, ztake_0, app_nil_r. split_and!; [unfold saturating_sub; lia|done|done].
Qed.

Lemma use_receive o (o1 : PacketBuffer -> user) :
  (forall q, user_next o (Got q) (o1 q)) ->
  monitored users o receive (fun m o' => o' = match m with Some q => o1 q | None => o end).
Proof.
  intros Hn. unfold receive. apply monitored_seen. intros [q|].
  - exists (o1 q). split; [exists (o1 q); by split; [apply Hn|]|]. cbv zeta. apply monitored_silent_post; [no_emit_tac|].
    intros tr m H. exec_step H as pcb. bind_step H as z Hz. by destruct H as [_ [= ->]].
  - exists o. split; [done|]. by apply monitored_ret.
Qed.

Lemma storing_rest fuel p qs g f w N n d :
  0 <= N -> w = ztake N (d ++ concat (packet_data <$> qs)) -> n = saturating_sub N (len (d ++ concat (packet_data <$> qs))) ->
  monitored users (Storing p qs g (Some (fp f)) w) (receive_rest fuel f (path_of g true) n)
    (fun ok o => if ok : bool then exists qs', N <= len (d ++ concat (packet_data <$> qs')) /\
                     o = Storing p qs' g (Some (fp f)) (ztake N (d ++ concat (packet_data <$> qs')))
                 else o = Resting).
Proof.
  intros HN -> ->. revert qs. induction fuel as [|fuel IH]; intros qs; cbn [receive_rest];
    set (b := d ++ concat (packet_data <$> qs)); rewrite Z.gtb_ltb; destruct (Z.ltb_spec 0 (saturating_sub N (len b))) as [Hp|Hz].
  2,4: apply monitored_ret; exists qs; split; [fold b; unfold saturating_sub in Hz; lia|done].
  { apply monitored_fuel. }
  eapply monitored_bind; [apply (use_receive _ (fun q => Storing p (qs ++ [q]) g (Some (fp f)) (ztake N b))); constructor|].
  intros [q|] o ->.
  - assert (d ++ concat (packet_data <$> qs ++ [q]) = b ++ packet_data q) as E.
    { unfold b. rewrite fmap_app, concat_app. cbn. by rewrite app_nil_r, app_assoc. }
    eapply monitored_bind; [apply storing_chunks; unfold saturating_sub; lia|]. intros r o (-> & _ & ->).
    apply monitored_skip; [apply no_emit_drop_packet, _|intros _]. specialize (IH (qs ++ [q])). rewrite E, ztake_rest in IH by done.
    assert (saturating_sub (saturating_sub N (len b)) (len (concat (chunks (into_iter q)))) = saturating_sub N (len (b ++ packet_data q))) as ->; [|exact IH].
    unfold packet_data. pose proof (len_nonneg (concat (chunks (into_iter q)))). unfold saturating_sub. rewrite len_app. lia.
  - apply (seen_use _ (fun _ => Did (FClose (fp f)) 0) (fun _ => Storing p qs g None (ztake N b))). intros [].
    split; [done|]. split; [constructor|]. apply (seen_use _ (Did (FUnlink (path_of g true))) (fun _ => Resting)). intros a.
    split; [done|]. split; [constructor|]. by apply monitored_ret.
Qed.

Lemma use_finish info p qs g f w :
  whole p qs g w -> monitored users (Storing p qs g (Some (fp f)) w) (finish_upload info g (path_of g true) f) (fun _ => rested).
Proof.
  intros Hw. unfold finish_upload. rewrite make_path_eq.
  apply (seen_use _ (fun _ => Did (FClose (fp f)) 0) (fun _ => Storing p qs g None w)). intros []. split; [done|]. split; [constructor|].
  apply (seen_use _ (Did (FRename (path_of g true) (path_of g false))) (fun _ => Resting)). intros a.
  split; [done|]. split; [by constructor|]. apply monitored_silent; [|done].
  cbn [watch users]. pose proof (no_emit_my_ipaddr use_seen). pose proof (no_emit_new_job use_seen).
  pose proof (no_emit_send_log use_seen). unfold response, log_to_udp, append_to_ledger. cbv zeta. no_emit_tac.
Qed.

(** The part of [handle_put] that follows the opening of the file. *)
Lemma use_store fuel info p g f n it headers body :
  judge p = Store headers (body ++ concat (chunks it)) -> info = check_put_header headers -> put_rejected info = false ->
  size info = Some n -> 0 <= n -> (forall g', info_guid info = Some g' -> g = g') ->
  monitored users (Storing p [] g (Some (fp f)) [])
    (content_length ← upload_chunk f n body;
     r ← write_chunks f content_length (chunks it);
     drop_iter it;;
     let '(content_length, broke) := (r : Z * bool) in
     finished ← (if negb broke then receive_rest fuel f (path_of g true) content_length else Ret true);
     if finished : bool then finish_upload info g (path_of g true) f else Ret tt) (fun _ => rested).
Proof.
  intros Hj -> Hr Hs Hn Hg. set (b := body ++ concat (chunks it)) in *.
  assert (forall qs, n <= len (b ++ concat (packet_data <$> qs)) -> whole p qs g (ztake n (b ++ concat (packet_data <$> qs)))) as Hw.
  { intros qs Hl. exists headers, b, n. done. }
  pose proof (len_nonneg body). assert (0 <= saturating_sub n (len body)) by (unfold saturating_sub; lia).
  eapply monitored_bind; [by apply storing_chunk|]. intros m o [-> ->].
  eapply monitored_bind; [by apply storing_chunks|]. intros [m b'] o (Hm & Hb & ->). cbn [fst snd app] in *.
  apply monitored_skip; [apply no_emit_drop_packet, _|intros _].
  rewrite <- ztake_rest by done. fold b.
  assert (m = saturating_sub n (len b)) as ->.
  { rewrite Hm. unfold b, saturating_sub. rewrite len_app. pose proof (len_nonneg (concat (chunks it))). lia. }
  eapply (monitored_bind _ _ _ _ (fun ok o => if ok : bool then exists qs, n <= len (b ++ concat (packet_data <$> qs)) /\
                     o = Storing p qs g (Some (fp f)) (ztake n (b ++ concat (packet_data <$> qs))) else o = Resting)).
  - destruct b'; cbn [negb].
    + apply monitored_ret. exists []. cbn [fmap list_fmap concat]. rewrite app_nil_r. split; [|done]. specialize (Hb eq_refl). unfold saturating_sub in Hb. lia.
    + apply storing_rest; [done|..]; cbn [fmap list_fmap concat]; by rewrite app_nil_r.
  - intros [] o; [intros (qs & Hl & ->); by apply use_finish, Hw|intros ->; by apply monitored_ret].
Qed.

Lemma use_handle_put fuel it p headers body :
  judge p = Store headers (body ++ concat (chunks it)) ->
  monitored users (Serving (Some p)) (handle_put fuel it headers body) (fun _ => rested).
Proof.
  intros Hj. pose proof (no_emit_send_log use_seen). pose proof (no_emit_drop_packet use_seen). pose proof (no_emit_uuid use_seen).
  unfold handle_put. cbv zeta. unfold log_to_udp at 1. apply monitored_skip; [done|intros _].
  destruct (put_rejected (check_put_header headers)) eqn:Er.
  { apply monitored_silent; [cbn [watch users]; unfold response, drop_iter; no_emit_tac|done]. }
  pose proof Er as (_ & n & En & Hn)%put_accepted.
  eapply (monitored_bind _ _ _ _ (fun g o => o = Serving (Some p) /\ forall g', info_guid (check_put_header headers) = Some g' -> g = g')).
  { unfold log_to_udp. destruct (info_guid _) as [g'|].
    - apply monitored_skip; [done|intros _]. apply monitored_ret. split; [done|]. by intros ? [= ->].
    - by apply monitored_silent. }
  intros g o [-> Hg]. rewrite make_path_eq. apply monitored_skip_ret. unfold open. rewrite path_of_usb. cbn [negb].
  apply (seen_use _ (fun f => Did (FOpen (path_of g true) (lit "wb") f) 0)
           (fun f => if decide (f = null) then Resting else Storing p [] g (Some f) [])).
  intros f. split; [done|]. case_decide as Hf.
  - subst f. split; [constructor|]. apply monitored_silent; [|done]. cbn [watch users]. unfold response, drop_iter. no_emit_tac.
  - split; [by constructor|]. rewrite En. cbn [unwrap]. apply monitored_skip_ret. apply (use_store fuel _ p g (mkFile f mkWriteBytes) n it headers body); first [done|lia].
Qed.

Lemma use_handle_conn fuel : monitored users (Serving None) (handle_conn fuel) (fun _ => rested).
Proof.
  pose proof (no_emit_send_log use_seen). pose proof (no_emit_drop_packet use_seen).
  unfold handle_conn, log_to_udp. apply monitored_skip; [done|intros _].
  eapply monitored_bind; [apply (use_receive _ (fun p => Serving (Some p))); constructor|].
  intros [p|] o ->; [|by apply monitored_ret]. cbv zeta. rewrite iter_next_chunks.
  assert (forall r it, monitored users (Serving (Some p)) (response r;; drop_iter it) (fun _ => rested)) as Hq.
  { intros r it. apply monitored_silent; [cbn [watch users]; unfold response, drop_iter; no_emit_tac|done]. }
  destruct (chunks (into_iter p)) as [|c cs] eqn:Ec; [apply Hq|].
  destruct (split_request c) as [[[sl hd] body]|] eqn:Es; [|apply Hq].
  destruct (check_start_line sl) as [[]|e] eqn:Ek; [apply Hq| |apply Hq].
  apply use_handle_put. rewrite chunks_tail, Ec. unfold judge. by rewrite Ec, Es, Ek.
Qed.

Lemma use_worker fuel o : rested o -> monitored users o (tcp_worker_step fuel) (fun _ => rested).
Proof.
  intros Ho. unfold tcp_worker_step, with_connection.
  apply (seen_use _ Accepted (fun _ => Serving None)). intros pcb. split; [done|]. split; [by constructor|].
  apply monitored_skip; [no_emit_tac|intros _]. apply monitored_skip; [cbn [watch users]; unfold attach_callbacks; no_emit_tac|intros _].
  eapply monitored_bind; [apply use_handle_conn|]. intros [] o1 Ho1. apply monitored_silent; [|done]. cbn [watch users].
  pose proof (no_emit_drop_packet use_seen). assert (forall n p, no_emit use_seen (drain_channel n p)) as Hd.
  { intros n p. induction n as [|n IH]; cbn [drain_channel]; [apply no_emit_fuel|]. no_emit_tac. }
  unfold drop_connection. apply no_emit_bind; [no_emit_tac|intros _]. apply no_emit_bind; [no_emit_tac|intros l].
  apply no_emit_for_each. no_emit_tac.
Qed.

(** ** The readers *)

(** A file is opened for reading; the handle, if there is one, is closed later. *)
Lemma use_open {A} l path (f : result (File ReadBytes) unit -> io A) Q :
  starts_with path usb_prefix = true ->
  monitored users (Reader None l) (f (Err tt)) Q ->
  (forall p, monitored users (Reader (Some p) (path :: l)) (f (Ok (mkFile p mkReadBytes))) Q) ->
  monitored users (Reader None l) (open path mkReadBytes ≫= f) Q.
Proof.
  intros Hu He Hf. unfold open. rewrite Hu. cbn [negb].
  apply (seen_use _ (fun p => Did (FOpen path (lit "rb") p) 0) (fun p => if decide (p = null) then Reader None l else Reader (Some p) (path :: l))).
  intros p. split; [done|]. case_decide as Hp; [subst p; split; [constructor|exact He]|]. split; [by constructor|exact (Hf p)].
Qed.

Lemma use_drop p l {Q : unit -> user -> Prop} :
  Q tt (Reader None l) -> monitored users (Reader (Some p) l) (drop_file (mkFile p mkReadBytes)) Q.
Proof.
  intros HQ. apply (seen_use _ (fun _ => Did (FClose p) 0) (fun _ => Reader None l)). intros []. split; [done|].
  split; [constructor|]. by apply monitored_ret.
Qed.

Definition idle_reader (o : user) : Prop := match o with Reader None _ => True | _ => False end.

Lemma use_put_file g addr port l :
  monitored users (Reader None l) (put_file g addr port) (fun _ => idle_reader).
Proof.
  unfold put_file, put_new. rewrite make_path_eq.
  eapply (monitored_bind _ _ _ _ (fun r o => match r with
    | Ok put => exists p l', put_fh put = mkFile p mkReadBytes /\ o = Reader (Some p) l' | Err _ => idle_reader o end)).
  - apply monitored_skip_ret. apply monitored_skip; [cbn [watch users]; unfold stat; no_emit_tac|intros [st|e]]; [|by apply monitored_ret].
    apply use_open; [apply path_of_usb|by apply monitored_ret|]. intros p. apply monitored_ret. by eauto.
  - intros [put|e] o; [|intros Ho; by apply monitored_ret]. intros (p & l' & Hp & ->).
    apply monitored_skip; [cbn [watch users]; unfold put_send; cbv zeta; no_emit_tac|intros r].
    eapply (monitored_bind _ _ _ _ (fun _ => idle_reader)); [|intros [] o Ho; by apply monitored_ret].
    unfold drop_put. apply monitored_skip; [cbn [watch users]; no_emit_tac|intros _]. rewrite Hp. by apply use_drop.
Qed.

Lemma use_for_each {A} (P : user -> Prop) (f : A -> io unit) xs o :
  (forall x o, P o -> monitored users o (f x) (fun _ => P)) -> P o -> monitored users o (for_each f xs) (fun _ => P).
Proof.
  intros Hf. revert o. induction xs as [|x xs IH]; intros o Ho; cbn [for_each]; [by apply monitored_ret|].
  eapply monitored_bind; [by apply Hf|]. intros [] o1 Ho1. by apply IH.
Qed.

Lemma use_distribute o : idle_reader o -> monitored users o distribute_step (fun _ => idle_reader).
Proof.
  intros Ho. pose proof (no_emit_send_log use_seen). unfold distribute_step, distribute_all. do 3 (apply monitored_skip; [no_emit_tac|intros ?]).
  apply use_for_each; [|done]. clear o Ho. intros [b t] o Ho. unfold distribute_to, log_to_udp.
  apply monitored_skip; [cbn [watch users]; no_emit_tac|intros msg]. apply monitored_skip; [done|intros _].
  destruct o as [[|] l| | |]; try done. eapply monitored_bind; [apply use_put_file|]. intros r o1 Ho1. apply monitored_silent; [|done].
  cbn [watch users]. no_emit_tac.
Qed.

(** The ledger task opens a job's file before it prints it. *)
Lemma use_find gs l :
  monitored users (Reader None l) (find_printable gs) (fun r o => exists l', o = Reader None l' /\
    match r with Some (g, path) => path = path_of g false /\ path ∈ l' | None => True end).
Proof.
  revert l. induction gs as [|g gs IH]; intros l; cbn [find_printable]; [by apply monitored_ret; eauto|].
  rewrite make_path_eq. apply monitored_skip_ret. apply use_open; [apply path_of_usb|apply IH|]. intros p.
  eapply (monitored_bind _ _ _ _ (fun _ o => o = Reader None (path_of g false :: l))); [by apply use_drop|].
  intros _ o ->. apply monitored_ret. eexists. split; [done|]. split; [done|]. by left.
Qed.

Lemma use_told {A} l cmd (f : bool -> io A) Q :
  (forall g, cmd = lit "M32 " ++ path_of g false -> path_of g false ∈ l) ->
  (forall b, monitored users (Reader None l) (f b) Q) -> monitored users (Reader None l) (marlin (derusting_gcode_cmd cmd) ≫= f) Q.
Proof.
  intros Hc Hf. apply (seen_use _ (fun _ => Told cmd) (fun _ => Reader None l)). intros b. split; [done|]. split; [by constructor|apply Hf].
Qed.

Lemma use_print g l : path_of g false ∈ l -> monitored users (Reader None l) (print (path_of g false) true) (fun _ => idle_reader).
Proof.
  intros Hg. unfold print, is_idle. apply monitored_skip; [no_emit_tac|intros []]; [|by apply monitored_ret].
  rewrite print_prefix, print_command. eapply (monitored_bind _ _ _ _ (fun _ o => o = Reader None l)).
  - apply use_told; [intros g' E; discriminate E|]. intros []; by apply monitored_ret.
  - intros [] o ->; [|by apply monitored_ret]. apply use_told; [|intros []; by apply monitored_ret].
    intros g' [= E]. apply app_inv_tail, uuid_display_inj in E. by subst.
Qed.

Lemma use_manage observed o : idle_reader o -> monitored users o (manage_ledger_step observed) (fun _ => idle_reader).
Proof.
  intros Ho. pose proof (no_emit_my_ipaddr use_seen). pose proof (no_emit_send_ledger use_seen). pose proof (no_emit_send_log use_seen).
  unfold manage_ledger_step. do 2 (apply monitored_skip; [cbn [watch users]; no_emit_tac|intros ?]).
  destruct a0 as [my|]; [|by apply monitored_ret]. apply monitored_skip; [no_emit_tac|intros b]. apply monitored_skip; [no_emit_tac|intros [st|]].
  2: { apply monitored_silent; [|done]. cbn [watch users]. unfold ledger_state_new. no_emit_tac. }
  eapply (monitored_bind _ _ _ _ (fun _ => idle_reader)).
  2: { intros r o1 Ho1. apply monitored_silent; [|done]. cbn [watch users]. no_emit_tac. }
  unfold manage_state. apply monitored_skip; [cbn [watch users]; unfold takeover; no_emit_tac|intros st1].
  do 1 (apply monitored_skip; [cbn [watch users]; unfold is_owner; no_emit_tac|intros own]).
  destruct (own && negb observed); [by apply monitored_ret|].
  apply monitored_skip; [cbn [watch users]; unfold is_owner; no_emit_tac|intros own2].
  apply monitored_skip; [cbn [watch users]; unfold is_ready, is_idle; no_emit_tac|intros av].
  eapply (monitored_bind _ _ _ _ (fun _ => idle_reader)).
  - destruct av; [|by apply monitored_ret]. destruct o as [[|] l| | |]; try done. unfold print_job.
    eapply monitored_bind; [apply use_find|]. intros [[g path]|] o (l' & -> & Hp); [|by apply monitored_ret]. destruct Hp as [-> Hp].
    eapply monitored_bind; [by apply use_print|]. intros r o Ho2. destruct r; [|by apply monitored_ret].
    apply monitored_silent; [|done]. cbn [watch users]. unfold set_offline. cbv zeta. no_emit_tac.
  - intros st2 o1 Ho1. apply monitored_silent; [|done]. cbn [watch users]. unfold pass_on, is_owner. cbv zeta. no_emit_tac.
Qed.

(** ** The tasks together *)

Definition is_reader (o : user) : bool := match o with Reader _ _ => true | _ => false end.

Definition home (i : task_name) (o : user) : Prop := match i with Task_tcp_worker => rested o | _ => idle_reader o end.

Definition start (i : task_name) : user := match i with Task_tcp_worker => Resting | _ => Reader None [] end.

(** What came in on the connections: each as it is accepted, then the packets taken from it. *)
Definition arrival (b : use_obs) : option use_obs := match b with Accepted _ | Got _ => Some b | _ => None end.

Definition arrivals (es : list (actor * event call)) : list use_obs :=
  omap arrival (collect use_seen (acts (Task Task_tcp_worker) es)).

Record users_ok (us : task_name -> user) (es : list (actor * event call)) (d : device) : Prop := {
  users_follow : forall i, follows users (start i) (collect use_seen (acts (Task i) es)) (us i);
  users_task : forall i, monitored_task users (home i) (us i) (fibers (tasks d) i);
  users_kind : forall i, is_reader (us i) = negb (bool_decide (i = Task_tcp_worker));
  users_callback : no_emit use_seen (callback_left d)
}.

Lemma users_boot fuel p q : users_ok start [] (device_boot fuel p q).
Proof.
  pose proof use_distribute as Hd. pose proof use_manage as Hm. pose proof (use_worker fuel) as Hw.
  assert (forall o, idle_reader o -> monitored users o heartbeat_step (fun _ => idle_reader)) as Hh.
  { intros o Ho. apply monitored_silent; [|done]. cbn [watch users]. pose proof (no_emit_heartbeat use_seen).
    pose proof (no_emit_my_ipaddr use_seen). unfold heartbeat_step. no_emit_tac. }
  assert (forall o, idle_reader o -> monitored users o lifetime_check_step (fun _ => idle_reader)) as Hl.
  { intros o Ho. assert (forall es, no_emit use_seen (fresh_entries es)) as Hf.
    { induction es as [|[k t] es IH]; cbn [fresh_entries]; no_emit_tac. }
    apply monitored_silent; [|done]. cbn [watch users]. unfold lifetime_check_step. no_emit_tac. }
  assert (forall h o, idle_reader o -> monitored users o (udp_receiver_step h) (fun _ => idle_reader)) as Hu.
  { intros h o Ho. pose proof (no_emit_drop_packet use_seen). apply monitored_silent; [|done]. cbn [watch users].
    unfold udp_receiver_step, udp_socket_receive, drop_iter, handle_message, handle_payload, ledger_state_new. cbv zeta. no_emit_tac. }
  split; [done| |by intros []|apply no_emit_ret].
  intros i. destruct i; (split; [|intros ? o Ho]); cbn [now turn fibers tasks device_boot boot task_body heartbeat udp_receiver
    address_book_lifetime_check manage_ledger tcp_worker distribute_file]; try (first [apply Hh|apply Hl|apply Hm|apply Hu|apply Hw|apply Hd]; first [exact I|exact Ho]).
  apply monitored_skip; [no_emit_tac|intros ?]. by apply Hm.
Qed.

Lemma use_seen_cases {X} (c : call X) x :
  (use_seen X c x = [] /\ fs_done_seen X c x = []) \/
  exists b, use_seen X c x = [b] /\ fs_done_seen X c x = match b with Did e a => [(e, a)] | _ => [] end.
Proof.
  destruct c as [X c|X c|X c|X c|X c|X c]; try (by left); destruct c; try (by left); try (right; by eexists).
  destruct x as [p|]; [right; by eexists|by left].
Qed.

Lemma user_next_kind o b o1 : user_next o b o1 -> is_reader o1 = is_reader o.
Proof. destruct 1; try done. by destruct o. Qed.

Lemma reader_hears o b o1 : user_next o b o1 -> is_reader o = true -> arrival b = None.
Proof. destruct 1; try done. by destruct o. Qed.

Lemma use_callback cb : no_emit use_seen (callback_io cb).
Proof.
  pose proof (no_emit_drop_packet use_seen). destruct cb as [| | | | |arg buf addr|this e]; cbn [callback_io];
    unfold listener_accept, listener_hold_recv, connection_recv, connection_err, connection_sent, udp_socket_recv; try no_emit_tac.
  destruct e; cbn [put_step]; unfold put_connected, put_sent, put_recv, put_err, pump, read; cbv zeta; no_emit_tac.
Qed.

(** A step of the machine is a use of the stick by one task, or none. *)
Lemma users_step us es d e d' :
  device_step d e d' -> users_ok us es d ->
  (fs_done (events e) = [] /\ arrivals (es ++ e) = arrivals es /\ users_ok us (es ++ e) d') \/
  exists i b o1, user_next (us i) b o1 /\ fs_done (events e) = (match b with Did e a => [(e, a)] | _ => [] end) /\
    arrivals (es ++ e) = arrivals es ++ option_list (arrival b) /\ users_ok (<[i := o1]> us) (es ++ e) d'.
Proof.
  intros Hs [Hf Ht Hk Hc].
  assert (forall X (c : call X) x a d1, e = [(a, Ev c x)] -> use_seen X c x = [] -> fs_done_seen X c x = [] ->
    (forall i, monitored_task users (home i) (us i) (fibers (tasks d1) i)) -> no_emit use_seen (callback_left d1) ->
    fs_done (events e) = [] /\ arrivals (es ++ e) = arrivals es /\ users_ok us (es ++ e) d1) as Hq.
  { intros X c x a d1 -> Eu Ed Ht1 Hc1. assert (forall i, collect use_seen (acts (Task i) (es ++ [(a, Ev c x)])) = collect use_seen (acts (Task i) es)) as E.
    { intros i. rewrite acts_app, collect_app. cbn. case_decide; cbn; by rewrite ?Eu, app_nil_r. }
    split; [cbn; by rewrite Ed|]. split; [unfold arrivals; by rewrite E|]. split; [intros i; rewrite E; apply Hf|done..]. }
  pose proof (fun i => monitored_step users u i (home i) _ _ _ _ Hs (Ht i)) as Hm.
  destruct Hs as [i e d' [T a tu E|T X c k tu x hs s' E Hh He]|cb E|X c k x s' E He].
  - left. rewrite app_nil_r. split; [done|]. split; [done|]. split; try done. intros j. destruct (Hm j) as (o1 & F & Hj). cbn in F. by subst.
  - destruct (use_seen_cases c x) as [[Eu Ed]|(b & Eu & Ed)].
    + left. eapply Hq; try done. intros j. destruct (Hm j) as (o1 & F & Hj). cbn in F. case_decide; cbn in F; rewrite ?Eu in F; cbn in F; by subst.
    + right. destruct (Hm i) as (o1 & F & Hi). cbn in F. rewrite decide_True in F by done. cbn in F. rewrite Eu in F.
      destruct F as (o1' & Hb & ->). exists i, b, o1'. split; [done|]. split; [cbn; rewrite Ed; by destruct b|].
      split; [|split; cbn; try done].
      * unfold arrivals. rewrite acts_app, collect_app, omap_app. cbn. case_decide as Hi'; [simplify_eq; cbn; rewrite Eu; cbn; by destruct (arrival b)|].
        rewrite (reader_hears _ _ _ Hb); [done|]. rewrite Hk. by rewrite bool_decide_eq_false_2 by congruence.
      * intros j. rewrite acts_app, collect_app. cbn. destruct (decide (i = j)) as [<-|Hj].
        -- rewrite decide_True, fn_lookup_insert by done. apply follows_app. exists (us i). split; [done|]. cbn. rewrite Eu. by exists o1'.
        -- rewrite decide_False, fn_lookup_insert_ne by congruence. cbn. rewrite app_nil_r. apply Hf.
      * intros j. destruct (decide (i = j)) as [<-|Hj]; [by rewrite fn_lookup_insert|]. rewrite fn_lookup_insert_ne by done.
        destruct (Hm j) as (o2 & F2 & Hj2). cbn in F2. rewrite decide_False in F2 by congruence. cbn in F2. by subst.
      * intros j. destruct (decide (i = j)) as [<-|Hj]; [|by rewrite fn_lookup_insert_ne]. rewrite fn_lookup_insert.
        by rewrite (user_next_kind _ _ _ Hb).
  - left. rewrite app_nil_r. split; [done|]. split; [done|]. split; try done. apply use_callback.
  - left. rewrite E in Hc. destruct (no_emit_after u _ _ _ x Hc) as [Eu Hk'].
    destruct (use_seen_cases c x) as [[_ Ed]|(b & Eb & _)]; [|congruence]. by eapply Hq.
Qed.

(** ** What is on the stick *)

Definition own (o : user) : option ptr := match o with Reader f _ | Storing _ _ _ f _ => f | _ => None end.

(** Among what came in there is a connection that brought a whole upload for [g] with the content [w]. *)
Definition complete (A : list use_obs) (g : Uuid) (w : bytes) : Prop :=
  exists before pcb p qs after, A = before ++ Accepted pcb :: Got p :: (Got <$> qs) ++ after /\ whole p qs g w.

(** The present connection, as the worker sees it. *)
Definition upload_ok (A : list use_obs) (s : disk) (o : user) : Prop :=
  match o with
  | Serving None => exists before pcb, A = before ++ [Accepted pcb]
  | Serving (Some p) => exists before pcb, A = before ++ [Accepted pcb; Got p]
  | Storing p qs g f w =>
      (exists before pcb, A = before ++ Accepted pcb :: Got p :: (Got <$> qs)) /\ files s !! path_of g true = Some w /\
      (forall p, f = Some p -> handles s !! p = Some (path_of g true, true))
  | _ => True
  end.

(** Every task's handle is open and its own; the partial file holds what was stored so far; the files under final names are
    complete uploads; and those that a task could open are there. *)
Record disk_ok (us : task_name -> user) (A : list use_obs) (s : disk) : Prop := {
  disk_open : forall i p, own (us i) = Some p -> handles s !! p <> None;
  disk_apart : forall i j p, own (us i) = Some p -> own (us j) = Some p -> i = j;
  disk_upload : upload_ok A s (us Task_tcp_worker);
  disk_final : forall g w, files s !! path_of g false = Some w -> complete A g w;
  disk_found : forall i f l g, us i = Reader f l -> path_of g false ∈ l -> files s !! path_of g false <> None
}.

Lemma complete_later A b g w : complete A g w -> complete (A ++ b) g w.
Proof.
  intros (x & pcb & p & qs & y & -> & Hw). exists x, pcb, p, qs, (y ++ b). split; [|done]. by rewrite <- !app_assoc; cbn; rewrite <- app_assoc.
Qed.

Lemma final_partial g g' : path_of g false <> path_of g' true.
Proof. by intros [_ ?]%path_of_inj. Qed.

(** One task changes its state and the stick, and keeps the rest. *)
Lemma disk_ok_change us A s i o A' s' :
  disk_ok us A s ->
  (forall p, own o = Some p -> handles s' !! p <> None /\ forall j, j <> i -> own (us j) <> Some p) ->
  (forall j p, j <> i -> own (us j) = Some p -> handles s' !! p = handles s !! p) ->
  (if decide (i = Task_tcp_worker) then upload_ok A' s' o else A' = A /\ files s' = files s) ->
  (forall g w, files s' !! path_of g false = Some w -> files s !! path_of g false = Some w \/ complete A' g w) ->
  (exists b, A' = A ++ b) -> (forall g, files s !! path_of g false <> None -> files s' !! path_of g false <> None) ->
  (forall f l g, o = Reader f l -> path_of g false ∈ l -> files s' !! path_of g false <> None) ->
  disk_ok (<[i := o]> us) A' s'.
Proof.
  intros [Ho Ha Hu Hf Hl] H1 H2 H3 H4 [b ->] H5 H6. split.
  - intros j p. destruct (decide (i = j)) as [<-|Hj]; [rewrite fn_lookup_insert; intros Hp; by apply H1|].
    rewrite fn_lookup_insert_ne by done. intros Hp. rewrite (H2 j) by done. by apply (Ho j).
  - intros j k p. destruct (decide (i = j)) as [<-|Hj], (decide (i = k)) as [<-|Hk]; rewrite ?fn_lookup_insert, ?fn_lookup_insert_ne by done; [done| | |].
    + intros Hp Hq. by destruct (proj2 (H1 p Hp) k).
    + intros Hq Hp. by destruct (proj2 (H1 p Hp) j).
    + apply Ha.
  - case_decide as Hi; [subst i; by rewrite fn_lookup_insert|]. rewrite fn_lookup_insert_ne by done. destruct H3 as [-> Hs].
    unfold upload_ok in *. rewrite Hs. destruct (us Task_tcp_worker) as [|[]| |p qs g f w] eqn:E; try done.
    destruct Hu as (? & ? & Hh). split_and!; [done|done|]. intros q ->. rewrite (H2 Task_tcp_worker q); [by apply Hh|congruence|by rewrite E].
  - intros g w Hw. destruct (H4 g w Hw) as [Hw'|?]; [|done]. by apply complete_later, Hf.
  - intros j f l g. destruct (decide (i = j)) as [<-|Hj]; [rewrite fn_lookup_insert; apply H6|].
    rewrite fn_lookup_insert_ne by done. intros E Hg. by eapply H5, Hl.
Qed.

(** The effect of a use; what is written is written whole. *)
Definition use_done (b : use_obs) (s s' : disk) : Prop :=
  match b with
  | Did e a => disk_do e a s = Some s' /\ match e with FWrite d _ => a = len d | _ => True end
  | _ => s' = s
  end.

Lemma reader_step us A s i b o1 s' :
  disk_ok us A s -> is_reader (us i) = true -> i <> Task_tcp_worker -> user_next (us i) b o1 -> use_done b s s' ->
  disk_ok (<[i := o1]> us) A s'.
Proof.
  intros Hd Hk Hi Hn Hs. pose proof Hd as [Ho Ha Hu Hf Hl]. pose proof (Hl i) as Hli. pose proof (Ho i) as Hoi. pose proof (Ha i) as Hai.
  remember (us i) as o eqn:E. apply eq_sym in E.
  assert (forall o' s1, handles s1 = handles s -> files s1 = files s -> own o' = None ->
    (forall f l g, o' = Reader f l -> path_of g false ∈ l -> files s !! path_of g false <> None) -> disk_ok (<[i := o']> us) A s1) as Hsame.
  { intros o' s1 Hh Hfs Hw Hl'. apply (disk_ok_change us A s); try done; rewrite ?Hh, ?Hfs; try done.
    - intros p. by rewrite Hw.
    - by rewrite decide_False.
    - intros g w ?. by left.
    - exists []. by rewrite app_nil_r. }
  destruct Hn as [o pcb Hr|p|p g a|p g f a Hf0|p qs g f w q|p qs g f w d a|p qs g f w a|p qs g w a|p qs g w a Hw|l path a|l path f a Hf0|l f a|l cmd Hc];
    try done; [by destruct o|..]; cbn in Hs.
  - destruct Hs as [Hs _]. rewrite decide_True in Hs by done. injection Hs as <-. by apply Hsame.
  - destruct Hs as [Hs _]. rewrite decide_False in Hs by done. case_decide as Hfree; [done|].
    rewrite decide_False in Hs by done. case_decide as Hpath; [|done]. injection Hs as <-. destruct Hpath as [_ Hpath].
    apply (disk_ok_change us A s); cbn; try done.
    + intros p [= <-]. rewrite lookup_insert_eq. split; [done|]. intros j Hj Hp. by apply (Ho j) in Hp.
    + intros j p Hj Hp. rewrite lookup_insert_ne; [done|]. intros ->. by apply (Ho j) in Hp.
    + by rewrite decide_False.
    + by left.
    + exists []. by rewrite app_nil_r.
    + intros f' l' g [= _ <-] [<-|Hg]%elem_of_cons; [done|]. by apply (Hli None l).
  - destruct Hs as [[= <-] _]. apply (disk_ok_change us A s); cbn; try done.
    + intros j p Hj Hp. rewrite lookup_delete_ne; [done|]. intros ->. apply Hj. apply eq_sym. by apply (Hai j p).
    + by rewrite decide_False.
    + by left.
    + exists []. by rewrite app_nil_r.
    + intros f' l' g [= _ <-]. by apply (Hli (Some f) l).
  - subst s'. by apply Hsame.
Qed.

(** The files under final names are the same as long as only a partial file changes. *)
Lemma final_insert (m : gmap bytes bytes) g' v g : <[path_of g' true := v]> m !! path_of g false = m !! path_of g false.
Proof. apply lookup_insert_ne. apply not_eq_sym, final_partial. Qed.

Lemma final_alter (m : gmap bytes bytes) f g' g : alter f (path_of g' true) m !! path_of g false = m !! path_of g false.
Proof. apply lookup_alter_ne. apply not_eq_sym, final_partial. Qed.

Lemma final_delete (m : gmap bytes bytes) g' g : base.delete (path_of g' true) m !! path_of g false = m !! path_of g false.
Proof. apply lookup_delete_ne. apply not_eq_sym, final_partial. Qed.

(** The worker is left without a handle, or with the one it had. *)
Lemma worker_shut us A s o A' s' :
  disk_ok us A s -> own o = None -> is_reader o = false -> handles s' = handles s -> upload_ok A' s' o ->
  (forall g w, files s' !! path_of g false = Some w -> files s !! path_of g false = Some w \/ complete A' g w) ->
  (exists b, A' = A ++ b) -> (forall g, files s !! path_of g false <> None -> files s' !! path_of g false <> None) ->
  disk_ok (<[Task_tcp_worker := o]> us) A' s'.
Proof.
  intros Hd Hw Hr Hh Hup Hfin HA Hkeep. apply (disk_ok_change us A s); try done; rewrite ?Hh; try done.
  - intros p. by rewrite Hw.
  - intros f l g ->. done.
Qed.

Lemma worker_held us A s o p A' s' :
  disk_ok us A s -> own o = Some p -> own (us Task_tcp_worker) = Some p -> is_reader o = false -> handles s' = handles s ->
  upload_ok A' s' o -> (forall g, files s' !! path_of g false = files s !! path_of g false) -> (exists b, A' = A ++ b) ->
  disk_ok (<[Task_tcp_worker := o]> us) A' s'.
Proof.
  intros Hd Hw Hw' Hr Hh Hup Hfin HA. apply (disk_ok_change us A s); try done; rewrite ?Hh; try done.
  - intros p'. rewrite Hw. intros [= <-]. split; [by apply (disk_open _ _ _ Hd) in Hw'|].
    intros j Hj Hp. apply Hj. by apply (disk_apart _ _ _ Hd j Task_tcp_worker p).
  - intros g w. rewrite Hfin. by left.
  - intros g. by rewrite Hfin.
  - intros f l g ->. done.
Qed.

Lemma worker_step us A s b o1 s' :
  disk_ok us A s -> is_reader (us Task_tcp_worker) = false -> user_next (us Task_tcp_worker) b o1 -> use_done b s s' ->
  disk_ok (<[Task_tcp_worker := o1]> us) (A ++ option_list (arrival b)) s'.
Proof.
  intros Hd Hk Hn Hs. pose proof Hd as [Ho Ha Hu Hf Hl]. pose proof (Ho Task_tcp_worker) as Hoi. pose proof (Ha Task_tcp_worker) as Hai.
  pose proof (fun o' A' s1 => worker_shut us A s o' A' s1 Hd) as Hshut. pose proof (fun o' p A' s1 => worker_held us A s o' p A' s1 Hd) as Hheld.
  remember (us Task_tcp_worker) as o eqn:E. apply eq_sym in E.
  destruct Hn as [o pcb Hr|p|p g a|p g f a Hf0|p qs g f w q|p qs g f w d a|p qs g f w a|p qs g w a|p qs g w a Hw|l path a|l path f a Hf0|l f a|l cmd Hc];
    try done; cbn in Hs, Hu |- *; rewrite ?app_nil_r.
  - subst s'. apply Hshut; try done; [by eexists _, _|by left|by eexists].
  - subst s'. destruct Hu as (x & pcb & ->). apply Hshut; try done; [|by left|by eexists].
    exists x, pcb. by rewrite <- app_assoc.
  - destruct Hs as [Hs _]. rewrite decide_True in Hs by done. injection Hs as <-. apply Hshut; try done; [by left|exists []; by rewrite app_nil_r].
  - destruct Hs as [Hs _]. rewrite decide_False in Hs by done. case_decide as Hfree; [done|].
    rewrite decide_True in Hs by done. injection Hs as <-. destruct Hu as (x & pcb & ->).
    apply (disk_ok_change us (x ++ [Accepted pcb; Got p]) s); cbn; try done.
    + intros p' [= <-]. rewrite lookup_insert_eq. split; [done|]. intros j Hj Hp. by apply (Ho j) in Hp.
    + intros j p' Hj Hp. rewrite lookup_insert_ne; [done|]. intros ->. by apply (Ho j) in Hp.
    + split; [by exists x, pcb|]. rewrite lookup_insert_eq. split; [done|]. intros p' [= <-]. by rewrite lookup_insert_eq.
    + intros g' w'. rewrite final_insert. by left.
    + exists []. by rewrite app_nil_r.
    + intros g'. by rewrite final_insert.
  - subst s'. destruct Hu as ((x & pcb & ->) & Hw & Hh). apply (Hheld _ f); try done; [|by eexists].
    split; [|done]. exists x, pcb. rewrite fmap_app, <- app_assoc. done.
  - destruct Hs as [Hs ->]. rewrite decide_True in Hs by (pose proof (len_nonneg d); lia).
    destruct Hu as (HA & Hw & Hh). rewrite (Hh f) in Hs by done. injection Hs as <-. apply (Hheld _ f); try done.
    + split; [done|]. cbn. rewrite lookup_alter_eq, Hw, ztake_ge by done. by split.
    + intros g'. apply final_alter.
    + exists []. by rewrite app_nil_r.
  - destruct Hs as [[= <-] _]. destruct Hu as (HA & Hw & Hh). apply (disk_ok_change us A s); cbn; try done.
    + intros j p' Hj Hp. rewrite lookup_delete_ne; [done|]. intros ->. apply Hj, eq_sym. by apply (Hai j p').
    + by left.
    + exists []. by rewrite app_nil_r.
  - destruct Hs as [Hs _]. destruct Hu as (HA & Hw & Hh). apply Hshut; try done.
    + case_decide; by injection Hs as <-.
    + intros g' w'. case_decide; injection Hs as <-; cbn; rewrite ?final_delete; by left.
    + exists []. by rewrite app_nil_r.
    + intros g'. case_decide; injection Hs as <-; cbn; by rewrite ?final_delete.
  - destruct Hs as [Hs _]. destruct Hu as ((x & pcb & ->) & Hw' & Hh). rewrite Hw' in Hs. case_decide as Ha0.
    { injection Hs as <-. apply Hshut; try done; [by left|exists []; by rewrite app_nil_r]. }
    destruct (files s !! path_of g false) as [|] eqn:Eg; [done|]. injection Hs as <-. apply Hshut; try done; cbn.
    + intros g' w' Hg'. destruct (decide (path_of g false = path_of g' false)) as [Eq|Hne].
      * rewrite <- Eq, lookup_insert_eq in Hg'. injection Hg' as <-. apply path_of_inj in Eq as [<- _]. right.
        exists x, pcb, p, qs, []. by rewrite app_nil_r.
      * left. by rewrite lookup_insert_ne, final_delete in Hg'.
    + exists []. by rewrite app_nil_r.
    + intros g' Hg'. destruct (decide (path_of g false = path_of g' false)) as [Eq|Hne]; [by rewrite <- Eq, lookup_insert_eq|].
      by rewrite lookup_insert_ne, final_delete.
Qed.

(** ** Every run *)

(** No write fell short: the stick was never full. *)
Definition wrote_all (evs : list (fs_event * Z)) : Prop :=
  Forall (fun e => match e.1 with FWrite d _ => e.2 = len d | _ => True end) evs.

(** The stick as the start-up leaves it ([clean_usb_deletes] of [Main.v]): no jobs, and no file open. *)
Definition blank (s : disk) : Prop := handles s = ∅ /\ forall g, files s !! path_of g false = None.

Lemma disk_start A s : blank s -> disk_ok start A s.
Proof.
  intros [Hh Hf]. split.
  - intros i p. by destruct i.
  - intros i j p. by destruct i.
  - done.
  - intros g w. by rewrite Hf.
  - intros i f l g. destruct i; try done; intros [= _ <-] H; by apply elem_of_nil in H.
Qed.

Lemma files_step us es d e d' s s' :
  device_step d e d' -> users_ok us es d -> disk_ok us (arrivals es) s ->
  disk_run (fs_done (events e)) s = Some s' -> wrote_all (fs_done (events e)) ->
  exists us', users_ok us' (es ++ e) d' /\ disk_ok us' (arrivals (es ++ e)) s'.
Proof.
  intros Hs Hu Hd Hr Hw. pose proof (users_kind _ _ _ Hu) as Hk.
  destruct (users_step _ _ _ _ _ Hs Hu) as [(Ef & Ea & Hu')|(i & b & o1 & Hb & Ef & Ea & Hu')]; rewrite Ef in Hr, Hw; rewrite Ea.
  - injection Hr as <-. by exists us.
  - exists (<[i := o1]> us). split; [done|].
    assert (use_done b s s') as Hdone.
    { destruct b as [| |e' a'|]; cbn in Hr; try (by injection Hr). destruct (disk_do e' a' s) as [s1|] eqn:E; [|done]. injection Hr as <-.
      split; [done|]. by apply Forall_inv in Hw. }
    specialize (Hk i). destruct (decide (i = Task_tcp_worker)) as [->|Hi]; [by eapply worker_step|].
    rewrite bool_decide_eq_false_2 in Hk by done. rewrite (reader_hears _ _ _ Hb Hk), app_nil_r. by eapply reader_step.
Qed.

Lemma files_run us es d es' d' s s' :
  device_run d es' d' -> users_ok us es d -> disk_ok us (arrivals es) s ->
  disk_run (fs_done (events es')) s = Some s' -> wrote_all (fs_done (events es')) ->
  exists us', users_ok us' (es ++ es') d' /\ disk_ok us' (arrivals (es ++ es')) s'.
Proof.
  intros Hr Hu Hd. revert s'. induction Hr as [|es' e d1 d2 Hr IH Hs]; intros s'.
  - intros [= <-] _. rewrite app_nil_r. by exists us.
  - unfold fs_done, wrote_all. rewrite events_app, collect_app, disk_run_app, Forall_app. intros H [Hw1 Hw2].
    destruct (disk_run _ s) as [s1|] eqn:E; [|done]. destruct (IH s1 eq_refl Hw1) as (us1 & Hu1 & Hd1).
    rewrite app_assoc. by eapply files_step.
Qed.

Lemma files_boot fuel p q s0 es d s :
  blank s0 -> device_run (device_boot fuel p q) es d -> disk_run (fs_done (events es)) s0 = Some s -> wrote_all (fs_done (events es)) ->
  exists us, users_ok us es d /\ disk_ok us (arrivals es) s.
Proof.
  intros Hb Hr Hs Hw. apply (files_run start [] (device_boot fuel p q) es d s0); try done; [apply users_boot|by apply disk_start].
Qed.

(** ** Final names *)

(** Only partial files are open for writing. *)
Definition writes_partial (s : disk) : Prop := forall p path, handles s !! p = Some (path, true) -> exists g, path = path_of g true.

Lemma use_keeps o b o1 s s' :
  user_next o b o1 -> disk_run (match b with Did e a => [(e, a)] | _ => [] end) s = Some s' -> writes_partial s ->
  writes_partial s' /\ forall g w, files s !! path_of g false = Some w -> files s' !! path_of g false = Some w.
Proof.
  intros Hn Hr Hp. destruct b as [| |e a|]; [by injection Hr as <-..| |by injection Hr as <-]. cbn in Hr.
  destruct (disk_do e a s) as [s1|] eqn:Hs; [|done]. injection Hr as ->.
  inversion Hn as [| |? g ?|? g f ? Hf0| |? ? g f w d ?|? ? g f w ?|? ? g w ?|? ? g w ? Hw|l path ?|l path f ? Hf0|l f ?|]; subst; cbn in Hs.
  - by injection Hs as <-.
  - rewrite decide_False in Hs by done. case_decide; [done|]. rewrite decide_True in Hs by done. injection Hs as <-. cbn. split.
    + intros x path; cbn; intros [[<- [= <-]]|[_ ?]]%lookup_insert_Some; [by eexists|by eapply Hp].
    + intros g' w. by rewrite final_insert.
  - case_decide; [|done]. destruct (handles s !! f) as [[path []]|] eqn:E; injection Hs as <-; try done.
    split; [exact Hp|]. apply Hp in E as [g' ->]. intros g'' w'. cbn. by rewrite final_alter.
  - injection Hs as <-. split; [|done]. intros x path; cbn; intros [_ ?]%lookup_delete_Some. by eapply Hp.
  - case_decide; injection Hs as <-; [|done]. split; [exact Hp|]. intros g' w'. cbn. by rewrite final_delete.
  - case_decide; [by injection Hs as <-|]. destruct (files s !! path_of g true); [|done].
    destruct (files s !! path_of g false) eqn:E; [done|]. injection Hs as <-. split; [exact Hp|]. intros g' w' Hw'. cbn.
    rewrite lookup_insert_ne, final_delete; [done|]. intros Eq. rewrite <- Eq in Hw'. congruence.
  - by injection Hs as <-.
  - rewrite decide_False in Hs by done. case_decide; [done|]. rewrite decide_False in Hs by done. case_decide; [|done]. injection Hs as <-.
    split; [|done]. intros x path'; cbn; intros [[_ [=]]|[_ ?]]%lookup_insert_Some. by eapply Hp.
  - injection Hs as <-. split; [|done]. intros x path; cbn; intros [_ ?]%lookup_delete_Some. by eapply Hp.
Qed.

Lemma files_kept us es d es' d' s s' :
  device_run d es' d' -> users_ok us es d -> writes_partial s -> disk_run (fs_done (events es')) s = Some s' ->
  (exists us', users_ok us' (es ++ es') d') /\ writes_partial s' /\
  forall g w, files s !! path_of g false = Some w -> files s' !! path_of g false = Some w.
Proof.
  intros Hr Hu Hp. revert s'. induction Hr as [|es' e d1 d2 Hr IH Hs]; intros s'.
  - intros [= <-]. rewrite app_nil_r. eauto.
  - unfold fs_done. rewrite events_app, collect_app, disk_run_app. intros H.
    destruct (disk_run _ s) as [s1|] eqn:E; [|done]. destruct (IH s1 eq_refl) as ([us1 Hu1] & Hp1 & Hk). rewrite app_assoc.
    destruct (users_step _ _ _ _ _ Hs Hu1) as [(Ef & _ & Hu')|(i & b & o1 & Hb & Ef & _ & Hu')]; fold (fs_done (events e)) in H; rewrite Ef in H.
    + injection H as <-. eauto.
    + destruct (use_keeps _ _ _ _ _ Hb H Hp1) as [Hp2 Hk2]. split; [by eexists|]. split; [done|]. intros g w Hg. by apply Hk2, Hk.
Qed.

Lemma files_forever fuel p q s0 es d s es' d' s' g w :
  blank s0 -> device_run (device_boot fuel p q) es d -> disk_run (fs_done (events es)) s0 = Some s ->
  device_run d es' d' -> disk_run (fs_done (events es')) s = Some s' ->
  files s !! path_of g false = Some w -> files s' !! path_of g false = Some w.
Proof.
  intros [Hh _] Hr Hs Hr' Hs'. destruct (files_kept start [] (device_boot fuel p q) es d s0 s Hr (users_boot fuel p q)) as ([us Hu] & Hp & _); [|done|].
  { intros x path. by rewrite Hh, lookup_empty. }
  destruct (files_kept us es d es' d' s s' Hr' Hu Hp Hs') as (_ & _ & H). apply H.
Qed.

(** C13. A file under its final name is a whole upload, for good. However the tasks and lwIP's callbacks are interleaved, if the stick held no jobs
    after start-up and was never full, each job file on it is what one connection brought: an accepted request, with
    the job's id if it names one, and at least as many bytes of body as it announces, of which the file holds
    exactly the announced ones; and whatever happens later, it is never changed or removed. *)
Theorem stored_complete fuel p q s0 es d s g w :
  blank s0 -> device_run (device_boot fuel p q) es d -> disk_run (fs_done (events es)) s0 = Some s -> wrote_all (fs_done (events es)) ->
  files s !! path_of g false = Some w ->
  complete (arrivals es) g w /\
  forall es' d' s', device_run d es' d' -> disk_run (fs_done (events es')) s = Some s' -> files s' !! path_of g false = Some w.
Proof.
  intros Hb Hr Hs Hw Hg. destruct (files_boot _ _ _ _ _ _ _ Hb Hr Hs Hw) as (us & _ & Hd). split; [by apply (disk_final _ _ _ Hd)|].
  intros es' d' s' Hr' Hs'. by eapply files_forever.
Qed.

(** What is seen of a step. *)
Definition events_seen (e : list (actor * event call)) : list use_obs :=
  match e with [(_, @Ev _ X c x)] => use_seen X c x | _ => [] end.

Lemma callback_unseen us es d e d' :
  device_step d [(Lwip_thread, e)] d' -> users_ok us es d -> events_seen [(Lwip_thread, e)] = [].
Proof.
  intros Hs Hu. pose proof (users_callback _ _ _ Hu) as Hc. remember [(Lwip_thread, e)] as l eqn:El. clear Hu.
  destruct Hs as [i es' d' []| |X c k x s1 E He]; try done. rewrite E in Hc. by apply (no_emit_after u _ _ _ x) in Hc as [? _].
Qed.

(** C12. Marlin prints whole uploads only, if the stick held no jobs after start-up and every write on it was
    taken in full ([wrote_all]: the handler ignores the result of a write, so a stick that fills up truncates the file). Whenever the machine
    then tells Marlin to print a job, in any interleaving, the job's file is on the stick,
    is a complete upload that came in on one connection, and stays what it is while it is printed and
    afterwards, whatever is uploaded, even under the same id. *)
Theorem printed_complete fuel p q s0 es d s a g b d' :
  blank s0 -> device_run (device_boot fuel p q) es d -> disk_run (fs_done (events es)) s0 = Some s -> wrote_all (fs_done (events es)) ->
  device_step d [(a, Ev (CMarlin (derusting_gcode_cmd (lit "M32 " ++ path_of g false))) b)] d' ->
  exists w, files s !! path_of g false = Some w /\ complete (arrivals es) g w /\
    forall es' d'' s', device_run d' es' d'' -> disk_run (fs_done (events es')) s = Some s' -> files s' !! path_of g false = Some w.
Proof.
  intros Hb Hr Hs Hw Hst. destruct (files_boot _ _ _ _ _ _ _ Hb Hr Hs Hw) as (us & Hu & Hd).
  assert (files s !! path_of g false <> None) as Hg.
  { destruct a as [i|].
    - destruct (monitored_step users u i (home i) _ _ _ _ Hst (users_task _ _ _ Hu i)) as (o1 & F & _).
      cbn in F. rewrite decide_True in F by done. cbn in F. destruct F as (o2 & Hn & _). inversion Hn as [| | | | | | | | | | | |l cmd Hc E]; subst.
      eapply (disk_found _ _ _ Hd i None l); [done|]. by apply Hc.
    - pose proof (callback_unseen _ _ _ _ _ Hst Hu) as Hc. done. }
  destruct (files s !! path_of g false) as [w|] eqn:E; [|done]. exists w. split; [done|]. split; [by apply (disk_final _ _ _ Hd)|].
  intros es' d'' s' Hr' Hs'. apply device_run_one in Hst. pose proof (device_run_app _ _ _ _ _ Hst Hr') as Hr2. by eapply files_forever.
Qed.
End users.

(** ** An upload that is printed *)

(** Each connection brings the request and the whole body in one packet. *)
Definition demo_upload_ans {X} (c : @call ref_vendor X) : X :=
  match c in call X return X with
  | CRt c =>
      match c in rt_call X return X with
      | conn_receive => Some (demo_packet [demo_request; lit "cde"])
      | c => demo_ans (CRt c)
      end
  | c => demo_ans c
  end.

(** The machine makes a ledger; a connection comes in and is served; the ledger task takes a turn up to the point where it
    has Marlin print the job. *)
Definition demo_moves : list move :=
  demo_create ++ [Interrupt (New_pcb true 9 err_t.Ok); Resume; Resume; Resume] ++ replicate 137 (Go Task_tcp_worker) ++
  replicate 27 (Go Task_manage_ledger).

Definition demo_printer : list (actor * event (@call ref_vendor)) * device := driven (@demo_upload_ans) demo_moves demo_device.

Definition demo_blank : disk := mkDisk ∅ ∅.

Definition demo_full : disk := default demo_blank (disk_run (fs_done (events demo_printer.1)) demo_blank).

Lemma demo_blank_blank : blank (V := ref_vendor) demo_blank.
Proof. done. Qed.

Lemma demo_full_run : disk_run (fs_done (events demo_printer.1)) demo_blank = Some demo_full.
Proof. vm_compute. reflexivity. Qed.

Lemma demo_full_wrote : wrote_all (fs_done (events demo_printer.1)).
Proof. vm_compute. repeat constructor. Qed.

Lemma stored_complete_witness :
  files demo_full !! path_of (demo_id 3) false = Some (lit "abcde") /\
  complete (arrivals demo_printer.1) (demo_id 3) (lit "abcde").
Proof.
  assert (E : files demo_full !! path_of (demo_id 3) false = Some (lit "abcde")) by (vm_compute; reflexivity).
  split; [exact E|].
  apply (stored_complete (L := ref_vendor_laws) (demo_id 3) 5 4 6 demo_blank demo_printer.1 demo_printer.2 demo_full (demo_id 3) (lit "abcde")).
  - exact demo_blank_blank.
  - apply driven_run.
  - exact demo_full_run.
  - exact demo_full_wrote.
  - exact E.
Defined.

(** The step in which Marlin is told. *)
Definition demo_told : @device ref_vendor := device_after (@demo_upload_ans) (Go Task_manage_ledger) demo_printer.2.

Definition demo_print : list (actor * event (@call ref_vendor)) :=
  [(Task Task_manage_ledger, Ev (CMarlin (derusting_gcode_cmd (lit "M32 " ++ path_of (demo_id 3) false))) true)].

Lemma demo_print_step : device_step demo_printer.2 demo_print demo_told.
Proof. apply device_after_step. vm_cast_no_check (eq_refl demo_print). Qed.

Lemma printed_complete_witness :
  exists w, files demo_full !! path_of (demo_id 3) false = Some w /\ complete (arrivals demo_printer.1) (demo_id 3) w /\
    forall es' d'' s', device_run demo_told es' d'' -> disk_run (fs_done (events es')) demo_full = Some s' ->
      files s' !! path_of (demo_id 3) false = Some w.
Proof.
  apply (printed_complete (L := ref_vendor_laws) (demo_id 3) 5 4 6 demo_blank demo_printer.1 demo_printer.2 demo_full
           (Task Task_manage_ledger) (demo_id 3) true).
  - exact demo_blank_blank.
  - apply driven_run.
  - exact demo_full_run.
  - exact demo_full_wrote.
  - exact demo_print_step.
Defined.
