(* ===== verification/Offers.v ===== *)
(** * Files offered to the other machines ([tasks/tcp.rs])

    What the file distributor does on the running machine of [Device.v]: the uploads that the worker hands over are taken
    in order, and each is offered to every machine of the address book, whatever becomes of the offers to
    the others. *)

From S2P Require Import Prelude Prog Net Vendor VendorRef Data Ffi Env Lwip Pbuf Tcp Udp Fs Http Request Rng.
From S2P Require Import Messages Observe Wire Upload Owns Put Transfer Marlin Receiver Ledger Mutex Main Tasks State Device Monitor Sections Queues Files.

Section offers.
Context `{V : Vendor} {L : VendorLaws V} `{SM : Serialize Message} `{DM : Deserialize Message}.
Variable u : Uuid.

(** ** What is seen of the distributor *)

Inductive offer_obs : Type :=
  | Handed (g : Uuid)
  | Known (b : Book)
  | Looked (path : bytes) (found : bool)
  | Opened (path : bytes) (h : ptr)
  | New_pcb_is (p : ptr)
  | Connected (p : ptr) (addr port : Z) (e : err_t)
  | Outcome (e : err_t)
  | Closed (h : ptr).

Definition offer_seen (X : Type) (c : call X) : X -> list offer_obs :=
  match c in call X return X -> list offer_obs with
  | CRt c =>
      match c in rt_call X return X -> list offer_obs with
      | files_receive => fun g => [Handed g]
      | addresses_lock => fun b => [Known b]
      | put_wait => fun e => [Outcome e]
      | _ => fun _ => []
      end
  | CFs c =>
      match c in fs_call X return X -> list offer_obs with
      | f_stat path => fun r => [Looked path (bool_decide (r.1 = FResult.Ok))]
      | fopen path _ => fun h => [Opened path h]
      | fclose h => fun _ => [Closed h]
      | _ => fun _ => []
      end
  | CLwip c =>
      match c in lwip_call X return X -> list offer_obs with
      | tcp_new => fun p => [New_pcb_is p]
      | tcp_connect p addr port _ => fun e => [Connected p addr port e]
      | _ => fun _ => []
      end
  | _ => fun _ => []
  end.

(** Where FatFs finds a job's file. *)
Definition native_of (g : Uuid) : bytes := lit "0:" ++ drop (length (lit "/usb")) (path_of g false).

(** How far the offer to the present machine has got. *)
Inductive offer_stage : Type :=
  | Looking | Opening | Asking (h : ptr) | Calling (h p : ptr) | Waiting (h : ptr) | Closing (h : ptr).

Inductive offer_state : Type :=
  | Resting
  | Given (g : Uuid)
  | Serving (g : Uuid) (peers : list Ipv4Addr) (s : offer_stage).

Definition at_rest (o : offer_state) : Prop := o = Resting \/ exists g, o = Serving g [] Looking.

Inductive offer_next : offer_state -> offer_obs -> offer_state -> Prop :=
  | Next_handed o g : at_rest o -> offer_next o (Handed g) (Given g)
  | Next_known g b : offer_next (Given g) (Known b) (Serving g (book_keys b) Looking)
  | Next_looked g a ks ok :
      offer_next (Serving g (a :: ks) Looking) (Looked (native_of g) ok)
        (if ok then Serving g (a :: ks) Opening else Serving g ks Looking)
  | Next_opened g a ks h :
      offer_next (Serving g (a :: ks) Opening) (Opened (path_of g false) h)
        (if decide (h = null) then Serving g ks Looking else Serving g (a :: ks) (Asking h))
  | Next_busy g a ks h : offer_next (Serving g (a :: ks) (Asking h)) (Closed h) (Serving g ks Looking)
  | Next_pcb g a ks h p :
      offer_next (Serving g (a :: ks) (Asking h)) (New_pcb_is p)
        (Serving g (a :: ks) (if decide (p = null) then Closing h else Calling h p))
  | Next_connected g a ks h p e :
      offer_next (Serving g (a :: ks) (Calling h p)) (Connected p (to_be (to_bits a)) TCP_PORT e)
        (Serving g (a :: ks) (if decide (e = err_t.Ok) then Waiting h else Closing h))
  | Next_outcome g a ks h e : offer_next (Serving g (a :: ks) (Waiting h)) (Outcome e) (Serving g (a :: ks) (Closing h))
  | Next_closed g a ks h : offer_next (Serving g (a :: ks) (Closing h)) (Closed h) (Serving g ks Looking).

#[export] Instance offers : Monitor offer_obs offer_state := {| watch := offer_seen; next := offer_next |}.

#[export] Instance offers_deterministic : Deterministic offers.
Proof. intros o b o1 o2 H1 H2. destruct H1; inversion H2; by subst. Qed.

(** ** The distributor keeps to it *)

Lemma offer_one {A X} o o1 (c : call X) (q : io A) Q ob x :
  offer_seen X c x = [ob] -> offer_next o ob o1 -> monitored offers o1 q Q ->
  exists o1, follows offers o (watch (Monitor := offers) X c x) o1 /\ monitored offers o1 q Q.
Proof. cbn [watch offers]. intros -> Hn Hm. exists o1. split; [by exists o1|done]. Qed.

Lemma unseen_send n m : no_emit offer_seen (send n m).
Proof. induction n as [|n IH]; cbn [send]; [no_emit_tac|]. unfold alloc, broadcast, drop_packet. no_emit_tac. Qed.

Lemma unseen_log s : no_emit offer_seen (log_to_udp s).
Proof. pose proof unseen_send. unfold log_to_udp, send_log, generate_uuid_v7. no_emit_tac. Qed.

Lemma native_path_of g : native_path (path_of g false) = Ok (native_of g).
Proof.
  unfold native_path, native_of. rewrite (cstring_extend_fits 64 [] (lit "0:")) by by apply (bool_decide_unpack _).
  cbn [app]. rewrite cstring_extend_fits; [done| |].
  - intros H. apply (path_of_no_nul g false). rewrite <- (take_drop (length (lit "/usb")) (path_of g false)).
    apply elem_of_app. by right.
  - pose proof (path_of_length g false) as Hl. unfold len in *. rewrite length_drop.
    change (length (lit "/usb")) with 4%nat. change (length (lit "0:")) with 2%nat. lia.
Qed.

(** A request on its way: the connection is up and the task waits for the outcome, or the file remains to be closed. *)
Lemma offer_put_send this g ks h :
  put_port this = TCP_PORT ->
  monitored offers (Serving g (put_addr this :: ks) (Asking h)) (put_send this)
    (fun _ o => o = Serving g (put_addr this :: ks) (Asking h) \/ o = Serving g (put_addr this :: ks) (Closing h)).
Proof.
  intros Hp. unfold put_send, async_lwip.
  apply (monitored_bind _ _ _ _ (fun r o => match r with
    | Ok _ => o = Serving g (put_addr this :: ks) (Waiting h)
    | Err _ => o = Serving g (put_addr this :: ks) (Asking h) \/ o = Serving g (put_addr this :: ks) (Closing h) end)).
  - apply monitored_skip; [no_emit_tac|intros e]. case_decide; [apply monitored_ret; by left|].
    eapply (monitored_bind _ _ _ _ (fun r o => match r with
      | Ok _ => o = Serving g (put_addr this :: ks) (Waiting h) | Err _ => o = Serving g (put_addr this :: ks) (Closing h) end)).
    + apply monitored_seen. intros p. eapply offer_one; [done|apply Next_pcb|].
      case_decide as Hn; [apply monitored_ret; done|]. do 4 (apply monitored_skip; [no_emit_tac|intros _]).
      cbv zeta. apply monitored_seen. intros e1. eapply offer_one; [done|rewrite Hp; apply Next_connected|].
      case_decide; [|by apply monitored_ret]. apply monitored_skip; [no_emit_tac|intros _]. by apply monitored_ret.
    + intros r o Ho. apply monitored_skip; [no_emit_tac|intros _]. apply monitored_ret. destruct r; [done|by right].
  - intros [x|e] o Ho; [|by apply monitored_ret]. subst o. apply monitored_seen. intros e.
    eapply offer_one; [done|apply Next_outcome|]. case_decide; apply monitored_ret; by right.
Qed.

Lemma offer_drop_put this g a ks o :
  o = Serving g (a :: ks) (Asking (fp (put_fh this))) \/ o = Serving g (a :: ks) (Closing (fp (put_fh this))) ->
  monitored offers o (drop_put this) (fun _ o => o = Serving g ks Looking).
Proof.
  intros Ho. unfold drop_put, blocking_lwip. apply monitored_skip; [no_emit_tac|intros _]. apply monitored_seen. intros x.
  destruct Ho as [-> | ->]; (eapply offer_one; [done|constructor|by apply monitored_ret]).
Qed.

(** One machine is dealt with, whatever happens. *)
Lemma offer_put_file g a ks :
  monitored offers (Serving g (a :: ks) Looking) (put_file g a TCP_PORT) (fun _ o => o = Serving g ks Looking).
Proof.
  unfold put_file, put_new. rewrite make_path_eq. cbn [mbind prog_bind].
  apply (monitored_bind _ _ _ _ (fun r o => match r with
    | Ok this => put_addr this = a /\ put_port this = TCP_PORT /\ o = Serving g (a :: ks) (Asking (fp (put_fh this)))
    | Err _ => o = Serving g ks Looking end)).
  - unfold stat. rewrite path_of_usb, native_path_of. cbn [negb].
    eapply (monitored_bind _ _ _ _ (fun r o => match r with
      | Ok _ => o = Serving g (a :: ks) Opening | Err _ => o = Serving g ks Looking end)).
    + apply monitored_seen. intros r. eapply offer_one; [done|apply Next_looked|].
      cbn [mbind prog_bind]. destruct (decide (r.1 = FResult.Ok)) as [Hr|Hr].
      * rewrite (bool_decide_eq_true_2 _ Hr). rewrite decide_False by tauto. by apply monitored_ret.
      * rewrite (bool_decide_eq_false_2 _ Hr). rewrite decide_True by done. by apply monitored_ret.
    + intros [st|e] o ->; [|by apply monitored_ret]. unfold open. rewrite path_of_usb. cbn [negb].
      apply monitored_seen. intros h. eapply offer_one; [done|apply Next_opened|].
      cbn [mbind prog_bind]. case_decide; by apply monitored_ret.
  - intros [this|e] o Ho; [|by apply monitored_ret]. destruct Ho as (<- & Hp & ->).
    eapply monitored_bind; [by apply offer_put_send|]. intros r o Ho.
    eapply monitored_bind; [exact (offer_drop_put _ _ _ _ _ Ho)|]. intros [] o1 ->. by apply monitored_ret.
Qed.

Lemma offer_distribute_all g (l : list (Ipv4Addr * Z)) :
  monitored offers (Serving g l.*1 Looking) (for_each (fun e => distribute_to g e.1) l) (fun _ o => o = Serving g [] Looking).
Proof.
  pose proof unseen_log. induction l as [|[a t] l IH]; cbn [for_each]; [by apply monitored_ret|].
  apply (monitored_bind _ _ _ _ (fun _ o => o = Serving g l.*1 Looking)); [|by intros x o ->].
  unfold distribute_to. apply monitored_skip; [no_emit_tac|intros m]. apply monitored_skip; [done|intros _].
  eapply monitored_bind; [apply offer_put_file|]. intros r o ->. apply monitored_silent; [|done]. no_emit_tac.
Qed.

Lemma offer_turn o : at_rest o -> monitored offers o distribute_step (rests at_rest).
Proof.
  intros Ho. unfold distribute_step. apply monitored_seen. intros g. eapply offer_one; [done|by apply Next_handed|].
  apply monitored_seen. intros b. eapply offer_one; [done|apply Next_known|]. apply monitored_skip; [no_emit_tac|intros _].
  unfold distribute_all, book_keys. intros tr out H. destruct (offer_distribute_all g _ tr out H) as (o' & F & HQ).
  exists o'. split; [exact F|]. destruct out; [|done..]. right. by exists g.
Qed.
(** ** What was offered *)

(** All that one offer can come to: the file is gone, or cannot be opened; lwIP's thread takes no request, has no pcb or
    refuses to connect; or the connection was asked for and reported an outcome.  A file that was opened is closed. *)
Inductive tried (g : Uuid) (a : Ipv4Addr) : list offer_obs -> Prop :=
  | Tried_missing : tried g a [Looked (native_of g) false]
  | Tried_unreadable : tried g a [Looked (native_of g) true; Opened (path_of g false) null]
  | Tried_busy h : h <> null -> tried g a [Looked (native_of g) true; Opened (path_of g false) h; Closed h]
  | Tried_no_pcb h :
      h <> null -> tried g a [Looked (native_of g) true; Opened (path_of g false) h; New_pcb_is null; Closed h]
  | Tried_refused h p e :
      h <> null -> p <> null -> e <> err_t.Ok ->
      tried g a [Looked (native_of g) true; Opened (path_of g false) h; New_pcb_is p;
                 Connected p (to_be (to_bits a)) TCP_PORT e; Closed h]
  | Tried_sent h p e :
      h <> null -> p <> null ->
      tried g a [Looked (native_of g) true; Opened (path_of g false) h; New_pcb_is p;
                 Connected p (to_be (to_bits a)) TCP_PORT err_t.Ok; Outcome e; Closed h].

(** An offer that has got to a stage. *)
Inductive begun (g : Uuid) (a : Ipv4Addr) : offer_stage -> list offer_obs -> Prop :=
  | Begun_looking : begun g a Looking []
  | Begun_opening : begun g a Opening [Looked (native_of g) true]
  | Begun_asking h : h <> null -> begun g a (Asking h) [Looked (native_of g) true; Opened (path_of g false) h]
  | Begun_calling h p :
      h <> null -> p <> null ->
      begun g a (Calling h p) [Looked (native_of g) true; Opened (path_of g false) h; New_pcb_is p]
  | Begun_waiting h p :
      h <> null -> p <> null ->
      begun g a (Waiting h) [Looked (native_of g) true; Opened (path_of g false) h; New_pcb_is p;
                             Connected p (to_be (to_bits a)) TCP_PORT err_t.Ok]
  | Begun_closing h l : tried g a (l ++ [Closed h]) -> begun g a (Closing h) l.

Lemma begun_completes g a s l : begun g a s l -> exists r, tried g a (l ++ r).
Proof.
  destruct 1 as [| |h Hh|h p Hh Hp|h p Hh Hp|h l H].
  - exists [Looked (native_of g) false]. constructor.
  - exists [Opened (path_of g false) null]. constructor.
  - exists [Closed h]. by constructor.
  - exists [Connected p (to_be (to_bits a)) TCP_PORT err_t.Mem; Closed h]. by constructor.
  - exists [Outcome err_t.Ok; Closed h]. by constructor.
  - by exists [Closed h].
Qed.

(** One file: who was known when it was taken, and the offer to each of them. *)
Record offer_turn_of : Type := mkOfferTurn { offered : Uuid; known : Book; attempts : list (list offer_obs) }.

Definition show_turn (t : offer_turn_of) : list offer_obs := Handed (offered t) :: Known (known t) :: concat (attempts t).

Definition turn_ok (t : offer_turn_of) : Prop := Forall2 (tried (offered t)) (book_keys (known t)) (attempts t).

(** The turn that has got to a state. *)
Inductive current : offer_state -> list offer_obs -> Prop :=
  | Current_none : current Resting []
  | Current_given g : current (Given g) [Handed g]
  | Current_done g b ls :
      Forall2 (tried g) (book_keys b) ls -> current (Serving g [] Looking) (Handed g :: Known b :: concat ls)
  | Current_offer g b gone ls a ks s l :
      book_keys b = gone ++ a :: ks -> Forall2 (tried g) gone ls -> begun g a s l ->
      current (Serving g (a :: ks) s) (Handed g :: Known b :: concat ls ++ l).

(** The next machine, or the end of the turn. *)
Lemma current_next g b gone ls a ks l :
  book_keys b = gone ++ a :: ks -> Forall2 (tried g) gone ls -> tried g a l ->
  current (Serving g ks Looking) (Handed g :: Known b :: concat ls ++ l).
Proof.
  intros Hk Hl Ha. assert (concat ls ++ l = concat (ls ++ [l])) as -> by (by rewrite concat_app; cbn; rewrite app_nil_r).
  assert (Forall2 (tried g) (gone ++ [a]) (ls ++ [l])) as H by (apply Forall2_app; [done|by constructor]).
  destruct ks as [|a' ks]; [constructor; by rewrite Hk|]. rewrite <- (app_nil_r (concat _)).
  apply (Current_offer g b (gone ++ [a])); [by rewrite <- app_assoc|done|constructor].
Qed.

Lemma current_step o cur ob o' :
  current o cur -> offer_next o ob o' ->
  current o' (cur ++ [ob]) \/
  (exists g, ob = Handed g /\ o' = Given g /\ (cur = [] \/ exists t, turn_ok t /\ cur = show_turn t)).
Proof.
  intros Hc Hn. destruct Hn as [o g Hr|g b|g a ks ok|g a ks h|g a ks h|g a ks h p|g a ks h p e|g a ks h e|g a ks h].
  { right. exists g. split; [done|]. split; [done|]. destruct Hr as [-> |[g' ->]]; inversion Hc as [| |g1 b ls Hl|]; subst; [by left|].
    right. by exists (mkOfferTurn g' b ls). }
  { left. inversion Hc; subst. cbn. destruct (book_keys b) as [|a ks] eqn:E.
    - apply (Current_done g b []). by rewrite E.
    - apply (Current_offer g b [] []); [done|done|constructor]. }
  all: left; inversion Hc as [| | |g1 b gone ls a1 ks1 s l Hk Hl Hb]; subst; cbn [app]; rewrite <- app_assoc;
    inversion Hb as [| |h1 Hh|h1 p1 Hh Hp|h1 p1 Hh Hp|h1 l1 Ht]; subst; cbn [app].
  - destruct ok; [by apply (Current_offer g b gone); [..|constructor]|by eapply current_next; [..|constructor]].
  - case_decide; subst; [by eapply current_next; [..|constructor]|by apply (Current_offer g b gone); [..|constructor]].
  - by eapply current_next; [..|constructor].
  - case_decide; subst; (apply (Current_offer g b gone); [done|done|]); [by apply Begun_closing; constructor|by constructor].
  - case_decide; subst; (apply (Current_offer g b gone); [done|done|]); [by constructor|by apply Begun_closing; constructor].
  - apply (Current_offer g b gone); [done|done|]. by apply Begun_closing; econstructor.
  - by eapply current_next.
Qed.

Lemma follows_offers bs o :
  follows offers Resting bs o ->
  exists ts cur, bs = concat (show_turn <$> ts) ++ cur /\ Forall turn_ok ts /\ current o cur.
Proof.
  revert o. induction bs as [|ob bs IH] using rev_ind; intros o H.
  - exists [], []. rewrite H. by repeat constructor.
  - apply follows_app in H as (o1 & H & o2 & Hn & ->). destruct (IH _ H) as (ts & cur & -> & Hts & Hc).
    destruct (current_step _ _ _ _ Hc Hn) as [Hc'|(g & -> & -> & Hd)]; [exists ts, (cur ++ [ob]); by rewrite app_assoc|].
    destruct Hd as [-> |(t & Ht & ->)].
    + exists ts, [Handed g]. rewrite app_nil_r. split; [done|]. split; [done|]. constructor.
    + exists (ts ++ [t]), [Handed g]. rewrite fmap_app, concat_app. cbn. rewrite app_nil_r.
      split; [done|]. split; [by apply Forall_app_2; [|constructor]|constructor].
Qed.

(** What has begun can be brought to an end, and its file is the one that was handed over. *)
Definition handed (bs : list offer_obs) : list Uuid := omap (fun b => match b with Handed g => Some g | _ => None end) bs.

Lemma handed_tried g a l : tried g a l -> handed l = [].
Proof. by destruct 1. Qed.

Lemma handed_attempts g ks ls : Forall2 (tried g) ks ls -> handed (concat ls) = [].
Proof.
  unfold handed. induction 1 as [|a l ks ls Ha _ IH]; [done|]. cbn [concat]. apply handed_tried in Ha. unfold handed in Ha.
  by rewrite omap_app, IH, Ha.
Qed.

Lemma handed_turn t : turn_ok t -> handed (show_turn t) = [offered t].
Proof. intros H. unfold show_turn, handed. cbn. f_equal. exact (handed_attempts _ _ _ H). Qed.

Lemma current_completes o cur :
  current o cur -> cur = [] \/ exists t rest, turn_ok t /\ cur ++ rest = show_turn t /\ handed cur = [offered t].
Proof.
  assert (forall g ks, Forall2 (tried g) ks ((fun _ => [Looked (native_of g) false]) <$> ks)) as Hm.
  { intros g ks. induction ks as [|a ks IH]; cbn; constructor; [constructor|done]. }
  destruct 1 as [|g|g b ls Hl|g b gone ls a ks s l Hk Hl Hb]; [by left|right..].
  - exists (mkOfferTurn g book_new ((fun _ => [Looked (native_of g) false]) <$> book_keys book_new)). eexists. split; [apply Hm|done].
  - exists (mkOfferTurn g b ls), []. rewrite app_nil_r. split; [exact Hl|]. split; [done|]. exact (handed_turn (mkOfferTurn g b ls) Hl).
  - destruct (begun_completes _ _ _ _ Hb) as [r Hr].
    exists (mkOfferTurn g b (ls ++ (l ++ r) :: ((fun _ => [Looked (native_of g) false]) <$> ks))), (r ++ concat ((fun _ => [Looked (native_of g) false]) <$> ks)).
    split; [|split].
    + unfold turn_ok. cbn. rewrite Hk. apply Forall2_app; [done|]. by constructor.
    + unfold show_turn. cbn [offered known attempts app]. rewrite concat_app. cbn [concat]. by rewrite <- !app_assoc.
    + cbn. f_equal. unfold handed. rewrite omap_app. apply handed_attempts in Hl. apply handed_tried in Hr. unfold handed in Hl, Hr.
      rewrite omap_app in Hr. apply app_eq_nil in Hr as [Hr _]. by rewrite Hl, Hr.
Qed.

Lemma handed_taken tr : handed (collect offer_seen tr) = collect file_taken tr.
Proof.
  unfold handed. induction tr as [|[X c x] tr IH]; [done|]. cbn [collect]. rewrite omap_app, IH. f_equal.
  destruct c as [X c|X c|X c|X c|X c|X c]; try done; by destruct c.
Qed.

(** C21. Every upload is offered to every machine. On the running machine, in any interleaving, the distributor takes the uploads that the
    worker announced in their order, but for those that still wait, and for each takes the address book as it is
    then; every machine in it is offered the file once, in the book's order and on the upload port, whatever became of the offers
    before, and what it does for a machine is one of six courses, each of which closes the file it opened. *)
Theorem uploads_offered fuel p q es d :
  device_run (device_boot fuel p q) es d ->
  exists ts rest, collect offer_seen (acts (Task Task_distribute_file) es) ++ rest = concat (show_turn <$> ts) /\
    Forall turn_ok ts /\
    (offered <$> ts) ++ files_to_distribute (shared d) = collect file_put (acts (Task Task_tcp_worker) es).
Proof.
  intros Hr. destruct (channel_run u file_queue _ _ _ _ _ Hr eq_refl) as [E _]. cbn [producer consumer put_seen taken_seen queue file_queue] in E.
  destruct (device_monitored offers u Task_distribute_file at_rest _ _ _ Resting Hr) as (o & F & _).
  { split; [apply offer_turn; by left|intros x o Ho; by apply offer_turn]. }
  apply follows_offers in F as (ts & cur & F & Hts & Hc). cbn [watch offers] in F.
  pose proof (handed_taken (acts (Task Task_distribute_file) es)) as Hh. rewrite F in Hh. unfold handed in Hh. rewrite omap_app in Hh.
  assert (omap (fun b => match b with Handed g => Some g | _ => None end) (concat (show_turn <$> ts)) = offered <$> ts) as Ht.
  { clear F Hh. induction Hts as [|t ts Ht _ IH]; [done|]. cbn [fmap list_fmap concat]. rewrite omap_app, IH.
    apply handed_turn in Ht. unfold handed in Ht. by rewrite Ht. }
  rewrite Ht in Hh. destruct (current_completes _ _ Hc) as [-> |(t & rest & Hok & Et & Eh)].
  - exists ts, []. rewrite F, !app_nil_r. split; [done|]. split; [done|]. rewrite <- E, <- Hh. cbn. by rewrite app_nil_r.
  - exists (ts ++ [t]), rest. rewrite F, <- app_assoc, Et, fmap_app, concat_app. cbn [fmap list_fmap concat]. rewrite app_nil_r.
    split; [done|]. split; [by apply Forall_app_2; [|constructor]|]. rewrite <- E, <- Hh. unfold handed in Eh. by rewrite Eh, fmap_app.
Qed.
End offers.

(** ** An upload that is sent on *)

(** A datagram makes a machine known; then an upload comes in and is served, and the distributor takes its turn. *)
Definition demo_offer_moves : list move :=
  demo_create ++ demo_arrive ++ [Interrupt (New_pcb true 9 err_t.Ok); Resume; Resume; Resume] ++ replicate 137 (Go Task_tcp_worker) ++
  replicate 60 (Go Task_distribute_file).

Definition demo_offer : list (actor * event (@call ref_vendor)) * device := driven (@demo_upload_ans) demo_offer_moves demo_device.

Lemma uploads_offered_witness :
  length (collect offer_seen (acts (Task Task_distribute_file) demo_offer.1)) = 8%nat /\
  collect file_put (acts (Task Task_tcp_worker) demo_offer.1) = [demo_id 3] /\
  exists ts rest, collect offer_seen (acts (Task Task_distribute_file) demo_offer.1) ++ rest = concat (show_turn <$> ts) /\
    Forall turn_ok ts /\
    (offered <$> ts) ++ files_to_distribute (shared demo_offer.2) = collect file_put (acts (Task Task_tcp_worker) demo_offer.1).
Proof.
  split; [vm_compute; reflexivity|]. split; [vm_compute; reflexivity|].
  apply (uploads_offered (L := ref_vendor_laws) (demo_id 3) 5 4 6). exact (driven_run (@demo_upload_ans) demo_offer_moves _).
Defined.
