(* ===== verification/Rely.v ===== *)
(** * A program among others

    [Prog.v] lets every call answer anything.  Here the calls act on a shared state that other
    threads change in between: [env] is what they may do, [call_ok] when a call is allowed and
    [call_step] what it does.  [conc] interleaves the two step by step; [wp p Q w] holds when every
    interleaving that starts in [w] makes only allowed calls and ends in [Q]. *)

From stdpp Require Import relations.
From S2P Require Import Prelude Prog.

Record shared (E : Type -> Type) (W : Type) : Type := mkShared {
  env : W -> W -> Prop;
  call_ok : forall X, E X -> W -> Prop;
  call_step : forall X, E X -> W -> X -> W -> Prop
}.
Arguments env {E W} s w w'.
Arguments call_ok {E W} s {X} c w.
Arguments call_step {E W} s {X} c w x w'.

Section rely.
Context {E : Type -> Type} {W : Type} (sh : shared E W).

(** ** Interleavings *)

(** One step of a program [p] in state [w]: of another thread, or a call of its own. *)
Inductive conc {A} : prog E A * W -> list (event E) -> prog E A * W -> Prop :=
  | conc_env p w w' : env sh w w' -> conc (p, w) [] (p, w')
  | conc_call X (c : E X) k w x w' : call_step sh c w x w' -> conc (Call c k, w) [Ev c x] (k x, w').

Inductive concs {A} : prog E A * W -> list (event E) -> prog E A * W -> Prop :=
  | concs_nil s : concs s [] s
  | concs_cons s tr s' tr' s'' : conc s tr s' -> concs s' tr' s'' -> concs s (tr ++ tr') s''.

(** A state in which the next call is not allowed. *)
Definition misuse {A} (s : prog E A * W) : Prop :=
  match s.1 with Call c _ => ~ call_ok sh c s.2 | _ => False end.

(** An interleaving is a run for some answers: what holds of all runs holds here. *)
Lemma concs_exec {A} (s : prog E A * W) tr s' tr' o : concs s tr s' -> exec s'.1 tr' o -> exec s.1 (tr ++ tr') o.
Proof.
  induction 1 as [s|s tr1 s1 tr2 s2 H1 _ IH]; [done|]. intros Ho. specialize (IH Ho).
  destruct H1 as [p w w' He|X c k w x w' Hs]; [done|]. cbn in *. eauto.
Qed.

Lemma concs_run {A} (p : prog E A) w tr a w' : concs (p, w) tr (Ret a, w') -> exec p tr (Done a).
Proof. intros H. apply (concs_exec _ _ _ [] (Done a)) in H; [|done]. by rewrite app_nil_r in H. Qed.

(** Interleavings and misuses of a part are those of the whole. *)
Lemma conc_bind {A B} (p p' : prog E A) (f : A -> prog E B) w tr w' :
  conc (p, w) tr (p', w') -> conc (p ≫= f, w) tr (p' ≫= f, w').
Proof.
  remember (p, w) as s eqn:Es. remember (p', w') as s' eqn:Es'.
  destruct 1 as [q w1 w2 He|X c k w1 x w2 Hs]; injection Es as <- <-; injection Es' as <- <-; [by apply conc_env|].
  exact (conc_call X c (fun x => k x ≫= f) w1 x w2 Hs).
Qed.

Lemma concs_app {A} (s s' s'' : prog E A * W) tr tr' : concs s tr s' -> concs s' tr' s'' -> concs s (tr ++ tr') s''.
Proof. induction 1; [done|]. rewrite <- app_assoc. econstructor; eauto. Qed.

Lemma concs_bind {A B} (p p' : prog E A) (f : A -> prog E B) w tr w' :
  concs (p, w) tr (p', w') -> concs (p ≫= f, w) tr (p' ≫= f, w').
Proof.
  remember (p, w) as s eqn:Es. remember (p', w') as s' eqn:Es'. intros H. revert p w Es.
  induction H as [s|s tr1 [p1 w1] tr2 s2 H1 _ IH]; intros p w ->; [injection Es' as -> ->; constructor|].
  econstructor; [by apply conc_bind|by apply IH].
Qed.

Lemma concs_envs {A} (p : prog E A) w w' : rtc (env sh) w w' -> concs (p, w) [] (p, w').
Proof. induction 1 as [w|w w1 w2 H _ IH]; [constructor|]. eapply (concs_cons _ []); [by apply conc_env|done]. Qed.

(** A program that still has a call to make. *)
Definition unfinished {A} (p : prog E A) : Prop := match p with Call _ _ => True | _ => False end.

Lemma unfinished_bind {A B} (p : prog E A) (f : A -> prog E B) : unfinished p -> unfinished (p ≫= f).
Proof. by destruct p. Qed.

Lemma concs_halted {A} (p : prog E A) w tr s :
  ~ unfinished p -> concs (p, w) tr s -> tr = [] /\ exists w', s = (p, w') /\ rtc (env sh) w w'.
Proof.
  intros Hp. remember (p, w) as s0 eqn:Es. intros H. revert w Es.
  induction H as [s|s tr1 s1 tr2 s2 H1 _ IH]; intros w ->; [split; [done|by exists w]|].
  remember (p, w) as s0 eqn:Es. destruct H1 as [q w1 w2 He|X c k w1 x w2 Hs]; [injection Es as -> ->|injection Es as <- <-; by destruct Hp].
  destruct (IH _ eq_refl) as (-> & w' & -> & Hw). split; [done|]. exists w'. split; [done|by eapply rtc_l].
Qed.

(** The interleavings of a program that starts with a call, and of a sequence. *)
Lemma concs_call_inv {A X} (c : E X) (k : X -> prog E A) w tr s :
  concs (Call c k, w) tr s ->
  (exists w', rtc (env sh) w w' /\ tr = [] /\ s = (Call c k, w')) \/
  (exists w1 x w2 tr', rtc (env sh) w w1 /\ call_step sh c w1 x w2 /\ tr = Ev c x :: tr' /\ concs (k x, w2) tr' s).
Proof.
  remember (Call c k, w) as s0 eqn:Es. intros H. revert w Es.
  induction H as [s|s tr1 s1 tr2 s2 H1 H2 IH]; intros w ->; [left; by exists w|].
  remember (Call c k, w) as s0 eqn:Es. destruct H1 as [p w1 w2 He|Y d l w1 y w2 Hs].
  - injection Es as -> ->. destruct (IH _ eq_refl) as [(w' & Hw & -> & ->)|(w3 & x & w4 & tr' & Hw & Hs & -> & Hc)].
    + left. exists w'. split; [by eapply rtc_l|done].
    + right. exists w3, x, w4, tr'. split; [by eapply rtc_l|done].
  - right. assert (exists x w3, call_step sh c w x w3 /\ [Ev d y] = [Ev c x] /\ (l y, w2) = (k x, w3)) as (x & w3 & Hx & Et & Ek).
    { refine (match Es in _ = z return
        match z with
        | (Call c' k', w') => exists x w3, call_step sh c' w' x w3 /\ [Ev d y] = [Ev c' x] /\ (l y, w2) = (k' x, w3)
        | _ => True
        end with eq_refl => _ end). eauto. }
    exists w, x, w3, tr2. rewrite Et. split_and!; [done|done|done|]. by rewrite <- Ek.
Qed.

Lemma concs_bind_inv {A B} (p : prog E A) (f : A -> prog E B) w tr s :
  concs (p ≫= f, w) tr s ->
  (exists p' w', concs (p, w) tr (p', w') /\ s = (p' ≫= f, w') /\ forall a, p' <> Ret a) \/
  (exists a tr1 w1 tr2, concs (p, w) tr1 (Ret a, w1) /\ tr = tr1 ++ tr2 /\ concs (f a, w1) tr2 s).
Proof.
  revert w tr. induction p as [a| | |X c k IH]; intros w tr H.
  - right. exists a, [], w, tr. split; [constructor|done].
  - apply concs_halted in H as (-> & w' & -> & Hw); [|by intros []]. left. exists Panic, w'. split; [by apply concs_envs|done].
  - apply concs_halted in H as (-> & w' & -> & Hw); [|by intros []]. left. exists Fuel, w'. split; [by apply concs_envs|done].
  - change (Call c k ≫= f) with (Call c (fun x => k x ≫= f)) in H.
    apply concs_call_inv in H as [(w' & Hw & -> & ->)|(w1 & x & w2 & tr' & Hw & Hs & -> & H)].
    { left. exists (Call c k), w'. split; [by apply concs_envs|done]. }
    assert (forall q, concs (k x, w2) q.1 q.2 -> concs (Call c k, w) (Ev c x :: q.1) q.2) as Hpre.
    { intros q Hq. apply (concs_app (Call c k, w) (Call c k, w1) _ [] _); [by apply concs_envs|].
      eapply (concs_cons _ [Ev c x]); [by apply conc_call|done]. }
    destruct (IH _ _ _ H) as [(p' & w' & Hc & -> & Hn)|(a & tr1 & w3 & tr2 & Hc & -> & H2)].
    + left. exists p', w'. split; [by apply (Hpre (_, _))|done].
    + right. exists a, (Ev c x :: tr1), w3, tr2. split; [by apply (Hpre (_, _))|done].
Qed.

Lemma misuse_bind {A B} (p : prog E A) (f : A -> prog E B) w : misuse (p, w) -> misuse (p ≫= f, w).
Proof. by destruct p. Qed.

(** ** Weakest preconditions *)

Fixpoint wp {A} (p : prog E A) (Q : A -> W -> Prop) (w : W) : Prop :=
  match p with
  | Ret a => forall w', rtc (env sh) w w' -> Q a w'
  | Panic | Fuel => True
  | Call c k =>
      forall w', rtc (env sh) w w' -> call_ok sh c w' /\ forall x w'', call_step sh c w' x w'' -> wp (k x) Q w''
  end.

Lemma wp_env {A} (p : prog E A) Q w w' : rtc (env sh) w w' -> wp p Q w -> wp p Q w'.
Proof. intros He. destruct p; cbn; intros Hp; [|done|done|]; intros w'' He'; apply Hp; by etrans. Qed.

Lemma wp_mono {A} (p : prog E A) (Q Q' : A -> W -> Prop) w :
  (forall a w, Q a w -> Q' a w) -> wp p Q w -> wp p Q' w.
Proof.
  intros HQ. revert w. induction p as [a| | |X c k IH]; intros w Hp; cbn in *; eauto.
  intros w' He. destruct (Hp w' He) as [Hok Hk]. eauto.
Qed.

Lemma wp_bind {A B} (p : prog E A) (f : A -> prog E B) Q w : wp p (fun a => wp (f a) Q) w -> wp (p ≫= f) Q w.
Proof.
  revert w. induction p as [a| | |X c k IH]; intros w Hp; [by apply Hp|done|done|].
  intros w' He. destruct (Hp w' He) as [Hok Hk]. split; [done|]. intros x w'' Hs. by apply IH, Hk.
Qed.

Lemma wp_step {A} (s s' : prog E A * W) tr Q : conc s tr s' -> wp s.1 Q s.2 -> wp s'.1 Q s'.2.
Proof.
  destruct 1 as [p w w' He|X c k w x w' Hs]; cbn; intros Hp; [by apply (wp_env _ _ w); [apply rtc_once|]|].
  destruct (Hp w) as [_ Hk]; [done|]. eauto.
Qed.

Lemma wp_steps {A} (s s' : prog E A * W) tr Q : concs s tr s' -> wp s.1 Q s.2 -> wp s'.1 Q s'.2.
Proof. induction 1; eauto using wp_step. Qed.

(** Adequacy: no interleaving misuses a call, and one that ends does so in [Q]. *)
Lemma wp_adequate {A} (p : prog E A) Q w tr s :
  wp p Q w -> concs (p, w) tr s -> ~ misuse s /\ forall a, s.1 = Ret a -> Q a s.2.
Proof.
  intros Hp Hs. apply (wp_steps _ _ _ Q) in Hs; [|done]. destruct s as [[a| | |X c k] w']; cbn in *.
  - split; [by intros []|]. intros a' [= <-]. by apply Hs.
  - split; [by intros []|done].
  - split; [by intros []|done].
  - split; [|done]. intros Hm. by destruct (Hs w') as [Hok _].
Qed.

(** ** Triples with an invariant *)

(** [P] is an assertion that other threads keep. *)
Definition stable (P : W -> Prop) : Prop := forall w w', env sh w w' -> P w -> P w'.

Lemma stable_rtc P w w' : stable P -> rtc (env sh) w w' -> P w -> P w'.
Proof. intros HP. induction 1; eauto. Qed.

Definition triple {A} (P : W -> Prop) (p : prog E A) (Q : A -> W -> Prop) : Prop := forall w, P w -> wp p Q w.

Lemma triple_ret {A} (a : A) (Q : A -> W -> Prop) : stable (Q a) -> triple (Q a) (Ret a) Q.
Proof. intros HQ w Hw w' He. by eapply stable_rtc. Qed.

Lemma triple_panic {A} P (Q : A -> W -> Prop) : triple P Panic Q.
Proof. done. Qed.

Lemma triple_fuel {A} P (Q : A -> W -> Prop) : triple P Fuel Q.
Proof. done. Qed.

Lemma triple_bind {A B} P (p : prog E A) R (f : A -> prog E B) Q :
  triple P p R -> (forall a, triple (R a) (f a) Q) -> triple P (p ≫= f) Q.
Proof. intros Hp Hf w Hw. apply wp_bind. eapply wp_mono; [|by apply Hp]. intros a w'. apply Hf. Qed.

Lemma triple_pre {A} (P P' : W -> Prop) (p : prog E A) Q : (forall w, P' w -> P w) -> triple P p Q -> triple P' p Q.
Proof. intros HP Hp w Hw. by apply Hp, HP. Qed.

Lemma triple_post {A} P (p : prog E A) (Q Q' : A -> W -> Prop) :
  (forall a w, Q a w -> Q' a w) -> triple P p Q -> triple P p Q'.
Proof. intros HQ Hp w Hw. by eapply wp_mono, Hp. Qed.

(** The rule for a call: allowed in every state of [P], with the rest proved from where it leads. *)
Lemma triple_call {A X} P (c : E X) (k : X -> prog E A) Q :
  stable P -> (forall w, P w -> call_ok sh c w) ->
  (forall w x w', P w -> call_step sh c w x w' -> wp (k x) Q w') -> triple P (Call c k) Q.
Proof.
  intros HP Hok Hk w Hw w' He. assert (P w') by by eapply stable_rtc. split; [by apply Hok|]. intros x w'' Hs.
  by eapply Hk.
Qed.
End rely.
