(* ===== verification/Conn.v ===== *)
(** * A connection shared with lwIP's thread

    The worker that serves a connection and lwIP's own thread share the pcb, the
    [TcpConnection] and its channel.  lwIP's thread delivers data and reports
    errors by running the callbacks of [lwip/tcp.rs], whenever the core lock is free.  Over all
    interleavings: the worker calls lwIP only on a live pcb and under the lock, takes the packets in
    the order they were delivered, and leaves no callback that points to the dropped connection; and when exactly
    it waits for ever. *)

From stdpp Require Import relations.
From S2P Require Import Prelude Prog Text Net Vendor VendorRef Data Ffi Env Lwip Pbuf Tcp Udp Fs Http Request Rng.
From S2P Require Import Messages Observe Upload Rely.

(** What lwIP keeps of the pcb: whether it still exists, whether the callback argument is the
    connection, and the callbacks.  [Connection_sent] makes no call and is left out. *)
Record Pcb : Type := mkPcb { p_alive : bool; p_arg : bool; p_recv : option callback; p_err : option callback }.

(** The struct, without its pin marker. *)
Record TcpConnection : Type := mkConn { c_pcb : ptr; c_channel : list (option PacketBuffer) }.

Definition tcp_connection_new (pcb : ptr) : TcpConnection := mkConn pcb [].

(** Who holds the core lock, the two structures, and two histories: the packets lwIP got rid of, each a call
    of the receive callback that answered ERR_OK, and what was taken out of the channel. *)
Record world : Type := mkWorld {
  w_lock : lock;
  w_pcb : Pcb;
  w_conn : TcpConnection;
  w_heard : list pbuf_ptr;
  w_taken : list (option PacketBuffer)
}.

Definition set_lock (l : lock) (w : world) : world := mkWorld l (w_pcb w) (w_conn w) (w_heard w) (w_taken w).

Definition set_pcb (p : Pcb) (w : world) : world := mkWorld (w_lock w) p (w_conn w) (w_heard w) (w_taken w).

Definition set_field (p : ptr) (w : world) : world :=
  mkWorld (w_lock w) (w_pcb w) (mkConn p (c_channel (w_conn w))) (w_heard w) (w_taken w).

Definition kill (p : Pcb) : Pcb := mkPcb false (p_arg p) (p_recv p) (p_err p).

(** Putting an item in the channel, and taking the first items out. *)
Definition push (m : option PacketBuffer) (w : world) : world :=
  mkWorld (w_lock w) (w_pcb w) (mkConn (c_pcb (w_conn w)) (c_channel (w_conn w) ++ [m])) (w_heard w) (w_taken w).

Definition pop (n : nat) (w : world) : world :=
  mkWorld (w_lock w) (w_pcb w) (mkConn (c_pcb (w_conn w)) (drop n (c_channel (w_conn w)))) (w_heard w)
    (w_taken w ++ take n (c_channel (w_conn w))).

(** lwIP's record of a call of the receive callback: a packet counts when the callback answered ERR_OK, after
    which lwIP forgets it; any other answer makes lwIP keep the packet as refused. *)
Definition hear (buf : pbuf_ptr) (err : err_t) (w : world) : world :=
  if pbuf_is_null buf || bool_decide (err <> err_t.Ok) then w
  else mkWorld (w_lock w) (w_pcb w) (w_conn w) (w_heard w ++ [buf]) (w_taken w).

Definition packet_of (buf : pbuf_ptr) : PacketBuffer := mkPacketBuffer buf buf.

(** A packet or the end of the stream that reaches the channel. *)
Definition arrives (m : option PacketBuffer) (w : world) : world :=
  match m with Some p => hear (inner p) err_t.Ok (push m w) | None => push m w end.

Definition has_room (w : world) : bool := bool_decide (length (c_channel (w_conn w)) < MAX_TCP_CONNECTION_CHANNEL_SIZE)%nat.

(** ** The calls *)

Section conn.
Context `{V : Vendor}.

(** The address of the accepted pcb. *)
Context (pcb0 : ptr).

(** The TCP pcb a call is about. *)
Definition tcp_target {X} (c : lwip_call X) : option ptr :=
  match c with
  | derusting_tcp_sndbuf p | derusting_tcp_has_refused_data p | tcp_close p | tcp_bind p _ _
  | tcp_listen_with_backlog p _ | tcp_arg p _ | tcp_abort p | tcp_connect p _ _ _ | tcp_accept p _ | tcp_recv p _
  | tcp_err p _ | tcp_sent p _ | tcp_write p _ _ | tcp_output p | tcp_recved p _ | tcp_process_refused_data p => Some p
  | _ => None
  end.

(** A call is allowed when it respects the lock and its pcb is the live one. *)
Definition conn_ok {X} (c : call X) (w : world) : Prop :=
  (forall x, lock_event (w_lock w) (Ev c x) <> None) /\
  match c with
  | CLwip c => forall p, tcp_target c = Some p -> p = pcb0 /\ p_alive (w_pcb w) = true
  | _ => True
  end.

(** What a call does to the pcb. *)
Definition pcb_step {X} (c : lwip_call X) (p : Pcb) : X -> Pcb :=
  match c in lwip_call X return X -> Pcb with
  | tcp_arg _ a => fun _ => mkPcb (p_alive p) (bool_decide (a = Some Obj_TcpConnection)) (p_recv p) (p_err p)
  | tcp_recv _ f => fun _ => mkPcb (p_alive p) (p_arg p) f (p_err p)
  | tcp_err _ f => fun _ => mkPcb (p_alive p) (p_arg p) (p_recv p) f
  | tcp_close _ => fun e => if decide (e = err_t.Ok) then kill p else p
  | tcp_abort _ => fun _ => kill p
  | _ => fun _ => p
  end.

(** What a call of the runtime answers and does. *)
Definition rt_step {X} (c : rt_call X) (w : world) : X -> world -> Prop :=
  match c in rt_call X return X -> world -> Prop with
  | listener_receive => fun p w' => p = pcb0 /\ w' = w
  | pcb_load Obj_TcpConnection => fun p w' => p = c_pcb (w_conn w) /\ w' = w
  | pcb_store Obj_TcpConnection p => fun _ w' => w' = set_field p w
  | pcb_swap Obj_TcpConnection p => fun q w' => q = c_pcb (w_conn w) /\ w' = set_field p w
  | conn_try_send m => fun b w' => b = has_room w /\ w' = if has_room w then push m w else w
  | conn_receive => fun m w' => head (c_channel (w_conn w)) = Some m /\ w' = pop 1 w
  | conn_try_receive => fun m w' => head (c_channel (w_conn w)) = m /\ w' = pop 1 w
  | conn_clear => fun l w' => l = c_channel (w_conn w) /\ w' = pop (length (c_channel (w_conn w))) w
  | _ => fun _ w' => w' = w
  end.

Definition act {X} (c : call X) (w : world) : X -> world -> Prop :=
  match c in call X return X -> world -> Prop with
  | CLwip c => fun x w' => w' = set_pcb (pcb_step c (w_pcb w) x) w
  | CRt c => rt_step c w
  | _ => fun _ w' => w' = w
  end.

(** A call with its effect on the lock; the platform's answer about the lock is right. *)
Definition base_step {X} (c : call X) (w : world) (x : X) (w' : world) : Prop :=
  lock_answer_ok (w_lock w) (Ev c x) /\
  exists l w1, lock_event (w_lock w) (Ev c x) = Some l /\ act c w x w1 /\ w' = set_lock l w1.

(** A callback runs without interruption. *)
Fixpoint runs {A} (p : io A) (w : world) (a : A) (w' : world) : Prop :=
  match p with
  | Ret b => a = b /\ w' = w
  | Panic | Fuel => False
  | Call c k => exists x w1, base_step c w x w1 /\ runs (k x) w1 a w'
  end.

(** ** lwIP *)

Definition recv_callback (f : callback) (arg : bool) (buf : pbuf_ptr) (err : err_t) : io err_t :=
  match f with
  | Connection_recv => connection_recv arg pcb0 buf err
  | Listener_hold_recv => listener_hold_recv arg pcb0 buf err
  | _ => Panic
  end.

Definition err_callback (f : option callback) (arg : bool) (err : err_t) : io unit :=
  match f with
  | Some Connection_err => connection_err arg err
  | _ => Ret tt
  end.

(** lwIP delivers a packet, or the end of the stream, to the registered callback, and takes note of its answer. *)
Definition delivers (w w' : world) : Prop :=
  exists f buf err e w1, p_alive (w_pcb w) = true /\ p_recv (w_pcb w) = Some f /\
    runs (recv_callback f (p_arg (w_pcb w)) buf err) w e w1 /\ w' = hear buf e w1.

(** Its thread runs when nobody else holds the lock: it delivers, or the connection dies and lwIP frees the
    pcb and says so to the error callback.  [early]: it may die before that is registered. *)
Inductive lwip_thread (early : bool) (w : world) : world -> Prop :=
  | thread_recv w' :
      w_lock w = Unlocked -> delivers (set_lock OnThread w) w' -> lwip_thread early w (set_lock Unlocked w')
  | thread_dies err w' :
      w_lock w = Unlocked -> p_alive (w_pcb w) = true -> early = true \/ p_err (w_pcb w) = Some Connection_err ->
      runs (err_callback (p_err (w_pcb w)) (p_arg (w_pcb w)) err) (set_lock OnThread (set_pcb (kill (w_pcb w)) w)) tt w' ->
      lwip_thread early w (set_lock Unlocked w').

(** Processing refused data delivers it from inside the call. *)
Definition conn_step {X} (c : call X) (w : world) (x : X) (w' : world) : Prop :=
  match c with
  | CLwip (tcp_process_refused_data _) => w_lock w <> Unlocked /\ (w' = w \/ delivers w w')
  | _ => base_step c w x w'
  end.

Definition lwip_system (early : bool) : shared call world :=
  mkShared call world (lwip_thread early) (@conn_ok) (@conn_step).

(** A pcb that [listener_accept] just put in the listener's channel. *)
Definition accepted : world :=
  mkWorld Unlocked (mkPcb true false (Some Listener_hold_recv) None) (tcp_connection_new null) [] [].
End conn.

(** ** What the callbacks can do *)

Section callbacks.
Context `{V : Vendor} (pcb0 : ptr).

(** A call that changes neither structure. *)
Definition bystander {X} (c : call X) : bool :=
  match c with
  | CLwip (tcp_arg _ _) | CLwip (tcp_recv _ _) | CLwip (tcp_err _ _) | CLwip (tcp_close _) | CLwip (tcp_abort _)
  | CLwip (tcp_process_refused_data _) => false
  | CRt listener_receive | CRt (pcb_load Obj_TcpConnection) | CRt (pcb_store Obj_TcpConnection _)
  | CRt (pcb_swap Obj_TcpConnection _) | CRt (conn_try_send _) | CRt conn_receive | CRt conn_try_receive
  | CRt conn_clear => false
  | _ => true
  end.

Lemma set_lock_id w : set_lock (w_lock w) w = w.
Proof. by destruct w. Qed.

Lemma set_pcb_id w : set_pcb (w_pcb w) w = w.
Proof. by destruct w. Qed.

Lemma base_bystander {X} (c : call X) w x w' :
  bystander c = true -> base_step pcb0 c w x w' ->
  exists l, lock_event (w_lock w) (Ev c x) = Some l /\ w' = set_lock l w /\ lock_answer_ok (w_lock w) (Ev c x).
Proof.
  intros Hb (Ha & l & w1 & Hl & Hw & ->). exists l. split_and!; [done| |done]. f_equal.
  destruct c as [X c|X c|X c|X c|X c|X c]; try exact Hw.
  - cbn in Hw. rewrite Hw. destruct c; first [discriminate | cbn; by rewrite set_pcb_id].
  - destruct c as [o|o|o| | | | | | | | | | | | | | | | | | | | | | | | | | | |]; first [discriminate | exact Hw | destruct o; first [discriminate | exact Hw]].
Qed.

(** A call that neither changes a structure nor the lock, in a run. *)
Lemma runs_bystander {A X} (c : call X) (k : X -> io A) w a w' :
  bystander c = true -> (forall x l, lock_event (w_lock w) (Ev c x) = Some l -> l = w_lock w) ->
  runs pcb0 (Call c k) w a w' -> exists x, runs pcb0 (k x) w a w'.
Proof.
  intros Hb Hl (x & w1 & (l & He & -> & _)%base_bystander & Hk); [|done].
  apply Hl in He as ->. rewrite set_lock_id in Hk. eauto.
Qed.

(** Freeing a packet with the lock held. *)
Lemma runs_drop {A} p (k : io A) w a w' :
  w_lock w <> Unlocked -> runs pcb0 (drop_packet p;; k) w a w' -> runs pcb0 k w a w'.
Proof.
  intros Hl (b & w1 & (l & He & -> & Hb)%base_bystander & H); [|done]. cbn in He, Hb.
  injection He as <-. rewrite set_lock_id in H. rewrite bool_decide_eq_true_2 in Hb by done. subst b.
  cbn in H. apply (runs_bystander (CLwip _)) in H as [n H]; [done|done|].
  cbn. intros _ l. destruct (w_lock w); [done|by intros [= <-]|by intros [= <-]].
Qed.

Lemma runs_try_send {A} m (k : bool -> io A) w a w' :
  runs pcb0 (Call (CRt (conn_try_send m)) k) w a w' ->
  runs pcb0 (k (has_room w)) (if has_room w then push m w else w) a w'.
Proof.
  intros (b & w1 & (_ & l & w2 & Hl & (-> & ->) & ->) & H). cbn in Hl. injection Hl as <-.
  destruct (has_room w); [|by rewrite set_lock_id in H].
  change (w_lock w) with (w_lock (push m w)) in H. by rewrite set_lock_id in H.
Qed.

Lemma hear_refused buf e w : e <> err_t.Ok -> hear buf e w = w.
Proof. intros He. unfold hear. rewrite bool_decide_eq_true_2 by done. by rewrite orb_true_r. Qed.

(** A delivery puts at most one item in the channel, if there is room, and that is the packet lwIP got rid of. *)
Lemma delivers_push w w' :
  w_lock w <> Unlocked -> delivers pcb0 w w' ->
  w' = w \/ exists m, has_room w = true /\ (forall p, m = Some p -> p = packet_of (inner p) /\ pbuf_is_null (inner p) = false) /\ w' = arrives m w.
Proof.
  intros Hl (f & buf & err & e & w1 & _ & _ & H & ->).
  destruct f; try (exfalso; exact H); [destruct H as [-> ->]; left; by apply hear_refused|]. cbn [recv_callback] in H. unfold connection_recv in H.
  destruct (p_arg (w_pcb w)); cbn [negb] in H.
  - destruct buf as [|b buf]; cbn [pbuf_is_null try_from result_ok unwrap] in H; apply runs_try_send in H.
    + destruct H as [_ ->]. destruct (has_room w) eqn:Er; [right|by left]. by exists None.
    + destruct (has_room w) eqn:Er.
      * destruct H as [-> ->]. right. exists (Some (packet_of (b :: buf))). split; [done|]. split; [|reflexivity]. by intros p [= <-].
      * apply runs_drop in H; [|done]. destruct H as [-> ->]. left. by apply hear_refused.
  - destruct (pbuf_is_null buf); [destruct H as [-> ->]; left; by apply hear_refused|].
    apply (runs_bystander (CLwip _)) in H as [n H]; [destruct H as [-> ->]; left; by apply hear_refused|done|].
    cbn. intros _ l. destruct (w_lock w); [done|by intros [= <-]|by intros [= <-]].
Qed.

(** The error callback forgets the pcb and tries to report the end. *)
Lemma err_runs f arg err w w' :
  runs pcb0 (err_callback f arg err) w tt w' ->
  if arg && bool_decide (f = Some Connection_err) then
    w' = (if has_room w then push None (set_field null w) else set_field null w)
  else w' = w.
Proof.
  intros H. destruct f as [[]|]; cbn -[runs] in H |- *; rewrite ?andb_false_r; try by destruct H as [_ ->].
  destruct arg; cbn -[runs] in *; [|by destruct H as [_ ->]].
  destruct H as (u & w1 & (_ & l & w2 & Hl & -> & ->) & H). cbn in Hl. injection Hl as <-.
  change (w_lock w) with (w_lock (set_field null w)) in H. rewrite set_lock_id in H.
  apply runs_try_send in H. destruct H as [_ ->]. done.
Qed.
End callbacks.

(** ** The invariant *)

Section invariant.
Context `{V : Vendor} (pcb0 : ptr) (Hpcb0 : pcb0 <> null).

Let sys : shared call world := lwip_system pcb0 false.

(** The [pcb] field is only set while the pcb is alive, and then its death is reported to the
    connection; the channel is within its bounds, and what was taken and what waits are the packets lwIP got rid of. *)
Definition core (w : world) : Prop :=
  (c_pcb (w_conn w) <> null -> c_pcb (w_conn w) = pcb0 /\ p_alive (w_pcb w) = true /\
     (p_err (w_pcb w) = Some Connection_err -> p_arg (w_pcb w) = true)) /\
  (length (c_channel (w_conn w)) <= MAX_TCP_CONNECTION_CHANNEL_SIZE)%nat /\
  omap id (w_taken w ++ c_channel (w_conn w)) = packet_of <$> w_heard w.

(** Without the field, lwIP does not know the connection any more. *)
Definition gone (w : world) : Prop :=
  c_pcb (w_conn w) = null -> p_alive (w_pcb w) = false \/ p_arg (w_pcb w) = false.

(** Between two calls, with [F] of the field. *)
Definition conn_inv (F : ptr -> Prop) (l : lock) (w : world) : Prop :=
  w_lock w = l /\ core w /\ gone w /\ F (c_pcb (w_conn w)).

(** Inside a closure that holds the lock, with the pcb alive and [R] of the field and the argument. *)
Definition inside (l : lock) (R : ptr -> bool -> Prop) (w : world) : Prop :=
  w_lock w = l /\ l <> Unlocked /\ core w /\ p_alive (w_pcb w) = true /\ R (c_pcb (w_conn w)) (p_arg (w_pcb w)).

Lemma arrives_pcb m w : w_pcb (arrives m w) = w_pcb w.
Proof. destruct m; [|done]. cbn [arrives]. unfold hear. by case_match. Qed.

Lemma arrives_lock m w : w_lock (arrives m w) = w_lock w.
Proof. destruct m; [|done]. cbn [arrives]. unfold hear. by case_match. Qed.

Lemma arrives_taken m w : w_taken (arrives m w) = w_taken w.
Proof. destruct m; [|done]. cbn [arrives]. unfold hear. by case_match. Qed.

Lemma arrives_channel m w : c_channel (w_conn (arrives m w)) = c_channel (w_conn w) ++ [m].
Proof. destruct m; [|done]. cbn [arrives]. unfold hear. by case_match. Qed.

Lemma arrives_conn m w : c_pcb (w_conn (arrives m w)) = c_pcb (w_conn w).
Proof. destruct m; [|done]. cbn [arrives]. unfold hear. by case_match. Qed.

Lemma core_push_none w : has_room w = true -> core w -> core (push None w).
Proof.
  unfold has_room. rewrite bool_decide_eq_true. intros Hr (H1 & H2 & H3). split; [exact H1|]. cbn.
  rewrite length_app, <- H3, app_assoc, omap_app. cbn. rewrite app_nil_r. split; [lia|done].
Qed.

Lemma core_arrives m w :
  has_room w = true -> (forall p, m = Some p -> p = packet_of (inner p) /\ pbuf_is_null (inner p) = false) ->
  core w -> core (arrives m w).
Proof.
  intros Hr Hm Hc. destruct m as [p|]; [|by apply core_push_none]. destruct (Hm p eq_refl) as [Hp Hn].
  revert Hr. unfold has_room. rewrite bool_decide_eq_true. intros Hr. destruct Hc as (H1 & H2 & H3).
  cbn [arrives]. unfold hear. rewrite Hn, bool_decide_eq_false_2 by auto. cbn [orb]. split; [exact H1|]. cbn.
  rewrite length_app, app_assoc, omap_app, fmap_app, H3. cbn. rewrite <- Hp. split; [lia|done].
Qed.

Lemma core_pop n w : core w -> core (pop n w).
Proof.
  intros (H1 & H2 & H3). split; [exact H1|]. cbn. rewrite length_drop, <- app_assoc, take_drop. split; [lia|done].
Qed.

Lemma core_null w : core w -> core (set_field null w).
Proof. intros (_ & H). split; [done|exact H]. Qed.

Lemma core_lock l w : core w -> core (set_lock l w).
Proof. done. Qed.

Lemma thread_inv w w' : lwip_thread pcb0 false w w' -> core w -> gone w -> core w' /\ gone w'.
Proof.
  intros [w1 Hl Hd|err w1 Hl Ha [?|He] Hr] Hc Hg; [|done|].
  - apply delivers_push in Hd as [->|(m & Hm & Hp & ->)]; [done| |done].
    split; [by apply core_lock, core_arrives|]. unfold gone in *. cbn [set_lock w_conn w_pcb]. by rewrite arrives_conn, arrives_pcb.
  - apply err_runs in Hr. rewrite He in Hr. rewrite bool_decide_eq_true_2, andb_true_r in Hr by done.
    split; [|intros _; left; by destruct (p_arg _); [case_match|]; subst w1].
    set (wk := set_lock OnThread (set_pcb (kill (w_pcb w)) w)) in *. apply core_lock.
    assert (core (set_field null wk)) as Hk by (split; [done|apply Hc]).
    destruct (p_arg (w_pcb w)) eqn:Ea; subst w1.
    + destruct (has_room wk) eqn:Er; [by apply core_push_none|done].
    + split; [|apply Hc]. intros Hn. destruct Hc as [Hc _]. destruct (Hc Hn) as (_ & _ & Hb).
      specialize (Hb He). congruence.
Qed.

Lemma thread_lock early w w' : lwip_thread pcb0 early w w' -> w_lock w = Unlocked /\ w_lock w' = Unlocked.
Proof. by intros [w1 Hl _|err w1 Hl _ _ _]. Qed.

Lemma thread_field early w w' :
  lwip_thread pcb0 early w w' -> c_pcb (w_conn w') = c_pcb (w_conn w) \/ c_pcb (w_conn w') = null.
Proof.
  intros [w1 Hl Hd|err w1 Hl _ _ Hr].
  - apply delivers_push in Hd as [->|(m & _ & _ & ->)]; [by left|left; cbn [set_lock w_conn]; by rewrite arrives_conn|done].
  - apply err_runs in Hr. destruct (_ && _); [right|left]; subst w1; [by case_match|done].
Qed.

Lemma conn_inv_stable F l : F null -> stable sys (conn_inv F l).
Proof.
  intros HF w w' He (Hl & Hc & Hg & Hw). destruct (thread_lock _ _ _ He) as [H1 H2].
  destruct (thread_inv _ _ He Hc Hg) as [Hc' Hg']. split_and!; [congruence|done|done|].
  by destruct (thread_field _ _ _ He) as [->| ->].
Qed.

(** Nothing moves while the worker holds the lock. *)
Lemma inside_stable l R : stable sys (inside l R).
Proof. intros w w' He (Hl & Hn & _). destruct (thread_lock _ _ _ He). congruence. Qed.

(** ** Rules *)

Definition guard {A} (F : ptr -> Prop) (l : lock) (p : io A) (l' : lock) : Prop :=
  triple sys (conn_inv F l) p (fun _ => conn_inv F l').

Section rules.
Context (F : ptr -> Prop) (HF : F null).

Lemma guard_ret {A} l (a : A) : guard F l (Ret a) l.
Proof. by apply (triple_ret sys a (fun _ => conn_inv F l)), conn_inv_stable. Qed.

Lemma guard_bind {A B} l (p : io A) l1 (f : A -> io B) l2 :
  guard F l p l1 -> (forall a, guard F l1 (f a) l2) -> guard F l (p ≫= f) l2.
Proof. apply triple_bind. Qed.

Definition no_target {X} (c : call X) : bool :=
  match c with CLwip c => bool_decide (tcp_target c = None) | _ => true end.

Lemma conn_bystander {X} (c : call X) w x w' :
  bystander c = true -> conn_step pcb0 c w x w' ->
  exists l, lock_event (w_lock w) (Ev c x) = Some l /\ w' = set_lock l w /\ lock_answer_ok (w_lock w) (Ev c x).
Proof. intros Hb H. apply (base_bystander pcb0); [done|]. by destruct c as [X []| | | | |]. Qed.

(** A call that touches neither structure. *)
Lemma inv_call {A X} l (c : call X) (k : X -> io A) (Q : A -> world -> Prop) :
  bystander c = true -> no_target c = true -> (forall x, exists l1, lock_event l (Ev c x) = Some l1) ->
  (forall x l1, lock_event l (Ev c x) = Some l1 -> lock_answer_ok l (Ev c x) -> triple sys (conn_inv F l1) (k x) Q) ->
  triple sys (conn_inv F l) (Call c k) Q.
Proof.
  intros Hb Ht He Hk. apply triple_call; [by apply conn_inv_stable| |].
  - intros w (<- & _). split; [intros x; by destruct (He x) as (l1 & ->)|].
    destruct c; try exact I. cbn in Ht. apply bool_decide_eq_true in Ht. intros p Hp. congruence.
  - intros w x w' (<- & Hw) (l1 & Hl & -> & Ha)%conn_bystander; [|done]. by apply (Hk x l1).
Qed.

Lemma guard_plain {X} l (c : call X) :
  bystander c = true -> no_target c = true -> (forall x, lock_event l (Ev c x) = Some l) -> guard F l (Call c Ret) l.
Proof.
  intros Hb Ht He. apply inv_call; [done|done|by eauto|]. intros x l1 Hl _.
  rewrite He in Hl. injection Hl as <-. apply guard_ret.
Qed.

Lemma guard_async closure : guard F OnThread closure OnThread -> guard F Unlocked (async_lwip closure) Unlocked.
Proof.
  intros Hc. apply inv_call; [done|done|by eexists|]. intros e l1 [= <-] _.
  destruct (decide (e = err_t.Ok)) as [->|He]; [rewrite decide_False by auto|rewrite decide_True by done; apply guard_ret].
  eapply guard_bind; [exact Hc|]. intros r.
  apply inv_call; [done|done|by eexists|]. intros [] l1 [= <-] _. apply guard_ret.
Qed.

Lemma inv_blocking {R} (F' : ptr -> Prop) l (closure : io (result R err_t)) :
  F' null -> (forall l', l' <> Unlocked -> triple sys (conn_inv F l') closure (fun _ => conn_inv F' l')) ->
  triple sys (conn_inv F l) (blocking_lwip closure) (fun _ => conn_inv F' l).
Proof.
  intros HF' Hc. apply inv_call; [done|done|by eexists|]. cbn. intros b l1 [= <-] ->.
  case_bool_decide as Hl; [by apply Hc|]. assert (l = Unlocked) as -> by (by destruct (decide (l = Unlocked)); [|tauto]).
  apply inv_call; [done|done|by eexists|]. intros [] l1 [= <-] _. eapply triple_bind; [by apply Hc|]. intros r.
  apply triple_call; [by apply conn_inv_stable|intros w (E & _); split; [intros x; cbn; by rewrite E|done]|].
  intros w x w' (Hl' & Hw) Hs. destruct (conn_bystander (CLwip sys_mutex_unlock) w x w' eq_refl Hs) as (l1 & He & -> & _).
  rewrite Hl' in He. injection He as <-. by apply (triple_ret sys _ (fun _ => conn_inv F' Unlocked)); [apply conn_inv_stable|].
Qed.

Lemma guard_blocking {R} l (closure : io (result R err_t)) :
  (forall l', l' <> Unlocked -> guard F l' closure l') -> guard F l (blocking_lwip closure) l.
Proof. by apply inv_blocking. Qed.
End rules.
End invariant.

(** ** The operations of a connection *)

Section operations.
Context `{V : Vendor} (pcb0 : ptr) (Hpcb0 : pcb0 <> null).

Let sys : shared call world := lwip_system pcb0 false.

Lemma lock_held {X} l (c : lwip_call X) x :
  l <> Unlocked -> tcp_target c = Some pcb0 -> lock_event l (Ev (CLwip c) x) = Some l.
Proof. intros Hl Ht. destruct c; try discriminate; by destruct l. Qed.

(** A call on the live pcb, inside a closure. *)
Lemma inside_lwip {X} l R (c : lwip_call X) (Q : world -> Prop) :
  tcp_target c = Some pcb0 -> stable sys Q ->
  (forall w x w', inside pcb0 l R w -> conn_step pcb0 (CLwip c) w x w' -> Q w') ->
  triple sys (inside pcb0 l R) (lwip c) (fun _ => Q).
Proof.
  intros Ht HQ Hk. apply triple_call; [apply inside_stable| |].
  - intros w (Hl & Hn & _ & Ha & _). split; [intros x; subst l; by rewrite lock_held|].
    intros p Hp. split; [congruence|done].
  - intros w x w' Hw Hs. apply (triple_ret sys x (fun _ => Q)); [done|exact (Hk _ _ _ Hw Hs)].
Qed.

(** Most of them change nothing we keep track of. *)
Lemma inside_quiet {X} l R (c : lwip_call X) :
  bystander (CLwip c) = true -> tcp_target c = Some pcb0 ->
  triple sys (inside pcb0 l R) (lwip c) (fun _ => inside pcb0 l R).
Proof.
  intros Hb Ht. apply inside_lwip; [done|apply inside_stable|].
  intros w x w' Hw (l1 & Hl & -> & _)%conn_bystander; [|done]. destruct Hw as (<- & Hn & Hw).
  rewrite lock_held in Hl by done. injection Hl as <-. by rewrite set_lock_id.
Qed.

Lemma inside_refused l R :
  triple sys (inside pcb0 l R) (lwip (tcp_process_refused_data pcb0)) (fun _ => inside pcb0 l R).
Proof.
  apply inside_lwip; [done|apply inside_stable|]. intros w x w' (Hl & Hn & Hc & Ha & HR) (Hu & [->|Hd]); [done|].
  apply delivers_push in Hd as [->|(m & Hm & Hp & ->)]; [done| |done].
  unfold inside. rewrite arrives_lock, arrives_conn, arrives_pcb. split_and!; try done. by apply core_arrives.
Qed.

Definition processes_refused {X} (c : lwip_call X) : bool :=
  match c with tcp_process_refused_data _ => true | _ => false end.

(** The step of a call that changes the pcb. *)
Lemma inside_pcb {X} l R (c : lwip_call X) w x w' :
  tcp_target c = Some pcb0 -> processes_refused c = false -> inside pcb0 l R w ->
  conn_step pcb0 (CLwip c) w x w' -> w' = set_pcb (pcb_step c (w_pcb w) x) w.
Proof.
  intros Ht Hc (Hl & Hn & _) Hs. assert (base_step pcb0 (CLwip c) w x w') as (_ & l1 & w1 & He & -> & ->).
  { destruct c; try exact Hs. discriminate. }
  subst l. rewrite lock_held in He by done. by injection He as <-.
Qed.

Lemma inside_arg l R (R' : ptr -> bool -> Prop) a :
  (forall p b, R p b -> (a = Some Obj_TcpConnection \/ p = null) /\ R' p (bool_decide (a = Some Obj_TcpConnection))) ->
  triple sys (inside pcb0 l R) (lwip (tcp_arg pcb0 a)) (fun _ => inside pcb0 l R').
Proof.
  intros HR. apply inside_lwip; [done|apply inside_stable|]. intros w x w' Hw Hs.
  apply (inside_pcb l R) in Hs as ->; [|done..]. destruct Hw as (Hl & Hn & Hc & Ha & Hr).
  destruct (HR _ _ Hr) as [Hp Hr']. split_and!; try done. destruct Hc as [Hf Hc]. split; [|exact Hc]. cbn.
  intros Hne. destruct (Hf Hne) as (? & ? & _). split_and!; [done|done|intros _].
  apply bool_decide_eq_true. by destruct Hp.
Qed.

Lemma inside_recv l R f : triple sys (inside pcb0 l R) (lwip (tcp_recv pcb0 f)) (fun _ => inside pcb0 l R).
Proof.
  apply inside_lwip; [done|apply inside_stable|]. intros w x w' Hw Hs.
  apply (inside_pcb l R) in Hs as ->; [|done..]. exact Hw.
Qed.

Lemma inside_err l (R : ptr -> bool -> Prop) f :
  (forall p b, R p b -> f = Some Connection_err -> p <> null -> b = true) ->
  triple sys (inside pcb0 l R) (lwip (tcp_err pcb0 f)) (fun _ => inside pcb0 l R).
Proof.
  intros HR. apply inside_lwip; [done|apply inside_stable|]. intros w x w' Hw Hs.
  apply (inside_pcb l R) in Hs as ->; [|done..]. destruct Hw as (Hl & Hn & Hc & Ha & Hr).
  split_and!; try done. destruct Hc as [Hf Hc]. split; [|exact Hc]. cbn.
  intros Hne. destruct (Hf Hne) as (? & ? & _). split_and!; [done|done|]. intros E. by eapply HR.
Qed.

(** After the close, only lwIP uses the pcb. *)
Lemma inside_close l :
  triple sys (inside pcb0 l (fun p b => p = null /\ b = false)) (lwip (tcp_close pcb0)) (fun _ => conn_inv pcb0 (eq null) l).
Proof.
  apply inside_lwip; [done|by apply conn_inv_stable|]. intros w x w' Hw Hs.
  eapply inside_pcb in Hs as ->; [|done..]. destruct Hw as (Hl & Hn & Hc & Ha & Hp & Hb). cbn in Hp, Hb.
  split; [done|]. split; [split; [done|apply Hc]|]. split; [intros _; right; cbn; by case_decide|done].
Qed.

(** Most operations leave the field to lwIP's thread. *)
Definition any : ptr -> Prop := fun _ => True.

(** Reading the field with the lock held: the pcb is alive, and stays so. *)
Lemma guard_load {A} l (k : ptr -> io A) l' :
  l <> Unlocked -> guard pcb0 any l (k null) l' ->
  triple sys (inside pcb0 l (fun p _ => p = pcb0)) (k pcb0) (fun _ => conn_inv pcb0 any l') ->
  guard pcb0 any l (Call (CRt (pcb_load Obj_TcpConnection)) k) l'.
Proof.
  intros Hn H0 H1. apply triple_call; [by apply conn_inv_stable|intros w _; by split|].
  intros w p w' (Hl & Hc & Hg & _) (_ & l1 & w1 & [= <-] & (-> & ->) & ->). rewrite set_lock_id.
  destruct (decide (c_pcb (w_conn w) = null)) as [E|E]; [rewrite E; by apply H0|].
  destruct (proj1 Hc E) as (Hp & Ha & _). rewrite Hp. apply H1. by split; [|split; [|split]].
Qed.

(** The same while lwIP's thread is running: what is read may already be out of date. *)
Lemma guard_peek {A} l (k : ptr -> io A) l' :
  (forall p, guard pcb0 any l (k p) l') -> guard pcb0 any l (Call (CRt (pcb_load Obj_TcpConnection)) k) l'.
Proof.
  intros Hk. apply triple_call; [by apply conn_inv_stable|intros w _; by split|].
  intros w p w' Hw (_ & l1 & w1 & [= <-] & (_ & ->) & ->). rewrite set_lock_id. by apply Hk.
Qed.

Lemma inside_inv l w : inside pcb0 l (fun p _ => p = pcb0) w -> conn_inv pcb0 any l w.
Proof. intros (Hl & _ & Hc & Ha & Hp). split_and!; [done|done| |done]. intros E. congruence. Qed.

(** Ends a closure whose body was proved from inside. *)
Lemma inside_ret {A} l (a : A) :
  triple sys (inside pcb0 l (fun p _ => p = pcb0)) (Ret a) (fun _ => conn_inv pcb0 any l).
Proof. eapply triple_pre; [apply inside_inv|by apply guard_ret]. Qed.
End operations.

Section worker.
Context `{V : Vendor} (pcb0 : ptr) (Hpcb0 : pcb0 <> null).

Let sys : shared call world := lwip_system pcb0 false.

Lemma guard_attach : guard pcb0 any Unlocked attach_callbacks Unlocked.
Proof.
  apply guard_async; [done|]. apply guard_load; [done..| |].
  { rewrite decide_True by done. by apply guard_ret. }
  rewrite decide_False by done.
  eapply triple_bind; [apply (inside_arg _ _ _ (fun p b => p = pcb0 /\ b = true)); by intros p b Hp; split; [left|split; [exact Hp|]]|cbn beta; intros _].
  eapply triple_bind; [apply inside_recv|cbn beta; intros _].
  eapply triple_bind; [apply inside_err; by intros p b [_ ->]|cbn beta; intros _].
  eapply triple_bind; [by apply inside_quiet|cbn beta; intros _]. eapply triple_bind; [by apply inside_quiet|cbn beta; intros r].
  eapply triple_bind with (R := fun _ => inside pcb0 OnThread (fun p b => p = pcb0 /\ b = true)).
  - destruct r; [|apply (triple_ret sys tt (fun _ => inside pcb0 _ _)), inside_stable].
    eapply triple_bind; [apply inside_refused|cbn beta; intros _].
    apply (triple_ret sys tt (fun _ => inside pcb0 _ _)), inside_stable.
  - intros _. eapply triple_pre; [|apply inside_ret; done]. intros w (Hl & Hn & Hc & Ha & Hp & _). by split_and!.
Qed.

Lemma guard_response b : guard pcb0 any Unlocked (response b) Unlocked.
Proof.
  unfold response. case_decide; [by apply guard_ret|]. apply guard_async; [done|]. apply guard_load; [done..| |].
  { rewrite decide_True by done. by apply guard_ret. }
  rewrite decide_False by done. eapply triple_bind; [by apply inside_quiet|cbn beta; intros e].
  case_decide; [by apply inside_ret|]. eapply triple_bind; [by apply inside_quiet|cbn beta; intros e'].
  case_decide; by apply inside_ret.
Qed.

(** Taking an item out of the channel. *)
Lemma guard_pop {A X} F l (c : rt_call X) (k : X -> io A) l' (f : world -> nat) :
  F null -> match c with conn_receive | conn_try_receive | conn_clear => True | _ => False end ->
  (forall w x w', rt_step pcb0 c w x w' -> w' = pop (f w) w) -> (forall x, guard pcb0 F l (k x) l') ->
  guard pcb0 F l (Call (CRt c) k) l'.
Proof.
  intros HF Hc Hf Hk. apply triple_call; [by apply conn_inv_stable|intros w _; split; [|done]; by destruct c|].
  intros w x w' (<- & Hi & Hg & Hw) (_ & l1 & w1 & Hl & Hs & ->). assert (l1 = w_lock w) as -> by (destruct c; try done; by injection Hl).
  apply Hf in Hs as ->. apply Hk. split_and!; [done|by apply core_lock, core_pop|done|done].
Qed.

Lemma guard_receive : guard pcb0 any Unlocked receive Unlocked.
Proof.
  apply (guard_pop _ _ _ _ _ (fun _ => 1%nat)); [done|done|by intros w x w' [_ ->]|]. intros [p|]; [|by apply guard_ret].
  apply guard_peek. intros q. apply guard_bind with Unlocked; [|intros _; by apply guard_ret].
  case_decide; [|by apply guard_ret]. eapply guard_bind; [|intros _; by apply guard_ret].
  apply guard_async; [done|]. apply guard_load; [done..| |].
  - rewrite decide_False by auto. by apply guard_ret.
  - rewrite decide_True by done.
    eapply triple_bind; [by apply inside_quiet|cbn beta; intros _; by apply inside_ret].
Qed.

(** The drop of a connection, with the field already cleared. *)
Definition clearing (l : lock) : world -> Prop := inside pcb0 l (fun p _ => p = null).

Lemma clearing_ret {A} l (a : A) : triple sys (clearing l) (Ret a) (fun _ => clearing l).
Proof. apply (triple_ret sys a (fun _ => clearing l)), inside_stable. Qed.

Lemma clearing_drop_packet l p : triple sys (clearing l) (drop_packet p) (fun _ => clearing l).
Proof.
  unfold drop_packet, blocking_lwip.
  apply triple_call; [apply inside_stable|intros w _; by split|].
  intros w b w' (Hl & Hn & Hw) Hs. destruct (conn_bystander pcb0 (CLwip derusting_holds_tcpip_core_lock) w b w' eq_refl Hs) as (l1 & He & -> & Hb). cbn in He, Hb. injection He as <-.
  rewrite set_lock_id. rewrite bool_decide_eq_true_2 in Hb by congruence. subst b.
  assert (clearing l w) as Hi by (split; [done|by split]). clear Hl Hw Hs. revert w Hi.
  apply triple_call; [apply inside_stable| |].
  - intros w (<- & Hn' & _). split; [intros x; by destruct (w_lock w)|done].
  - intros w x w' Hi Hs. destruct (conn_bystander pcb0 (CLwip (pbuf_free (pbuf_addr (inner p)))) w x w' eq_refl Hs) as (l1 & He & -> & _). destruct Hi as (<- & Hn' & Hi).
    assert (l1 = w_lock w) as -> by (cbn in He; by destruct (w_lock w); simplify_eq).
    rewrite set_lock_id. apply (clearing_ret (w_lock w) tt). by split.
Qed.

Lemma clearing_drain l fuel : triple sys (clearing l) (drain_channel fuel pcb0) (fun _ => clearing l).
Proof.
  induction fuel as [|fuel IH]; cbn [drain_channel]; [apply triple_fuel|].
  apply triple_call; [apply inside_stable|intros w _; by split|].
  intros w m w' (<- & Hn & Hc & Hw) (_ & l1 & w1 & [= <-] & [_ ->] & ->).
  assert (clearing (w_lock w) (set_lock (w_lock w) (pop 1 w))) as Hi.
  { split_and!; [done|done|by apply core_lock, core_pop|apply Hw..]. }
  revert Hi. generalize (set_lock (w_lock w) (pop 1 w)). intros w'. revert w'.
  destruct m as [[p|]|]; [|exact IH|apply clearing_ret].
  eapply triple_bind; [by apply inside_quiet|cbn beta; intros _].
  eapply triple_bind; [apply clearing_drop_packet|cbn beta; intros _; exact IH].
Qed.

Lemma guard_clear_channel {A} F l (k : list (option PacketBuffer) -> io A) l' :
  F null -> (forall x, guard pcb0 F l (k x) l') -> guard pcb0 F l (Call (CRt conn_clear) k) l'.
Proof. intros HF. apply (guard_pop _ _ _ _ _ (fun w => length (c_channel (w_conn w)))); [done|done|]. by intros w x w' [_ ->]. Qed.

(** Taking the field: it is null from here on. *)
Lemma inv_take {A} l (k : ptr -> io A) Q :
  l <> Unlocked -> triple sys (conn_inv pcb0 (eq null) l) (k null) Q -> triple sys (clearing l) (k pcb0) Q ->
  triple sys (conn_inv pcb0 any l) (Call (CRt (pcb_swap Obj_TcpConnection null)) k) Q.
Proof.
  intros Hn H0 H1. apply triple_call; [by apply conn_inv_stable|intros w _; by split|].
  intros w p w' (<- & Hc & Hg & _) (_ & l1 & w1 & [= <-] & (-> & ->) & ->).
  destruct (decide (c_pcb (w_conn w) = null)) as [E|E].
  - rewrite E. apply H0. split_and!; [done|by apply core_lock, core_null| |done]. intros _. by apply Hg.
  - destruct (proj1 Hc E) as (Hp & Ha & _). rewrite Hp. apply H1.
    split_and!; [done|done|by apply core_lock, core_null|done|done].
Qed.
End worker.
