(* ===== verification/Serve.v ===== *)
(** * Serving a connection next to lwIP's thread

    The invariant and the rules of [Conn.v] applied to the whole turn of the worker: what holds in every interleaving, what the
    worker takes, when it waits for ever, and a scheduler that runs one interleaving. *)

From stdpp Require Import relations.
From S2P Require Import Prelude Prog Text Net Vendor VendorRef Data Ffi Env Lwip Pbuf Tcp Udp Fs Http Request Rng.
From S2P Require Import Messages Observe Upload Put Transfer Rely Conn.

(** ** The worker *)

(** Proves [guard l p l] for a program made of bystander calls and operations already dealt with. *)
Ltac guard_step :=
  lazymatch goal with
  | |- guard _ _ _ (Ret _) _ => by apply guard_ret
  | |- guard _ _ _ Panic _ => apply triple_panic
  | |- guard _ _ _ Fuel _ => apply triple_fuel
  | |- guard _ _ _ (unwrap ?o) _ => destruct o; cbn [unwrap]
  | |- guard _ _ _ (lwip _) _ => apply guard_plain; [done|reflexivity|reflexivity|intros ?; first [reflexivity | by match goal with l : lock |- _ => destruct l end]]
  | |- guard _ _ _ (rt _) _ => apply guard_plain; [done|reflexivity|reflexivity|reflexivity]
  | |- guard _ _ _ (fs _) _ => apply guard_plain; [done|reflexivity|reflexivity|reflexivity]
  | |- guard _ _ _ (blocking_lwip _) _ => apply guard_blocking; [done|intros ? ?]
  | |- guard _ _ _ (async_lwip _) _ => apply guard_async; [done|]
  | |- guard _ _ _ (if ?b then _ else _) _ => destruct b
  | |- guard _ _ _ (match ?x with _ => _ end) _ => destruct x
  | |- guard _ _ _ (_ ≫= _) _ => eapply guard_bind; [|intros ?]
  end.

Ltac guard_tac := repeat (guard_step || (progress intros)); try done; auto with derust.

Section serve.
Context `{V : Vendor} {L : VendorLaws V} `{SM : Serialize Message} (pcb0 : ptr) (Hpcb0 : pcb0 <> null).

Let sys : shared call world := lwip_system pcb0 false.

Lemma guard_drop_packet F l p : F null -> guard pcb0 F l (drop_packet p) l.
Proof. intros HF. unfold drop_packet. guard_tac. Qed.

(** Dropping the connection clears the field, whatever happened before. *)
Lemma inv_drop_connection :
  triple sys (conn_inv pcb0 any Unlocked) drop_connection (fun _ => conn_inv pcb0 (eq null) Unlocked).
Proof.
  unfold drop_connection. eapply triple_bind with (R := fun _ => conn_inv pcb0 (eq null) Unlocked).
  - apply inv_blocking; [done|done|]. intros l Hl. apply inv_take; [done| |].
    { rewrite decide_False by auto. by apply guard_ret. }
    rewrite decide_True by done.
    apply triple_bind with (R := fun _ => conn_inv pcb0 (eq null) l); [|intros _; by apply guard_ret].
    eapply triple_bind; [by apply inside_quiet|cbn beta; intros r].
    eapply triple_bind with (R := fun _ => clearing pcb0 l).
    { destruct r; [|apply clearing_ret]. eapply triple_bind; [apply inside_refused|cbn beta; intros _; apply clearing_ret]. }
    intros _. eapply triple_bind; [apply clearing_drain|cbn beta; intros _].
    eapply triple_bind; [apply inside_recv|cbn beta; intros _].
    eapply triple_bind; [by apply inside_err|cbn beta; intros _].
    eapply triple_bind; [by apply inside_quiet|cbn beta; intros _].
    eapply triple_bind; [apply (inside_arg _ _ _ (fun p b => p = null /\ b = false)); by intros p b ->; split; [right|]|].
    cbn beta; intros _. eapply triple_bind; [by apply inside_quiet|cbn beta; intros _].
    eapply triple_bind; [by apply inside_close|cbn beta; intros _]. by apply guard_ret.
  - cbn beta. intros _. apply guard_clear_channel; [done|]. intros items.
    refine (_ : guard pcb0 (eq null) Unlocked
      (for_each (fun item => match item with Some pkt => drop_packet pkt | None => Ret tt end) items) Unlocked).
    pose proof (fun l p => guard_drop_packet (eq null) l p eq_refl).
    induction items as [|[p|] items IH]; cbn [for_each]; guard_tac.
Qed.

Lemma guard_my_ipaddr l : guard pcb0 any l my_ipaddr l.
Proof. unfold my_ipaddr. guard_tac. Qed.

Lemma guard_alloc {T} `{Serialize T} (m : T) : guard pcb0 any Unlocked (alloc m) Unlocked.
Proof. unfold alloc. guard_tac. Qed.

Lemma guard_send n m : guard pcb0 any Unlocked (send n m) Unlocked.
Proof.
  pose proof (fun l p => guard_drop_packet any l p I). pose proof (@guard_alloc Message _).
  induction n as [|n IH]; cbn [send]; unfold broadcast; guard_tac.
Qed.

Lemma guard_uuid : guard pcb0 any Unlocked generate_uuid_v7 Unlocked.
Proof. unfold generate_uuid_v7. guard_tac. Qed.

Lemma guard_log s : guard pcb0 any Unlocked (log_to_udp s) Unlocked.
Proof. pose proof guard_send. pose proof guard_uuid. unfold log_to_udp, send_log. guard_tac. Qed.

Lemma guard_new_job g : guard pcb0 any Unlocked (send_new_job_alert g) Unlocked.
Proof. pose proof guard_send. pose proof guard_uuid. unfold send_new_job_alert. guard_tac. Qed.

Lemma guard_write_chunks f n cs : guard pcb0 any Unlocked (write_chunks f n cs) Unlocked.
Proof.
  revert n. induction cs as [|c cs IH]; intros n; cbn [write_chunks]; unfold upload_chunk, write; cbv zeta; guard_tac.
Qed.

Lemma guard_receive_rest fuel f path n : guard pcb0 any Unlocked (receive_rest fuel f path n) Unlocked.
Proof.
  pose proof guard_write_chunks. pose proof (fun l p => guard_drop_packet any l p I). pose proof (guard_receive pcb0 Hpcb0).
  revert n. induction fuel as [|fuel IH]; intros n; cbn [receive_rest]; unfold close, drop_file, delete, drop_iter; guard_tac.
Qed.

Lemma guard_append g : guard pcb0 any Unlocked (append_to_ledger g) Unlocked.
Proof. pose proof guard_new_job. pose proof guard_my_ipaddr. unfold append_to_ledger. cbv zeta. guard_tac. Qed.

Lemma guard_handle_conn fuel : guard pcb0 any Unlocked (handle_conn fuel) Unlocked.
Proof.
  pose proof guard_append. pose proof guard_log. pose proof guard_write_chunks. pose proof guard_receive_rest.
  pose proof guard_uuid. pose proof (fun l p => guard_drop_packet any l p I). pose proof (guard_receive pcb0 Hpcb0).
  pose proof (guard_response pcb0 Hpcb0).
  assert (forall g p, guard pcb0 any Unlocked (make_path g p) Unlocked) by (intros; rewrite make_path_eq; by apply guard_ret).
  unfold handle_conn, handle_put, finish_upload, open, upload_chunk, write, close, drop_file, rname, drop_iter. cbv zeta.
  guard_tac.
Qed.
End serve.

(** ** A whole connection *)

Section turn.
Context `{V : Vendor} {L : VendorLaws V} `{SM : Serialize Message} (pcb0 : ptr).

Lemma accepted_stable : stable (lwip_system pcb0 false) (eq accepted).
Proof.
  intros w w' He <-. destruct He as [w1 _ (f & buf & err & e & w2 & _ & [= <-] & [-> ->] & ->)|err w1 _ _ [?|?] _]; [|done..].
  by rewrite hear_refused.
Qed.

Lemma inv_served fuel :
  pcb0 <> null -> triple (lwip_system pcb0 false) (conn_inv pcb0 any Unlocked)
    (attach_callbacks;; handle_conn fuel;; drop_connection) (fun _ => conn_inv pcb0 (eq null) Unlocked).
Proof.
  intros Hp. eapply triple_bind; [by apply guard_attach|cbn beta; intros _].
  eapply triple_bind; [by apply guard_handle_conn|cbn beta; intros _]. by apply inv_drop_connection.
Qed.

(** The connection is built around the pcb before lwIP knows of it. *)
Lemma inv_worker fuel :
  pcb0 <> null -> triple (lwip_system pcb0 false) (eq accepted) (tcp_worker_step fuel)
    (fun _ => conn_inv pcb0 (eq null) Unlocked).
Proof.
  intros Hp. apply triple_call; [apply accepted_stable|intros w _; by split|].
  intros w p w' <- (_ & l1 & w1 & [= <-] & (-> & ->) & ->).
  apply (triple_call (lwip_system pcb0 false) (eq accepted)); [apply accepted_stable|intros w _; by split| |done].
  intros w [] w' <- (_ & l1 & w1 & [= <-] & -> & ->). apply inv_served; [done|].
  split_and!; [done| |by intros _; right|done]. split_and!; [done|cbn; lia|done].
Qed.

(** C4. While a connection is served, lwIP's thread may run at any point where the lock is free, deliver whatever it
    likes and drop the connection at any time.  In every interleaving the worker calls lwIP only with the
    lock and on the pcb it was given while that is alive, never waits for lwIP's thread while it holds the
    lock, and never holds it twice; and when its turn ends, the lock is free and lwIP keeps no callback argument that
    points to the dropped connection on a pcb that lives on.  The pcb is assumed not to die before
    its error callback is registered. *)
Theorem connection_safe fuel tr s :
  pcb0 <> null -> concs (lwip_system pcb0 false) (tcp_worker_step fuel, accepted) tr s ->
  ~ misuse (lwip_system pcb0 false) s /\
  (s.1 = Ret tt -> w_lock s.2 = Unlocked /\ (p_alive (w_pcb s.2) = true -> p_arg (w_pcb s.2) = false)).
Proof.
  intros Hp Hs. eapply wp_adequate in Hs as [Hm Hq]; [|by apply (inv_worker fuel)]. split; [done|].
  intros E. destruct (Hq _ E) as (Hl & _ & Hg & Hf). split; [done|]. intros Ha.
  destruct (Hg (eq_sym Hf)); congruence.
Qed.

(** ** What was delivered *)

(** Everything taken out of the channel, and the part taken by the drop. *)
Definition taken_seen (X : Type) (c : call X) : X -> list (option PacketBuffer) :=
  match c in call X return X -> list (option PacketBuffer) with
  | CRt c =>
      match c in rt_call X return X -> list (option PacketBuffer) with
      | conn_receive => fun m => [m]
      | conn_try_receive => fun m => match m with Some m => [m] | None => [] end
      | conn_clear => fun l => l
      | _ => fun _ => []
      end
  | _ => fun _ => []
  end.

Definition drained_seen (X : Type) (c : call X) : X -> list (option PacketBuffer) :=
  match c in call X return X -> list (option PacketBuffer) with
  | CRt c =>
      match c in rt_call X return X -> list (option PacketBuffer) with
      | conn_try_receive => fun m => match m with Some m => [m] | None => [] end
      | conn_clear => fun l => l
      | _ => fun _ => []
      end
  | _ => fun _ => []
  end.

#[export] Instance drained_foreground : Foreground drained_seen.
Proof. intros X c x. destruct c as [X c|X c|X c|X c|X c|X c]; try done; by destruct c. Qed.

Lemma taken_packets tr : collect drained_seen tr = [] -> omap id (collect taken_seen tr) = packets tr.
Proof.
  unfold packets. induction tr as [|[X c x] tr IH]; [done|]. cbn. intros [Hd Ht]%app_eq_nil. rewrite omap_app, IH by done. f_equal.
  destruct c as [X c|X c|X c|X c|X c|X c]; try done. destruct c; try done; cbn in *; repeat case_match; by simplify_eq.
Qed.

Section drained.
Let f : forall X, call X -> X -> list (option PacketBuffer) := drained_seen.

Lemma no_drained_chunks g n cs : no_emit drained_seen (write_chunks g n cs).
Proof.
  revert n. induction cs as [|c cs IH]; intros n; cbn [write_chunks]; unfold upload_chunk, write; cbv zeta; no_emit_tac.
Qed.

Lemma no_drained_receive : no_emit drained_seen receive.
Proof. unfold receive. no_emit_tac. Qed.

Lemma no_drained_response b : no_emit drained_seen (response b).
Proof. unfold response. no_emit_tac. Qed.

Lemma no_drained_rest fuel g path n : no_emit drained_seen (receive_rest fuel g path n).
Proof.
  pose proof no_drained_chunks. pose proof no_drained_receive. pose proof (no_emit_drop_packet drained_seen).
  revert n. induction fuel as [|fuel IH]; intros n; cbn [receive_rest]; unfold close, drop_file, delete, drop_iter;
    (destruct (n >? 0); [|apply no_emit_ret]); [apply no_emit_fuel|]. no_emit_tac.
Qed.

(** The handler itself only takes packets one by one. *)
Lemma no_drained_handle fuel : no_emit drained_seen (handle_conn fuel).
Proof.
  pose proof no_drained_chunks. pose proof no_drained_receive. pose proof no_drained_rest. pose proof no_drained_response.
  pose proof (no_emit_drop_packet drained_seen). pose proof (no_emit_uuid drained_seen).
  pose proof (no_emit_send_log drained_seen). pose proof (no_emit_new_job drained_seen). pose proof (no_emit_my_ipaddr drained_seen).
  assert (forall g p, no_emit drained_seen (make_path g p)) by (intros; rewrite make_path_eq; apply no_emit_ret).
  unfold handle_conn, handle_put, finish_upload, append_to_ledger, log_to_udp, open, upload_chunk, write, close, drop_file, rname, drop_iter.
  cbv zeta. no_emit_tac.
Qed.
End drained.

Lemma delivers_history w w' : w_lock w <> Unlocked -> delivers pcb0 w w' -> w_taken w' = w_taken w.
Proof. intros Hl H. apply delivers_push in H as [->|(m & _ & _ & ->)]; [done|apply arrives_taken|done]. Qed.

(** The history of the channel is that of the trace. *)
Lemma concs_taken {A} early (s s' : io A * world) tr :
  concs (lwip_system pcb0 early) s tr s' -> w_taken s'.2 = w_taken s.2 ++ collect taken_seen tr.
Proof.
  induction 1 as [s|s tr1 s1 tr2 s2 H1 _ IH]; [by rewrite app_nil_r|].
  rewrite collect_app, app_assoc, IH. f_equal. clear IH.
  destruct H1 as [p w w' He|X c k w x w' Hs]; cbn [snd collect]; rewrite app_nil_r.
  - destruct He as [w1 _ Hd|err w1 _ _ _ Hr]; [by apply delivers_history in Hd|].
    apply err_runs in Hr. destruct (_ && _); subst w1; [by case_match|done].
  - assert (base_step pcb0 c w x w' \/ taken_seen X c x = [] /\ w_taken w' = w_taken w) as [(_ & l & w1 & _ & Ha & ->)|[-> ->]].
    { destruct c as [X c|X c|X c|X c|X c|X c]; try (by left). destruct c; try (by left). right. split; [done|].
      destruct Hs as [Hl [->|Hd]]; [done|]. by apply (delivers_history w w'). }
    + destruct c as [X c|X c|X c|X c|X c|X c]; cbn in Ha |- *; subst; rewrite ?app_nil_r; try done.
      destruct c as [o|o p|o p| | | | | | | | | | | | | | | | | | | | | | | | | | | |]; cbn in Ha |- *; try (destruct o);
        rewrite ?app_nil_r; destruct_and?; subst; try done.
      * by case_match.
      * cbn. destruct (c_channel (w_conn w)); by simplify_eq/=.
      * cbn. by destruct (c_channel (w_conn w)).
      * cbn. by rewrite firstn_all.
    + by rewrite app_nil_r.
Qed.

Lemma no_emit_drain {B} (f : forall X, call X -> X -> list B) `{!Foreground f} fuel p :
  (forall x, f _ (CRt conn_try_receive) x = []) -> no_emit f (drain_channel fuel p).
Proof.
  intros Hf. pose proof (no_emit_drop_packet f). induction fuel as [|fuel IH]; cbn [drain_channel]; [apply no_emit_fuel|].
  apply no_emit_bind; [apply no_emit_call; [exact Hf|intros; apply no_emit_ret]|intros m]. no_emit_tac.
Qed.

Lemma no_emit_drop_connection {B} (f : forall X, call X -> X -> list B) `{!Foreground f} :
  (forall p a x, f _ (CLwip (tcp_arg p a)) x = []) -> (forall x, f _ (CRt conn_try_receive) x = []) -> (forall x, f _ (CRt conn_clear) x = []) ->
  no_emit f drop_connection.
Proof.
  intros H0 H1 H2. pose proof (no_emit_drop_packet f). pose proof (fun n p => no_emit_drain f n p H1).
  unfold drop_connection. apply no_emit_bind; [no_emit_tac; apply no_emit_call; [apply H0|intros; apply no_emit_ret]|intros _].
  apply no_emit_bind; [apply no_emit_call; [exact H2|intros; apply no_emit_ret]|intros items].
  apply no_emit_for_each. no_emit_tac.
Qed.

Lemma hidden_attach : hidden attach_callbacks.
Proof. unfold attach_callbacks. split_and!; no_emit_tac. Qed.

Lemma hidden_drop_connection : hidden drop_connection.
Proof. split_and!; by apply (no_emit_drop_connection _). Qed.

(** C5. A connection is served as if lwIP's thread were not there: in every interleaving with it, what is
    written to the stick and sent back is what [handle_conn_spec] says of the packets taken, and these are
    the first packets that lwIP handed over, in order, none skipped or taken twice.  A packet is handed over
    when the registered receive callback answers ERR_OK for it, which it does exactly when it queued it: one
    that comes while the channel is full is answered ERR_MEM and is not among them.  The pcb is assumed not
    to die before its error callback is registered. *)
Theorem connection_serves fuel tr w :
  pcb0 <> null -> concs (lwip_system pcb0 false) (tcp_worker_step fuel, accepted) tr (Ret tt, w) ->
  conn_log (packets tr) (fs_calls tr) (replies tr) /\ packets tr `prefix_of` (packet_of <$> w_heard w).
Proof.
  intros Hp Hs. pose proof (concs_taken _ _ _ _ Hs) as Ht. cbn in Ht.
  pose proof (wp_adequate _ _ _ _ _ _ (inv_worker fuel Hp _ eq_refl) Hs) as [_ Hq].
  destruct (Hq tt eq_refl) as (_ & (_ & _ & Hd) & _). cbn [snd] in Hd. rewrite omap_app in Hd. clear Hq.
  apply concs_run in Hs. unfold tcp_worker_step, with_connection in Hs.
  bind_step Hs as p H3. exec_steps H3. bind_step Hs as [] H3. exec_steps H3. bind_step Hs as r H1. bind_step Hs as [] H2.
  match type of H1 with exec _ ?t _ => assert (collect taken_seen t = []) as Ht1 end.
  { revert H1. assert (no_emit taken_seen attach_callbacks) as Hn by (unfold attach_callbacks; no_emit_tac). apply Hn. }
  pose proof (no_drained_handle _ _ _ H2) as Hn2. apply hidden_seen in H1; [|apply hidden_attach].
  apply hidden_seen in Hs; [|apply hidden_drop_connection]. apply handle_conn_run in H2 as (evs & ps & rs & Hs2 & Hl).
  match goal with |- conn_log (packets ?t) _ _ /\ _ => assert (seen t evs ps rs) as (-> & -> & ->) end.
  { pose proof (seen_app _ _ _ _ _ _ _ _ H1 (seen_app _ _ _ _ _ _ _ _ Hs2 Hs)) as G.
    cbn [app] in G. rewrite !app_nil_r in G. exact G. }
  split; [done|]. rewrite <- Hd, Ht. cbn [collect app taken_seen]. rewrite !collect_app, Ht1, !omap_app, taken_packets by done.
  destruct Hs2 as (_ & <- & _). cbn [app]. rewrite <- ?app_assoc. by eexists.
Qed.
End turn.

(** ** Waiting for ever *)

Section waiting.
Context `{V : Vendor} (pcb0 : ptr).

(** lwIP's thread has no way left to put anything in the channel. *)
Definition deaf (w : world) : Prop :=
  p_alive (w_pcb w) = false \/ p_arg (w_pcb w) = false \/
  (p_recv (w_pcb w) <> Some Connection_recv /\ p_err (w_pcb w) <> Some Connection_err).

Lemma deaf_delivers w w' :
  w_lock w <> Unlocked -> p_arg (w_pcb w) = false \/ p_recv (w_pcb w) <> Some Connection_recv ->
  delivers pcb0 w w' -> w' = w.
Proof.
  intros Hl Hd (f & buf & err & e & w1 & Ha & Hr & H & ->).
  destruct f; try (exfalso; exact H); [destruct H as [-> ->]; by apply hear_refused|].
  destruct Hd as [Hd|Hd]; [|congruence]. cbn [recv_callback] in H. unfold connection_recv in H. rewrite Hd in H. cbn [negb] in H.
  destruct (pbuf_is_null buf); [destruct H as [-> ->]; by apply hear_refused|].
  apply (runs_bystander pcb0 (CLwip _)) in H as [n H]; [destruct H as [-> ->]; by apply hear_refused|done|].
  cbn. intros _ l. destruct (w_lock w); [done|by intros [= <-]|by intros [= <-]].
Qed.

Lemma deaf_env early w w' :
  lwip_thread pcb0 early w w' -> deaf w -> deaf w' /\ c_channel (w_conn w') = c_channel (w_conn w).
Proof.
  intros [w1 Hl Hd|err w1 Hl Ha _ Hr] Hw.
  - assert (w1 = set_lock OnThread w) as ->; [|done]. apply deaf_delivers in Hd; [done|done|].
    destruct Hd as (f & buf & err & e & w2 & Ha & _). destruct Hw as [Hw|[Hw|[Hw _]]]; [cbn in Ha; congruence|by left|by right].
  - apply err_runs in Hr. cbn in Hr. destruct (p_arg (w_pcb w) && _) eqn:E; [|subst w1; split; [by left|done]].
    apply andb_true_iff in E as [E1 E2]. apply bool_decide_eq_true in E2.
    destruct Hw as [Hw|[Hw|[_ Hw]]]; congruence.
Qed.

(** Nothing that may still happen lets [receive] take a step. *)
Definition stuck (early : bool) (w : world) : Prop :=
  forall tr s, concs (lwip_system pcb0 early) (receive, w) tr s -> s.1 = receive.

(** The next step of the program takes an item of the channel. *)
Definition takes_item {A} (p : io A) : Prop :=
  match p with Call (CRt conn_receive) _ => True | _ => False end.

Lemma takes_item_call {X A} (c : call X) (k : X -> io A) w x w' :
  takes_item (Call c k) -> c_channel (w_conn w) = [] -> ~ conn_step pcb0 c w x w'.
Proof.
  intros Ht Hc Hs. destruct c as [X c|X c|X c|X c|X c|X c]; try done. destruct c; try done.
  destruct Hs as (_ & l & w1 & _ & [Hm _] & _). by rewrite Hc in Hm.
Qed.

Lemma deaf_stuck early w : c_channel (w_conn w) = [] -> deaf w -> stuck early w.
Proof.
  intros Hc Hd tr s Hs.
  cut (forall s0 : io (option PacketBuffer) * world, concs (lwip_system pcb0 early) s0 tr s ->
    takes_item s0.1 -> c_channel (w_conn s0.2) = [] -> deaf s0.2 -> s.1 = s0.1).
  { intros H. by apply (H (receive, w)). }
  clear. intros s0 Hs. induction Hs as [s|s tr s' tr' s'' H _ IH]; [done|]. intros Ht Hc Hd.
  destruct H as [p w1 w2 He|X c k w1 x w2 Hx]; cbn in *.
  - destruct (deaf_env _ _ _ He Hd) as [Hd' Hc']. apply IH; [done|congruence|done].
  - by apply (takes_item_call c k w1 x w2 Ht Hc) in Hx.
Qed.

(** An item in the channel can be taken. *)
Lemma receive_takes early w m : head (c_channel (w_conn w)) = Some m -> w_lock w = Unlocked -> ~ stuck early w.
Proof.
  intros Hm Hl Hs. assert (conn_step pcb0 (CRt conn_receive) w m (set_lock Unlocked (pop 1 w))) as Hc.
  { split; [done|]. exists Unlocked, (pop 1 w). cbn. by rewrite Hl. }
  pose proof (Hs _ _ (concs_cons _ _ _ _ _ _ (conc_call (lwip_system pcb0 early) _ _ _ _ _ _ Hc) (concs_nil _ _))) as H.
  assert (takes_item receive) as Ht by done. cbn [fst] in H. rewrite <- H in Ht. by destruct m.
Qed.

Lemma stuck_env early w w' : lwip_thread pcb0 early w w' -> stuck early w -> stuck early w'.
Proof. intros He Hs tr s H. apply (Hs ([] ++ tr)). eapply concs_cons; [by apply conc_env|done]. Qed.

Lemma runs_push {A} m (k : bool -> io A) w a w' :
  has_room w = true -> runs pcb0 (k true) (push m w) a w' -> runs pcb0 (Call (CRt (conn_try_send m)) k) w a w'.
Proof.
  intros Hr H. exists true, (push m w). split; [|done]. split; [done|]. exists (w_lock w), (push m w).
  split; [done|]. split; [cbn; by rewrite Hr|by destruct w].
Qed.

Lemma runs_store {A} p (k : unit -> io A) w a w' :
  runs pcb0 (k tt) (set_field p w) a w' -> runs pcb0 (Call (CRt (pcb_store Obj_TcpConnection p)) k) w a w'.
Proof.
  intros H. exists tt, (set_field p w). split; [|done]. split; [done|]. exists (w_lock w), (set_field p w).
  split; [done|]. split; [done|by destruct w].
Qed.

(** C32. When the worker waits for ever: exactly if its channel is empty and the pcb is dead or lwIP has no
    callback of the connection to call.  Otherwise lwIP can always wake it. *)
Theorem receive_stuck_iff early w :
  w_lock w = Unlocked -> stuck early w <-> c_channel (w_conn w) = [] /\ deaf w.
Proof.
  intros Hl. split; [|intros [? ?]; by apply deaf_stuck]. intros Hs.
  assert (c_channel (w_conn w) = []) as Hc.
  { destruct (c_channel (w_conn w)) as [|m ms] eqn:E; [done|]. exfalso. revert Hs. by apply (receive_takes _ _ m); [rewrite E|]. }
  split; [done|]. assert (forall w', has_room w' = true -> c_channel (w_conn w') = [] ->
    lwip_thread pcb0 early w (set_lock Unlocked (push None w')) -> False) as Hpush.
  { intros w' _ Hc' He. apply (stuck_env _ _ _ He) in Hs. revert Hs. apply (receive_takes _ _ None); [|done]. cbn. by rewrite Hc'. }
  unfold deaf. destruct (p_alive (w_pcb w)) eqn:Ea; [|by left]. destruct (p_arg (w_pcb w)) eqn:Eg; [|by right; left].
  assert (has_room w = true) as Hr by (unfold has_room; rewrite Hc; done).
  right. right. split; intros E.
  - apply (Hpush (set_lock OnThread w)); [done|done|]. apply thread_recv; [done|].
    exists Connection_recv, [], err_t.Ok, err_t.Ok, (push None (set_lock OnThread w)).
    split; [done|]. split; [done|]. split; [|done]. cbn [recv_callback set_lock w_pcb]. rewrite Eg.
    apply (runs_push None); [done|]. by split.
  - apply (Hpush (set_field null (set_lock OnThread (set_pcb (kill (w_pcb w)) w)))); [done|done|].
    apply (thread_dies _ _ _ err_t.Rst); [done|done|by right|]. rewrite E, Eg. cbn [err_callback].
    apply (runs_store null), (runs_push None); [done|]. by split.
Qed.

(** The calls that let something reach the channel: giving the connection to lwIP as the argument, and putting
    an item in. *)
Definition offer_seen (X : Type) (c : call X) : X -> list unit :=
  match c in call X return X -> list unit with
  | CLwip c =>
      match c in lwip_call X return X -> list unit with
      | tcp_arg _ a => fun _ => if decide (a = Some Obj_TcpConnection) then [tt] else []
      | _ => fun _ => []
      end
  | CRt c =>
      match c in rt_call X return X -> list unit with
      | conn_try_send _ => fun _ => [tt]
      | _ => fun _ => []
      end
  | _ => fun _ => []
  end.

#[export] Instance offer_foreground : Foreground offer_seen.
Proof. intros X c x. destruct c as [X c|X c|X c|X c|X c|X c]; try done; by destruct c. Qed.

#[export] Instance taken_foreground : Foreground taken_seen.
Proof. intros X c x. destruct c as [X c|X c|X c|X c|X c|X c]; try done; by destruct c. Qed.

(** Until the connection is given to lwIP, nothing arrives. *)
Lemma quiet_step {X} (c : call X) w x w' :
  offer_seen X c x = [] -> conn_step pcb0 c w x w' -> p_arg (w_pcb w) = false ->
  c_channel (w_conn w) = [] -> p_arg (w_pcb w') = false /\ c_channel (w_conn w') = [].
Proof.
  intros Ha Hs Hw Hc.
  assert (base_step pcb0 c w x w' \/ w' = w) as [(_ & l & w1 & _ & Hx & ->)|Hx]; [| |by subst].
  { destruct c as [X c|X c|X c|X c|X c|X c]; try (by left). destruct c; try (by left). right.
    destruct Hs as [Hl [->|Hd]]; [done|]. apply deaf_delivers in Hd; [done|done|by left]. }
  destruct c as [X c|X c|X c|X c|X c|X c]; cbn in Hx |- *; subst; try done.
  - destruct c; try done; cbn in *; case_decide; try done. by rewrite bool_decide_eq_false_2.
  - destruct c as [o|o p|o p| | | | | | | | | | | | | | | | | | | | | | | | | | | |]; cbn in Hx |- *; try (destruct o);
      destruct_and?; subst; try discriminate Ha; try done; (split; [done|cbn; by rewrite Hc]).
Qed.

Lemma quiet_steps {A} early (s s' : io A * world) tr :
  concs (lwip_system pcb0 early) s tr s' -> collect offer_seen tr = [] ->
  p_arg (w_pcb s.2) = false -> c_channel (w_conn s.2) = [] ->
  p_arg (w_pcb s'.2) = false /\ c_channel (w_conn s'.2) = [].
Proof.
  induction 1 as [s|s tr1 s1 tr2 s2 H _ IH]; [done|]. destruct H as [p w w' He|X c k w x w' Hx]; cbn in *.
  - intros Ha Hw Hc. assert (deaf w) as Hd by (right; by left). destruct (deaf_env _ _ _ He Hd) as [_ Hc'].
    apply IH; [done| |congruence]. destruct He as [w1 _ Hd'|err w1 _ _ _ Hr].
    + apply deaf_delivers in Hd' as ->; [done|done|by left].
    + apply err_runs in Hr. cbn in Hr. rewrite Hw in Hr. cbn in Hr. by subst w1.
  - intros [Ha1 Ha2]%app_eq_nil Hw Hc. destruct (quiet_step _ _ _ _ Ha1 Hx Hw Hc). by apply IH.
Qed.

(** lwIP's thread has nothing to do with a dead pcb. *)
Lemma dead_thread early w w' : p_alive (w_pcb w) = false -> ~ lwip_thread pcb0 early w w'.
Proof. intros Hw [w1 _ (f & buf & err & e & w2 & Ha & _)|err w1 _ Ha _ _]; cbn in *; congruence. Qed.

(** After that, what was in the channel is what is taken and what is left. *)
Lemma dead_step {X} (c : call X) w x w' :
  offer_seen X c x = [] -> conn_step pcb0 c w x w' -> p_alive (w_pcb w) = false ->
  p_alive (w_pcb w') = false /\ c_channel (w_conn w) = taken_seen X c x ++ c_channel (w_conn w').
Proof.
  intros Ha Hs Hw.
  assert (base_step pcb0 c w x w' \/ w' = w /\ taken_seen X c x = []) as [(_ & l & w1 & _ & Hx & ->)|[-> ->]]; [| |by subst].
  { destruct c as [X c|X c|X c|X c|X c|X c]; try (by left). destruct c; try (by left). right.
    destruct Hs as [Hl [->|(f & buf & err & e & w2 & Hd & _)]]; [done|congruence]. }
  destruct c as [X c|X c|X c|X c|X c|X c]; cbn in Hx |- *; subst; try done.
  - destruct c; try done. cbn. by case_decide.
  - destruct c as [o|o p|o p| | | | | | | | | | | | | | | | | | | | | | | | | | | |]; cbn in Hx |- *; try (destruct o);
      destruct_and?; subst; try discriminate Ha; try done; cbn.
    + destruct (c_channel (w_conn w)); by simplify_eq/=.
    + split; [done|]. by destruct (c_channel (w_conn w)).
    + split; [done|]. by rewrite drop_all, app_nil_r.
Qed.

Lemma dead_steps {A} early (s s' : io A * world) tr :
  concs (lwip_system pcb0 early) s tr s' -> collect offer_seen tr = [] -> p_alive (w_pcb s.2) = false ->
  p_alive (w_pcb s'.2) = false /\ c_channel (w_conn s.2) = collect taken_seen tr ++ c_channel (w_conn s'.2).
Proof.
  induction 1 as [s|s tr1 s1 tr2 s2 H _ IH]; [done|]. destruct H as [p w w' He|X c k w x w' Hx]; cbn in *.
  - intros _ Hw. by apply dead_thread in He.
  - intros [Ha1 Ha2]%app_eq_nil Hw. destruct (dead_step _ _ _ _ Ha1 Hx Hw) as [Hw' ->].
    destruct (IH Ha2 Hw') as [Hw2 ->]. by rewrite <- !app_assoc.
Qed.
End waiting.

(** ** A worker that never comes back *)

Section hangs.
Context `{V : Vendor} {L : VendorLaws V} `{SM : Serialize Message} (pcb0 : ptr).

(** A total program that has not returned has a call to make. *)
Lemma total_unfinished {A} early (p p' : io A) w tr w' :
  total p -> concs (lwip_system pcb0 early) (p, w) tr (p', w') -> (forall a, p' <> Ret a) -> unfinished p'.
Proof.
  intros Ht Hc Hn. destruct p' as [a| | |X c k]; [by destruct (Hn a)| | |done]; exfalso.
  all: destruct (Ht _ _ (concs_exec _ _ _ _ [] _ Hc (conj eq_refl eq_refl))) as [a [=]].
Qed.

(** The first closure that the worker queues registers the callbacks; what lwIP answers to that and later ones. *)
Definition queued_seen (X : Type) (c : call X) : X -> list err_t :=
  match c in call X return X -> list err_t with
  | CLwip c =>
      match c in lwip_call X return X -> list err_t with
      | tcpip_callback => fun e => [e]
      | _ => fun _ => []
      end
  | _ => fun _ => []
  end.

Lemma attach_fails tr r e :
  exec attach_callbacks tr (Done r) -> head (collect queued_seen tr) = Some e -> e <> err_t.Ok ->
  collect offer_seen tr = [].
Proof.
  intros H He Hn. exec_step H as e1. cbn in He. injection He as ->.
  rewrite decide_True in H by done. by exec_steps H.
Qed.

Lemma attach_queues tr r : exec attach_callbacks tr (Done r) -> exists e es, collect queued_seen tr = e :: es.
Proof. intros H. exec_step H as e. cbn. by eexists _, _. Qed.

Lemma taken_receive tr m : exec receive tr (Done m) -> collect taken_seen tr = [m].
Proof.
  intros H. unfold receive in H. exec_step H as x. destruct x as [p|]; [|by exec_steps H].
  exec_step H as pcb. bind_step H as u H1. silent taken_seen H1. exec_steps H. cbn. rewrite collect_app, Hn. cbn.
  by simplify_eq.
Qed.

Lemma no_offer_receive : no_emit offer_seen receive.
Proof. unfold receive. no_emit_tac. Qed.

Lemma no_offer_log s : no_emit offer_seen (log_to_udp s).
Proof. pose proof (no_emit_send_log offer_seen). unfold log_to_udp. no_emit_tac. Qed.

Lemma no_emit_chunks {B} (g : forall X, call X -> X -> list B) f n cs :
  (forall d p x, g _ (CFs (fwrite d p)) x = []) -> no_emit g (write_chunks f n cs).
Proof.
  intros Hg. revert n. induction cs as [|c cs IH]; intros n; cbn [write_chunks]; unfold upload_chunk, write; cbv zeta; [apply no_emit_ret|].
  repeat first [apply no_emit_bind; [|intros ?] | apply no_emit_ret | case_match; try done | apply no_emit_call; [done|intros ?]].
Qed.

(** The worker waits, having taken what there was. *)
Lemma rest_hangs early fuel f path n ps w tr s :
  p_alive (w_pcb w) = false -> c_channel (w_conn w) = Some <$> ps ->
  len (concat (packet_data <$> ps)) < n -> (length ps < fuel)%nat ->
  concs (lwip_system pcb0 early) (receive_rest fuel f path n, w) tr s -> unfinished s.1.
Proof.
  revert n ps w tr. induction fuel as [|fuel IH]; intros n ps w tr Hw Hc Hn Hf H; [lia|].
  pose proof (len_nonneg (concat (packet_data <$> ps))). assert (0 <= n) as Hn0 by lia. cbn [receive_rest] in H.
  rewrite Z.gtb_ltb in H. destruct (Z.ltb_spec 0 n) as [_|]; [|lia].
  apply concs_bind_inv in H as [(p' & w' & H1 & -> & Hp)|(m & tr1 & w1 & tr2 & H1 & -> & H)].
  { apply unfinished_bind. by eapply total_unfinished; [apply total_receive|..]. }
  pose proof (concs_run _ _ _ _ _ _ H1) as Hr. pose proof (no_offer_receive _ _ Hr) as Ho.
  destruct (dead_steps _ _ _ _ _ H1 Ho Hw) as [Hw1 Hc1]. cbn [snd] in *. rewrite (taken_receive _ _ Hr), Hc in Hc1.
  destruct ps as [|p ps]; [done|]. cbn in Hc1. injection Hc1 as <- Hc1.
  apply concs_bind_inv in H as [(p' & w' & H2 & -> & Hp)|([k b] & tr3 & w2 & tr4 & H2 & -> & H)].
  { apply unfinished_bind. by eapply total_unfinished; [apply total_write_chunks|..]. }
  pose proof (concs_run _ _ _ _ _ _ H2) as Hr2. pose proof (write_chunks_run _ _ _ _ _ _ Hn0 Hr2) as (-> & _).
  destruct (dead_steps _ _ _ _ _ H2) as [Hw2 Hc2]; [by eapply (no_emit_chunks offer_seen)|done|]. cbn [snd] in *.
  rewrite (no_emit_chunks taken_seen _ _ _ (fun _ _ _ => eq_refl) _ _ Hr2) in Hc2.
  apply concs_bind_inv in H as [(p' & w' & H3 & -> & Hp)|([] & tr5 & w3 & tr6 & H3 & -> & H)].
  { apply unfinished_bind. by eapply total_unfinished; [apply total_drop_packet|..]. }
  pose proof (concs_run _ _ _ _ _ _ H3) as Hr3.
  destruct (dead_steps _ _ _ _ _ H3) as [Hw3 Hc3]; [by eapply (no_emit_drop_packet offer_seen)|done|]. cbn [snd] in *.
  rewrite (no_emit_drop_packet taken_seen _ _ _ Hr3) in Hc3. cbn [fst] in H.
  apply (IH _ ps) in H; [done|done|by rewrite Hc1, Hc2, Hc3| |cbn in Hf; lia].
  cbn [fmap list_fmap concat] in Hn. rewrite len_app in Hn. unfold packet_data in Hn at 1. unfold saturating_sub. lia.
Qed.

(** lwIP has no callback of the connection, and nothing was put in the channel. *)
Definition unheard (w : world) : Prop := p_arg (w_pcb w) = false /\ c_channel (w_conn w) = [].

Lemma quiet_part {A B} early (p : io A) (f : A -> io B) w tr s :
  total p -> no_emit offer_seen p -> unheard w -> concs (lwip_system pcb0 early) (p ≫= f, w) tr s ->
  unfinished s.1 \/ exists a tr1 w1 tr2, exec p tr1 (Done a) /\ tr = tr1 ++ tr2 /\ unheard w1 /\
    concs (lwip_system pcb0 early) (f a, w1) tr2 s.
Proof.
  intros Ht Hn [Hw Hc] [(p' & w' & H1 & -> & Hp)|(a & tr1 & w1 & tr2 & H1 & -> & H)]%concs_bind_inv.
  - left. apply unfinished_bind. by eapply total_unfinished.
  - right. pose proof (concs_run _ _ _ _ _ _ H1) as Hr. exists a, tr1, w1, tr2. split_and!; [done|done| |done].
    exact (quiet_steps _ _ _ _ _ H1 (Hn _ _ Hr) Hw Hc).
Qed.

Lemma handle_hangs early fuel w tr s :
  unheard w -> concs (lwip_system pcb0 early) (handle_conn fuel, w) tr s -> unfinished s.1.
Proof.
  intros Hq H. apply quiet_part in H as [H|(u & tr1 & w1 & tr2 & _ & -> & [Hw Hc] & H)]; [done| |apply total_log|apply no_offer_log|done].
  assert (stuck pcb0 early w1) as Hs by (apply deaf_stuck; [done|right; by left]).
  apply concs_bind_inv in H as [(p' & w' & H1 & -> & _)|(a & tr3 & w3 & tr4 & H1 & _)]; apply Hs in H1; cbn [fst] in H1.
  - rewrite H1. by apply unfinished_bind.
  - discriminate.
Qed.

Lemma attach_hangs early fuel w tr s e :
  unheard w -> concs (lwip_system pcb0 early) (attach_callbacks;; handle_conn fuel;; drop_connection, w) tr s ->
  head (collect queued_seen tr) = Some e -> e <> err_t.Ok -> unfinished s.1.
Proof.
  intros [Hw Hc] [(p' & w' & H1 & -> & Hp)|(a & tr1 & w1 & tr2 & H1 & -> & H)]%concs_bind_inv He Hn.
  { apply unfinished_bind. by eapply total_unfinished; [apply total_attach|..]. }
  pose proof (concs_run _ _ _ _ _ _ H1) as Hr. destruct (attach_queues _ _ Hr) as (e' & es & Eq).
  rewrite collect_app, Eq in He. cbn in He. assert (collect offer_seen tr1 = []) as Ho by (apply (attach_fails tr1 a e); [done|by rewrite Eq|done]).
  pose proof (quiet_steps _ _ _ _ _ H1 Ho Hw Hc) as Hq1.
  apply concs_bind_inv in H as [(p' & w' & H2 & -> & _)|(b & tr3 & w3 & tr4 & H2 & _)];
    apply handle_hangs in H2; try exact Hq1; [by apply unfinished_bind|done].
Qed.

(** C33. Two ways to lose the only worker.  When lwIP cannot queue the closure that registers the callbacks, the
    error is dropped and the worker serves the connection all the same: whatever happens, its turn always has a call
    to make and never ends.  And when the connection dies while the channel is full, the end marker is
    dropped: a worker that reads the rest of a body, of which more is missing than what waits in the channel,
    never comes back, whatever it has left to do. *)
Theorem worker_hangs early :
  (forall fuel tr s e,
     concs (lwip_system pcb0 early) (tcp_worker_step fuel, accepted) tr s ->
     head (collect queued_seen tr) = Some e -> e <> err_t.Ok ->
     unfinished s.1) /\
  (forall w ps, w_lock w = Unlocked -> p_alive (w_pcb w) = true -> p_arg (w_pcb w) = true ->
     p_err (w_pcb w) = Some Connection_err -> has_room w = false -> c_channel (w_conn w) = Some <$> ps ->
     exists w', lwip_thread pcb0 early w w' /\ c_channel (w_conn w') = c_channel (w_conn w) /\
       forall A fuel f path n (k : bool -> io A) tr s,
         len (concat (packet_data <$> ps)) < n -> (length ps < fuel)%nat ->
         concs (lwip_system pcb0 early) (receive_rest fuel f path n ≫= k, w') tr s -> unfinished s.1).
Proof.
  split.
  - intros fuel tr s e H He Hn. unfold tcp_worker_step, with_connection in H.
    apply quiet_part in H as [H|(p & tr1 & w1 & tr2 & H1 & -> & Hq & H)]; [done| |apply total_call; intros ?; apply total_ret|no_emit_tac|done].
    apply quiet_part in H as [H|(u & tr3 & w2 & tr4 & H2 & -> & Hq2 & H)]; [done| |apply total_call; intros ?; apply total_ret|no_emit_tac|done].
    exec_steps H1. exec_steps H2. by eapply attach_hangs.
  - intros w ps Hl Ha Hg He Hr Hc. set (wd := set_field null (set_lock OnThread (set_pcb (kill (w_pcb w)) w))).
    exists (set_lock Unlocked wd). split; [|split; [done|]].
    + apply (thread_dies _ _ _ err_t.Rst); [done|done|by right|]. rewrite He, Hg. cbn [err_callback].
      apply (runs_store pcb0 null). exists false, wd. split; [|by split]. split; [done|]. exists OnThread, wd.
      split; [done|]. split; [|done]. cbn. unfold has_room in *. cbn. by rewrite Hr.
    + intros A fuel f path n k tr s Hn Hf [(p' & w' & H1 & -> & _)|(b & tr1 & w1 & tr2 & H1 & _)]%concs_bind_inv;
        apply (rest_hangs _ _ _ _ _ ps) in H1; try done. by apply unfinished_bind.
Qed.
End hangs.

(** ** A pcb that dies early *)

Section early.
Context `{V : Vendor} `{SM : Serialize Message} (pcb0 : ptr).

(** A connection that was just created around a pcb. *)
Definition created : world := set_field pcb0 accepted.

(** A call of the program in an interleaving. *)
Lemma conc_base {A X} early (c : call X) (k : X -> io A) w x l w1 :
  match c with CLwip (tcp_process_refused_data _) => False | _ => True end ->
  lock_answer_ok (w_lock w) (Ev c x) -> lock_event (w_lock w) (Ev c x) = Some l -> act pcb0 c w x w1 ->
  conc (lwip_system pcb0 early) (Call c k, w) [Ev c x] (k x, set_lock l w1).
Proof.
  intros Hc Ha Hl Hw. apply conc_call. assert (base_step pcb0 c w x (set_lock l w1)) by (split; [done|eauto]).
  by destruct c as [X []| | | | |].
Qed.

(** The closure of [attach_callbacks] finds the field set although the pcb is gone. *)
Lemma attach_dead w :
  pcb0 <> null -> w_lock w = Unlocked -> c_pcb (w_conn w) = pcb0 -> p_alive (w_pcb w) = false -> exists tr p w',
    concs (lwip_system pcb0 true) (attach_callbacks, w) tr (p, w') /\ misuse (lwip_system pcb0 true) (p, w') /\
    p_alive (w_pcb w') = false.
Proof.
  intros Hp Hl Hf Ha. destruct w as [l pcb conn del tak]. cbn in *. subst l.
  eexists _, _, (mkWorld OnThread pcb conn del tak). split; [|split; [|done]].
  - unfold attach_callbacks, async_lwip. eapply concs_cons.
    { eapply (conc_base true (CLwip tcpip_callback) _ _ err_t.Ok OnThread); [done|done|done|]. by cbn. }
    cbn beta. rewrite decide_False by auto. eapply concs_cons.
    { eapply (conc_base true (CRt (pcb_load Obj_TcpConnection)) _ _ pcb0 OnThread); [done|done|done|]. by split. }
    rewrite decide_False by done. apply concs_nil.
  - intros [_ H]. destruct (H _ eq_refl) as [_ H']. cbn in H'. congruence.
Qed.

(** The assumption of [connection_safe] is needed: between [listener_accept] and
    [attach_callbacks] no error callback is registered, so when the peer resets the
    connection there, the worker configures a pcb that lwIP has freed. *)
Theorem early_death_misused fcn :
  pcb0 <> null -> exists tr s,
    concs (lwip_system pcb0 true) (with_connection fcn, accepted) tr s /\ misuse (lwip_system pcb0 true) s /\
    p_alive (w_pcb s.2) = false.
Proof.
  intros Hp. set (dead := set_pcb (kill (w_pcb created)) created).
  destruct (attach_dead dead Hp eq_refl eq_refl eq_refl) as (tr & p & w & Hs & Hm & Ha).
  eexists _, (p ≫= _, w). split; [|split; [by apply misuse_bind|done]].
  eapply concs_cons; [apply (conc_base true (CRt listener_receive) _ accepted pcb0 Unlocked accepted); done|].
  eapply concs_cons; [by apply (conc_base true (CRt (pcb_store Obj_TcpConnection pcb0)) _ (set_lock Unlocked accepted) tt Unlocked created)|].
  eapply concs_cons; [apply conc_env; by apply (thread_dies pcb0 true created err_t.Rst (set_lock OnThread dead)); [| |left|]|].
  exact (concs_bind _ _ _ _ _ _ _ Hs).
Qed.
End early.

(** ** One interleaving, computed *)

Section drive.
Context `{V : Vendor} {T : Type} (h : handler call T) (pcb0 : ptr).

(** What a call of the runtime answers and does; [d] for what the world does not decide. *)
Definition rt_do {X} (c : rt_call X) (w : world) : X -> X * world :=
  match c in rt_call X return X -> X * world with
  | listener_receive => fun _ => (pcb0, w)
  | pcb_load Obj_TcpConnection => fun _ => (c_pcb (w_conn w), w)
  | pcb_store Obj_TcpConnection p => fun d => (d, set_field p w)
  | pcb_swap Obj_TcpConnection p => fun _ => (c_pcb (w_conn w), set_field p w)
  | conn_try_send m => fun _ => (has_room w, if has_room w then push m w else w)
  | conn_receive => fun d => (match c_channel (w_conn w) with m :: _ => m | [] => d end, pop 1 w)
  | conn_try_receive => fun _ => (head (c_channel (w_conn w)), pop 1 w)
  | conn_clear => fun _ => (c_channel (w_conn w), pop (length (c_channel (w_conn w))) w)
  | _ => fun d => (d, w)
  end.

Definition lwip_do {X} (c : lwip_call X) (w : world) : X -> X * world :=
  match c in lwip_call X return X -> X * world with
  | derusting_holds_tcpip_core_lock => fun _ => (bool_decide (w_lock w <> Unlocked), w)
  | c => fun d => (d, set_pcb (pcb_step c (w_pcb w) d) w)
  end.

Definition call_do {X} (c : call X) (w : world) : X -> X * world :=
  match c in call X return X -> X * world with
  | CLwip c => lwip_do c w
  | CRt c => rt_do c w
  | _ => fun d => (d, w)
  end.

Definition ready {X} (c : call X) (w : world) : bool :=
  match c with
  | CRt conn_receive => bool_decide (c_channel (w_conn w) <> [])
  | CLwip (tcp_process_refused_data _) => false
  | _ => true
  end.

Lemma call_do_step {X} (c : call X) w d l :
  ready c w = true -> lock_event (w_lock w) (Ev c (call_do c w d).1) = Some l ->
  conn_step pcb0 c w (call_do c w d).1 (set_lock l (call_do c w d).2).
Proof.
  intros Hr Hl. assert (base_step pcb0 c w (call_do c w d).1 (set_lock l (call_do c w d).2)) as Hb.
  { split; [destruct c as [X c|X c|X c|X c|X c|X c]; try done; by destruct c|].
    eexists l, _. split; [done|]. split; [|done]. destruct c as [X c|X c|X c|X c|X c|X c]; try done.
    - destruct c; try done. cbn. by rewrite set_pcb_id.
    - destruct c as [o|o p|o p| | | | | | | | | | | | | | | | | | | | | | | | | | | |]; try (destruct o); try done.
      cbn in *. apply bool_decide_eq_true in Hr. by destruct (c_channel (w_conn w)). }
  by destruct c as [X []| | | | |].
Qed.

(** When the worker waits with an empty channel, lwIP delivers the next packet of the script. *)
Definition deliver {X} (c : call X) (w : world) (script : list pbuf_ptr) : world * list pbuf_ptr :=
  match c, script with
  | CRt conn_receive, (b :: bs) :: script' =>
      if bool_decide (c_channel (w_conn w) = [] /\ w_lock w = Unlocked /\ p_alive (w_pcb w) = true /\
           p_arg (w_pcb w) = true /\ p_recv (w_pcb w) = Some Connection_recv)
      then (arrives (Some (packet_of (b :: bs))) w, script')
      else (w, script)
  | _, _ => (w, script)
  end.

Lemma deliver_env {X} (c : call X) w script : rtc (lwip_thread pcb0 false) w (deliver c w script).1.
Proof.
  unfold deliver. destruct c as [X c|X c|X c|X c|X c|X c]; try done. destruct c; try done.
  destruct script as [|[|b bs] script]; try done. case_bool_decide as H; [|done]. destruct H as (Hc & Hl & Ha & Hg & Hr).
  set (m := Some (packet_of (b :: bs))). apply rtc_once. cbn [fst].
  replace (arrives m w) with (set_lock Unlocked (arrives m (set_lock OnThread w))) by (destruct w; cbn in *; by subst).
  apply thread_recv; [done|]. exists Connection_recv, (b :: bs), err_t.Ok, err_t.Ok, (push m (set_lock OnThread w)).
  split; [done|]. split; [done|]. split; [|done]. cbn [recv_callback set_lock w_pcb]. rewrite Hg.
  apply (runs_push pcb0 m); [unfold has_room; cbn; by rewrite Hc|]. by split.
Qed.

Fixpoint drive {A} (p : io A) (w : world) (t : T) (script : list pbuf_ptr) : option (trace * A * world) :=
  match p with
  | Ret a => Some ([], a, w)
  | Panic | Fuel => None
  | Call c k =>
      let '(w, script) := deliver c w script in
      if ready c w then
        let '(d, t) := h _ c t in
        let '(x, w1) := call_do c w d in
        match lock_event (w_lock w) (Ev c x) with
        | Some l =>
            match drive (k x) (set_lock l w1) t script with
            | Some (tr, a, w') => Some (Ev c x :: tr, a, w')
            | None => None
            end
        | None => None
        end
      else None
  end.

Lemma concs_env {A} (p : io A) w w' tr s :
  rtc (lwip_thread pcb0 false) w w' -> concs (lwip_system pcb0 false) (p, w') tr s ->
  concs (lwip_system pcb0 false) (p, w) tr s.
Proof. induction 1 as [|w w1 w2 He _ IH]; [done|]. intros H. eapply (concs_cons _ _ []); [by apply conc_env|by apply IH]. Qed.

(** The scheduler computes an interleaving. *)
Lemma drive_concs {A} (p : io A) w t script tr a w' :
  drive p w t script = Some (tr, a, w') -> concs (lwip_system pcb0 false) (p, w) tr (Ret a, w').
Proof.
  revert w t script tr. induction p as [b| | |X c k IH]; intros w t script tr H; cbn [drive] in H; [simplify_eq; constructor|discriminate|discriminate|].
  apply (concs_env _ _ _ _ _ (deliver_env c w script)). destruct (deliver c w script) as [w1 s1]. cbn [fst].
  destruct (ready c w1) eqn:Er; [|discriminate]. destruct (h X c t) as [d t1]. pose proof (call_do_step c w1 d) as Hs.
  destruct (call_do c w1 d) as [x w2]. destruct (lock_event (w_lock w1) (Ev c x)) as [l|] eqn:El; [|discriminate].
  destruct (drive (k x) (set_lock l w2) t1 s1) as [[[tr' a'] w3]|] eqn:Ed; [|discriminate]. injection H as <- <- <-.
  change (Ev c x :: tr') with ([Ev c x] ++ tr'). eapply concs_cons; [apply conc_call; by apply Hs|]. by eapply IH.
Qed.

Definition driven {A} (d : A) (o : option (trace * A * world)) : trace * A * world := from_option id ([], d, accepted) o.

Definition is_driven {A} (o : option (trace * A * world)) : bool := match o with Some _ => true | None => false end.

Lemma driven_concs (p : io unit) w t script :
  is_driven (drive p w t script) = true ->
  concs (lwip_system pcb0 false) (p, w) (driven tt (drive p w t script)).1.1 (Ret tt, (driven tt (drive p w t script)).2).
Proof. destruct (drive p w t script) as [[[tr []] w']|] eqn:E; [|done]. intros _. by eapply drive_concs. Qed.
End drive.

(** An upload that arrives in two packets. *)
Definition demo_script : list pbuf_ptr :=
  [demo_chain 1 [put_header (demo_id 3) 3 ++ lit "a"]; demo_chain 9 [lit "b"; lit "c"]].

Definition demo_served : trace * unit * world :=
  driven tt (drive demo_h 5 (tcp_worker_step 5) accepted (demo_start []) demo_script).

Lemma demo_served_runs :
  concs (lwip_system 5 false) (tcp_worker_step 5, accepted) demo_served.1.1 (Ret tt, demo_served.2).
Proof.
  unfold demo_served. apply driven_concs. vm_compute. reflexivity.
Qed.

Lemma connection_safe_witness :
  let s : io unit * world := (Ret tt, demo_served.2) in
  ~ misuse (lwip_system 5 false) s /\
  (s.1 = Ret tt -> w_lock s.2 = Unlocked /\ (p_alive (w_pcb s.2) = true -> p_arg (w_pcb s.2) = false)).
Proof.
  exact (connection_safe 5 5 demo_served.1.1 (Ret tt, demo_served.2) ltac:(discriminate) demo_served_runs).
Defined.

Lemma connection_serves_witness :
  (conn_log (packets demo_served.1.1) (fs_calls demo_served.1.1) (replies demo_served.1.1) /\
   packets demo_served.1.1 `prefix_of` (packet_of <$> w_heard demo_served.2)) /\
  length (packets demo_served.1.1) = 2%nat.
Proof.
  split; [|vm_compute; reflexivity].
  exact (connection_serves 5 5 demo_served.1.1 demo_served.2 ltac:(discriminate) demo_served_runs).
Defined.

Lemma receive_stuck_iff_witness :
  w_lock accepted = Unlocked /\ (stuck (V := ref_vendor) 5 true accepted <-> c_channel (w_conn accepted) = [] /\ deaf accepted).
Proof. split; [reflexivity|]. apply (receive_stuck_iff (V := ref_vendor) 5 true accepted). reflexivity. Defined.

(** A connection with twelve packets waiting. *)
Definition demo_full : world :=
  mkWorld Unlocked (mkPcb true true (Some Connection_recv) (Some Connection_err))
    (mkConn 5 (repeat (Some (demo_packet [lit "x"])) 12)) (repeat (inner (demo_packet [lit "x"])) 12) [].

(** lwIP has no room for the closure of the first connection. *)
Lemma demo_refused :
  exists tr s, concs (lwip_system (V := ref_vendor) 5 false) (tcp_worker_step 5, accepted) tr s /\
    head (collect queued_seen tr) = Some err_t.Mem /\ length tr = 3%nat.
Proof.
  eexists _, _. split; [|split].
  - eapply concs_cons; [apply (conc_base 5 false (CRt listener_receive) _ accepted 5 Unlocked accepted); done|].
    eapply concs_cons; [by apply (conc_base 5 false (CRt (pcb_store Obj_TcpConnection 5)) _ (set_lock Unlocked accepted) tt Unlocked (created 5))|].
    eapply concs_cons; [|apply concs_nil].
    by apply (conc_base 5 false (CLwip tcpip_callback) _ (set_lock Unlocked (created 5)) err_t.Mem Unlocked (set_lock Unlocked (created 5))).
  - reflexivity.
  - reflexivity.
Qed.

(** The first hypothesis is met by that interleaving, the second by a worker that misses a hundred bytes. *)
Lemma worker_hangs_witness :
  (exists tr (s : io unit * world), concs (lwip_system (V := ref_vendor) 5 false) (tcp_worker_step 5, accepted) tr s /\
     length tr = 3%nat /\ unfinished s.1) /\
  exists w', lwip_thread (V := ref_vendor) 5 false demo_full w' /\ c_channel (w_conn w') = c_channel (w_conn demo_full) /\
    forall tr s, concs (lwip_system (V := ref_vendor) 5 false)
      (receive_rest 13 (mkFile 9 mkWriteBytes) (lit "/usb/a.partial") 100 ≫= (fun ok => Ret ok), w') tr s -> unfinished s.1.
Proof.
  destruct (worker_hangs (V := ref_vendor) 5 false) as [H1 H2]. split.
  - destruct demo_refused as (tr & s & Hs & He & Hl). exists tr, s. split; [exact Hs|]. split; [exact Hl|].
    exact (H1 5%nat tr s err_t.Mem Hs He ltac:(discriminate)).
  - destruct (H2 demo_full (repeat (demo_packet [lit "x"]) 12) eq_refl eq_refl eq_refl eq_refl eq_refl eq_refl) as (w' & Ht & Hc & H).
    exists w'. split; [exact Ht|]. split; [exact Hc|]. intros tr s Hs.
    refine (H _ _ _ _ _ _ tr s _ _ Hs); [vm_compute; reflexivity|cbn; lia].
Defined.

Lemma early_death_misused_witness :
  exists tr s, concs (lwip_system (V := ref_vendor) 5 true) (with_connection (Ret tt), accepted) tr s /\
    misuse (lwip_system (V := ref_vendor) 5 true) s /\ p_alive (w_pcb s.2) = false.
Proof. apply (early_death_misused 5 (Ret tt)). discriminate. Defined.
