(* ===== verification/Courier.v ===== *)
(** * A transfer shared with lwIP's thread ([lwip/put.rs])

    The task that sends a file waits for a signal, while lwIP's thread runs the callbacks of its
    [PutRequest] whenever the core lock is free: they fill the buffer from the file, hand it
    to the pcb and raise the signal.  Over all interleavings: the calls to lwIP are allowed, the
    callbacks make one run of [put_run], the result that the task returns is what the callbacks found, and what
    lwIP keeps of the request when it is dropped. *)

From stdpp Require Import relations.
From S2P Require Import Prelude Prog Text Net Vendor VendorRef Data Ffi Env Lwip Pbuf Tcp Udp Fs Http Rng.
From S2P Require Import Messages Observe Put Deliver Rely Conn.

(** What lwIP keeps of the pcb: whether it exists, whether its callback argument is the request, what
    [tcp_connect] answered, and whether the connection is up. *)
Record Peer : Type := mkPeer { q_alive : bool; q_arg : bool; q_connect : option err_t; q_up : bool }.

(** Who holds the core lock, the pcb, the request with its pcb field and its signal, and the history: the
    callbacks that reached the request, what they read from the file and what lwIP took. *)
Record errand `{V : Vendor} : Type := mkErrand {
  e_lock : lock;
  e_peer : Peer;
  e_this : PutRequest;
  e_pcb : ptr;
  e_signal : option err_t;
  e_events : list put_event;
  e_read : bytes;
  e_sent : bytes
}.

Arguments mkErrand {V} _ _ _ _ _ _ _ _.

Section courier.
Context `{V : Vendor}.

Definition with_lock (l : lock) (w : errand) : errand :=
  mkErrand l (e_peer w) (e_this w) (e_pcb w) (e_signal w) (e_events w) (e_read w) (e_sent w).

Definition with_peer (q : Peer) (w : errand) : errand :=
  mkErrand (e_lock w) q (e_this w) (e_pcb w) (e_signal w) (e_events w) (e_read w) (e_sent w).

Definition with_pcb (p : ptr) (w : errand) : errand :=
  mkErrand (e_lock w) (e_peer w) (e_this w) p (e_signal w) (e_events w) (e_read w) (e_sent w).

Definition with_signal (s : option err_t) (w : errand) : errand :=
  mkErrand (e_lock w) (e_peer w) (e_this w) (e_pcb w) s (e_events w) (e_read w) (e_sent w).

(** A callback that reached the request: what it left of it, and its calls. *)
Definition recorded (e : put_event) (tr : trace) (this : PutRequest) (w : errand) : errand :=
  mkErrand (e_lock w) (e_peer w) this (e_pcb w) (e_signal w) (e_events w ++ [e])
    (e_read w ++ file_read tr) (e_sent w ++ tcp_accepted tr).

(** ** The calls *)

(** The address of the pcb that [tcp_new] will give. *)
Context (pcb0 : ptr).

Definition peer_step {X} (c : lwip_call X) (q : Peer) : X -> Peer :=
  match c in lwip_call X return X -> Peer with
  | tcp_new => fun p => if decide (p = null) then q else mkPeer true false None false
  | tcp_arg _ a => fun _ => mkPeer (q_alive q) (bool_decide (a = Some Obj_PutRequest)) (q_connect q) (q_up q)
  | tcp_connect _ _ _ _ => fun e => mkPeer (q_alive q) (q_arg q) (Some e) (q_up q)
  | tcp_close _ => fun e => if decide (e = err_t.Ok) then mkPeer false (q_arg q) (q_connect q) (q_up q) else q
  | tcp_abort _ => fun _ => mkPeer false (q_arg q) (q_connect q) (q_up q)
  | _ => fun _ => q
  end.

(** What a call does; [tcp_new] gives [pcb0] or nothing. *)
Definition act {X} (c : call X) (w : errand) : X -> errand -> Prop :=
  match c in call X return X -> errand -> Prop with
  | CLwip c => fun x w' =>
      match c in lwip_call X return X -> Prop with tcp_new => fun p => p = null \/ p = pcb0 | _ => fun _ => True end x /\
      w' = with_peer (peer_step c (e_peer w) x) w
  | CRt c =>
      match c in rt_call X return X -> errand -> Prop with
      | pcb_store Obj_PutRequest p => fun _ w' => w' = with_pcb p w
      | pcb_swap Obj_PutRequest p => fun q w' => q = e_pcb w /\ w' = with_pcb p w
      | pcb_load Obj_PutRequest => fun q w' => q = e_pcb w /\ w' = w
      | put_signal e => fun _ w' => w' = with_signal (Some e) w
      | put_wait => fun e w' => e_signal w = Some e /\ w' = with_signal None w
      | _ => fun _ w' => w' = w
      end
  | _ => fun _ w' => w' = w
  end.

(** The platform's answer about the lock is right, [fread] gives no more than it was asked for and a send buffer has
    no negative room. *)
Definition courier_step {X} (c : call X) (w : errand) (x : X) (w' : errand) : Prop :=
  lock_answer_ok (e_lock w) (Ev c x) /\ put_answer_ok (Ev c x) /\
  exists l w1, lock_event (e_lock w) (Ev c x) = Some l /\ act c w x w1 /\ w' = with_lock l w1.

(** A call is allowed when it respects the lock and its pcb is the live one. *)
Definition courier_ok {X} (c : call X) (w : errand) : Prop :=
  (forall x, lock_event (e_lock w) (Ev c x) <> None) /\
  match c with
  | CLwip c => forall p, tcp_target c = Some p -> p = pcb0 /\ q_alive (e_peer w) = true
  | _ => True
  end.

(** A callback runs without interruption, and shows these calls. *)
Fixpoint plays {A} (p : io A) (w : errand) (tr : trace) (a : A) (w' : errand) : Prop :=
  match p with
  | Ret b => tr = [] /\ a = b /\ w' = w
  | Panic | Fuel => False
  | Call c k => exists x w1 tr', tr = Ev c x :: tr' /\ courier_step c w x w1 /\ plays (k x) w1 tr' a w'
  end.

(** ** lwIP *)

Definition event_arg (e : put_event) : bool :=
  match e with On_connected a _ _ | On_sent a _ _ | On_recv a _ _ _ | On_err a _ => a end.

(** What lwIP may call: [connected] once, when the connection it was asked for is up; the others only then;
    and the error callback when the connection failed. *)
Definition may_call (q : Peer) (e : put_event) : Prop :=
  q_alive q = true /\ q_connect q = Some err_t.Ok /\ event_arg e = q_arg q /\
  match e with
  | On_connected _ p err => p = pcb0 /\ err = err_t.Ok /\ q_up q = false
  | On_sent _ p _ | On_recv _ p _ _ => p = pcb0 /\ q_up q = true
  | On_err _ err => err <> err_t.Ok
  end.

(** A failed connection is freed before the error callback is called. *)
Definition peer_after (e : put_event) (q : Peer) : Peer :=
  match e with
  | On_connected _ _ _ => mkPeer (q_alive q) (q_arg q) (q_connect q) true
  | On_err _ _ => mkPeer false (q_arg q) (q_connect q) (q_up q)
  | _ => q
  end.

(** Its thread calls back when nobody else holds the lock.  Without the argument a callback returns at once. *)
Inductive courier_thread (w : errand) : errand -> Prop :=
  | thread_calls e tr this w' :
      e_lock w = Unlocked -> may_call (e_peer w) e ->
      plays (put_step (e_this w) e) (with_lock OnThread (with_peer (peer_after e (e_peer w)) w)) tr this w' ->
      courier_thread w (with_lock Unlocked (if event_arg e then recorded e tr this w' else w')).

Definition courier : shared call errand := mkShared call errand courier_thread (@courier_ok) (@courier_step).

(** The task's part of [put_file], once the request is made. *)
Definition carry (this : PutRequest) : io (result unit err_t) :=
  r ← put_send this;
  drop_put this;;
  Ret r.

(** Before it: no pcb yet. *)
Definition packed (this : PutRequest) : errand := mkErrand Unlocked (mkPeer false false None false) this null None [] [] [].
End courier.

(** ** What the callbacks do *)

Section callbacks.
Context `{V : Vendor} (pcb0 : ptr).

Lemma plays_exec {A} (p : io A) w tr a w' : plays pcb0 p w tr a w' -> exec p tr (Done a) /\ put_answers_ok tr.
Proof.
  revert w tr. induction p as [b| | |X c k IH]; intros w tr H; cbn in *; [by destruct H as (-> & -> & _)|done|done|].
  destruct H as (x & w1 & tr' & -> & (_ & Hok & _) & H). destruct (IH _ _ _ H). split; [by exists x, tr'|done].
Qed.

(** Calls that change the pcb, and that wait for the signal. *)
Definition moved_seen (X : Type) (c : call X) : X -> list unit :=
  match c in call X return X -> list unit with
  | CLwip c =>
      match c in lwip_call X return X -> list unit with
      | tcp_new | tcp_arg _ _ | tcp_connect _ _ _ _ | tcp_close _ | tcp_abort _ => fun _ => [tt]
      | _ => fun _ => []
      end
  | CRt put_wait => fun _ => [tt]
  | _ => fun _ => []
  end.

(** What is stored in the request's pcb field. *)
Definition stored_seen (X : Type) (c : call X) : X -> list ptr :=
  match c in call X return X -> list ptr with
  | CRt c =>
      match c in rt_call X return X -> list ptr with
      | pcb_store Obj_PutRequest p | pcb_swap Obj_PutRequest p => fun _ => [p]
      | _ => fun _ => []
      end
  | _ => fun _ => []
  end.

Definition latest {T} (l : list T) (d : T) : T := default d (last l).

Lemma latest_cases {T} (l : list T) d x : latest l d = x -> x ∈ l \/ d = x.
Proof. unfold latest. destruct (last l) as [y|] eqn:E; cbn; [|by right]. intros <-. left. by apply last_Some_elem_of. Qed.

Lemma latest_cons {T} (x : T) l d : latest (x :: l) d = latest l x.
Proof. unfold latest. destruct l as [|y l]; [done|]. cbn [last]. by destruct (last (y :: l)) eqn:E; [|apply last_None in E]. Qed.

Arguments latest : simpl never.

Lemma step_facts {X} (c : call X) w x w' :
  courier_step pcb0 c w x w' -> moved_seen X c x = [] ->
  e_peer w' = e_peer w /\ e_pcb w' = latest (stored_seen X c x) (e_pcb w) /\
  e_signal w' = latest (Some <$> signal_seen X c x) (e_signal w) /\
  e_this w' = e_this w /\ e_events w' = e_events w /\ e_read w' = e_read w /\ e_sent w' = e_sent w.
Proof.
  intros (_ & _ & l & w1 & _ & Ha & ->) Hm.
  destruct c as [X c|X c|X c|X c|X c|X c]; try (cbn in Ha; subst w1; done).
  - destruct c; cbn in Ha, Hm; try discriminate; destruct Ha as [_ ->]; done.
  - destruct c as [o|o p|o p| | | | | | | | | | | | | | | | | | | | | | | | | | | |]; cbn in Ha, Hm; try discriminate;
      try (destruct o; cbn in * ); destruct_and?; subst; done.
Qed.

Lemma plays_facts {A} (p : io A) w tr a w' :
  plays pcb0 p w tr a w' -> collect moved_seen tr = [] ->
  e_peer w' = e_peer w /\ e_pcb w' = latest (collect stored_seen tr) (e_pcb w) /\
  e_signal w' = latest (Some <$> collect signal_seen tr) (e_signal w) /\
  e_this w' = e_this w /\ e_events w' = e_events w /\ e_read w' = e_read w /\ e_sent w' = e_sent w.
Proof.
  revert w tr. induction p as [b| | |X c k IH]; intros w tr H Hm; cbn in H; [by destruct H as (-> & _ & ->)|done|done|].
  destruct H as (x & w1 & tr' & -> & Hs & H). cbn in Hm |- *. apply app_eq_nil in Hm as [Hm1 Hm2].
  destruct (step_facts _ _ _ _ Hs Hm1) as (E1 & E2 & E3 & E4 & E5 & E6 & E7).
  destruct (IH _ _ _ H Hm2) as (F1 & F2 & F3 & F4 & F5 & F6 & F7). rewrite fmap_app.
  assert (forall T (l : list T) l' d, latest (l ++ l') d = latest l' (latest l d)) as Hl.
  { intros T l l' d. unfold latest. rewrite last_app. by destruct (last l'). }
  rewrite !Hl. split_and!; [congruence|by rewrite F2, E2|by rewrite F3, E3|congruence..].
Qed.

(** The callbacks leave the pcb to the task, and only the error callback clears the field. *)
Lemma callback_moves this e tr this' : exec (put_step this e) tr (Done this') -> collect moved_seen tr = [].
Proof.
  intros H. assert (no_emit moved_seen (put_step this e)) as Hn; [|exact (Hn _ _ H)].
  destruct e; cbn [put_step]; unfold put_connected, put_sent, put_recv, put_err, pump, drop_packet, blocking_lwip, read; cbv zeta; no_emit_tac.
Qed.

Lemma callback_stores this e tr this' :
  exec (put_step this e) tr (Done this') ->
  collect stored_seen tr = match e with On_err true _ => [null] | _ => [] end.
Proof.
  intros H. destruct e as [a p err|a p n|a p b err|a err]; [..|by destruct a; exec_steps H].
  all: match type of H with exec ?p _ _ => assert (no_emit stored_seen p) as Hn; [|exact (Hn _ _ H)] end.
  all: cbn [put_step]; unfold put_connected, put_sent, put_recv, pump, drop_packet, blocking_lwip, read; cbv zeta; no_emit_tac.
Qed.

(** A response came: some data. *)
Definition answered (es : list put_event) : Prop := exists p buf, On_recv true p buf err_t.Ok ∈ es /\ buf <> [].

Lemma pump_signals this pcb tr this' r :
  exec (pump this pcb) tr (Done (this', r)) -> collect signal_seen tr = [] /\ r <> Err err_t.Ok.
Proof.
  intros H. split.
  - assert (no_emit signal_seen (pump this pcb)) as Hn; [|exact (Hn _ _ H)]. unfold pump, read. cbv zeta. no_emit_tac.
  - unfold pump in H. cbv zeta in H. bind_step H as this1 H1. clear H1. exec_step H as n. case_decide; [by exec_steps H|].
    exec_step H as e. case_decide as He; exec_steps H; [|done]. case_decide; [done|congruence].
Qed.

(** Also what [_connected] does once the header is in the buffer. *)
Lemma sent_signals this pcb n tr this' e :
  exec (put_sent this true pcb n) tr (Done (this', e)) -> forall s, s ∈ collect signal_seen tr -> s <> err_t.Ok.
Proof.
  intros H s Hs. unfold put_sent in H. cbn [negb] in H. bind_step H as [t2 r2] H2. apply pump_signals in H2 as [E2 Hr].
  rewrite !collect_app, E2 in Hs.
  destruct r2 as [u|e2]; exec_steps H; cbn in Hs; [by apply elem_of_nil in Hs|]. apply list_elem_of_singleton in Hs. congruence.
Qed.

(** [Ok] is only signalled for a response. *)
Lemma callback_signals this e tr this' :
  exec (put_step this e) tr (Done this') ->
  match e with On_connected _ _ err => err = err_t.Ok | On_err _ err => err <> err_t.Ok | _ => True end ->
  forall s, s ∈ collect signal_seen tr -> s = err_t.Ok -> answered [e].
Proof.
  intros H He s Hs Es. destruct e as [[] p err|[] p n|[] p b err|[] err]; cbn [put_step] in H;
    try (exec_steps H; by apply elem_of_nil in Hs).
  - subst err. bind_step H as [t1 r1] H1. destruct H as [-> [= ->]]. rewrite app_nil_r in Hs. unfold put_connected in H1. cbn [negb] in H1.
    rewrite decide_False in H1 by auto. destruct (format_n _ _) as [hd|]; [|exec_steps H1; cbn in Hs; apply list_elem_of_singleton in Hs; congruence].
    by apply (sent_signals _ _ 0 _ _ _ H1 s) in Hs.
  - bind_step H as [t1 r1] H1. destruct H as [-> [= ->]]. rewrite app_nil_r in Hs. by apply (sent_signals _ _ _ _ _ _ H1 s) in Hs.
  - bind_step H as [t1 r1] H1. destruct H as [-> [= ->]]. rewrite app_nil_r in Hs. unfold put_recv in H1. cbn [negb] in H1.
    case_decide as Hd; [exec_steps H1; cbn in Hs; apply list_elem_of_singleton in Hs; congruence|].
    subst err. destruct b as [|b bs]; [exec_steps H1; cbn in Hs; apply list_elem_of_singleton in Hs; by subst|].
    exists p, (b :: bs). split; [by left|done].
  - exec_steps H. cbn in Hs. apply list_elem_of_singleton in Hs. congruence.
Qed.
End callbacks.

(** ** The invariant *)

Section invariant.
Context `{V : Vendor} (pcb0 : ptr) (Hpcb0 : pcb0 <> null) (this0 : PutRequest).

(** The callbacks that reached the request: none yet, the connection and what came later, or its failure. *)
Definition in_order (q : Peer) (es : list put_event) : Prop :=
  (es = [] /\ (q_up q = true -> q_arg q = true -> q_alive q = false)) \/
  (exists rest, es = On_connected true pcb0 err_t.Ok :: rest /\ Forall later rest /\ q_up q = true) \/
  (exists err, es = [On_err true err] /\ q_alive q = false).

Record errand_ok (w : errand) : Prop := {
  ok_log : exists tr, exec (put_run this0 (e_events w)) tr (Done (e_this w)) /\ put_answers_ok tr /\
             e_read w = file_read tr /\ e_sent w = tcp_accepted tr;
  ok_order : in_order (e_peer w) (e_events w);
  ok_signal : e_signal w = Some err_t.Ok -> answered (e_events w);
  ok_pcb : e_pcb w <> null -> e_pcb w = pcb0 /\ q_alive (e_peer w) = true /\ q_arg (e_peer w) = true /\
             q_connect (e_peer w) = Some err_t.Ok
}.

(** Without the field, lwIP has no connection that knows the request. *)
Definition let_go (w : errand) : Prop :=
  e_pcb w = null -> q_alive (e_peer w) = false \/ q_arg (e_peer w) = false \/ q_connect (e_peer w) <> Some err_t.Ok.

Lemma put_run_snoc this es e tr1 this1 tr2 this2 :
  exec (put_run this es) tr1 (Done this1) -> exec (put_step this1 e) tr2 (Done this2) ->
  exec (put_run this (es ++ [e])) (tr1 ++ tr2) (Done this2).
Proof.
  revert this tr1. induction es as [|e1 es IH]; intros this tr1 H1 H2; cbn [app put_run] in *.
  - destruct H1 as [-> [= ->]]. cbn [app]. rewrite <- (app_nil_r tr2). by eapply exec_bind_intro.
  - apply exec_bind_done in H1 as (t & tra & trb & -> & Ha & Hb). rewrite <- app_assoc.
    eapply exec_bind_intro; [done|by apply IH].
Qed.

Lemma answered_app es e : answered es \/ answered [e] -> answered (es ++ [e]).
Proof. intros [(p & b & Hi & Hb)|(p & b & Hi & Hb)]; exists p, b; (split; [|done]); apply elem_of_app; auto. Qed.

(** A callback without the argument does nothing. *)
Lemma null_callback e this w tr this' w' :
  event_arg e = false -> plays pcb0 (put_step this e) w tr this' w' -> tr = [] /\ this' = this /\ w' = w.
Proof. destruct e as [[] ? ?|[] ? ?|[] ? ? ?|[] ?]; try done; cbn; by intros _ (-> & -> & ->). Qed.

Lemma in_order_event q es e :
  may_call pcb0 q e -> event_arg e = true -> in_order q es -> in_order (peer_after e q) (es ++ [e]).
Proof.
  intros (Ha & _ & Eq & He) Ea Ho. rewrite Ea in Eq.
  assert (q_up q = true -> exists rest, es = On_connected true pcb0 err_t.Ok :: rest /\ Forall later rest) as Hup.
  { intros Hu. destruct Ho as [[-> Hn]|[(rest & -> & Hr & _)|(err & -> & Hd)]]; [|by exists rest|congruence].
    specialize (Hn Hu (eq_sym Eq)). congruence. }
  destruct e as [a p err|a p n|a p b err|a err]; cbn in Ea; subst a.
  - destruct He as (-> & -> & Hu). right. left. destruct Ho as [[-> _]|[(rest & -> & _ & Hu')|(err & -> & Hd)]]; [|congruence..].
    by exists [].
  - destruct He as [-> Hu]. destruct (Hup Hu) as (rest & -> & Hr). right. left. exists (rest ++ [On_sent true pcb0 n]).
    split; [done|]. split; [|done]. apply Forall_app. split; [done|by constructor].
  - destruct He as [-> Hu]. destruct (Hup Hu) as (rest & -> & Hr). right. left. exists (rest ++ [On_recv true pcb0 b err]).
    split; [done|]. split; [|done]. apply Forall_app. split; [done|by constructor].
  - destruct (q_up q) eqn:Hu.
    + destruct (Hup eq_refl) as (rest & -> & Hr). right. left. exists (rest ++ [On_err true err]).
      split; [done|]. split; [|done]. apply Forall_app. split; [done|by constructor].
    + right. right. exists err. split; [|done]. destruct Ho as [[-> _]|[(rest & _ & _ & Hu')|(err' & _ & Hd)]]; [done|congruence..].
Qed.

(** lwIP's thread keeps the invariant. *)
Lemma courier_thread_ok w w' :
  courier_thread pcb0 w w' -> errand_ok w -> let_go w ->
  errand_ok w' /\ let_go w' /\ e_lock w' = Unlocked /\ q_connect (e_peer w') = q_connect (e_peer w) /\
  q_arg (e_peer w') = q_arg (e_peer w).
Proof.
  intros [e tr this w1 Hl Hm Hp] [Hlog Hord Hsig Hpcb] Hgo.
  destruct (plays_exec _ _ _ _ _ _ Hp) as [He Hok]. pose proof (callback_moves _ _ _ _ He) as Hmv.
  destruct (plays_facts _ _ _ _ _ _ Hp Hmv) as (F1 & F2 & F3 & F4 & F5 & F6 & F7). cbn in F1, F2, F3, F4, F5, F6, F7.
  rewrite (callback_stores _ _ _ _ He) in F2. destruct Hm as (Ha & Hc & Eq & Hev).
  assert (q_connect (peer_after e (e_peer w)) = q_connect (e_peer w) /\ q_arg (peer_after e (e_peer w)) = q_arg (e_peer w)) as [Ec Er] by (by destruct e).
  destruct (event_arg e) eqn:Ee.
  - pose proof (in_order_event _ _ e (conj Ha (conj Hc (conj (eq_trans Ee Eq) Hev))) Ee Hord) as Hord'.
    split; [split|split; [|split_and!; [done|by cbn; rewrite F1|by cbn; rewrite F1]]]; cbn.
    + destruct Hlog as (tr0 & Hlog & Hok0 & Er0 & Es0). exists (tr0 ++ tr). rewrite F5, F6, F7, Er0, Es0.
      unfold file_read, tcp_accepted. rewrite !collect_app, put_answers_ok_app. split_and!; [by eapply put_run_snoc|done..].
    + by rewrite F1, F5.
    + rewrite F3, F5. intros Hs. apply answered_app. apply latest_cases in Hs as [Hs|Hs]; [|by left; apply Hsig].
      right. apply list_elem_of_fmap in Hs as (s & [= <-] & Hin). eapply callback_signals; [done| |done|done].
      destruct e; [by destruct Hev as (_ & -> & _)|done..].
    + rewrite F1, F2. intros Hne. destruct e as [? ? ?|? ? ?|? ? ? ?|a ?]; try (by apply Hpcb). cbn in Ee. by subst a.
    + unfold let_go. cbn. rewrite F1, F2. destruct e as [? ? ?|? ? ?|? ? ? ?|a ?]; [exact Hgo..|by left].
  - apply null_callback in Hp as (-> & -> & ->); [|done]. cbn in *.
    split; [split|split_and!; [|done..]]; cbn; [done| |done| |].
    + destruct Hord as [[-> Hn]|[(rest & -> & Hr & Hu)|(err & -> & Hd)]]; [left|right; left|congruence].
      * split; [done|]. rewrite Er. congruence.
      * exists rest. by destruct e.
    + intros Hne. destruct (Hpcb Hne) as (_ & _ & Hx & _). congruence.
    + unfold let_go. cbn. rewrite Er. auto.
Qed.

(** The thread does not give the request a pcb, and what it recorded stays. *)
Lemma courier_thread_keeps w w' :
  courier_thread pcb0 w w' ->
  e_lock w = Unlocked /\ q_connect (e_peer w) = Some err_t.Ok /\ (e_pcb w = null -> e_pcb w' = null) /\
  (answered (e_events w) -> answered (e_events w')).
Proof.
  intros [e tr this w1 Hl (_ & Hc & _) Hp]. destruct (plays_exec _ _ _ _ _ _ Hp) as [He _].
  destruct (plays_facts _ _ _ _ _ _ Hp (callback_moves _ _ _ _ He)) as (_ & F2 & _ & _ & F5 & _).
  cbn in F2, F5. rewrite (callback_stores _ _ _ _ He) in F2. split_and!; [done|done| |].
  - intros E. destruct (event_arg e); cbn; rewrite F2, E; by destruct e as [| | |[]].
  - intros Ha. destruct (event_arg e); cbn; rewrite F5; [|done]. apply answered_app. by left.
Qed.

(** A refused [tcp_connect] leaves the pcb as it is, with the request as its argument. *)
Definition kept (w : errand) : Prop :=
  match q_connect (e_peer w) with
  | None => q_alive (e_peer w) = false \/ q_arg (e_peer w) = false
  | Some e => e = err_t.Ok \/ (e_pcb w = null /\ q_alive (e_peer w) = true /\ q_arg (e_peer w) = true)
  end.

(** Between two calls of the task. *)
Definition courier_inv (l : lock) (w : errand) : Prop := e_lock w = l /\ errand_ok w /\ let_go w /\ kept w.

(** The same, when the task knows its result, and when it has let go of the pcb. *)
Definition resulted (r : result unit err_t) (w : errand) : Prop :=
  courier_inv Unlocked w /\ (r = Ok tt -> answered (e_events w)).

Definition carried (r : result unit err_t) (w : errand) : Prop := resulted r w /\ e_pcb w = null.

Lemma courier_inv_stable l : stable (courier pcb0) (courier_inv l).
Proof.
  intros w w' He (Hl & Hok & Hgo & Hk). destruct (courier_thread_keeps _ _ He) as (Hu & Hc & _).
  destruct (courier_thread_ok _ _ He Hok Hgo) as (Hok' & Hgo' & Hl' & Hc' & _).
  split_and!; [congruence|done|done|]. unfold kept. rewrite Hc', Hc. by left.
Qed.

Lemma resulted_stable r : stable (courier pcb0) (resulted r).
Proof.
  intros w w' He [Hi Ha]. split; [by eapply courier_inv_stable|]. intros E.
  destruct (courier_thread_keeps _ _ He) as (_ & _ & _ & Hans). auto.
Qed.

Lemma carried_stable r : stable (courier pcb0) (carried r).
Proof.
  intros w w' He [Hi Ha]. split; [by eapply resulted_stable|]. destruct (courier_thread_keeps _ _ He) as (_ & _ & Hp & _). auto.
Qed.

(** ** Rules *)

Let sys : shared call errand := courier pcb0.

(** Nothing moves while the task holds the lock. *)
Lemma env_held w w' : e_lock w <> Unlocked -> rtc (env sys) w w' -> w' = w.
Proof. intros Hl H. destruct H as [w|w w1 w' He _]; [done|]. by destruct (courier_thread_keeps _ _ He). Qed.

Lemma wp_held {A X} (c : call X) (k : X -> io A) Q w :
  e_lock w <> Unlocked -> courier_ok pcb0 c w -> (forall x w', courier_step pcb0 c w x w' -> wp sys (k x) Q w') ->
  wp sys (Call c k) Q w.
Proof. intros Hl Hok Hk w' He. rewrite (env_held _ _ Hl He). split; [done|exact Hk]. Qed.

Lemma with_lock_same w : with_lock (e_lock w) w = w.
Proof. by destruct w. Qed.

(** A call on the live pcb, with the lock held. *)
Lemma wp_pcb {A X} (c : lwip_call X) (k : X -> io A) Q w :
  e_lock w <> Unlocked -> tcp_target c = Some pcb0 -> q_alive (e_peer w) = true ->
  (forall x, wp sys (k x) Q (with_peer (peer_step c (e_peer w) x) w)) -> wp sys (Call (CLwip c) k) Q w.
Proof.
  intros Hl Ht Ha Hk. apply wp_held; [done| |].
  - split; [intros x; by rewrite (lock_held pcb0)|]. intros p Hp. split; [congruence|done].
  - intros x w' (_ & _ & l & w1 & He & (_ & ->) & ->). rewrite (lock_held pcb0) in He by done. injection He as <-.
    change (e_lock w) with (e_lock (with_peer (peer_step c (e_peer w) x) w)). rewrite with_lock_same. apply Hk.
Qed.

(** Storing and taking the field. *)
Lemma wp_store {A} p (k : unit -> io A) Q w :
  e_lock w <> Unlocked -> wp sys (k tt) Q (with_pcb p w) -> wp sys (Call (CRt (pcb_store Obj_PutRequest p)) k) Q w.
Proof.
  intros Hl Hk. apply wp_held; [done|by split|]. intros [] w' (_ & _ & l & w1 & [= <-] & -> & ->).
  change (e_lock w) with (e_lock (with_pcb p w)). by rewrite with_lock_same.
Qed.

Lemma wp_swap {A} p (k : ptr -> io A) Q w :
  e_lock w <> Unlocked -> wp sys (k (e_pcb w)) Q (with_pcb p w) -> wp sys (Call (CRt (pcb_swap Obj_PutRequest p)) k) Q w.
Proof.
  intros Hl Hk. apply wp_held; [done|by split|]. intros q w' (_ & _ & l & w1 & [= <-] & (-> & ->) & ->).
  change (e_lock w) with (e_lock (with_pcb p w)). by rewrite with_lock_same.
Qed.

(** Giving the lock back: from the closure of [async_lwip], and as a mutex. *)
Lemma wp_release {A X} (c : call X) (k : X -> io A) Q w :
  match c with CRt callback_signal_wait => e_lock w = OnThread | CLwip sys_mutex_unlock => e_lock w = Locked | _ => False end ->
  (forall x, wp sys (k x) Q (with_lock Unlocked w)) -> wp sys (Call c k) Q w.
Proof.
  intros Hc Hk. apply wp_held.
  - destruct c as [X []| | | | |X []]; try done; congruence.
  - destruct c as [X []| | | | |X []]; try done; (split; [|done]); cbn; by rewrite Hc.
  - intros x w' (_ & _ & l & w1 & Hl & Ha & ->).
    destruct c as [X []| | | | |X []]; try done; cbn in Hl, Ha; rewrite Hc in Hl; injection Hl as <-.
    + destruct Ha as [_ ->]. by destruct w.
    + subst w1. apply Hk.
Qed.

(** ** The task *)

Lemma packed_stable : stable sys (eq (packed this0)).
Proof. intros w w' He <-. by destruct (courier_thread_keeps _ _ He) as (_ & Hc & _). Qed.

Lemma wp_resulted {A} (r : result unit err_t) (k : io A) w : resulted r w -> triple sys (resulted r) (Ret r) resulted.
Proof. intros _. apply triple_ret, resulted_stable. Qed.

(** The states on the way through [send], when it holds no lock: before [tcp_new] gave a pcb, and after [tcp_connect]. *)
Lemma packed_inv : courier_inv Unlocked (packed this0).
Proof.
  split; [done|]. split; [|split; [by left|by left]]. split; [|by left|done|done].
  exists []. split_and!; try done; by split.
Qed.

Definition called (e : err_t) (p : ptr) : errand :=
  mkErrand Unlocked (mkPeer true true (Some e) false) this0 p None [] [] [].

Lemma called_inv e p : (if decide (e = err_t.Ok) then p = pcb0 else p = null) -> courier_inv Unlocked (called e p).
Proof.
  intros Hp. split; [done|]. split; [split; [|by left|done|]|split].
  - exists []. split_and!; try done; by split.
  - intros Hn. cbn in *. case_decide; [by subst|done].
  - intros Hn. cbn in *. case_decide; [by subst|]. right. right. congruence.
  - unfold kept. cbn. case_decide; [by left|by right].
Qed.

Lemma wait_resulted :
  triple sys (courier_inv Unlocked)
    (err ← rt put_wait; if decide (err <> err_t.Ok) then Ret (Err err) else Ret (Ok tt)) resulted.
Proof.
  apply triple_call; [apply courier_inv_stable|intros w _; by split|].
  intros w e w' (Hl & Hok & Hgo & Hk) (_ & _ & l & w1 & [= <-] & (Hs & ->) & ->).
  assert (courier_inv Unlocked (with_lock (e_lock w) (with_signal None w))) as Hi.
  { split; [done|]. split; [|by split]. destruct Hok as [H1 H2 H3 H4]. split; done. }
  destruct (decide (e = err_t.Ok)) as [->|He].
  - rewrite decide_False by auto. apply (triple_ret sys (Ok tt) resulted); [apply resulted_stable|]. split; [done|].
    intros _. by apply Hok.
  - rewrite decide_True by done. apply (triple_ret sys (Err e) resulted); [apply resulted_stable|]. by split.
Qed.

Lemma send_resulted : triple sys (eq (packed this0)) (put_send this0) resulted.
Proof.
  apply triple_call; [apply packed_stable|intros w <-; by split|].
  intros w err w' <- (_ & _ & l & w1 & Hl & (_ & ->) & ->). cbn in Hl. injection Hl as <-.
  destruct (decide (err = err_t.Ok)) as [->|He].
  2: { rewrite decide_True by done. apply (triple_ret sys _ resulted); [apply resulted_stable|]. split; [apply packed_inv|done]. }
  rewrite decide_False by auto.
  apply wp_held; [done|by split|]. intros p w' (_ & _ & l & w1 & [= <-] & ([-> | ->] & ->) & ->).
  - rewrite decide_True by done. apply wp_release; [done|]. intros _.
    apply (triple_ret sys _ resulted); [apply resulted_stable|]. split; [|done]. cbn. apply packed_inv.
  - cbn [peer_step]. rewrite !(decide_False (P := pcb0 = null)) by done.
    do 4 (apply wp_pcb; [done|done|done|intros []]). apply wp_pcb; [done|done|done|intros err].
    destruct (decide (err = err_t.Ok)) as [->|He].
    + apply wp_store; [done|]. apply wp_release; [done|]. intros _.
      refine (wait_resulted (called err_t.Ok pcb0) _). apply called_inv. by rewrite decide_True.
    + apply wp_release; [done|]. intros _. apply (triple_ret sys (Err err) resulted); [apply resulted_stable|].
      split; [|done]. refine (called_inv err null _). by rewrite decide_False.
Qed.

Lemma close_carried (f : File ReadBytes) r : triple sys (carried r) (drop_file f;; Ret r) carried.
Proof.
  apply triple_call; [apply carried_stable|intros w _; by split|].
  intros w x w' Hw (_ & _ & l & w1 & [= <-] & -> & ->). rewrite with_lock_same.
  by apply (triple_ret sys r carried); [apply carried_stable|].
Qed.

(** What the drop leaves when there was no pcb, and when it took the arguments off the pcb and closed it. *)
Lemma dropped_null r w :
  resulted r w -> e_pcb w = null -> carried r (with_lock Unlocked (with_pcb null (with_lock Locked w))).
Proof.
  intros Hw E. assert (with_lock Unlocked (with_pcb null (with_lock Locked w)) = w) as ->; [|done].
  destruct w, Hw as [[Hl _] _]. cbn in *. by subst.
Qed.

Lemma dropped_closed r w alive :
  resulted r w -> e_pcb w <> null ->
  carried r (with_lock Unlocked (with_peer (mkPeer alive false (q_connect (e_peer w)) (q_up (e_peer w))) (with_pcb null w))).
Proof.
  intros [(Hl & [H1 H2 H3 H4] & Hgo & Hk) Ha] Hn. destruct (H4 Hn) as (_ & Hal & _ & Hc).
  split; [|done]. split; [|done]. split; [done|]. split; [split; [done| |done|done]|split].
  2: { intros _. right. by left. }
  2: { unfold kept. cbn. rewrite Hc. by left. }
  cbn. destruct H2 as [[-> _]|[(rest & -> & Hr & Hu)|(err & -> & Hd)]]; [left; by split|right; left; by exists rest|congruence].
Qed.

(** Dropping the request takes the pcb from it, and the request from the pcb. *)
Lemma drop_carried r : triple sys (resulted r) (drop_put this0;; Ret r) carried.
Proof.
  apply triple_call; [apply resulted_stable|intros w _; by split|].
  intros w b w' Hw (Hb & _ & l & w1 & [= <-] & (_ & ->) & ->). cbn in Hb. rewrite (proj1 (proj1 Hw)) in Hb. cbn in Hb. subst b.
  match goal with |- wp _ _ _ ?w' => assert (w' = w) as -> by by destruct w end.
  revert w Hw. apply triple_call; [apply resulted_stable|intros w [[Hl _] _]; split; [intros x; cbn; by rewrite Hl|done]|].
  intros w u w' Hw (_ & _ & l & w1 & Hl & (_ & ->) & ->). cbn in Hl. rewrite (proj1 (proj1 Hw)) in Hl. injection Hl as <-.
  match goal with |- wp _ _ _ ?w' => assert (w' = with_lock Locked w) as -> by by destruct w end.
  apply wp_swap; [done|]. cbn [e_pcb with_lock]. destruct (decide (e_pcb w = null)) as [E|E].
  - rewrite decide_False by auto. apply wp_release; [done|]. intros _. apply close_carried. by apply dropped_null.
  - rewrite decide_True by done. pose proof Hw as [(_ & [_ _ _ Hp] & _) _]. destruct (Hp E) as (Ep & Ha & _). rewrite Ep.
    do 3 (apply wp_pcb; [done|done|done|intros []]). apply wp_pcb; [done|done|done|intros err].
    apply wp_release; [done|]. intros _. apply close_carried. cbn. case_decide; [by refine (dropped_closed r w false _ _)|by refine (dropped_closed r w (q_alive (e_peer w)) _ _)].
Qed.

Lemma carry_carried : triple sys (eq (packed this0)) (carry this0) carried.
Proof. eapply triple_bind; [apply send_resulted|apply drop_carried]. Qed.
End invariant.
