(* ===== verification/Journey.v ===== *)
(** * A whole transfer next to lwIP's thread

    The invariant of [Courier.v] applied to [carry], the task's part of [put_file], and a scheduler that
    computes one interleaving. *)

From stdpp Require Import relations.
From S2P Require Import Prelude Prog Text Net Vendor VendorRef Data Ffi Env Lwip Pbuf Tcp Udp Fs Http Rng.
From S2P Require Import Messages Observe Put Deliver Rely Conn Courier.

(** ** A whole transfer *)

Section transfer.
Context `{V : Vendor} {L : VendorLaws V} (pcb0 : ptr).

(** C27. While a file is sent, lwIP's thread may call back at any point where the lock is free.  In every interleaving the task
    and its drop call lwIP only with the lock and on the pcb while it lives, and when the request is dropped, lwIP keeps a
    pcb that points to it exactly if [tcp_connect] was refused: that pcb is then never closed. *)
Theorem transfer_safe this tr s :
  pcb0 <> null -> concs (courier pcb0) (carry this, packed this) tr s ->
  ~ misuse (courier pcb0) s /\
  (forall r, s.1 = Ret r -> e_lock s.2 = Unlocked /\ e_pcb s.2 = null /\
     (q_alive (e_peer s.2) = true /\ q_arg (e_peer s.2) = true <->
      exists e, q_connect (e_peer s.2) = Some e /\ e <> err_t.Ok)).
Proof.
  intros Hp Hs. eapply wp_adequate in Hs as [Hm Hq]; [|by apply (carry_carried pcb0 Hp this)]. split; [done|].
  intros r E. destruct (Hq r E) as [[(Hl & _ & Hgo & Hk) _] En]. split_and!; [done|done|]. unfold let_go, kept in *.
  specialize (Hgo En). destruct (q_connect (e_peer s.2)) as [e|].
  - destruct Hk as [->|(_ & Ha & Hg)].
    + split; [intros [? ?]; by destruct Hgo as [?|[?|?]]; congruence|]. intros (e & [= <-] & ?). done.
    + split; [|done]. intros _. exists e. split; [done|]. destruct Hgo as [?|[?|?]]; congruence.
  - split; [intros [? ?]; destruct Hk; congruence|]. by intros (e & ? & _).
Qed.

(** C28. What the task learns: whatever the interleaving, the bytes that lwIP took are, in order and without a gap, the beginning
    of the request head followed by what was read from the file, and the task reports success only if the other
    side answered with some data. *)
Theorem transfer_reports this tr r w :
  pcb0 <> null -> fits 32 (put_fsize this) -> put_buf this = [] ->
  concs (courier pcb0) (carry this, packed this) tr (Ret r, w) ->
  e_sent w `prefix_of` put_header (put_guid this) (put_fsize this) ++ e_read w /\
  (r = Ok tt -> answered (e_events w)).
Proof.
  intros Hp Hn Hb Hs. destruct (wp_adequate _ _ _ _ _ _ (carry_carried pcb0 Hp this _ eq_refl) Hs) as [_ Hq].
  destruct (Hq r eq_refl) as [[(_ & [(ltr & Hl & Hok & Er & Es) Ho _ _] & _) Ha] _].
  cbn [snd] in *. rewrite Er, Es. split; [|done].
  destruct Ho as [[E _]|[(rest & E & Hrest & _)|(err & E & _)]]; rewrite E in Hl.
  - destruct Hl as [-> _]. apply prefix_nil.
  - destruct (put_run_stream this pcb0 rest ltr _ Hn Hb Hrest Hok Hl) as [-> _]. by eexists.
  - cbn [put_run put_step] in Hl. unfold put_err in Hl. cbn [negb] in Hl. exec_steps Hl. apply prefix_nil.
Qed.
End transfer.

(** ** One interleaving, computed *)

Section travel.
Context `{V : Vendor} {T : Type} (h : handler call T) (pcb0 : ptr).

#[export] Instance may_call_dec q e : Decision (may_call pcb0 q e).
Proof. unfold may_call. destruct e; apply _. Defined.

(** The answer and the effect of a call, [d] where the world does not decide. *)
Definition lwip_answer {X} (c : lwip_call X) (w : errand) : X -> X :=
  match c in lwip_call X return X -> X with
  | derusting_holds_tcpip_core_lock => fun _ => bool_decide (e_lock w <> Unlocked)
  | tcp_new => fun _ => pcb0
  | _ => fun d => d
  end.

Definition rt_answer {X} (c : rt_call X) (w : errand) : X -> X * errand :=
  match c in rt_call X return X -> X * errand with
  | pcb_store Obj_PutRequest p => fun d => (d, with_pcb p w)
  | pcb_swap Obj_PutRequest p => fun _ => (e_pcb w, with_pcb p w)
  | pcb_load Obj_PutRequest => fun _ => (e_pcb w, w)
  | put_signal e => fun d => (d, with_signal (Some e) w)
  | put_wait => fun d => (default d (e_signal w), with_signal None w)
  | _ => fun d => (d, w)
  end.

Definition answer {X} (c : call X) (w : errand) : X -> X * errand :=
  match c in call X return X -> X * errand with
  | CLwip c => fun d => let x := lwip_answer c w d in (x, with_peer (peer_step c (e_peer w) x) w)
  | CRt c => rt_answer c w
  | _ => fun d => (d, w)
  end.

(** Whether the call can take place with that answer. *)
Definition sound {X} (c : call X) (w : errand) : X -> bool :=
  match c in call X return X -> bool with
  | CLwip c =>
      match c in lwip_call X return X -> bool with derusting_tcp_sndbuf _ => fun n => 0 <=? n | _ => fun _ => true end
  | CFs c => match c in fs_call X return X -> bool with fread n _ => fun b => len b <=? n | _ => fun _ => true end
  | CRt c => match c with put_wait => fun _ => bool_decide (e_signal w <> None) | _ => fun _ => true end
  | _ => fun _ => true
  end.

Lemma answer_step {X} (c : call X) w d l :
  sound c w (answer c w d).1 = true -> lock_event (e_lock w) (Ev c (answer c w d).1) = Some l ->
  courier_step pcb0 c w (answer c w d).1 (with_lock l (answer c w d).2).
Proof.
  intros Hs Hl. split; [|split].
  - destruct c as [X c|X c|X c|X c|X c|X c]; try done. by destruct c.
  - destruct c as [X c|X c|X c|X c|X c|X c]; try done; destruct c; try done; cbn in *; lia.
  - eexists l, _. split; [done|]. split; [|done]. destruct c as [X c|X c|X c|X c|X c|X c]; try done.
    + cbn. split; [|done]. destruct c; try done. by right.
    + destruct c as [o|o p|o p| | | | | | | | | | | | | | | | | | | | | | | | | | | |]; try (destruct o); try done.
      cbn in *. apply bool_decide_eq_true in Hs. by destruct (e_signal w).
Qed.

(** One call. *)
Definition call_once {X} (c : call X) (w : errand) (t : T) : option (X * errand * T) :=
  let '(d, t) := h _ c t in
  let '(x, w1) := answer c w d in
  if sound c w x then
    match lock_event (e_lock w) (Ev c x) with Some l => Some (x, with_lock l w1, t) | None => None end
  else None.

Lemma call_once_step {X} (c : call X) w t x w' t' : call_once c w t = Some (x, w', t') -> courier_step pcb0 c w x w'.
Proof.
  unfold call_once. destruct (h X c t) as [d t1]. pose proof (answer_step c w d) as Hs. destruct (answer c w d) as [y w1].
  cbn [fst snd] in Hs. destruct (sound c w y); [|done]. destruct (lock_event (e_lock w) (Ev c y)) as [l|]; [|done].
  intros [= <- <- <-]. by apply Hs.
Qed.

(** A callback. *)
Fixpoint play {A} (p : io A) (w : errand) (t : T) : option (trace * A * errand * T) :=
  match p with
  | Ret a => Some ([], a, w, t)
  | Panic | Fuel => None
  | Call c k =>
      match call_once c w t with
      | Some (x, w, t) =>
          match play (k x) w t with Some (tr, a, w, t) => Some (Ev c x :: tr, a, w, t) | None => None end
      | None => None
      end
  end.

Lemma play_plays {A} (p : io A) w t tr a w' t' : play p w t = Some (tr, a, w', t') -> plays pcb0 p w tr a w'.
Proof.
  revert w t tr. induction p as [b| | |X c k IH]; intros w t tr H; cbn [play] in H; [by injection H as <- <- <- <-|done|done|].
  destruct (call_once c w t) as [[[x w1] t1]|] eqn:Ec; [|done].
  destruct (play (k x) w1 t1) as [[[[tr1 a1] w2] t2]|] eqn:Ep; [|done]. injection H as <- <- <- <-.
  exists x, w1, tr1. split; [done|]. split; [by eapply call_once_step|by eapply IH].
Qed.

(** lwIP's thread makes a callback if it may. *)
Definition fire (e : put_event) (w : errand) (t : T) : option (errand * T) :=
  if bool_decide (e_lock w = Unlocked /\ may_call pcb0 (e_peer w) e) then
    match play (put_step (e_this w) e) (with_lock OnThread (with_peer (peer_after e (e_peer w)) w)) t with
    | Some (tr, this, w', t) => Some (with_lock Unlocked (if event_arg e then recorded e tr this w' else w'), t)
    | None => None
    end
  else None.

Lemma fire_thread e w t w' t' : fire e w t = Some (w', t') -> courier_thread pcb0 w w'.
Proof.
  unfold fire. case_bool_decide as Hm; [|done]. destruct Hm as [Hl Hm].
  destruct (play _ _ t) as [[[[tr this] w1] t1]|] eqn:Ep; [|done]. intros [= <- <-].
  apply thread_calls; [done|done|]. by eapply play_plays.
Qed.

(** The callbacks of the script, until the signal is raised. *)
Fixpoint callbacks (script : list put_event) (w : errand) (t : T) : option (errand * T) :=
  match e_signal w, script with
  | None, e :: script => match fire e w t with Some (w, t) => callbacks script w t | None => None end
  | _, _ => Some (w, t)
  end.

Lemma callbacks_env script w t w' t' : callbacks script w t = Some (w', t') -> rtc (courier_thread pcb0) w w'.
Proof.
  revert w t. induction script as [|e script IH]; intros w t H; cbn in H; [destruct (e_signal w); by simplify_eq|].
  destruct (e_signal w); [by simplify_eq|]. destruct (fire e w t) as [[w1 t1]|] eqn:Ef; [|done].
  eapply rtc_l; [by eapply fire_thread|by eapply IH].
Qed.

Definition waits_here {X} (c : call X) : bool := match c with CRt put_wait => true | _ => false end.

Fixpoint travel {A} (p : io A) (w : errand) (t : T) (script : list put_event) : option (trace * A * errand) :=
  match p with
  | Ret a => Some ([], a, w)
  | Panic | Fuel => None
  | Call c k =>
      match (if waits_here c then callbacks script w t else Some (w, t)) with
      | Some (w, t) =>
          match call_once c w t with
          | Some (x, w, t) =>
              match travel (k x) w t script with Some (tr, a, w) => Some (Ev c x :: tr, a, w) | None => None end
          | None => None
          end
      | None => None
      end
  end.

Lemma travel_concs {A} (p : io A) w t script tr a w' :
  travel p w t script = Some (tr, a, w') -> concs (courier pcb0) (p, w) tr (Ret a, w').
Proof.
  revert w t tr. induction p as [b| | |X c k IH]; intros w t tr H; cbn [travel] in H; [injection H as <- <- <-; constructor|done|done|].
  destruct (if waits_here c then callbacks script w t else Some (w, t)) as [[w1 t1]|] eqn:Ew; [|done].
  assert (rtc (courier_thread pcb0) w w1) as He.
  { destruct (waits_here c); [by eapply callbacks_env|by simplify_eq]. }
  destruct (call_once c w1 t1) as [[[x w2] t2]|] eqn:Ec; [|done].
  destruct (travel (k x) w2 t2 script) as [[[tr1 a1] w3]|] eqn:Et; [|done]. injection H as <- <- <-. clear Ew.
  induction He as [w|w wm wn He _ IHe]; [|eapply (concs_cons _ _ []); [by apply conc_env|by apply IHe]].
  change (Ev c x :: tr1) with ([Ev c x] ++ tr1). eapply concs_cons; [apply conc_call; by eapply call_once_step|by eapply IH].
Qed.

Definition arrived {A} (d : A) (w : errand) (o : option (trace * A * errand)) : trace * A * errand := default ([], d, w) o.

Definition has_arrived {A} (o : option (trace * A * errand)) : bool := match o with Some _ => true | None => false end.

Lemma arrived_concs {A} (p : io A) d w t script :
  has_arrived (travel p w t script) = true ->
  let r := arrived d w (travel p w t script) in concs (courier pcb0) (p, w) r.1.1 (Ret r.1.2, r.2).
Proof. destruct (travel p w t script) as [[[tr a] w']|] eqn:E; [|done]. intros _. by eapply travel_concs. Qed.
End travel.

(** The connection comes up, two acknowledgements and the response. *)
Definition demo_calls : list put_event :=
  demo_callbacks ++ [On_recv true 5 (demo_chain 1 [lit "HTTP/1.1 200 OK"]) err_t.Ok].

Definition demo_journey : trace * result unit err_t * errand :=
  arrived (Err err_t.Val) (packed demo_put) (travel demo_h 5 (carry demo_put) (packed demo_put) demo_sender demo_calls).

Lemma demo_journey_runs :
  concs (courier 5) (carry demo_put, packed demo_put) demo_journey.1.1 (Ret demo_journey.1.2, demo_journey.2).
Proof. unfold demo_journey. apply arrived_concs. vm_compute. reflexivity. Qed.

Lemma transfer_safe_witness :
  let s : io (result unit err_t) * errand := (Ret demo_journey.1.2, demo_journey.2) in
  ~ misuse (courier 5) s /\
  (forall r, s.1 = Ret r -> e_lock s.2 = Unlocked /\ e_pcb s.2 = null /\
     (q_alive (e_peer s.2) = true /\ q_arg (e_peer s.2) = true <->
      exists e, q_connect (e_peer s.2) = Some e /\ e <> err_t.Ok)).
Proof.
  exact (transfer_safe 5 demo_put demo_journey.1.1 (Ret demo_journey.1.2, demo_journey.2) ltac:(discriminate) demo_journey_runs).
Defined.

Lemma transfer_reports_witness :
  demo_journey.1.2 = Ok tt /\ e_sent demo_journey.2 = put_header (demo_id 3) 3 ++ lit "abc" /\
  answered (e_events demo_journey.2).
Proof.
  assert (demo_journey.1.2 = Ok tt) as E by (vm_compute; reflexivity).
  split; [exact E|]. split; [vm_compute; reflexivity|].
  refine (proj2 (transfer_reports (L := ref_vendor_laws) 5 demo_put demo_journey.1.1 demo_journey.1.2 demo_journey.2
    ltac:(discriminate) _ eq_refl demo_journey_runs) E).
  by_eval.
Defined.

(** The environment of the other examples, without a route to the other machine. *)
Definition unrouted_h : handler (call (V := ref_vendor)) demo :=
  fun X c s =>
    match c in call X return demo -> X * demo with
    | CLwip c =>
        match c in lwip_call X return demo -> X * demo with
        | tcp_connect _ _ _ _ => fun s => (err_t.Rte, s)
        | c => fun s => demo_h _ (CLwip c) s
        end
    | c => fun s => demo_h _ c s
    end s.

(** The transfer fails, and the pcb stays behind with the dropped request as its argument. *)
Lemma unrouted_leaks :
  exists tr w, concs (courier 5) (carry demo_put, packed demo_put) tr (Ret (Err err_t.Rte), w) /\
    q_alive (e_peer w) = true /\ q_arg (e_peer w) = true.
Proof.
  set (r := arrived (Err err_t.Val) (packed demo_put) (travel unrouted_h 5 (carry demo_put) (packed demo_put) demo_sender [])).
  exists r.1.1, r.2. split; [|split; vm_compute; reflexivity].
  assert (Err err_t.Rte = r.1.2) as -> by (vm_compute; reflexivity). apply arrived_concs. vm_compute. reflexivity.
Qed.
