(* ===== verification/Starved.v ===== *)
(** * A transfer that lwIP has no memory for

    [put_completes] of [Deliver.v] needs acknowledgements to go on.  Here is what happens when the first
    piece of the request is refused for want of memory and the other side says nothing: over all
    interleavings of the task with lwIP's thread, it waits for ever. *)

From stdpp Require Import relations.
From S2P Require Import Prelude Prog Text Net Vendor VendorRef Data Ffi Env Lwip Pbuf Tcp Udp Fs Http Rng.
From S2P Require Import Messages Observe Put Deliver Rely Conn Courier Journey.

Section starved.
Context `{V : Vendor} {L : VendorLaws V} (pcb0 : ptr) (this0 : PutRequest).

(** What lwIP's thread may do here: report the connection, in which every [tcp_write] is refused with ERR_MEM,
    and report data as sent, which lwIP does only for data it took.  Nothing comes from the other side and the
    connection does not fail. *)
Definition starving (e : put_event) (w : errand) (tr : trace) : Prop :=
  match e with
  | On_connected _ _ _ => Forall (eq err_t.Mem) (collect write_seen tr)
  | On_sent _ _ _ => e_sent w <> []
  | On_recv _ _ _ _ | On_err _ _ => False
  end.

Inductive starved_thread (w : errand) : errand -> Prop :=
  | starved_calls e tr this w' :
      e_lock w = Unlocked -> may_call pcb0 (e_peer w) e -> starving e w tr ->
      plays pcb0 (put_step (e_this w) e) (with_lock OnThread (with_peer (peer_after e (e_peer w)) w)) tr this w' ->
      starved_thread w (with_lock Unlocked (if event_arg e then recorded e tr this w' else w')).

Lemma starved_courier w w' : starved_thread w w' -> courier_thread pcb0 w w'.
Proof. intros [e tr this w1 Hl Hm _ Hp]. by apply thread_calls. Qed.

(** Nothing went out and nothing was signalled. *)
Definition nothing (w : errand) : Prop := e_sent w = [] /\ e_signal w = None.

#[export] Instance nothing_dec w : Decision (nothing w).
Proof. unfold nothing. apply _. Defined.

(** The task and that thread; a call is allowed while nothing happened. *)
Definition starved : shared call errand :=
  mkShared call errand starved_thread (fun _ _ => nothing) (@courier_step V pcb0).

(** ** Until the connection is accepted *)

Definition idle (l : lock) (w : errand) : Prop :=
  e_lock w = l /\ nothing w /\ e_pcb w = null /\ e_events w = [] /\ e_this w = this0 /\
  q_up (e_peer w) = false /\ q_connect (e_peer w) <> Some err_t.Ok.

Lemma idle_stable l : stable starved (idle l).
Proof. intros w w' [e tr this w1 Hl (_ & Hc & _) _ _] (_ & _ & _ & _ & _ & _ & Hn). congruence. Qed.

(** Calls that touch neither the request's fields nor ask for the connection. *)
Definition plain {X} (c : call X) : bool :=
  match c with
  | CLwip (tcp_connect _ _ _ _) => false
  | CRt (pcb_store _ _) | CRt (pcb_swap _ _) | CRt (put_signal _) | CRt put_wait => false
  | _ => true
  end.

Lemma idle_call {A X} l (c : call X) (k : X -> io A) Q :
  plain c = true -> (forall x l', lock_event l (Ev c x) = Some l' -> triple starved (idle l') (k x) Q) ->
  triple starved (idle l) (Call c k) Q.
Proof.
  intros Hc Hk. apply triple_call; [apply idle_stable|by intros w (_ & Hn & _)|].
  intros w x w' (<- & Hn & Hp & He & Ht & Hu & Hq) (_ & _ & l' & w1 & Hl & Ha & ->). apply (Hk x l'); [done|].
  destruct c as [X c|X c|X c|X c|X c|X c]; cbn in Ha; [| |by subst..|].
  - destruct Ha as [_ ->]. destruct c; try discriminate; try done; cbn; by case_decide.
  - by subst.
  - destruct c as [o|o p|o p| | | | | | | | | | | | | | | | | | | | | | | | | | | |]; try discriminate;
      try (destruct o); destruct_and?; by subst.
Qed.

Lemma idle_ret {A} (a : A) : triple starved (idle Unlocked) (Ret a) (fun _ => idle Unlocked).
Proof. apply (triple_ret starved a (fun _ => idle Unlocked)), idle_stable. Qed.

(** ** Afterwards *)

(** The connection may have come up, but no more. *)
Definition waiting (w : errand) : Prop :=
  nothing w /\ (e_events w = [] -> e_this w = this0) /\ (e_events w <> [] -> q_up (e_peer w) = true).

Context (Hsize : fits 32 (put_fsize this0)) (Hbuf : put_buf this0 = []).

Lemma waiting_stable : stable starved waiting.
Proof.
  intros w w' [e tr this w1 Hl Hm Hs Hp] ([Hsent Hsig] & Hfresh & Hup).
  destruct (plays_exec _ _ _ _ _ _ Hp) as [He _]. pose proof (callback_moves _ _ _ _ He) as Hmv.
  destruct (plays_facts _ _ _ _ _ _ Hp Hmv) as (F1 & _ & F3 & F4 & F5 & _ & F7). cbn in F1, F3, F4, F5, F7.
  destruct e as [a p err|a p n| |]; cbn in Hs; [|by destruct Hs|done|done].
  destruct Hm as (_ & _ & _ & -> & -> & Hu). destruct a; cbn [event_arg].
  - destruct (decide (e_events w = [])) as [E|E]; [|specialize (Hup E); congruence].
    cbn [put_step] in He. bind_step He as [t e] H1. destruct He as [-> _]. rewrite app_nil_r in *.
    rewrite (Hfresh E) in H1. apply put_connected_refused in H1 as (_ & Ht & Hg); [|done|done|done].
    rewrite Hg in F3. split; [split|split]; cbn; [by rewrite F7, Ht, app_nil_r|by rewrite F3| |by rewrite F1].
    rewrite F5, E. done.
  - apply null_callback in Hp as (-> & -> & ->); [|done]. split; [done|]. split; [done|]. done.
Qed.

Lemma wait_starves {A} (k : err_t -> io A) Q : triple starved waiting (Call (CRt put_wait) k) Q.
Proof.
  apply triple_call; [apply waiting_stable|by intros w [Hn _]|].
  intros w x w' ((_ & Hs) & _) (_ & _ & l & w1 & _ & (He & _) & _). cbn in He. congruence.
Qed.

(** The rest of the closure, which holds the lock, and the wait. *)
Definition linked (w : errand) : Prop := e_lock w = OnThread /\ waiting w.

Lemma linked_stable : stable starved linked.
Proof. intros w w' [e tr this w1 Hl _ _ _] [Hl' _]. congruence. Qed.

Lemma linked_store {A} p (k : err_t -> io A) Q :
  triple starved linked
    (rt (pcb_store Obj_PutRequest p);; rt callback_signal_wait;; Call (CRt put_wait) k) Q.
Proof.
  apply triple_call; [apply linked_stable|by intros w [_ [Hn _]]|].
  intros w u w' [Hl Hw] (_ & _ & l & w1 & [= <-] & -> & ->).
  apply (triple_call starved linked); [apply linked_stable|by intros w2 [_ [Hn _]]| |done].
  intros w2 u' w' [Hl2 Hw2] (_ & _ & l & w3 & Hl3 & -> & ->). by apply wait_starves.
Qed.

Lemma send_starves : triple starved (idle Unlocked) (put_send this0) (fun _ => idle Unlocked).
Proof.
  apply idle_call; [done|]. intros e l Hl. cbn in Hl.
  destruct (decide (e = err_t.Ok)) as [->|He]; injection Hl as <-.
  2: { rewrite decide_True by done. apply idle_ret. }
  rewrite decide_False by auto.
  apply (idle_call OnThread (CLwip tcp_new)); [done|]. intros p l [= <-]. destruct (decide (p = null)).
  { apply (idle_call OnThread (CRt callback_signal_wait)); [done|].
    intros u l [= <-]. apply idle_ret. }
  do 4 (apply (idle_call OnThread (CLwip _)); [done|]; intros u l [= <-]; clear u).
  apply triple_call; [apply idle_stable|by intros w (_ & Hn & _)|].
  intros w err w' (Hl & Hn & Hp & He & Ht & Hu & Hq) (_ & _ & l & w1 & Hl' & (_ & ->) & ->).
  rewrite Hl in Hl'. injection Hl' as <-. destruct (decide (err = err_t.Ok)) as [->|Herr]; last first.
  { refine (idle_call OnThread (CRt callback_signal_wait) _ _ _ _ _ _); [done| |].
    - intros u l [= <-]. apply idle_ret.
    - split_and!; try done. cbn. congruence. }
  apply (linked_store p). done.
Qed.

(** Without a pcb the drop only closes the file. *)
Lemma swap_starves {A} l (k : ptr -> io A) Q :
  triple starved (idle l) (k null) Q -> triple starved (idle l) (Call (CRt (pcb_swap Obj_PutRequest null)) k) Q.
Proof.
  intros Hk. apply triple_call; [apply idle_stable|by intros w (_ & Hn & _)|].
  intros w p w' (<- & Hn & Hp & Hw) (_ & _ & l' & w1 & [= <-] & (-> & ->) & ->). rewrite Hp. by apply Hk.
Qed.

Lemma drop_starves (r : result unit err_t) : triple starved (idle Unlocked) (drop_put this0;; Ret r) (fun _ => idle Unlocked).
Proof.
  assert (triple starved (idle Unlocked) (drop_file (put_fh this0);; Ret r : io (result unit err_t)) (fun _ => idle Unlocked)) as Hf.
  { apply (idle_call Unlocked (CFs _)); [done|]. intros x l [= <-]. apply idle_ret. }
  apply (idle_call Unlocked (CLwip derusting_holds_tcpip_core_lock)); [done|]. intros b l [= <-]. destruct b.
  - apply swap_starves. rewrite decide_False by auto. exact Hf.
  - apply (idle_call Unlocked (CLwip sys_mutex_lock)); [done|]. intros u l [= <-]. apply swap_starves. rewrite decide_False by auto.
    apply (idle_call Locked (CLwip sys_mutex_unlock)); [done|]. intros u' l [= <-]. exact Hf.
Qed.

Lemma carry_starves : triple starved (idle Unlocked) (carry this0) (fun _ => idle Unlocked).
Proof. eapply triple_bind; [apply send_starves|apply drop_starves]. Qed.

Lemma total_carry : total (carry this0).
Proof.
  unfold carry, put_send, drop_put, drop_file, async_lwip, blocking_lwip.
  repeat (apply total_bind || apply total_call || apply total_ret || case_match || intros ?).
Qed.

(** C34. What the sender relies on for its progress: when lwIP has no memory for the first piece of the request, the
    other side sends nothing and the connection does not fail, the task waits for ever.  In every interleaving
    in which lwIP's thread reports the connection once, refuses that piece with ERR_MEM, and reports as sent
    only data it took, nothing is ever handed over, the signal the task waits for is never raised (no poll
    callback and no timeout is set), and the task returns only if [tcp_connect] was not even accepted. *)
Theorem put_unsent_waits tr s :
  concs starved (carry this0, packed this0) tr s ->
  e_sent s.2 = [] /\ e_signal s.2 = None /\ (unfinished s.1 \/ q_connect (e_peer s.2) <> Some err_t.Ok).
Proof.
  intros Hs. assert (idle Unlocked (packed this0)) as Hi by done.
  destruct (wp_adequate _ _ _ _ _ _ (carry_starves _ Hi) Hs) as [Hm Hq]. destruct s as [[r| | |X c k] w].
  - destruct (Hq r eq_refl) as (_ & [H1 H2] & _ & _ & _ & _ & H3). split_and!; [done|done|by right].
  - destruct (total_carry _ _ (concs_exec _ _ _ _ [] _ Hs (conj eq_refl eq_refl))) as [r [=]].
  - destruct (total_carry _ _ (concs_exec _ _ _ _ [] _ Hs (conj eq_refl eq_refl))) as [r [=]].
  - assert (nothing w) as [H1 H2]; [|split_and!; [done|done|by left]].
    apply dec_stable. exact Hm.
Qed.
End starved.

(** ** One interleaving *)

Section demo.
Context `{V : Vendor} {T : Type} (h : handler call T) (pcb0 : ptr).

(** The calls of a program before it waits. *)
Fixpoint before_wait {A} (p : io A) : io unit :=
  match p with
  | Ret _ => Ret tt
  | Panic => Panic
  | Fuel => Fuel
  | Call c k => if waits_here c then Ret tt else Call c (fun x => before_wait (k x))
  end.

Lemma before_wait_concs {A} (p : io A) w tr w' :
  plays pcb0 (before_wait p) w tr tt w' -> exists p', concs (starved pcb0) (p, w) tr (p', w').
Proof.
  revert w tr. induction p as [a| | |X c k IH]; intros w tr H; cbn [before_wait] in H; [|done..|].
  - destruct H as (-> & _ & ->). exists (Ret a). constructor.
  - destruct (waits_here c); [destruct H as (-> & _ & ->); exists (Call c k); constructor|].
    destruct H as (x & w1 & tr' & -> & Hs & H). destruct (IH _ _ _ H) as [p' Hp]. exists p'.
    change (Ev c x :: tr') with ([Ev c x] ++ tr'). eapply concs_cons; [by apply conc_call|done].
Qed.

(** The task runs until it waits, then the connection is reported. *)
Definition up (this : PutRequest) (t : T) : option (trace * errand) :=
  match play h pcb0 (before_wait (carry this)) (packed this) t with
  | Some (tr, _, w, t) =>
      let e := On_connected true pcb0 err_t.Ok in
      match play h pcb0 (put_step (e_this w) e) (with_lock OnThread (with_peer (peer_after e (e_peer w)) w)) t with
      | Some (tr2, this, w2, _) =>
          if bool_decide (e_lock w = Unlocked /\ may_call pcb0 (e_peer w) e /\ Forall (eq err_t.Mem) (collect write_seen tr2))
          then Some (tr, with_lock Unlocked (recorded e tr2 this w2)) else None
      | None => None
      end
  | None => None
  end.

Lemma up_concs this t tr w :
  up this t = Some (tr, w) -> exists p, concs (starved pcb0) (carry this, packed this) tr (p, w).
Proof.
  unfold up. destruct (play _ _ (before_wait _) _ _) as [[[[tr1 []] w1] t1]|] eqn:E1; [|done].
  destruct (play _ _ (put_step _ _) _ _) as [[[[tr2 this2] w2] t2]|] eqn:E2; [|done].
  case_bool_decide as Hb; [|done]. destruct Hb as (Hl & Hm & Hf). intros [= <- <-].
  apply play_plays, before_wait_concs in E1 as [p Hp]. exists p. rewrite <- (app_nil_r tr1).
  eapply concs_app; [exact Hp|]. eapply (concs_cons _ _ []); [|apply concs_nil]. apply conc_env.
  apply (starved_calls pcb0 w1 (On_connected true pcb0 err_t.Ok) tr2 this2 w2); [done..|]. by eapply play_plays.
Qed.
End demo.

(** The environment of the other examples, but for a [tcp_write] without memory. *)
Definition short_h : handler (call (V := ref_vendor)) demo :=
  fun X c s =>
    match c in call X return demo -> X * demo with
    | CLwip c =>
        match c in lwip_call X return demo -> X * demo with
        | tcp_write p d f => fun s => (err_t.Mem, s)
        | c => fun s => demo_h _ (CLwip c) s
        end
    | c => fun s => demo_h _ c s
    end s.

Definition demo_starved : trace * errand := default ([], packed demo_put) (up short_h 5 demo_put demo_sender).

Lemma demo_starved_runs : exists p, concs (starved 5) (carry demo_put, packed demo_put) demo_starved.1 (p, demo_starved.2).
Proof.
  assert (match up short_h 5 demo_put demo_sender with Some _ => true | None => false end = true) as E by (vm_compute; reflexivity).
  unfold demo_starved. destruct (up short_h 5 demo_put demo_sender) as [[tr w]|] eqn:Eu; [|done].
  by apply (up_concs short_h 5 demo_put demo_sender).
Qed.

(** The connection is up, its callback ran, and the task waits. *)
Lemma put_unsent_waits_witness :
  exists p, concs (starved 5) (carry demo_put, packed demo_put) demo_starved.1 (p, demo_starved.2) /\
    e_events demo_starved.2 = [On_connected true 5 err_t.Ok] /\ e_sent demo_starved.2 = [] /\
    e_signal demo_starved.2 = None /\ unfinished p.
Proof.
  destruct demo_starved_runs as [p Hp]. exists p. split; [exact Hp|]. split; [vm_compute; reflexivity|].
  assert (forall tr w, concs (starved 5) (carry demo_put, packed demo_put) tr (p, w) ->
    e_sent w = [] /\ e_signal w = None /\ (unfinished p \/ q_connect (e_peer w) <> Some err_t.Ok)) as G.
  { intros tr w H. exact (put_unsent_waits (L := ref_vendor_laws) 5 demo_put ltac:(by_eval) eq_refl tr (p, w) H). }
  destruct (G _ _ Hp) as (H1 & H2 & H3). split; [exact H1|]. split; [exact H2|]. destruct H3 as [H3|H3]; [exact H3|].
  exfalso. apply H3. vm_compute. reflexivity.
Defined.
